(* ===== verification/_CoqProject ===== *)
-Q . S2P
Prelude.v
GoStrings.v
GoFloat.v
Rounding.v
GoParse.v
GoMath.v
GoFormat.v
GoValue.v
GoNet.v
Persist.v
Store.v
Clock.v
Event.v
Framing.v
Path.v
Model.v
Reflect.v
Reflected.v
Hydrate.v
Schema.v
Oid.v
Router.v
Rebuild.v
Snmp.v
Ops.v
Confirmed.v
Notif.v
Datatree.v
Edits.v
Read.v
Trees.v
GetConfig.v
Rendering.v
Session.v
Transport.v
Agent.v
Walk.v
Codec.v
Resource.v
Http.v
Restful.v
Represent.v
Gnmi.v
Telemetry.v
Snapshot.v
Entries.v
L2.v
Stp.v
Traffic.v
Bridge.v
Sync.v
Holdover.v
Radio.v
Links.v
Loops.v
Trap.v
Simulator.v
Commands.v
Domains.v
