(* ===== verification/Prelude.v ===== *)
(** * TriadSim: a verified model of a network device simulator

    TriadSim simulates one radio router.  A device model (Go structs with tags) is the
    schema; a store keeps three datastores of flat path/value leaves (running, candidate,
    startup); a router maps paths, SNMP objects and YANG nodes onto the leaves and rebuilds
    and validates the device; NETCONF, RESTCONF, gNMI and SNMP serve that device; three
    domains (layer 2, synchronisation, radio) simulate its behaviour, write its state leaves
    and publish events on a bus, which become traps, notifications and metrics.  This
    library models that program in Rocq, file by file, and proves what makes it correct.

    ** Conventions

    - An error is the chain of sentinels it wraps ([error], [res]); code that fails half way
      keeps its earlier writes ([ST], or a pair of result and state).  Message texts are not
      modelled.  Go strings are [string] (bytes), integers are [Z] with the wrap-around
      written out ([u32], [u64], [i64]), float64 is IEEE binary64 ([GoFloat], computed by
      the standard library's [SpecFloat]), maps are [gmap].
    - A context is a boolean (live or cancelled); time is a number of nanoseconds and is an
      argument, as are the outcomes of input and output ([io_fault], a failing send) and the
      draws of a generator.
    - A function under a mutex is one atomic step.  Where locks are released in between
      (confirmed commit, timers, notification queues, the SNMP cache) the model has a step
      per critical section and the theorems quantify over all interleavings.
    - Text formats read or written by the standard library are represented by what they
      denote: XML by tokens or documents, JSON by values, the startup file by a document
      value.  Messages of third-party packages (gosnmp, gnmi, yaml, prometheus) are records
      of the fields the code uses.  Code that is not in the repository is never defined
      here: it is an argument.

    ** The files

    Language and library: [Prelude] (errors, monads, shared lemmas and tactics), [GoStrings]
    (package strings), [GoFloat], [Rounding], [GoMath] (float64 arithmetic and package
    math), [GoParse], [GoFormat] (package strconv), [GoValue] (leaf values), [GoNet] (MAC and
    IP text).

    Store: [Persist] (internal/store/persist.go: leaf encoding and the atomic replacement of
    the startup file as a trace of file-system states), [Store] (memory.go, diff.go, store.go).
    [Clock] (internal/clock/fake.go), [Event] (internal/event).

    Device and router: [Path] (router/path.go), [Model] (internal/model: structs, rules,
    boot template), [Reflect], [Reflected] (router/reflect.go over typed codecs of the
    structs), [Hydrate], [Rebuild] (hydrate.go, validate.go), [Schema] (schema.go), [Oid]
    (oid.go), [Router] (router.go), [Snmp] (the memoized SNMP index), [Snapshot], [Entries]
    (what a snapshot says of leaves and of lists).

    Data tree: [Datatree], [Edits] (datatree/edit.go, values.go), [Read], [Trees] (read.go).

    NETCONF: [Framing] (framing.go), [Ops] (ops/xmltree.go, errors.go, parameters),
    [Confirmed] (ops/commit.go, confirmed_commit.go, discard.go), [GetConfig], [Rendering]
    (ops/getconfig.go, editconfig.go, document.go), [Notif] (notif/), [Session] (hello.go,
    rpc.go, session.go), [Transport] (ssh.go: connections, sessions and shutdown).

    SNMP: [Agent], [Walk] (snmp/agent.go, oid.go), [Trap] (trap.go).

    RESTCONF: [Codec], [Resource] (restconf/ops), [Http] (restconf/), [Restful],
    [Represent] (their properties).  gNMI: [Gnmi] (internal/gnmi), [Telemetry] (its
    properties).

    Domains: [L2], [Stp], [Traffic], [Bridge] (internal/l2), [Sync], [Holdover]
    (internal/sync), [Radio], [Links] (internal/radio), [Loops] (their Run loops).

    Process: [Simulator] (config, log, the boot of cli/start.go, metrics, the loop of the SNMP
    agent, the schema command), [Domains] (the three domains over
    one store and one bus behind the simulation endpoints, and the alarm command), [Commands]
    (dump, config validate, schema --yang and the embedded modules of yang/embed.go).

    ** What is proved

    - Store: commits are all or nothing, never revert a running change, and are what the
      next boot loads; every reachable store is well typed; the boot sequence serves a valid
      device whatever the disk holds.
    - Device: validation is equivalent to the declarative rules; paths and snapshots round
      trip; the schema announces every leaf; what is committed is valid.
    - Confirmed commit: an unconfirmed commit is undone, a confirmed one is not, and no
      commit stays pending without a timer, under all interleavings.
    - Editing and reading: an edit is atomic, confined to the named subtrees and refines its
      proposed snapshot; a read returns exactly the selected leaves.  On top of that, each
      protocol: get-config and gNMI Get are exact; SNMP SET, RESTCONF writes, gNMI Set and
      NETCONF operations apply completely or not at all; an SNMP walk is complete and
      terminates; entity-tags guard edits; XML representations decode to what was encoded;
      a NETCONF session answers every message once, in the negotiated framing.  The clients
      of the editor are proved against the class [EditsAtomically], which [new_router_edits]
      discharges; lemmas on a router use the class [BuiltRouter].
    - Events: the bus never panics; NETCONF notifications arrive in order and complete; a
      gNMI event notifies exactly the subscriptions it concerns; traps tell a receiver which
      links are down and whether the clock holds over.
    - Domains: frames are forwarded as the bridge tables say, storm control bounds what a
      port accepts, the clock's events are a legal run of its state machine and a holdover
      ends, the SyncE source is the best usable one, radio measurements stay in range and
      the alarms tell the state of every link.
    - The SNMP agent's loop counts exactly the authorised requests and answers them in order.
    - The NETCONF server: an unconfirmed commit does not outlive its session, session numbers
      are distinct, and once Close has run Serve returns by itself if every connection was
      tracked; one that was not holds it up ([late_connection_blocks]).
    - The loops: ticks keep their interval and a loop never stalls, but every message that is
      no tick leaves the synchronisation loop one more timer ([timers_add_up]).
    - The assembled process: a failed radio link takes the clock into holdover and only a
      restored link brings it back; an accepted radio simulation answers the state the
      alarms and traps tell; a history of the process projects to a history of each domain
      ([world_clock], [world_radio]), so that what holds of a domain holds in the process.
      Properties of the clock that an operation keeps are collected in the class [Kept].

    Where the code does something else than its comments say, an [Example] evaluates it
    (for instance [stale_callback_reverts], [put_edits_other_resource],
    [sync_trap_state_is_null], [stp_port_subscription_missed], [resubscription_reorders]).

    ** Fuel

    Fuel stands only for recursion that is not structural, and the theorems show it is
    enough: the length of the input for the chunk reader and the RPC loop
    ([readChunked_fuel], [loop_total]), the height of the schema for reading a tree
    ([read_tree]), the number of timers for [Advance], the number of objects for an SNMP
    walk.

    ** Not modelled

    Sockets, the start-up of the process, the SSH and gRPC protocols, HTTP routing (chi), packet and message codecs of third-party packages, the tokenizers of
    encoding/xml and encoding/json, YAML, logging output, Prometheus registries, the cobra
    wiring and the HTTP client of the command line, RealClock.  They are input and output
    or code outside the repository; the functions above take what they deliver as
    arguments. *)

From stdpp Require Export base decidable option list gmap strings sorting tactics numbers.
From stdpp Require Export pretty.
From Stdlib Require Export ZArith Lia Ascii.

(** ** Errors

    A Go error value is modelled by the chain of sentinels it wraps, outermost
    first: [fmt.Errorf("%w: ...", ErrX)] is [[ErrX]], [fmt.Errorf("ctx: %w", e)]
    keeps the chain of [e], and [errors.Is e ErrX] is membership.  An anonymous
    [errors.New] is an [Anon] sentinel carrying what the message identifies; the
    numbers interpolated in the message text are not modelled. *)

(** The error tags of [internal/datatree/errors.go] (RFC 6241 7.5.3). *)
Inductive errorTag : Set :=
  | TagMalformedMessage | TagTooBig | TagMissingAttribute | TagMissingElement | TagUnknownElement
  | TagInvalidValue | TagAccessDenied | TagDataExists | TagDataMissing | TagOperationNotSupported
  | TagOperationFailed.
Global Instance errorTag_eq_dec : EqDecision errorTag.
Proof. solve_decision. Defined.

Inductive sentinel : Set :=
  | CtxCanceled
  | StoreErrNotFound
  | StoreErrUnknownDatastore
  | StoreErrInvalidPath
  | StoreErrInvalidValue
  | StoreErrValidation
  | RouterErrInvalidPath
  | RouterErrNotFound
  | RouterErrReadOnly
  | RouterErrTypeMismatch
  | RouterErrBadValue
  | L2ErrVLANNotFound
  | L2ErrVLANExists
  | L2ErrMemberNotFound
  | L2ErrMACNotFound
  | L2ErrInvalidMAC
  | L2ErrTableFull
  | L2ErrPortUnknown
  | L2ErrSTPDisabled
  | L2ErrNeighborNotFound
  | L2ErrStormTooLarge
  | SyncErrUnknownEvent
  | SyncErrUnknownSource
  | RadioErrUnknownLink
  | NetconfErrMalformedFrame
  | NetconfErrMessageTooBig
  | IoEOF
  | IoUnexpectedEOF
  | OpError (tag : errorTag) (path : string) (validation : bool)  (* datatree.Error *)
  | Anon (what : string).

Global Instance sentinel_eq_dec : EqDecision sentinel.
Proof. solve_decision. Defined.

Abbreviation error := (list sentinel).

(** [errors.Is]. *)
Definition errors_is (e : error) (s : sentinel) : bool := bool_decide (s ∈ e).

(** ** The result of a fallible function and the state-and-error monad *)

Inductive res (A : Type) : Type :=
  | Ok (a : A)
  | Err (e : error).
Arguments Ok {A} a.
Arguments Err {A} e.

Global Instance res_eq_dec {A} `{EqDecision A} : EqDecision (res A).
Proof. solve_decision. Defined.

Global Instance res_ret : MRet res := λ A a, Ok a.
Global Instance res_bind : MBind res := λ A B f m,
  match m with Ok a => f a | Err e => Err e end.

Definition is_ok {A} (r : res A) : bool := match r with Ok _ => true | Err _ => false end.

(** [fmt.Errorf("ctx: %w", err)]: the chain gains a context. *)
Definition wrapf {A} (ctx : string) (r : res A) : res A :=
  match r with Ok a => Ok a | Err e => Err (Anon ctx :: e) end.

(** A guard with an early error return. *)
Definition check (b : bool) (e : error) : res unit := if b then Ok tt else Err e.

(** Stateful code that may fail: the state reached when the error is returned is
    kept, because a Go function that fails half way keeps its earlier writes. *)
Definition ST (S A : Type) : Type := S → res A * S.

Global Instance st_ret {S} : MRet (ST S) := λ A a s, (Ok a, s).
Global Instance st_bind {S} : MBind (ST S) := λ A B f m s,
  match m s with
  | (Ok a, s') => f a s'
  | (Err e, s') => (Err e, s')
  end.

Definition st_lift {S A} (r : res A) : ST S A := λ s, (r, s).
Definition st_get {S} : ST S S := λ s, (Ok s, s).
Definition st_put {S} (s : S) : ST S unit := λ _, (Ok tt, s).
Definition st_modify {S} (f : S → S) : ST S unit := λ s, (Ok tt, f s).
Definition st_fail {S A} (e : error) : ST S A := λ s, (Err e, s).
Definition st_wrap {S A} (ctx : string) (m : ST S A) : ST S A := λ s,
  match m s with (Err e, s') => (Err (Anon ctx :: e), s') | r => r end.

(** [errors.Join]. *)
Definition errors_join (l : list (res unit)) : res unit :=
  if forallb is_ok l then Ok tt
  else Err (concat (map (λ r, match r with Ok _ => [] | Err e => e end) l)).

(** A call whose error the caller inspects instead of returning it. *)
Definition st_try {S A} (m : ST S A) : ST S (res A) := λ s, let '(x, s) := m s in (Ok x, s).

(** A [for range] loop whose body may return an error. *)
Fixpoint st_for {S A} (l : list A) (body : A → ST S unit) : ST S unit :=
  match l with
  | [] => mret tt
  | a :: l => _ ← body a; st_for l body
  end.

Fixpoint res_for {A} (l : list A) (body : A → res unit) : res unit :=
  match l with
  | [] => Ok tt
  | a :: l => _ ← body a; res_for l body
  end.

(** The facts of a component that its proofs use everywhere. *)
Create HintDb go.

(** ** Generic lemmas *)

Lemma Forall2_perm_l {A B} (R : A → B → Prop) l l' k :
  Forall2 R l k → l ≡ₚ l' → ∃ k', Forall2 R l' k' ∧ k ≡ₚ k'.
Proof.
  intros H Hp. revert k H. induction Hp as [|x l l' _ IH|x y l|l1 l2 l3 _ IH1 _ IH2]; intros k H.
  - apply Forall2_nil_inv_l in H as ->. eauto.
  - apply Forall2_cons_inv_l in H as (y & k' & ? & (k'' & ? & ?)%IH & ->).
    exists (y :: k''). by split; constructor.
  - apply Forall2_cons_inv_l in H as (a & k' & ? & H & ->).
    apply Forall2_cons_inv_l in H as (b & k'' & ? & ? & ->).
    exists (b :: a :: k''). split; [by repeat constructor|constructor].
  - destruct (IH1 _ H) as (k' & ? & ?). destruct (IH2 k') as (k'' & ? & ?); [done|].
    exists k''. split; [done|by etrans].
Qed.

Lemma last_elem_of {A} (d : A) (l : list A) : l ≠ [] → List.last l d ∈ l.
Proof.
  intros Hne. apply list_elem_of_In. pose proof (app_removelast_last d Hne) as Heq.
  rewrite Heq at 2. apply in_or_app. right. by left.
Qed.

Lemma res_for_ok {A} (l : list A) body : res_for l body = Ok tt ↔ Forall (λ a, body a = Ok tt) l.
Proof.
  induction l as [|a l IH]; simpl; [by split|].
  rewrite Forall_cons, <- IH. destruct (body a) as [[]|]; simpl; naive_solver.
Qed.

Lemma is_ok_inv {A} (r : res A) : is_ok r = true → ∃ a, r = Ok a.
Proof. destruct r; [eauto|done]. Qed.

Lemma check_ok b e : check b e = Ok tt ↔ b = true.
Proof. by destruct b. Qed.

(** A triple whose first component is known. *)
Lemma triple_eq {A B C} (x : A * B * C) a : x.1.1 = a → x = (a, x.1.2, x.2).
Proof. destruct x as [[??]?]. by intros <-. Qed.

Lemma pair_eq {A B} (x : A * B) a : x.1 = a → x = (a, x.2).
Proof. destruct x. by intros <-. Qed.

(** A closed decidable proposition, by evaluation of its decision procedure. *)
Ltac by_decide := apply (bool_decide_eq_true_1 _); vm_compute; reflexivity.

(** Case analysis on the tests of a hypothesis, outermost first. *)
Ltac case_if_in H :=
  repeat match type of H with
  | context [if ?b then _ else _] => let E := fresh "E" in destruct b eqn:E
  end.
