(* ===== verification/GoStrings.v ===== *)
(** * The parts of Go's [strings] and [strconv] packages the simulator uses

    Go strings are byte strings, here [String.string].  The file models the
    searching, splitting, trimming and decimal conversion functions the sources
    call, with the lemmas the path grammar and the list keys need. *)

From S2P Require Import Prelude.

Declare Scope go_scope.
Delimit Scope go_scope with go.

(** ** Searching *)

(** [strings.HasPrefix]. *)
Fixpoint HasPrefix (s p : string) {struct p} : bool :=
  match p, s with
  | EmptyString, _ => true
  | String a p, String b s => Ascii.eqb a b && HasPrefix s p
  | String _ _, EmptyString => false
  end.

(** [strings.HasSuffix]: some tail of [s] is [suf]. *)
Fixpoint HasSuffix (s suf : string) : bool :=
  String.eqb s suf ||
  match s with
  | EmptyString => false
  | String _ s => HasSuffix s suf
  end.

(** [strings.Contains]. *)
Fixpoint Contains (s sub : string) : bool :=
  HasPrefix s sub ||
  match s with
  | EmptyString => false
  | String _ s => Contains s sub
  end.

(** [strings.IndexByte] ([None] stands for -1). *)
Fixpoint IndexByte (s : string) (c : ascii) : option nat :=
  match s with
  | EmptyString => None
  | String a s => if Ascii.eqb a c then Some 0 else S <$> IndexByte s c
  end.

(** [strings.Count] for a one-byte separator. *)
Fixpoint CountByte (s : string) (c : ascii) : nat :=
  match s with
  | EmptyString => 0
  | String a s => (if Ascii.eqb a c then 1 else 0) + CountByte s c
  end.

(** Does the string hold the byte? [strings.ContainsAny] is a disjunction. *)
Definition has_byte (s : string) (c : ascii) : bool :=
  match IndexByte s c with Some _ => true | None => false end.

(** Slicing: [s[:n]] and [s[n:]] for [n] within bounds. *)
Fixpoint str_take (n : nat) (s : string) : string :=
  match n, s with
  | S n, String a s => String a (str_take n s)
  | _, _ => EmptyString
  end.

Fixpoint str_drop (n : nat) (s : string) : string :=
  match n, s with
  | S n, String _ s => str_drop n s
  | _, _ => s
  end.

(** [strings.Split] for a one-byte separator. *)
Fixpoint SplitByte (s : string) (c : ascii) : list string :=
  match s with
  | EmptyString => [""]
  | String a s =>
      if Ascii.eqb a c then "" :: SplitByte s c
      else match SplitByte s c with
           | [] => [String a ""]
           | h :: t => String a h :: t
           end
  end.

(** [strings.Join]. *)
Fixpoint Join (parts : list string) (sep : string) : string :=
  match parts with
  | [] => ""
  | [p] => p
  | p :: parts => p +:+ sep +:+ Join parts sep
  end.

(** ** [strings.TrimSpace]

    The white space of [unicode.IsSpace], as UTF-8 byte sequences. *)
Definition bytes_str (l : list nat) : string :=
  foldr (λ n s, String (ascii_of_nat n) s) "" l.

Definition utf8_spaces : list (list nat) :=
  [[9]; [10]; [11]; [12]; [13]; [32]; [194; 133]; [194; 160]; [225; 154; 128];
   [226; 128; 128]; [226; 128; 129]; [226; 128; 130]; [226; 128; 131];
   [226; 128; 132]; [226; 128; 133]; [226; 128; 134]; [226; 128; 135];
   [226; 128; 136]; [226; 128; 137]; [226; 128; 138]; [226; 128; 168];
   [226; 128; 169]; [226; 128; 175]; [226; 129; 159]; [227; 128; 128]].

Fixpoint str_rev_app (s acc : string) : string :=
  match s with
  | EmptyString => acc
  | String a s => str_rev_app s (String a acc)
  end.
Definition str_rev (s : string) : string := str_rev_app s "".

(** Length of the first of [spaces] that starts [s], or zero. *)
Definition leading_space (spaces : list (list nat)) (s : string) : nat :=
  match filter (λ l, HasPrefix s (bytes_str l) = true) spaces with
  | [] => 0
  | l :: _ => length l
  end.

Fixpoint trim_left (fuel : nat) (spaces : list (list nat)) (s : string) : string :=
  match fuel with
  | O => s
  | S fuel =>
      match leading_space spaces s with
      | O => s
      | n => trim_left fuel spaces (str_drop n s)
      end
  end.

Definition TrimLeftSpace (s : string) : string := trim_left (String.length s) utf8_spaces s.
Definition TrimRightSpace (s : string) : string :=
  str_rev (trim_left (String.length s) (reverse <$> utf8_spaces) (str_rev s)).
Definition TrimSpace (s : string) : string := TrimRightSpace (TrimLeftSpace s).

(** ** [strings.Compare] and [sort.Strings]: byte-wise lexicographic order *)

Definition str_ltb (a b : string) : bool :=
  match String.compare a b with Lt => true | _ => false end.

Definition sort_strings (l : list string) : list string := merge_sort String.le l.

(** ** Decimal conversion *)

Definition Itoa (z : Z) : string := pretty z.
Definition FormatUint (z : Z) : string := pretty (Z.to_N z).

Definition digit_val (a : ascii) : option N :=
  let n := N_of_ascii a in
  if ((48 <=? n) && (n <=? 57))%N then Some (n - 48)%N else None.

Fixpoint parse_digits (s : string) (acc : N) : option N :=
  match s with
  | EmptyString => Some acc
  | String a s => d ← digit_val a; parse_digits s (acc * 10 + d)%N
  end.

(** [strconv.ParseUint(s, 10, bits)]: digits only, at least one, within the
    width; [None] is the returned error. *)
Definition ParseUint (s : string) (bits : Z) : option Z :=
  match s with
  | EmptyString => None
  | _ => n ← parse_digits s 0%N;
         if (Z.of_N n <? 2 ^ bits)%Z then Some (Z.of_N n) else None
  end.

(** [strconv.ParseInt(s, 10, bits)]: an optional sign, then an unsigned number. *)
Definition ParseInt (s : string) (bits : Z) : option Z :=
  let body := match s with
              | String "+" s' => s' | String "-" s' => s' | _ => s
              end in
  let neg := match s with String "-" _ => true | _ => false end in
  match body with
  | EmptyString => None
  | _ => n ← parse_digits body 0%N;
         let z := Z.of_N n in
         if neg then (if (z <=? 2 ^ (bits - 1))%Z then Some (- z)%Z else None)
         else if (z <? 2 ^ (bits - 1))%Z then Some z else None
  end.

(** [strconv.Atoi]. *)
Definition Atoi (s : string) : option Z := ParseInt s 64.

(** [strconv.ParseBool]. *)
Definition ParseBool (s : string) : option bool :=
  if decide (s ∈ ["1"; "t"; "T"; "TRUE"; "true"; "True"]) then Some true
  else if decide (s ∈ ["0"; "f"; "F"; "FALSE"; "false"; "False"]) then Some false
  else None.

Definition FormatBool (b : bool) : string := if b then "true" else "false".

(** The value of a hexadecimal digit. *)
Definition hex_val (a : ascii) : option N :=
  let n := N_of_ascii a in
  if (48 <=? n)%N && (n <=? 57)%N then Some (n - 48)%N
  else if (97 <=? n)%N && (n <=? 102)%N then Some (n - 87)%N
  else if (65 <=? n)%N && (n <=? 70)%N then Some (n - 55)%N
  else None.

(** ** Lemmas on searching and splitting *)

#[global] Arguments String.append !s1 s2 : simpl nomatch.

Lemma str_app_nil_r (s : string) : s +:+ "" = s.
Proof. induction s as [|a s IH]; simpl; [done|by rewrite IH]. Qed.

Lemma str_app_assoc (a b c : string) : (a +:+ b) +:+ c = a +:+ (b +:+ c).
Proof. induction a as [|x a IH]; simpl; [done|by rewrite IH]. Qed.

Lemma str_length_app (a b : string) :
  String.length (a +:+ b) = String.length a + String.length b.
Proof. induction a as [|x a IH]; simpl; [done|by rewrite IH]. Qed.

Lemma HasPrefix_spec s p : HasPrefix s p = true ↔ ∃ t, s = p +:+ t.
Proof.
  revert s; induction p as [|a p IH]; intros [|b s]; simpl; split; try done.
  - by exists "".
  - by exists (String b s).
  - by intros [t ?].
  - rewrite andb_true_iff, Ascii.eqb_eq. intros [-> [t ->]%IH]. by exists t.
  - intros [t [= -> ->]]. rewrite andb_true_iff, Ascii.eqb_eq, IH. eauto.
Qed.

Lemma HasPrefix_app p s : HasPrefix (p +:+ s) p = true.
Proof. apply HasPrefix_spec. eauto. Qed.

Lemma has_byte_cons a s c : has_byte (String a s) c = Ascii.eqb a c || has_byte s c.
Proof. unfold has_byte; simpl. destruct (Ascii.eqb a c), (IndexByte s c); done. Qed.

Lemma has_byte_app s t c : has_byte (s +:+ t) c = has_byte s c || has_byte t c.
Proof.
  induction s as [|a s IH]; [done|].
  simpl. rewrite !has_byte_cons, IH. apply orb_assoc.
Qed.

Lemma CountByte_app s t c : CountByte (s +:+ t) c = CountByte s c + CountByte t c.
Proof. induction s as [|a s IH]; simpl; [done|rewrite IH; lia]. Qed.

Lemma CountByte_0 s c : has_byte s c = false ↔ CountByte s c = 0.
Proof.
  induction s as [|a s IH]; [done|].
  rewrite has_byte_cons; simpl. destruct (Ascii.eqb a c); simpl; [lia|done].
Qed.

Lemma IndexByte_app s t c :
  has_byte s c = false → IndexByte (s +:+ t) c = (λ n, String.length s + n) <$> IndexByte t c.
Proof.
  induction s as [|a s IH]; simpl; [by destruct (IndexByte t c)|].
  rewrite has_byte_cons, orb_false_iff. intros [-> H]. rewrite (IH H).
  by destruct (IndexByte t c).
Qed.

Lemma IndexByte_split s c n :
  IndexByte s c = Some n →
  s = str_take n s +:+ String c (str_drop (S n) s) ∧
  has_byte (str_take n s) c = false ∧ n = String.length (str_take n s).
Proof.
  revert n; induction s as [|a s IH]; intros n; [done|]. simpl.
  destruct (Ascii.eqb_spec a c) as [->|Hne].
  - intros [= <-]. done.
  - rewrite fmap_Some. intros (m & Hm & ->). destruct (IH m Hm) as (Hs & Hb & Hl).
    simpl. split; [by f_equal|]. split; [|by f_equal].
    rewrite has_byte_cons, Hb. by apply orb_false_iff; split; [apply Ascii.eqb_neq|].
Qed.

Lemma str_take_app s t : str_take (String.length s) (s +:+ t) = s.
Proof. induction s as [|a s IH]; simpl; [by destruct t|by rewrite IH]. Qed.

Lemma str_drop_app s t : str_drop (String.length s) (s +:+ t) = t.
Proof. induction s as [|a s IH]; simpl; [by destruct t|done]. Qed.

Lemma HasSuffix_app s t : HasSuffix (s +:+ t) t = true.
Proof.
  induction s as [|a s IH]; simpl.
  - destruct t; simpl; [done|]. by rewrite Ascii.eqb_refl, String.eqb_refl.
  - rewrite IH. apply orb_true_r.
Qed.

Lemma HasSuffix_spec s t : HasSuffix s t = true → ∃ u, s = u +:+ t.
Proof.
  induction s as [|a s IH]; cbn [HasSuffix]; rewrite orb_true_iff, String.eqb_eq.
  - intros [->|?]; [by exists ""|done].
  - intros [->|H]; [by exists ""|]. destruct (IH H) as [u ->]. by exists (String a u).
Qed.

Lemma SplitByte_ne s c : SplitByte s c ≠ [].
Proof. destruct s as [|a s]; simpl; [done|]. destruct (Ascii.eqb a c), (SplitByte s c); done. Qed.

Lemma Join_cons p ps sep : ps ≠ [] → Join (p :: ps) sep = p +:+ sep +:+ Join ps sep.
Proof. by destruct ps. Qed.

Lemma Join_app l l' sep : l ≠ [] → l' ≠ [] → Join (l ++ l') sep = Join l sep +:+ sep +:+ Join l' sep.
Proof.
  intros Hl Hl'. induction l as [|x l IH]; [done|]. destruct l as [|y l].
  - simpl app. rewrite Join_cons by done. done.
  - change ((x :: y :: l) ++ l') with (x :: ((y :: l) ++ l')).
    rewrite Join_cons by done. rewrite IH by done. rewrite (Join_cons x (y :: l)) by done.
    by rewrite !str_app_assoc.
Qed.

Lemma Join_Split s c : Join (SplitByte s c) (String c "") = s.
Proof.
  induction s as [|a s IH]; [done|]. simpl.
  destruct (Ascii.eqb_spec a c) as [->|].
  - rewrite Join_cons by apply SplitByte_ne. simpl. by rewrite IH.
  - destruct (SplitByte s c) as [|h [|h' t]] eqn:E; [by apply SplitByte_ne in E| |].
    + simpl in *. by rewrite IH.
    + simpl in *. by rewrite IH.
Qed.

Lemma SplitByte_none s c : has_byte s c = false → SplitByte s c = [s].
Proof.
  induction s as [|a s IH]; simpl; [done|].
  rewrite has_byte_cons, orb_false_iff. intros [-> H]. by rewrite (IH H).
Qed.

Lemma SplitByte_app p s c :
  has_byte p c = false → SplitByte (p +:+ String c s) c = p :: SplitByte s c.
Proof.
  induction p as [|a p IH]; simpl; [by rewrite Ascii.eqb_refl|].
  rewrite has_byte_cons, orb_false_iff. intros [-> H]. by rewrite (IH H).
Qed.

Lemma SplitByte_cut a b c : SplitByte (a +:+ String c b) c = SplitByte a c ++ SplitByte b c.
Proof.
  induction a as [|x a IH]; simpl; [by rewrite Ascii.eqb_refl|].
  destruct (Ascii.eqb x c); [by rewrite IH|]. rewrite IH.
  pose proof (SplitByte_ne a c). by destruct (SplitByte a c).
Qed.

Lemma Split_Join ps c :
  ps ≠ [] → Forall (λ p, has_byte p c = false) ps →
  SplitByte (Join ps (String c "")) c = ps.
Proof.
  intros Hne H. induction H as [|p ps Hp Hps IH]; [done|].
  destruct ps as [|q ps]; [by apply SplitByte_none|].
  rewrite Join_cons by done. specialize (IH ltac:(done)).
  set (J := Join (q :: ps) _) in *.
  change (String c "" +:+ J) with (String c J).
  by rewrite SplitByte_app, IH.
Qed.

Lemma SplitByte_parts s c : Forall (λ p, has_byte p c = false) (SplitByte s c).
Proof.
  induction s as [|a s IH]; [by repeat constructor|]. simpl.
  destruct (Ascii.eqb a c) eqn:Ha; [by constructor|].
  destruct (SplitByte s c) as [|h t]; inversion IH; subst; constructor; try done;
    rewrite has_byte_cons, Ha; done.
Qed.

(** The three slash checks of a path hold exactly when no component is empty. *)
Definition slash_free_ends (s : string) (c : ascii) : bool :=
  let sep := String c "" in
  negb (HasPrefix s sep || HasSuffix s sep || Contains s (String c sep)).

Lemma HasPrefix_head a s c : HasPrefix (String a s) (String c "") = Ascii.eqb c a.
Proof. simpl. by rewrite andb_true_r. Qed.

Lemma HasSuffix_cons a s c :
  HasSuffix (String a s) (String c "") =
  match s with EmptyString => Ascii.eqb a c | _ => HasSuffix s (String c "") end.
Proof.
  destruct s as [|b s]; cbn [HasSuffix String.eqb].
  - destruct (Ascii.eqb a c); done.
  - by destruct (Ascii.eqb a c).
Qed.

(** Reference scanner: [prev] says whether the previous byte was the separator. *)
Fixpoint slash_ok (c : ascii) (prev : bool) (s : string) : bool :=
  match s with
  | EmptyString => negb prev
  | String a s => if Ascii.eqb a c then negb prev && slash_ok c true s else slash_ok c false s
  end.

Lemma slash_ok_split c s :
  forallb (λ p, negb (String.eqb p "")) (SplitByte s c) = slash_ok c true s ∧
  forallb (λ p, negb (String.eqb p "")) (tail (SplitByte s c)) = slash_ok c false s.
Proof.
  induction s as [|a s [IH1 IH2]]; [done|]. simpl.
  destruct (Ascii.eqb a c); simpl; [by rewrite IH1|].
  destruct (SplitByte s c); done.
Qed.

Lemma slash_ok_checks c s :
  negb (HasSuffix s (String c "") || Contains s (String c (String c ""))) = slash_ok c false s.
Proof.
  induction s as [|a s IH]; [done|].
  rewrite HasSuffix_cons. cbn [Contains HasPrefix slash_ok].
  destruct (Ascii.eqb_spec a c) as [->|Hac].
  - rewrite Ascii.eqb_refl. destruct s as [|b s]; [done|].
    cbn [HasPrefix slash_ok andb negb]. rewrite andb_true_r.
    cbn [slash_ok] in IH. destruct (Ascii.eqb_spec b c) as [->|].
    + rewrite Ascii.eqb_refl. simpl. by rewrite orb_true_r.
    + destruct (Ascii.eqb_spec c b) as [->|]; [done|]. exact IH.
  - destruct (Ascii.eqb_spec c a) as [->|]; [done|]. rewrite <- IH. by destruct s.
Qed.

Lemma slash_checks_split s c :
  s ≠ "" → slash_free_ends s c = forallb (λ p, negb (String.eqb p "")) (SplitByte s c).
Proof.
  intros Hne. unfold slash_free_ends.
  rewrite (proj1 (slash_ok_split c s)), <- orb_assoc, negb_orb, slash_ok_checks.
  destruct s as [|a s]; [done|]. rewrite HasPrefix_head. simpl.
  destruct (Ascii.eqb_spec a c) as [->|]; [by rewrite Ascii.eqb_refl|].
  destruct (Ascii.eqb_spec c a) as [->|]; done.
Qed.

(** ** Lemmas on sorting *)

Lemma sort_strings_perm l : sort_strings l ≡ₚ l.
Proof. apply merge_sort_Permutation. Qed.

Lemma sort_strings_sorted l : StronglySorted String.le (sort_strings l).
Proof. apply (StronglySorted_merge_sort _). Qed.

Lemma elem_of_sort_strings x l : x ∈ sort_strings l ↔ x ∈ l.
Proof. by rewrite sort_strings_perm. Qed.

Lemma sort_strings_ext l1 l2 : l1 ≡ₚ l2 → sort_strings l1 = sort_strings l2.
Proof.
  intros H. apply (StronglySorted_unique String.le); auto using sort_strings_sorted.
  by rewrite !sort_strings_perm.
Qed.

(** ** Lemmas on decimal conversion *)

Lemma digit_val_char x : (x < 10)%N → digit_val (pretty_N_char x) = Some x.
Proof.
  intros H.
  assert (x = 0 ∨ x = 1 ∨ x = 2 ∨ x = 3 ∨ x = 4 ∨ x = 5 ∨ x = 6 ∨ x = 7 ∨ x = 8 ∨ x = 9)%N
    as Hx by lia.
  by repeat destruct Hx as [->|Hx]; [..|subst].
Qed.

Lemma parse_digits_go x s acc :
  ∃ k, parse_digits (pretty_N_go x s) acc = parse_digits s (acc * 10 ^ k + x)%N
       ∧ (x = 0 → k = 0)%N.
Proof.
  revert s acc. induction (N.lt_wf_0 x) as [x _ IH]; intros s acc.
  destruct (decide (x = 0)%N) as [->|Hx].
  - exists 0%N. rewrite pretty_N_go_0. split; [|done]. f_equal. lia.
  - rewrite pretty_N_go_step by lia.
    assert (x `mod` 10 < 10)%N by (by apply N.mod_lt).
    destruct (IH (x `div` 10)%N ltac:(apply N.div_lt; lia)
                (String (pretty_N_char (x `mod` 10)) s) acc) as (k & Hk & _).
    exists (N.succ k). split; [|done]. rewrite Hk. simpl.
    rewrite digit_val_char by done. simpl. f_equal.
    rewrite N.pow_succ_r'. pose proof (N.div_mod x 10 ltac:(done)). lia.
Qed.

Lemma parse_digits_pretty (x : N) : parse_digits (pretty x) 0 = Some x.
Proof.
  unfold pretty, pretty_N. case_decide as Hx; [by subst|].
  destruct (parse_digits_go x "" 0) as (k & -> & _). simpl. f_equal; lia.
Qed.

Lemma pretty_N_not_empty (x : N) : pretty x ≠ "".
Proof.
  intros H. pose proof (parse_digits_pretty x) as Hp. rewrite H in Hp. simpl in Hp.
  injection Hp as <-. done.
Qed.

Lemma ParseUint_FormatUint z bits : (0 ≤ z < 2 ^ bits)%Z → ParseUint (FormatUint z) bits = Some z.
Proof.
  intros Hz. unfold ParseUint, FormatUint.
  destruct (pretty (Z.to_N z)) eqn:E; [by apply pretty_N_not_empty in E|].
  rewrite <- E, parse_digits_pretty. simpl.
  rewrite Z2N.id by lia. destruct (Z.ltb_spec z (2 ^ bits)); [done|lia].
Qed.

(** Decimal digits contain none of the path grammar's delimiters. *)
Lemma pretty_N_no_byte (x : N) c :
  digit_val c = None → has_byte (pretty x) c = false.
Proof.
  intros Hc. unfold pretty, pretty_N. case_decide; [subst|].
  { destruct c as [[] [] [] [] [] [] [] []]; done. }
  assert (∀ s, has_byte s c = false → has_byte (pretty_N_go x s) c = false) as Hgo; [|by apply Hgo].
  clear H. induction (N.lt_wf_0 x) as [x _ IH]; intros s Hs.
  destruct (decide (x = 0)%N) as [->|]; [by rewrite pretty_N_go_0|].
  rewrite pretty_N_go_step by lia. apply IH; [apply N.div_lt; lia|].
  rewrite has_byte_cons, Hs, orb_false_r. apply Ascii.eqb_neq. intros <-.
  by rewrite digit_val_char in Hc by (by apply N.mod_lt).
Qed.

Lemma FormatUint_no_byte z c : digit_val c = None → has_byte (FormatUint z) c = false.
Proof. apply pretty_N_no_byte. Qed.

(** ** Lemmas on trimming *)

(** A printable ASCII byte other than the space. *)
Definition graphic (a : ascii) : bool := ((33 <=? N_of_ascii a) && (N_of_ascii a <=? 126))%N.

(** No space starts or ends with a graphic byte. *)
Definition off_graphic (l : list nat) : bool :=
  match l with
  | [] => false
  | n :: _ => Nat.ltb n 256 && (Nat.ltb n 33 || Nat.ltb 126 n)
  end.

Lemma leading_off spaces a s :
  graphic a = true → forallb off_graphic spaces = true → leading_space spaces (String a s) = 0.
Proof.
  intros Ha Hs. unfold leading_space.
  assert (filter (λ l, HasPrefix (String a s) (bytes_str l) = true) spaces = []) as ->; [|done].
  destruct (filter _ spaces) as [|l r] eqn:E; [done|]. exfalso.
  assert (l ∈ filter (λ l, HasPrefix (String a s) (bytes_str l) = true) spaces) as [Hp Hl]%list_elem_of_filter.
  { rewrite E. by left. }
  revert Hp. rewrite forallb_forall in Hs. specialize (Hs l (proj1 (list_elem_of_In _ _) Hl)).
  destruct l as [|n l]; [done|]. simpl. unfold graphic in Ha. simpl in Hs.
  destruct (Ascii.eqb_spec (ascii_of_nat n) a) as [<-|]; [|done]. intros _.
  unfold ascii_of_nat in Ha. apply andb_true_iff in Hs as [Hn Hs]. apply Nat.ltb_lt in Hn.
  rewrite N_ascii_embedding in Ha by lia.
  apply andb_true_iff in Ha as [H1%N.leb_le H2%N.leb_le].
  apply orb_true_iff in Hs as [Hs%Nat.ltb_lt|Hs%Nat.ltb_lt]; lia.
Qed.

Lemma leading_graphic a s :
  graphic a = true →
  leading_space utf8_spaces (String a s) = 0 ∧
  leading_space (reverse <$> utf8_spaces) (String a s) = 0.
Proof. intros H. split; by apply leading_off. Qed.

Lemma trim_left_graphic fuel a s :
  graphic a = true →
  trim_left fuel utf8_spaces (String a s) = String a s ∧
  trim_left fuel (reverse <$> utf8_spaces) (String a s) = String a s.
Proof.
  intros H. destruct (leading_graphic a s H) as [H1 H2].
  destruct fuel; [done|]. cbn [trim_left]. by rewrite H1, H2.
Qed.

Lemma str_rev_app_spec s acc : str_rev_app s acc = str_rev s +:+ acc.
Proof.
  unfold str_rev. revert acc. induction s as [|a s IH]; intros acc; simpl; [done|].
  rewrite IH, (IH (String a "")). by rewrite str_app_assoc.
Qed.

Lemma str_rev_cons a s : str_rev (String a s) = str_rev s +:+ String a "".
Proof. exact (str_rev_app_spec s (String a "")). Qed.

Lemma str_rev_snoc s a : str_rev (s +:+ String a "") = String a (str_rev s).
Proof.
  induction s as [|b s IH]; [done|].
  change (String b s +:+ String a "") with (String b (s +:+ String a "")).
  by rewrite !str_rev_cons, IH.
Qed.

Lemma str_rev_involutive s : str_rev (str_rev s) = s.
Proof. induction s as [|a s IH]; [done|]. by rewrite str_rev_cons, str_rev_snoc, IH. Qed.

(** A text whose ends are graphic has nothing to trim. *)
Lemma TrimSpace_graphic a s b t :
  graphic a = true → graphic b = true → String a s = t +:+ String b "" →
  TrimSpace (String a s) = String a s.
Proof.
  intros Ha Hb E. unfold TrimSpace, TrimLeftSpace.
  rewrite (proj1 (trim_left_graphic _ a s Ha)). rewrite E. unfold TrimRightSpace.
  rewrite str_rev_snoc, (proj2 (trim_left_graphic _ b _ Hb)).
  by rewrite <- str_rev_snoc, str_rev_involutive.
Qed.
