(* ===== verification/GoFloat.v ===== *)
(** * Go's [float64]: IEEE 754 binary64

    A [float64] is a [spec_float] of precision 53 and exponent bound 1024, the
    executable specification of the standard library: NaN, the infinities and the
    signed zeros are values of their own and every operation rounds to nearest
    even, like the hardware the simulator runs on.  The comparison lemmas are
    derived from a lexicographic key, so they need no validity hypothesis. *)

From Stdlib Require Export SpecFloat.
From S2P Require Import Prelude.

Abbreviation float64 := spec_float.

Global Instance float64_eq_dec : EqDecision float64.
Proof. solve_decision. Defined.

Module F64.
Definition prec : Z := 53.
Definition emax : Z := 1024.

(** The float nearest to [m * 2^e]: every dyadic constant of the sources. *)
Definition make (m e : Z) : float64 := binary_normalize prec emax m e false.

(** [float64(z)]. *)
Definition of_Z (z : Z) : float64 := make z 0.

Definition add : float64 → float64 → float64 := SFadd prec emax.
Definition sub : float64 → float64 → float64 := SFsub prec emax.
Definition mul : float64 → float64 → float64 := SFmul prec emax.
Definition div : float64 → float64 → float64 := SFdiv prec emax.
Definition opp : float64 → float64 := SFopp.

(** A decimal constant [n / d], correctly rounded like a Go constant. *)
Definition ratio (n d : Z) : float64 := div (of_Z n) (of_Z d).

(** The comparison operators: every one is false on a NaN but [neqb]. *)
Definition eqb : float64 → float64 → bool := SFeqb.
Definition ltb : float64 → float64 → bool := SFltb.
Definition leb : float64 → float64 → bool := SFleb.
Definition gtb (x y : float64) : bool := ltb y x.
Definition geb (x y : float64) : bool := leb y x.

Definition zero : float64 := S754_zero false.
Definition inf : float64 := S754_infinity false.

Definition is_nan (x : float64) : bool := match x with S754_nan => true | _ => false end.
Definition is_inf (x : float64) : bool := match x with S754_infinity _ => true | _ => false end.
Definition is_finite (x : float64) : bool := negb (is_nan x) && negb (is_inf x).
Definition signbit (x : float64) : bool :=
  match x with
  | S754_zero s | S754_infinity s | S754_finite s _ _ => s
  | S754_nan => false
  end.

(** [math.Max] and [math.Min] with their special cases. *)
Definition max (x y : float64) : float64 :=
  if bool_decide (x = S754_infinity false) || bool_decide (y = S754_infinity false)
  then S754_infinity false
  else if is_nan x || is_nan y then S754_nan
  else if eqb x zero && eqb x y then (if signbit x then y else x)
  else if gtb x y then x else y.

Definition min (x y : float64) : float64 :=
  if bool_decide (x = S754_infinity true) || bool_decide (y = S754_infinity true)
  then S754_infinity true
  else if is_nan x || is_nan y then S754_nan
  else if eqb x zero && eqb x y then (if signbit x then x else y)
  else if ltb x y then x else y.

(** The integer a float denotes, when [math.Trunc f == f] and it is finite. *)
Definition to_Z_exact (x : float64) : option Z :=
  match x with
  | S754_zero _ => Some 0%Z
  | S754_finite s m e =>
      let z := if (0 <=? e)%Z then (Z.pos m * 2 ^ e)%Z else (Z.pos m / 2 ^ (- e))%Z in
      if (0 <=? e)%Z || (z * 2 ^ (- e) =? Z.pos m)%Z
      then Some (if s then (- z)%Z else z) else None
  | _ => None
  end.

(** ** Order lemmas *)

Definition key (x : float64) : option (Z * Z * Z) :=
  match x with
  | S754_nan => None
  | S754_infinity s => Some ((if s then -2 else 2)%Z, 0%Z, 0%Z)
  | S754_zero _ => Some (0%Z, 0%Z, 0%Z)
  | S754_finite false m e => Some (1%Z, e, Z.pos m)
  | S754_finite true m e => Some ((-1)%Z, (- e)%Z, Z.neg m)
  end.

Definition key_lt (k1 k2 : Z * Z * Z) : Prop :=
  let '(a1, b1, c1) := k1 in let '(a2, b2, c2) := k2 in
  (a1 < a2 ∨ a1 = a2 ∧ (b1 < b2 ∨ b1 = b2 ∧ c1 < c2))%Z.

Ltac destruct_keys :=
  repeat match goal with k : (Z * Z * Z)%type |- _ => destruct k as [[??]?] end; simpl in *.

Lemma ltb_key x y :
  ltb x y = true ↔ ∃ k1 k2, key x = Some k1 ∧ key y = Some k2 ∧ key_lt k1 k2.
Proof.
  unfold ltb, SFltb.
  destruct x as [sx|sx| |sx mx ex], y as [sy|sy| |sy my ey]; simpl;
    try destruct sx; try destruct sy; simpl;
    try (split; [done|intros (?&?&?&?&?); simplify_eq; simpl in *; lia]);
    try (split; [intros _; eexists _, _; split_and!; [done..|simpl; lia]|done]).
  - destruct (Z.compare_spec ex ey) as [->|Hlt|Hgt].
    + change (Pos.compare_cont Eq mx my) with (Pos.compare mx my).
      destruct (Pos.compare_spec mx my); simpl; split; try done;
        try (intros (?&?&?&?&?); simplify_eq; simpl in *; lia).
      intros _. eexists _, _; split_and!; [done..|simpl; lia].
    + split; [done|]. intros (?&?&?&?&?); simplify_eq; simpl in *; lia.
    + split; [|done]. intros _. eexists _, _; split_and!; [done..|simpl; lia].
  - destruct (Z.compare_spec ex ey) as [->|Hlt|Hgt].
    + change (Pos.compare_cont Eq mx my) with (Pos.compare mx my).
      destruct (Pos.compare_spec mx my); simpl; split; try done;
        try (intros (?&?&?&?&?); simplify_eq; simpl in *; lia).
      intros _. eexists _, _; split_and!; [done..|simpl; lia].
    + split; [|done]. intros _. eexists _, _; split_and!; [done..|simpl; lia].
    + split; [done|]. intros (?&?&?&?&?); simplify_eq; simpl in *; lia.
Qed.

Lemma leb_key x y :
  leb x y = true ↔ ∃ k1 k2, key x = Some k1 ∧ key y = Some k2 ∧ (key_lt k1 k2 ∨ k1 = k2).
Proof.
  unfold leb, SFleb.
  destruct x as [sx|sx| |sx mx ex], y as [sy|sy| |sy my ey]; simpl;
    try destruct sx; try destruct sy; simpl;
    try (split; [done|intros (?&?&?&?&[?|?]); simplify_eq; simpl in *; lia]);
    try (split; [intros _; eexists _, _; split_and!; [done..|simpl; (by right) || (left; lia)]|done]).
  - destruct (Z.compare_spec ex ey) as [->|Hlt|Hgt].
    + change (Pos.compare_cont Eq mx my) with (Pos.compare mx my).
      destruct (Pos.compare_spec mx my); simpl; split; try done;
        try (intros (?&?&?&?&[?|?]); simplify_eq; simpl in *; lia);
        intros _; eexists _, _; split_and!; try done; [right; by subst|left; simpl; lia].
    + split; [done|]. intros (?&?&?&?&[?|?]); simplify_eq; simpl in *; lia.
    + split; [|done]. intros _. eexists _, _; split_and!; [done..|left; simpl; lia].
  - destruct (Z.compare_spec ex ey) as [->|Hlt|Hgt].
    + change (Pos.compare_cont Eq mx my) with (Pos.compare mx my).
      destruct (Pos.compare_spec mx my); simpl; split; try done;
        try (intros (?&?&?&?&[?|?]); simplify_eq; simpl in *; lia);
        intros _; eexists _, _; split_and!; try done; [right; by subst|left; simpl; lia].
    + split; [|done]. intros _. eexists _, _; split_and!; [done..|left; simpl; lia].
    + split; [done|]. intros (?&?&?&?&[?|?]); simplify_eq; simpl in *; lia.
Qed.

Lemma key_None x : key x = None ↔ is_nan x = true.
Proof. destruct x as [| | |[]]; done. Qed.

Lemma key_Some x : is_nan x = false → is_Some (key x).
Proof. destruct x as [| | |[]]; simpl; eauto; done. Qed.

Lemma leb_refl x : is_nan x = false → leb x x = true.
Proof. intros [k Hk]%key_Some. apply leb_key. eauto 10. Qed.

Lemma leb_trans x y z : leb x y = true → leb y z = true → leb x z = true.
Proof.
  rewrite !leb_key. intros (k1&k2&H1&H2&H12) (k2'&k3&H2'&H3&H23). simplify_eq.
  exists k1, k3. split_and!; [done..|].
  destruct_keys.
  destruct H12 as [?|?], H23 as [?|?]; simplify_eq; auto; left; lia.
Qed.

Lemma ltb_leb x y : ltb x y = true → leb x y = true.
Proof. rewrite ltb_key, leb_key. intros (k1&k2&?&?&?). eauto 10. Qed.

Lemma ltb_leb_trans x y z : ltb x y = true → leb y z = true → ltb x z = true.
Proof.
  rewrite !ltb_key, leb_key. intros (k1&k2&H1&H2&H12) (k2'&k3&H2'&H3&H23). simplify_eq.
  exists k1, k3. split_and!; [done..|].
  destruct_keys.
  destruct H23 as [?|?]; simplify_eq; lia.
Qed.

Lemma leb_ltb_trans x y z : leb x y = true → ltb y z = true → ltb x z = true.
Proof.
  rewrite !ltb_key, leb_key. intros (k1&k2&H1&H2&H12) (k2'&k3&H2'&H3&H23). simplify_eq.
  exists k1, k3. split_and!; [done..|].
  destruct_keys.
  destruct H12 as [?|?]; simplify_eq; lia.
Qed.

(** On numbers, [<] is the negation of the converse [>=]. *)
Lemma leb_false x y :
  is_nan x = false → is_nan y = false → leb x y = false ↔ ltb y x = true.
Proof.
  intros [kx Hx]%key_Some [ky Hy]%key_Some.
  rewrite <- not_true_iff_false, leb_key, ltb_key. split.
  - intros H. exists ky, kx. split_and!; [done..|].
    assert (¬ (key_lt kx ky ∨ kx = ky)) as Hn by eauto 10.
    destruct_keys.
    match goal with
    | |- context [(?a2 < ?a1)%Z ∨ ?a2 = ?a1 ∧ ((?b2 < ?b1)%Z ∨ ?b2 = ?b1 ∧ (?c2 < ?c1)%Z)] =>
        assert (¬ (a1 = a2 ∧ b1 = b2 ∧ c1 = c2))%Z
          by (intros (?&?&?); subst; apply Hn; by right)
    end.
    assert (Hn' : ¬ _) by (intros HH; apply Hn; left; exact HH). lia.
  - intros (k1&k2&H1&H2&Hlt) (k1'&k2'&H1'&H2'&Hle). simplify_eq.
    destruct_keys. destruct Hle; simplify_eq; lia.
Qed.

Lemma ltb_false x y :
  is_nan x = false → is_nan y = false → ltb x y = false ↔ leb y x = true.
Proof.
  intros Hx Hy. pose proof (leb_false y x Hy Hx) as [Hl Hr].
  destruct (leb y x), (ltb x y); split; intros; try done; [by apply Hr|by apply Hl].
Qed.

Lemma leb_nan_l x y : leb x y = true → is_nan x = false.
Proof. by destruct x. Qed.
Lemma leb_nan_r x y : leb x y = true → is_nan y = false.
Proof. by destruct x, y. Qed.

(** [math.Min] and [math.Max] of two numbers are one of them. *)
Lemma max_spec x y :
  is_nan x = false → is_nan y = false →
  (max x y = x ∨ max x y = y) ∧ leb x (max x y) = true ∧ leb y (max x y) = true.
Proof.
  intros Hx Hy. unfold max.
  case_bool_decide as H1; simpl.
  { subst x. split; [auto|]. split; [done|]. by destruct y as [|[]| |[]]. }
  case_bool_decide as H2; simpl.
  { subst y. split; [auto|]. split; [by destruct x as [|[]| |[]]|done]. }
  rewrite Hx, Hy. simpl.
  destruct (eqb x zero && eqb x y) eqn:E.
  { apply andb_true_iff in E as [E1 E2].
    destruct x as [[]|[]| |[]]; try discriminate E1;
      destruct y as [[]|[]| |[]]; try discriminate E2; simpl; auto. }
  unfold gtb. destruct (ltb y x) eqn:Hlt.
  - split; [auto|]. split; [by apply leb_refl|by apply ltb_leb].
  - apply ltb_false in Hlt; [|done..]. split; [auto|]. split; [done|by apply leb_refl].
Qed.

Lemma min_spec x y :
  is_nan x = false → is_nan y = false →
  (min x y = x ∨ min x y = y) ∧ leb (min x y) x = true ∧ leb (min x y) y = true.
Proof.
  intros Hx Hy. unfold min.
  case_bool_decide as H1; simpl.
  { subst x. split; [auto|]. split; [done|]. by destruct y as [|[]| |[]]. }
  case_bool_decide as H2; simpl.
  { subst y. split; [auto|]. split; [by destruct x as [|[]| |[]]|done]. }
  rewrite Hx, Hy. simpl.
  destruct (eqb x zero && eqb x y) eqn:E.
  { apply andb_true_iff in E as [E1 E2].
    destruct x as [[]|[]| |[]]; try discriminate E1;
      destruct y as [[]|[]| |[]]; try discriminate E2; simpl; auto. }
  destruct (ltb x y) eqn:Hlt.
  - split; [auto|]. split; [by apply leb_refl|by apply ltb_leb].
  - apply ltb_false in Hlt; [|done..]. split; [auto|]. split; [done|by apply leb_refl].
Qed.
End F64.
