(* ===== verification/Rounding.v ===== *)
(** * Rounding to binary64

    Every operation of [GoFloat] ends in one rounding step.  This file shows what the
    rounding gives: a canonical number, never a NaN, and a finite one as long as its
    magnitude stays below the exponent range.  From it: sums and differences of numbers
    are numbers, and small ones are finite. *)

From S2P Require Import Prelude GoFloat.

Abbreviation f64_fexp := (fexp F64.prec F64.emax).

(** The floats the hardware has: canonical mantissa, exponent in range. *)
Definition valid (x : float64) : bool := valid_binary F64.prec F64.emax x.

(** [|x| < 2^k], for a finite float. *)
Definition small (k : Z) (x : float64) : Prop :=
  match x with
  | S754_zero _ => True
  | S754_finite _ m e => (Zdigits2 (Z.pos m) + e ≤ k)%Z
  | _ => False
  end.

Lemma small_finite k x : small k x → F64.is_finite x = true.
Proof. by destruct x. Qed.

Lemma small_weaken k k' x : small k x → (k ≤ k')%Z → small k' x.
Proof. destruct x; simpl; lia. Qed.

Lemma fexp_unfold e : f64_fexp e = Z.max (e - 53) (-1074).
Proof. done. Qed.

Lemma digits_log2 p : Zdigits2 (Z.pos p) = (Z.log2 (Z.pos p) + 1)%Z.
Proof.
  change (Zdigits2 (Z.pos p)) with (Z.pos (digits2_pos p)). induction p as [p IH|p IH|]; simpl digits2_pos; [..|done].
  - rewrite Pos2Z.inj_succ, IH, Pos2Z.inj_xI, Z.log2_succ_double by lia. lia.
  - rewrite Pos2Z.inj_succ, IH, Pos2Z.inj_xO, Z.log2_double by lia. lia.
Qed.

Lemma digits_le a b : (0 ≤ a ≤ b)%Z → (Zdigits2 a ≤ Zdigits2 b)%Z.
Proof.
  intros H. destruct a as [|a|a]; [|destruct b as [|b|b]; [lia| |lia]|lia].
  - destruct b; simpl; lia.
  - rewrite !digits_log2. pose proof (Z.log2_le_mono (Z.pos a) (Z.pos b)). lia.
Qed.

Lemma digits_succ a : (0 ≤ a)%Z → (Zdigits2 (a + 1) ≤ Zdigits2 a + 1)%Z.
Proof.
  intros H. destruct a as [|p|p]; [done| |lia].
  change (Z.pos p + 1)%Z with (Z.pos (p + 1)). rewrite !digits_log2.
  pose proof (Z.log2_succ_le (Z.pos p)). unfold Z.succ in *. change (Z.pos (p + 1)) with (Z.pos p + 1)%Z. lia.
Qed.

(** Shifting right by [n] divides by [2^n]. *)
Lemma shr_1_m r : (0 ≤ shr_m r)%Z → shr_m (shr_1 r) = (shr_m r / 2)%Z.
Proof.
  destruct r as [m b c]. simpl. intros Hm. rewrite <- Z.div2_div. destruct m as [|[]|]; simpl; try done; lia.
Qed.

Lemma iter_shr_m p r : (0 ≤ shr_m r)%Z → shr_m (iter_pos shr_1 p r) = (shr_m r / 2 ^ Z.pos p)%Z.
Proof.
  revert r. assert (∀ r, (0 ≤ shr_m r)%Z → (0 ≤ shr_m (shr_1 r))%Z) as H1.
  { intros r Hr. rewrite shr_1_m by done. apply Z.div_pos; lia. }
  induction p as [p IH|p IH|]; intros r Hr; cbn [iter_pos].
  - rewrite IH, IH, shr_1_m by (rewrite ?IH; try apply Z.div_pos; eauto; lia).
    rewrite !Z.div_div by lia. f_equal. rewrite (Pos2Z.inj_xI p).
    replace (2 * Z.pos p + 1)%Z with (1 + (Z.pos p + Z.pos p))%Z by lia. rewrite !Z.pow_add_r by lia. lia.
  - rewrite IH, IH by (rewrite ?IH; try apply Z.div_pos; eauto; lia).
    rewrite !Z.div_div by lia. f_equal. rewrite (Pos2Z.inj_xO p).
    replace (2 * Z.pos p)%Z with (Z.pos p + Z.pos p)%Z by lia. rewrite Z.pow_add_r by lia. lia.
  - by rewrite shr_1_m.
Qed.

Lemma digits_div m n : (0 < m)%Z → (0 ≤ n < Zdigits2 m)%Z → Zdigits2 (m / 2 ^ n) = (Zdigits2 m - n)%Z.
Proof.
  intros Hm Hn. destruct m as [|p|p]; [lia| |lia]. rewrite digits_log2 in *.
  pose proof (Z.log2_shiftr (Z.pos p) n ltac:(lia)) as Hl. rewrite Z.shiftr_div_pow2, Z.max_r in Hl by lia.
  assert (0 < Z.pos p / 2 ^ n)%Z as Hq.
  { apply Z.div_str_pos. split; [lia|]. etrans; [apply (Z.pow_le_mono_r 2 n (Z.log2 (Z.pos p))); lia|].
    apply Z.log2_spec. lia. }
  destruct (Z.pos p / 2 ^ n)%Z eqn:E; [lia| |lia]. rewrite digits_log2. lia.
Qed.

Lemma div_small m n : (0 < m)%Z → (Zdigits2 m ≤ n)%Z → (m / 2 ^ n)%Z = 0%Z.
Proof.
  intros Hm Hn. destruct m as [|p|p]; [lia| |lia]. rewrite digits_log2 in Hn. apply Z.div_small. split; [lia|].
  eapply Z.lt_le_trans; [apply Z.log2_spec; lia|]. apply Z.pow_le_mono_r; lia.
Qed.

(** One shift to the canonical exponent. *)
Lemma shr_fexp_spec m e : (0 ≤ m)%Z → (e ≤ f64_fexp (Zdigits2 m + e))%Z →
  ∃ mrs, shr_fexp F64.prec F64.emax m e loc_Exact = (mrs, f64_fexp (Zdigits2 m + e)) ∧
         shr_m mrs = (m / 2 ^ (f64_fexp (Zdigits2 m + e) - e))%Z.
Proof.
  intros Hm He. unfold shr_fexp, shr. simpl shr_record_of_loc.
  destruct (f64_fexp (Zdigits2 m + e) - e)%Z as [|p|p] eqn:E; [..|lia].
  - eexists. split; [f_equal; lia|]. simpl. by rewrite Z.div_1_r.
  - eexists. split; [f_equal; lia|]. by rewrite iter_shr_m.
Qed.

Lemma round_nearest_cases m r : let m' := round_nearest_even m (loc_of_shr_record r) in m' = m ∨ m' = (m + 1)%Z.
Proof. destruct r as [? [] []]; simpl; auto; destruct (Z.even m); auto. Qed.

Lemma round_aux_spec s m e : (0 < m)%Z → (e ≤ f64_fexp (Zdigits2 m + e))%Z →
  let x := binary_round_aux F64.prec F64.emax s m e loc_Exact in
  valid x = true ∧ F64.is_nan x = false ∧
  ∀ k, (Zdigits2 m + e ≤ k)%Z → (-1074 ≤ k < 1024)%Z → small (k + 1) x.
Proof.
  intros Hm He. unfold binary_round_aux. destruct (shr_fexp_spec m e) as (r1 & -> & H1); [lia|done|].
  set (e1 := f64_fexp (Zdigits2 m + e)) in *.
  pose proof (round_nearest_cases (shr_m r1) r1) as Hr. cbv zeta in Hr.
  set (m1 := round_nearest_even (shr_m r1) (loc_of_shr_record r1)) in *.
  assert (0 ≤ shr_m r1)%Z as H0 by (rewrite H1; apply Z.div_pos; lia).
  assert (Zdigits2 (shr_m r1) + e1 = Zdigits2 m + e ∨ shr_m r1 = 0 ∧ e1 = -1074)%Z as Hd.
  { destruct (Z.lt_ge_cases (e1 - e) (Zdigits2 m)).
    - left. rewrite H1, digits_div by lia. lia.
    - right. rewrite H1. split; [by apply div_small|]. unfold e1 in *. rewrite fexp_unfold in *. lia. }
  assert (0 ≤ m1)%Z as Hm1 by lia.
  assert (Zdigits2 m1 ≤ Zdigits2 (shr_m r1) + 1)%Z as Hup.
  { destruct Hr as [->| ->]; [lia|]. by apply digits_succ. }
  assert (Zdigits2 (shr_m r1) ≤ Zdigits2 m1)%Z as Hlow by (apply digits_le; lia).
  assert (e1 ≤ f64_fexp (Zdigits2 m1 + e1))%Z as He1.
  { destruct Hd as [Hd|[Hz Hd]]; [|rewrite Hd, fexp_unfold; lia].
    unfold e1 at 1. rewrite <- Hd, !fexp_unfold. lia. }
  destruct (shr_fexp_spec m1 e1) as (r2 & -> & H2); [done|done|].
  set (e2 := f64_fexp (Zdigits2 m1 + e1)) in *.
  destruct (Z.eq_dec m1 0) as [Hz|Hnz].
  { rewrite Hz, Z.div_0_l in H2 by lia. rewrite H2. done. }
  destruct (Z.lt_ge_cases (e2 - e1) (Zdigits2 m1)) as [Hlt|Hge].
  2:{ rewrite div_small in H2 by lia. rewrite H2. done. }
  assert (Zdigits2 (shr_m r2) = Zdigits2 m1 - (e2 - e1))%Z as Hd2 by (rewrite H2, digits_div; lia).
  destruct (shr_m r2) as [|p|p] eqn:E2; [done| |exfalso; pose proof (Z.div_pos m1 (2 ^ (e2 - e1))); lia].
  assert (Zdigits2 m1 + e1 ≤ Zdigits2 m + e + 1 ∨ Zdigits2 m1 + e1 ≤ -1073)%Z as Hmag.
  { destruct Hd as [Hd|[Hz Hd]]; [left; lia|]. right. rewrite Hz in Hup. change (Zdigits2 0) with 0%Z in Hup. lia. }
  destruct (e2 <=? F64.emax - F64.prec)%Z eqn:Ee.
  - split_and!; [|done|].
    + unfold valid, valid_binary, bounded, canonical_mantissa. rewrite Ee, andb_true_r. apply Z.eqb_eq.
      change (Z.pos (digits2_pos p)) with (Zdigits2 (Z.pos p)). rewrite Hd2. unfold e2 at 2 3. f_equal. lia.
    + intros k Hk Hk'. unfold small. rewrite Hd2. lia.
  - split_and!; [done..|]. intros k Hk Hk'. exfalso. apply Z.leb_gt in Ee.
    change (F64.emax - F64.prec)%Z with 971%Z in Ee. unfold e2 in Ee. rewrite fexp_unfold in Ee. lia.
Qed.

(** Shifting left before the rounding. *)
Lemma iter_xO d p : Z.pos (Pos.iter xO p d) = (Z.pos p * 2 ^ Z.pos d)%Z.
Proof.
  induction d as [|d IH] using Pos.peano_ind; [simpl; lia|].
  rewrite Pos.iter_succ, Pos2Z.inj_xO, IH, Pos2Z.inj_succ, Z.pow_succ_r by lia. lia.
Qed.

Lemma round_spec s m e :
  let x := binary_round F64.prec F64.emax s m e in
  valid x = true ∧ F64.is_nan x = false ∧
  ∀ k, (Zdigits2 (Z.pos m) + e ≤ k)%Z → (-1074 ≤ k < 1024)%Z → small (k + 1) x.
Proof.
  unfold binary_round, shl_align. change (Z.pos (digits2_pos m)) with (Zdigits2 (Z.pos m)).
  destruct (f64_fexp (Zdigits2 (Z.pos m) + e) - e)%Z as [|d|d] eqn:E; try (apply round_aux_spec; lia).
  assert (Zdigits2 (Z.pos (Pos.iter xO m d)) = Zdigits2 (Z.pos m) + Z.pos d)%Z as Hd.
  { rewrite !digits_log2, iter_xO, Z.log2_mul_pow2 by lia. lia. }
  assert (Zdigits2 (Z.pos (Pos.iter xO m d)) + f64_fexp (Zdigits2 (Z.pos m) + e) = Zdigits2 (Z.pos m) + e)%Z as Hs by lia.
  pose proof (round_aux_spec s (Z.pos (Pos.iter xO m d)) (f64_fexp (Zdigits2 (Z.pos m) + e))) as H.
  rewrite Hs in H. apply H; lia.
Qed.

Lemma normalize_spec m e z :
  let x := binary_normalize F64.prec F64.emax m e z in
  valid x = true ∧ F64.is_nan x = false ∧
  ∀ k, (Zdigits2 m + e ≤ k)%Z → (-1074 ≤ k < 1024)%Z → small (k + 1) x.
Proof. destruct m as [|m|m]; [done|apply round_spec..]. Qed.

(** ** Sums and differences *)

Lemma digits_aligned s m e e' : (e' ≤ e)%Z →
  Zdigits2 (cond_Zopp s (Z.pos (fst (shl_align m e e')))) = (Zdigits2 (Z.pos m) + (e - e'))%Z ∧
  snd (shl_align m e e') = e'.
Proof.
  intros He. unfold shl_align. destruct (e' - e)%Z as [|d|d] eqn:E; [|lia|]; simpl fst; simpl snd.
  - destruct s; (split; [simpl Zdigits2; lia|lia]).
  - split; [|done]. transitivity (Zdigits2 (Z.pos (Pos.iter xO m d))); [by destruct s|].
    rewrite !digits_log2, iter_xO, Z.log2_mul_pow2 by lia. lia.
Qed.

Lemma digits_add a b k : (Zdigits2 a ≤ k)%Z → (Zdigits2 b ≤ k)%Z → (Zdigits2 (a + b) ≤ k + 1)%Z.
Proof.
  assert (∀ z, Zdigits2 z = Zdigits2 (Z.abs z)) as Habs by by intros [].
  assert (∀ z, (0 ≤ z)%Z → (Zdigits2 z ≤ k)%Z → z < 2 ^ Z.max k 0)%Z as Hlt.
  { intros [|p|p] Hz Hd; [lia| |lia]. rewrite digits_log2 in Hd. apply Z.log2_lt_pow2; lia. }
  intros Ha Hb. rewrite Habs in Ha, Hb |- *. pose proof (Hlt _ (Z.abs_nonneg a) Ha). pose proof (Hlt _ (Z.abs_nonneg b) Hb).
  destruct (Z.abs (a + b)) as [|p|p] eqn:E; [|rewrite digits_log2|lia].
  { assert (0 ≤ k)%Z; [|simpl; lia]. assert (0 ≤ Zdigits2 (Z.abs a))%Z by (destruct (Z.abs a); simpl; lia). lia. }
  enough (Z.log2 (Z.pos p) < Z.max k 0 + 1)%Z.
  { assert (0 ≤ Zdigits2 (Z.abs a))%Z by (destruct (Z.abs a); simpl; lia). lia. }
  apply Z.log2_lt_pow2; [lia|]. rewrite Z.pow_add_r by lia. lia.
Qed.

Lemma add_small k x y : small k x → small k y → (-1075 ≤ k < 1022)%Z → small (k + 2) (F64.add x y).
Proof.
  intros Hx Hy Hk. unfold F64.add, SFadd.
  destruct x as [sx|sx| |sx mx ex]; try done; destruct y as [sy|sy| |sy my ey]; try done; simpl in Hx, Hy.
  - by destruct sx, sy.
  - simpl. lia.
  - simpl. lia.
  - replace (k + 2)%Z with (k + 1 + 1)%Z by lia. apply normalize_spec; [|lia].
    destruct (digits_aligned sx mx ex (Z.min ex ey)) as [H1 H1']; [lia|].
    destruct (digits_aligned sy my ey (Z.min ex ey)) as [H2 H2']; [lia|].
    enough (Zdigits2 (cond_Zopp sx (Z.pos (shl_align mx ex (Z.min ex ey)).1) +
                      cond_Zopp sy (Z.pos (shl_align my ey (Z.min ex ey)).1)) ≤ k - Z.min ex ey + 1)%Z by lia.
    apply digits_add; [rewrite H1|rewrite H2]; unfold Zdigits2; lia.
Qed.

Lemma sub_opp x y : F64.sub x y = F64.add x (F64.opp y).
Proof.
  destruct x as [|[]| |sx mx ex], y as [|[]| |sy my ey]; try done; try (by destruct s, s0).
  unfold F64.sub, F64.add, SFsub, SFadd, F64.opp, SFopp. by destruct sy.
Qed.

Lemma small_opp k x : small k (F64.opp x) ↔ small k x.
Proof. by destruct x. Qed.

Lemma sub_small k x y : small k x → small k y → (-1075 ≤ k < 1022)%Z → small (k + 2) (F64.sub x y).
Proof. intros. rewrite sub_opp. apply add_small; [done|by apply small_opp|done]. Qed.

(** A sum is a NaN only when it has a NaN operand or two infinite ones. *)
Lemma add_number x y : F64.is_nan x = false → F64.is_finite y = true → F64.is_nan (F64.add x y) = false.
Proof.
  destruct x as [sx|sx| |sx mx ex], y as [sy|sy| |sy my ey]; try done; intros _ _.
  - unfold F64.add, SFadd. by destruct sx, sy.
  - unfold F64.add, SFadd. apply normalize_spec.
Qed.

Lemma finite_opp x : F64.is_finite (F64.opp x) = F64.is_finite x.
Proof. by destruct x. Qed.

Lemma sub_number x y : F64.is_nan x = false → F64.is_finite y = true → F64.is_nan (F64.sub x y) = false.
Proof. intros. rewrite sub_opp. apply add_number; [done|by rewrite finite_opp]. Qed.

Lemma add_valid x y : valid x = true → valid y = true → valid (F64.add x y) = true.
Proof.
  intros Hx Hy. destruct x as [sx|sx| |sx mx ex], y as [sy|sy| |sy my ey]; try done.
  - unfold F64.add, SFadd. by destruct sx, sy.
  - unfold F64.add, SFadd. by destruct sx, sy.
  - unfold F64.add, SFadd. apply normalize_spec.
Qed.

Lemma opp_valid x : valid (F64.opp x) = valid x.
Proof. by destruct x. Qed.

Lemma sub_valid x y : valid x = true → valid y = true → valid (F64.sub x y) = true.
Proof. intros. rewrite sub_opp. apply add_valid; [done|by rewrite opp_valid]. Qed.

(** A canonical number between two canonical bounds is as small as the bounds. *)
Lemma between_small k lo hi x : valid x = true → F64.leb lo x = true → F64.leb x hi = true →
  valid lo = true → valid hi = true → small k lo → small k hi → (-1021 ≤ k)%Z → small k x.
Proof.
  intros Hx Hl Hh Vl Vh Sl Sh Hk. apply F64.leb_key in Hl as (k1 & k2 & Kl & Kx & Hl).
  apply F64.leb_key in Hh as (k2' & k3 & Kx' & Kh & Hh). rewrite Kx in Kx'. injection Kx' as <-.
  assert (∀ s m e s' m' e', valid (S754_finite s m e) = true → valid (S754_finite s' m' e') = true →
    (e < e' ∨ e = e' ∧ Z.pos m ≤ Z.pos m')%Z → (Zdigits2 (Z.pos m') + e' ≤ k)%Z → (Zdigits2 (Z.pos m) + e ≤ k)%Z) as Hmono.
  { intros s m e s' m' e' V V' Hc Hm'. unfold valid, valid_binary, bounded, canonical_mantissa in V, V'.
    apply andb_true_iff in V as [V%Z.eqb_eq _]. apply andb_true_iff in V' as [V'%Z.eqb_eq _].
    rewrite fexp_unfold in V, V'. change (Z.pos (digits2_pos m)) with (Zdigits2 (Z.pos m)) in V.
    change (Z.pos (digits2_pos m')) with (Zdigits2 (Z.pos m')) in V'.
    destruct Hc as [Hc|[-> Hc]]; [lia|]. pose proof (digits_le (Z.pos m) (Z.pos m')). lia. }
  destruct x as [sx|sx| |sx mx ex]; simpl in Kx; simplify_eq; [done|..].
  - destruct sx, lo as [|[]| |[] ml el], hi as [|[]| |[] mh eh]; simpl in *; simplify_eq; simpl in *; lia || naive_solver lia.
  - destruct sx; simplify_eq.
    + destruct lo as [sl|[]| |[] ml el]; simpl in Kl; simplify_eq; try (destruct Hl as [Hl|Hl]; [simpl in Hl; lia|done]); try done.
      apply (Hmono _ mx ex _ ml el Hx Vl); [|done]. destruct Hl as [Hl|Hl]; [simpl in Hl; lia|]. injection Hl as ? ?. right. lia.
    + destruct hi as [sl|[]| |[] ml el]; simpl in Kh; simplify_eq; try (destruct Hh as [Hh|Hh]; [simpl in Hh; lia|done]); try done.
      apply (Hmono _ mx ex _ ml el Hx Vh); [|done]. destruct Hh as [Hh|Hh]; [simpl in Hh; lia|]. injection Hh as ? ?. right. lia.
Qed.
