(* ===== verification/GoParse.v ===== *)
(** * [strconv.ParseFloat]

    The syntax of Go's floating-point literals (decimal and hexadecimal, underscores
    between digits), the special names, and the documented result: the nearest float64,
    with an error when it would be infinite. *)

From S2P Require Import Prelude GoStrings GoFloat.

Module ParseF.

Definition lower (a : ascii) : ascii :=
  let n := N_of_ascii a in
  if ((65 <=? n) && (n <=? 90))%N then ascii_of_N (n + 32) else a.
Fixpoint lower_str (s : string) : string :=
  match s with "" => "" | String a s => String (lower a) (lower_str s) end.

(** The mantissa loop of [readFloat]: the digits read as one number, the digits after the
    point, whether a digit and an underscore were seen, and the rest. *)
Record mantissa : Set := mkMant {
  mn_value : N; mn_frac : Z; mn_digits : bool; mn_under : bool; mn_rest : string;
}.
Fixpoint read_mantissa (hex : bool) (s : string) (v : N) (frac : Z) (dot digits under : bool) : mantissa :=
  match s with
  | "" => mkMant v frac digits under ""
  | String a s' =>
      let stop := mkMant v frac digits under s in
      if Ascii.eqb a "_" then read_mantissa hex s' v frac dot digits true
      else if Ascii.eqb a "." then
        if dot then stop else read_mantissa hex s' v frac true digits under
      else
        let frac' := if dot then (frac + 1)%Z else frac in
        match digit_val a, (if hex then hex_val a else None) with
        | Some d, _ => read_mantissa hex s' (v * (if hex then 16 else 10) + d) frac' dot true under
        | None, Some d => read_mantissa hex s' (v * 16 + d) frac' dot true under
        | None, None => stop
        end
  end.

(** The exponent digits, saturating like the source's [e < 10000]. *)
Fixpoint read_exponent (s : string) (e : Z) (under : bool) : Z * bool * string :=
  match s with
  | "" => (e, under, "")
  | String a s' =>
      if Ascii.eqb a "_" then read_exponent s' e true
      else match digit_val a with
           | Some d => read_exponent s' (if (e <? 10000)%Z then e * 10 + Z.of_N d else e)%Z under
           | None => (e, under, s)
           end
  end.

(** [underscoreOK] after the sign and base prefix; [saw] is the kind of the last byte. *)
Inductive seen : Set := SawStart | SawDigit | SawUnder | SawOther.
Fixpoint underscores_ok (hex : bool) (s : string) (saw : seen) : bool :=
  match s with
  | "" => match saw with SawUnder => false | _ => true end
  | String a s =>
      if match digit_val a with Some _ => true | None => false end ||
         (hex && match hex_val a with Some _ => true | None => false end)
      then underscores_ok hex s SawDigit
      else if Ascii.eqb a "_" then
        match saw with SawDigit => underscores_ok hex s SawUnder | _ => false end
      else match saw with SawUnder => false | _ => underscores_ok hex s SawOther end
  end.

(** [m * 10^k] and [m * 2^k], rounded to nearest even. *)
Definition decimal (neg : bool) (m : positive) (k : Z) : float64 :=
  if (0 <=? k)%Z
  then binary_normalize F64.prec F64.emax (if neg then - (Z.pos m * 10 ^ k) else Z.pos m * 10 ^ k) 0 neg
  else SFdiv F64.prec F64.emax (S754_finite neg m 0) (S754_finite false (Z.to_pos (10 ^ (- k))) 0).
Definition binary (neg : bool) (m : positive) (k : Z) : float64 :=
  binary_normalize F64.prec F64.emax (if neg then Z.neg m else Z.pos m) k neg.

Definition split_sign (s : string) : bool * bool * string :=
  match s with
  | String a s' => if Ascii.eqb a "+" then (true, false, s')
                   else if Ascii.eqb a "-" then (true, true, s') else (false, false, s)
  | "" => (false, false, "")
  end.

Definition has_hex_prefix (s : string) : bool :=
  HasPrefix (lower_str s) "0x" && Nat.ltb 2 (String.length s).

(** A number without special names. *)
Definition read_float (neg : bool) (s : string) : option float64 :=
  let hex := has_hex_prefix s in
  let body := if hex then str_drop 2 s else s in
  let m := read_mantissa hex body 0 0 false false false in
  if negb (mn_digits m) then None
  else
    e ← match mn_rest m with
        | "" => if hex then None else Some (0%Z, false, "")
        | String a s' =>
            if Ascii.eqb (lower a) (if hex then "p"%char else "e"%char) then
              let '(_, eneg, ds) := split_sign s' in
              match ds with
              | String d _ =>
                  match digit_val d with
                  | Some _ => let '(e, u, rest) := read_exponent ds 0 false in
                              Some ((if eneg then - e else e)%Z, u, rest)
                  | None => None
                  end
              | "" => None
              end
            else if hex then None else Some (0%Z, false, mn_rest m)
        end;
    let '(e, under, rest) := e in
    if negb (String.eqb rest "") then None
    else if (mn_under m || under) &&
            negb (underscores_ok hex body (if hex then SawDigit else SawStart)) then None
    else
      let f := match mn_value m with
               | 0%N => S754_zero neg
               | N.pos p => if hex then binary neg p (e - 4 * mn_frac m) else decimal neg p (e - mn_frac m)
               end in
      if F64.is_inf f then None else Some f.

Definition ParseFloat (s : string) : option float64 :=
  let '(signed, neg, body) := split_sign s in
  let name := lower_str body in
  if String.eqb name "inf" || String.eqb name "infinity" then Some (S754_infinity neg)
  else if String.eqb name "nan" && negb signed then Some S754_nan
  else read_float neg body.

(** The constants of the standard library's own documentation and corner cases. *)
Example parse_samples :
  map ParseFloat ["1.5"; "0.1"; "-2e3"; "+Inf"; "nan"; "-nan"; "0x1p-2"; "1_0"; "1__0"; "1e400";
                  ".5"; "5."; "."; "1e"; ""; "0x1"; "4.9e-324"; "1e23"] =
  [Some (F64.make 3 (-1)); Some (F64.make 7205759403792794 (-56)); Some (F64.of_Z (-2000)); Some F64.inf;
   Some S754_nan; None; Some (F64.make 1 (-2)); Some (F64.of_Z 10); None; None;
   Some (F64.make 1 (-1)); Some (F64.of_Z 5); None; None; None; None; Some (F64.make 1 (-1074));
   Some (F64.make 5960464477539062 24)].
Proof. vm_compute. reflexivity. Qed.

End ParseF.
