(* ===== verification/GoMath.v ===== *)
(** * Package [math] and the printing of floats

    What the radio domain uses of the standard library beyond the arithmetic operators:
    the decimal logarithm, in the portable implementation of package [math] (the argument
    is reduced to a fraction near one, whose logarithm is a polynomial of degree seven in
    [s = f / (2 + f)]), and the ["%.1f"] verb of package [fmt]. *)

From S2P Require Import Prelude GoStrings GoFloat.

(** [math.Frexp] of a number: a fraction in [1/2, 1) and a power of two. *)
Definition Frexp (x : float64) : float64 * Z :=
  match x with
  | S754_finite s m e =>
      let d := Z.pos (digits2_pos m) in
      (F64.make (if s then Z.neg m else Z.pos m) (- d), e + d)%Z
  | _ => (x, 0%Z)
  end.

(** The coefficients of the polynomial and the two parts of [ln 2]. *)
Definition Ln2Hi : float64 := F64.make 6243314766446592 (-53).
Definition Ln2Lo : float64 := F64.make 7382048951581814 (-85).
Definition Log_L1 : float64 := F64.make 6004799503160723 (-53).
Definition Log_L2 : float64 := F64.make 7205759403686404 (-54).
Definition Log_L3 : float64 := F64.make 5146971033736025 (-54).
Definition Log_L4 : float64 := F64.make 8006390766270639 (-55).
Definition Log_L5 : float64 := F64.make 6551322304906206 (-55).
Definition Log_L6 : float64 := F64.make 5517391500461727 (-55).
Definition Log_L7 : float64 := F64.make 5331612937900612 (-55).
Definition half : float64 := F64.make 1 (-1).
Definition sqrt_half : float64 := F64.make 6369051672525773 (-53).
Definition inv_ln2 : float64 := F64.make 6497320848556798 (-52).
Definition log10_2 : float64 := F64.make 5422874305198591 (-54).

(** [math.Log]. *)
Definition Log (x : float64) : float64 :=
  if F64.is_nan x || bool_decide (x = F64.inf) then x
  else if F64.ltb x F64.zero then S754_nan
  else if F64.eqb x F64.zero then S754_infinity true
  else
    let '(f1, ki) := Frexp x in
    let '(f1, ki) := if F64.ltb f1 sqrt_half then (F64.mul f1 (F64.of_Z 2), ki - 1)%Z else (f1, ki) in
    let f := F64.sub f1 (F64.of_Z 1) in
    let k := F64.of_Z ki in
    let s := F64.div f (F64.add (F64.of_Z 2) f) in
    let s2 := F64.mul s s in
    let s4 := F64.mul s2 s2 in
    let t1 := F64.mul s2 (F64.add Log_L1 (F64.mul s4 (F64.add Log_L3 (F64.mul s4 (F64.add Log_L5 (F64.mul s4 Log_L7)))))) in
    let t2 := F64.mul s4 (F64.add Log_L2 (F64.mul s4 (F64.add Log_L4 (F64.mul s4 Log_L6)))) in
    let R := F64.add t1 t2 in
    let hfsq := F64.mul (F64.mul half f) f in
    F64.sub (F64.mul k Ln2Hi)
      (F64.sub (F64.sub hfsq (F64.add (F64.mul s (F64.add hfsq R)) (F64.mul k Ln2Lo))) f).

(** [math.Log2]: exact on the powers of two. *)
Definition Log2 (x : float64) : float64 :=
  let '(frac, exp) := Frexp x in
  if F64.eqb frac half then F64.of_Z (exp - 1)
  else F64.add (F64.mul (Log frac) inv_ln2) (F64.of_Z exp).

(** [math.Log10]. *)
Definition Log10 (x : float64) : float64 := F64.mul (Log2 x) log10_2.

(** [fmt]'s ["%.1f"]: the exact value, rounded to tenths, half to even. *)
Definition round_half_even (n d : Z) : Z :=
  let '(q, r) := Z.div_eucl n d in
  if (2 * r <? d)%Z then q else if (d <? 2 * r)%Z then (q + 1)%Z else if Z.even q then q else (q + 1)%Z.

Definition tenths (m : positive) (e : Z) : Z :=
  if (0 <=? e)%Z then (Z.pos m * 10 * 2 ^ e)%Z else round_half_even (Z.pos m * 10) (2 ^ (- e)).

Definition format_f1 (x : float64) : string :=
  let body (s : bool) (n : Z) := (if s then "-" else "") +:+ FormatUint (n / 10) +:+ "." +:+ FormatUint (n mod 10) in
  match x with
  | S754_nan => "NaN"
  | S754_infinity s => if s then "-Inf" else "+Inf"
  | S754_zero s => body s 0%Z
  | S754_finite s m e => body s (tenths m e)
  end.

Example Log10_powers : Log10 (F64.of_Z 1) = F64.zero ∧ F64.eqb (Log10 (F64.of_Z 10)) (F64.of_Z 1) = true ∧
  format_f1 (Log10 (F64.of_Z 7)) = "0.8" ∧ format_f1 (F64.mul (F64.of_Z 20) (Log10 (F64.ratio 235 10))) = "27.4".
Proof. vm_compute. done. Qed.
Example format_f1_values : format_f1 (F64.ratio (-145) 2) = "-72.5" ∧ format_f1 (F64.ratio 25 100) = "0.2" ∧
  format_f1 (F64.ratio (-1) 100) = "-0.0" ∧ format_f1 F64.inf = "+Inf".
Proof. vm_compute. done. Qed.
