(* ===== verification/GoFormat.v ===== *)
(** * Printing floats ([strconv.FormatFloat] with the shortest precision)

    The shortest digits that read back as the same float: for one to seventeen digits, the
    two decimals of that length around the value are tried, the closer one first.  The ['g']
    format prints them plainly for decimal exponents from -4 to 5, and in scientific
    notation otherwise. *)

From S2P Require Import Prelude GoStrings GoFloat GoParse.

(** The value [m * 2^e] as a fraction. *)
Definition fraction (m : positive) (e : Z) : Z * Z :=
  if (0 <=? e)%Z then (Z.pos m * 2 ^ e, 1)%Z else (Z.pos m, 2 ^ (- e))%Z.

(** [n / d * 10^k], as a fraction again. *)
Definition scale10 (n d k : Z) : Z * Z :=
  if (0 <=? k)%Z then (n * 10 ^ k, d)%Z else (n, d * 10 ^ (- k))%Z.

(** The number of digits before the decimal point ([decimalSlice.dp]): the least [dp] with
    [x < 10^dp]; [log10] is estimated from the binary exponent and corrected. *)
Fixpoint find_dp (fuel : nat) (n d dp : Z) : Z :=
  match fuel with
  | O => dp
  | S fuel =>
      let '(a, b) := scale10 n d (- dp) in
      if (b <=? a)%Z then find_dp fuel n d (dp + 1)
      else
        let '(a, b) := scale10 n d (1 - dp) in
        if (a <? b)%Z then find_dp fuel n d (dp - 1) else dp
  end.
Definition decimal_point (m : positive) (e : Z) : Z :=
  let '(n, d) := fraction m e in
  find_dp 8 n d ((Z.pos (digits2_pos m) + e) * 30103 / 100000).

(** One candidate: the digits [z] read back with [dp] in the format that [read] rounds to. *)
Definition reads_back (read : bool → positive → Z → float64) (m : positive) (e : Z) (z : Z) (len : nat) (dp : Z) : bool :=
  match z with
  | Z.pos p => bool_decide (read false p (dp - Z.of_nat len)%Z = S754_finite false m e)
  | _ => false
  end.

(** The digits and the decimal point of the shortest decimal. *)
Fixpoint shortest_from (read : bool → positive → Z → float64) (fuel : nat) (len : nat) (m : positive) (e dp : Z) : Z * nat * Z :=
  match fuel with
  | O => (0%Z, 1, dp)
  | S fuel =>
      let '(n, d) := fraction m e in
      let '(a, b) := scale10 n d (Z.of_nat len - dp) in
      let down := (a / b)%Z in
      let rest := (a mod b)%Z in
      let up_first := (b <? 2 * rest)%Z || ((b =? 2 * rest)%Z && Z.odd down) in
      let '(first, second) := if up_first then (down + 1, down)%Z else (down, down + 1)%Z in
      if reads_back read m e first len dp then (first, len, dp)
      else if reads_back read m e second len dp then (second, len, dp)
      else shortest_from read fuel (S len) m e dp
  end.

(** Trailing zeros carry no digit. *)
Fixpoint trim_zeros (fuel : nat) (z : Z) : Z :=
  match fuel with
  | O => z
  | S fuel => if (z =? 0)%Z then z else if (z mod 10 =? 0)%Z then trim_zeros fuel (z / 10) else z
  end.
Definition shortest (read : bool → positive → Z → float64) (m : positive) (e : Z) : string * Z :=
  let '(z, len, dp) := shortest_from read 17 1 m e (decimal_point m e) in
  let dp := if (Z.of_nat len <? Z.of_nat (String.length (FormatUint z)))%Z then (dp + 1)%Z else dp in
  (FormatUint (trim_zeros 18 z), dp).

Fixpoint zeros (n : nat) : string := match n with O => "" | S n => String "0" (zeros n) end.

(** [%e] and [%f] of the digits. *)
Definition format_e (digits : string) (dp : Z) : string :=
  let exp := (dp - 1)%Z in
  let mag := FormatUint (Z.abs exp) in
  String.substring 0 1 digits +:+
  (if Nat.ltb 1 (String.length digits) then "." +:+ String.substring 1 (String.length digits - 1) digits else "") +:+
  "e" +:+ (if (exp <? 0)%Z then "-" else "+") +:+ (if Nat.ltb (String.length mag) 2 then "0" +:+ mag else mag).

Definition format_f (digits : string) (dp : Z) : string :=
  let nd := String.length digits in
  if (dp <=? 0)%Z then "0." +:+ zeros (Z.to_nat (- dp)) +:+ digits
  else if (Z.of_nat nd <=? dp)%Z then digits +:+ zeros (Z.to_nat (dp - Z.of_nat nd))
  else String.substring 0 (Z.to_nat dp) digits +:+ "." +:+ String.substring (Z.to_nat dp) (nd - Z.to_nat dp) digits.

Definition format_g (read : bool → positive → Z → float64) (x : float64) : string :=
  match x with
  | S754_nan => "NaN"
  | S754_infinity s => if s then "-Inf" else "+Inf"
  | S754_zero s => if s then "-0" else "0"
  | S754_finite s m e =>
      let '(digits, dp) := shortest read m e in
      (if s then "-" else "") +:+
      (if (dp - 1 <? -4)%Z || (6 <=? dp - 1)%Z then format_e digits dp else format_f digits dp)
  end.

(** [FormatFloat(x, 'g', -1, 64)]; and with 32 bits, on a value of the 32-bit format. *)
Definition FormatFloat (x : float64) : string := format_g ParseF.decimal x.

Definition decimal32 (neg : bool) (m : positive) (k : Z) : float64 :=
  if (0 <=? k)%Z
  then binary_normalize 24 128 (if neg then - (Z.pos m * 10 ^ k) else Z.pos m * 10 ^ k) 0 neg
  else SFdiv 24 128 (S754_finite neg m 0) (S754_finite false (Z.to_pos (10 ^ (- k))) 0).
Definition FormatFloat32 (x : float64) : string := format_g decimal32 x.

(** [FormatFloat(x, 'f', prec, 64)]: the exact value rounded half to even. *)
Definition pad_zeros (n : nat) (s : string) : string := zeros (n - String.length s) +:+ s.
Definition format_fixed (prec : nat) (x : float64) : string :=
  let body (s : bool) (n : Z) :=
    let unit_ := (10 ^ Z.of_nat prec)%Z in
    (if s then "-" else "") +:+ FormatUint (n / unit_) +:+
    (if Nat.eqb prec 0 then "" else "." +:+ pad_zeros prec (FormatUint (n mod unit_))) in
  match x with
  | S754_nan => "NaN"
  | S754_infinity s => if s then "-Inf" else "+Inf"
  | S754_zero s => body s 0%Z
  | S754_finite s m e =>
      let '(n, d) := fraction m e in
      let n := (n * 10 ^ Z.of_nat prec)%Z in
      let '(q, r) := Z.div_eucl n d in
      body s (if (2 * r <? d)%Z then q else if (d <? 2 * r)%Z then (q + 1)%Z else if Z.even q then q else (q + 1)%Z)
  end.

Example FormatFloat32_values : FormatFloat32 (decimal32 false 1 (-1)) = "0.1" ∧ FormatFloat32 (decimal32 true 335 (-1)) = "-33.5" ∧
  format_fixed 2 (F64.ratio 1234 100) = "12.34" ∧ format_fixed 0 (F64.ratio 5 2) = "2" ∧ format_fixed 3 (F64.ratio (-1) 1000) = "-0.001".
Proof. vm_compute. done. Qed.

Example FormatFloat_values :
  FormatFloat <$> [F64.ratio (-145) 2; F64.of_Z 20; F64.ratio 1 10; F64.ratio 235 10; F64.ratio 1 3; F64.ratio 1 100000; F64.of_Z 1000000; F64.make 1 70]
  = ["-72.5"; "20"; "0.1"; "23.5"; "0.3333333333333333"; "1e-05"; "1e+06"; "1.1805916207174113e+21"].
Proof. vm_compute. reflexivity. Qed.
