(* ===== verification/GoValue.v ===== *)
(** * Leaf values: the Go [any] the datastores hold

    A datastore maps a path to a Go interface value.  [value] has one constructor
    per leaf type the store supports and [VOther] for a dynamic value that is no
    scalar (a slice, a map, nil), which the store rejects; the integer and float types
    no leaf has (int64, uint, float32, ...) are not represented.  Integers are [Z] within the
    range of their Go type ([value_wf]). *)

From S2P Require Import Prelude GoStrings GoFloat.

(** The leaf kinds of [internal/store/persist.go] and [internal/router/schema.go]. *)
Inductive LeafKind : Set :=
  | KBool | KInt | KUint8 | KUint16 | KUint32 | KUint64 | KFloat64 | KString.

Global Instance LeafKind_eq_dec : EqDecision LeafKind.
Proof. solve_decision. Defined.

Inductive value : Set :=
  | VBool (b : bool)
  | VInt (z : Z)
  | VUint8 (z : Z)
  | VUint16 (z : Z)
  | VUint32 (z : Z)
  | VUint64 (z : Z)
  | VFloat64 (f : float64)
  | VString (s : string)
  | VOther (typename : string).

Global Instance value_eq_dec : EqDecision value.
Proof. solve_decision. Defined.

(** [leafKindOf]: the kind of a supported leaf value. *)
Definition leafKindOf (v : value) : option LeafKind :=
  match v with
  | VBool _ => Some KBool
  | VInt _ => Some KInt
  | VUint8 _ => Some KUint8
  | VUint16 _ => Some KUint16
  | VUint32 _ => Some KUint32
  | VUint64 _ => Some KUint64
  | VFloat64 _ => Some KFloat64
  | VString _ => Some KString
  | VOther _ => None
  end.

Definition is_leaf (v : value) : bool :=
  match leafKindOf v with Some _ => true | None => false end.

(** ** Machine integers *)

Definition u8 (z : Z) : Z := (z mod 2 ^ 8)%Z.
Definition u16 (z : Z) : Z := (z mod 2 ^ 16)%Z.
Definition u32 (z : Z) : Z := (z mod 2 ^ 32)%Z.
Definition u64 (z : Z) : Z := (z mod 2 ^ 64)%Z.

Definition in_u (bits : Z) (z : Z) : Prop := (0 ≤ z < 2 ^ bits)%Z.
Global Instance in_u_dec bits z : Decision (in_u bits z).
Proof. unfold in_u. apply _. Defined.

(** A value is within the range of its Go type. *)
Definition value_wf (v : value) : Prop :=
  match v with
  | VInt z => (- 2 ^ 63 ≤ z < 2 ^ 63)%Z
  | VUint8 z => in_u 8 z
  | VUint16 z => in_u 16 z
  | VUint32 z => in_u 32 z
  | VUint64 z => in_u 64 z
  | VOther _ => False
  | _ => True
  end.
Global Instance value_wf_dec v : Decision (value_wf v).
Proof. destruct v; simpl; apply _. Defined.

Lemma value_wf_leaf v : value_wf v → is_leaf v = true.
Proof. by destruct v. Qed.

(** ** Go's [==] on leaf values

    Two interface values are equal when their dynamic types and values are: a
    NaN differs from itself and the two zeros are equal. *)
Definition value_eqb (a b : value) : bool :=
  match a, b with
  | VBool x, VBool y => Bool.eqb x y
  | VInt x, VInt y | VUint8 x, VUint8 y | VUint16 x, VUint16 y
  | VUint32 x, VUint32 y | VUint64 x, VUint64 y => (x =? y)%Z
  | VFloat64 x, VFloat64 y => F64.eqb x y
  | VString x, VString y => String.eqb x y
  | VOther x, VOther y => String.eqb x y
  | _, _ => false
  end.

(** Values on which [==] is Leibniz equality of the stored bits: no NaN and no
    negative zero. *)
Definition plain (v : value) : Prop :=
  match v with
  | VFloat64 f => F64.is_nan f = false ∧ f ≠ S754_zero true
  | _ => True
  end.
Global Instance plain_dec v : Decision (plain v).
Proof. destruct v; simpl; apply _. Defined.

Lemma F64_eqb_eq x y :
  F64.is_nan x = false → x ≠ S754_zero true → y ≠ S754_zero true →
  F64.eqb x y = true ↔ x = y.
Proof.
  intros Hn Hx Hy. unfold F64.eqb, SFeqb.
  destruct x as [[]|[]| |[] mx ex], y as [[]|[]| |[] my ey]; simpl; try done.
  - destruct (Z.compare_spec ex ey) as [->|H|H]; [|split; [done|intros [= _ ?]; lia]..].
    change (Pos.compare_cont Eq mx my) with (Pos.compare mx my).
    destruct (Pos.compare_spec mx my) as [->|H|H]; simpl; [done|split; [done|intros [= ?]; lia]..].
  - destruct (Z.compare_spec ex ey) as [->|H|H]; [|split; [done|intros [= _ ?]; lia]..].
    change (Pos.compare_cont Eq mx my) with (Pos.compare mx my).
    destruct (Pos.compare_spec mx my) as [->|H|H]; simpl; [done|split; [done|intros [= ?]; lia]..].
Qed.

Lemma value_eqb_eq a b : plain a → plain b → value_eqb a b = true ↔ a = b.
Proof.
  destruct a, b; simpl; try done; intros Ha Hb;
    rewrite ?Bool.eqb_true_iff, ?Z.eqb_eq, ?String.eqb_eq; try (split; congruence).
  destruct Ha, Hb. rewrite F64_eqb_eq by done. split; congruence.
Qed.

Lemma value_eqb_refl v : plain v → value_eqb v v = true.
Proof. intros H. by apply value_eqb_eq. Qed.

(** ** Time

    [time.Time] is the number of nanoseconds since Go's zero time, so [IsZero] is
    a test against 0; [time.Duration] is an int64 number of nanoseconds. *)
Abbreviation time := Z.
Abbreviation duration := Z.

Definition second : duration := 1000000000%Z.
Definition is_zero_time (t : time) : bool := (t =? 0)%Z.

(** [t.Sub(u)] saturates at the range of a Duration. *)
Definition time_sub (t u : time) : duration :=
  Z.max (- 2 ^ 63) (Z.min (2 ^ 63 - 1) (t - u))%Z.

(** ** Contexts: a request context is live or already cancelled. *)
Abbreviation context := bool.
Definition ctx_err (ctx : context) : res unit := check ctx [CtxCanceled].
