(* ===== verification/GoNet.v ===== *)
(** * [net.ParseMAC]

    The Standard Library parser of hardware addresses: six, eight or twenty octets
    written [02:00:5e:10:00:01], [02-00-...] or [0200.5e10.0001]. *)

From S2P Require Import Prelude GoStrings.

(** [s[i]], within bounds. *)
Definition byte_at (s : string) (i : nat) : option ascii := String.get i s.

(** [xtoi2]: two hexadecimal digits, followed by the end or by [e]. *)
Definition xtoi2 (s : string) (e : ascii) : option N :=
  match s with
  | String a (String b rest) =>
      let ok := match rest with "" => true | String c _ => Ascii.eqb c e end in
      if ok then hi ← hex_val a; lo ← hex_val b; Some (hi * 16 + lo)%N else None
  | _ => None
  end.

(** The [n] groups of two digits, three bytes apart. *)
Fixpoint mac_pairs (n : nat) (s : string) (sep : ascii) : option (list N) :=
  match n with
  | 0 => Some []
  | S n =>
      o ← xtoi2 s sep;
      rest ← mac_pairs n (str_drop 3 s) sep;
      Some (o :: rest)
  end.

(** The [n] groups of four digits, five bytes apart. *)
Fixpoint mac_quads (n : nat) (s : string) : option (list N) :=
  match n with
  | 0 => Some []
  | S n =>
      o1 ← xtoi2 (str_take 2 s) "000";
      o2 ← xtoi2 (str_drop 2 s) ".";
      rest ← mac_quads n (str_drop 5 s);
      Some (o1 :: o2 :: rest)
  end.

Definition mac_length (n : nat) : bool := Nat.eqb n 6 || Nat.eqb n 8 || Nat.eqb n 20.

(** [net.ParseMAC]; [None] is the error. *)
Definition ParseMAC (s : string) : option (list N) :=
  let len := String.length s in
  if Nat.ltb len 14 then None
  else
    let c2 := default "000"%char (byte_at s 2) in
    let c4 := default "000"%char (byte_at s 4) in
    if Ascii.eqb c2 ":" || Ascii.eqb c2 "-" then
      if negb (Nat.eqb ((len + 1) mod 3) 0) then None
      else
        let n := (len + 1) / 3 in
        if mac_length n then mac_pairs n s c2 else None
    else if Ascii.eqb c4 "." then
      if negb (Nat.eqb ((len + 1) mod 5) 0) then None
      else
        let n := 2 * (len + 1) / 5 in
        if mac_length n then mac_quads (n / 2) s else None
    else None.

(** ** Lemmas *)

Lemma hex_val_range a d : hex_val a = Some d → (d < 16)%N.
Proof.
  unfold hex_val. intros H. repeat case_match; simplify_eq; rewrite ?andb_true_iff, ?N.leb_le in *; lia.
Qed.

Lemma xtoi2_range s e o : xtoi2 s e = Some o → (o < 256)%N.
Proof.
  unfold xtoi2. destruct s as [|a [|b rest]]; [done..|].
  destruct (match rest with "" => true | String c _ => Ascii.eqb c e end); [|done].
  destruct (hex_val a) as [hi|] eqn:Ha; simpl; [|done].
  destruct (hex_val b) as [lo|] eqn:Hb; simpl; [|done]. intros [= <-].
  apply hex_val_range in Ha, Hb. lia.
Qed.

Lemma mac_pairs_spec n s sep l :
  mac_pairs n s sep = Some l → length l = n ∧ Forall (λ o, (o < 256)%N) l.
Proof.
  revert s l. induction n as [|n IH]; intros s l; cbn [mac_pairs mac_quads]; [by intros [= <-]|].
  destruct (xtoi2 s sep) as [o|] eqn:Ho; [|done]; cbn [mbind option_bind].
  destruct (mac_pairs n (str_drop 3 s) sep) as [r|] eqn:Hr; simpl; [|done]. intros [= <-].
  apply IH in Hr as [<- ?]. split; [done|]. constructor; [by eapply xtoi2_range|done].
Qed.

Lemma mac_quads_spec n s l :
  mac_quads n s = Some l → length l = 2 * n ∧ Forall (λ o, (o < 256)%N) l.
Proof.
  revert s l. induction n as [|n IH]; intros s l; cbn [mac_pairs mac_quads]; [by intros [= <-]|].
  destruct (xtoi2 (str_take 2 s) "000") as [o1|] eqn:H1; [|done]; cbn [mbind option_bind].
  destruct (xtoi2 (str_drop 2 s) ".") as [o2|] eqn:H2; [|done]; cbn [mbind option_bind].
  destruct (mac_quads n (str_drop 5 s)) as [r|] eqn:Hr; simpl; [|done]. intros [= <-].
  apply IH in Hr as [Hl ?]. split; [simpl; lia|].
  repeat constructor; [by eapply xtoi2_range|by eapply xtoi2_range|done].
Qed.

Lemma ParseMAC_spec s l :
  ParseMAC s = Some l → mac_length (length l) = true ∧ Forall (λ o, (o < 256)%N) l.
Proof.
  unfold ParseMAC. destruct (Nat.ltb _ 14); [done|].
  destruct (_ || _).
  - destruct (negb _); [done|]. destruct (mac_length ((String.length s + 1) / 3)) eqn:E; [|done].
    intros [Hl Hf]%mac_pairs_spec. by rewrite Hl.
  - destruct (Ascii.eqb _ "."); [|done]. destruct (negb _); [done|].
    set (n := (2 * (String.length s + 1) / 5)).
    destruct (mac_length n) eqn:E; [|done]. intros [Hl Hf]%mac_quads_spec. rewrite Hl. split; [|done].
    unfold mac_length in E. apply orb_true_iff in E as [[E|E]%orb_true_iff|E];
      apply Nat.eqb_eq in E; by rewrite E.
Qed.

(** ** [net.HardwareAddr.String] *)

Definition hex_digit (n : N) : ascii :=
  match String.get (N.to_nat n) "0123456789abcdef" with Some c => c | None => "0"%char end.
Definition hex_byte (n : N) : string := String (hex_digit (n / 16)) (String (hex_digit (n mod 16)) "").

Fixpoint HardwareAddr_String (l : list N) : string :=
  match l with
  | [] => ""
  | [o] => hex_byte o
  | o :: l => hex_byte o +:+ ":" +:+ HardwareAddr_String l
  end.

Lemma hex_digit_val n : (n < 16)%N → hex_val (hex_digit n) = Some n.
Proof.
  intros Hn. assert (forallb (λ n, bool_decide (hex_val (hex_digit n) = Some n)) (N.of_nat <$> seq 0 16) = true) as H
    by reflexivity.
  rewrite forallb_forall in H. apply (bool_decide_eq_true (hex_val (hex_digit n) = Some n)), H.
  apply in_map_iff. exists (N.to_nat n). split; [lia|]. apply in_seq. lia.
Qed.

Lemma hex_byte_val o rest e : (o < 256)%N →
  match rest with "" => true | String c _ => Ascii.eqb c e end = true →
  xtoi2 (hex_byte o +:+ rest) e = Some o.
Proof.
  intros Ho Hrest. cbn [hex_byte String.append xtoi2]. rewrite Hrest.
  rewrite !hex_digit_val by (first [apply N.Div0.div_lt_upper_bound; lia|apply N.mod_lt; lia]).
  simpl. f_equal. rewrite (N.div_mod o 16) at 3 by done. lia.
Qed.

Lemma HardwareAddr_String_length l : l ≠ [] → String.length (HardwareAddr_String l) + 1 = 3 * length l.
Proof.
  induction l as [|o [|o' l] IH]; [done|done|]. intros _.
  change (HardwareAddr_String (o :: o' :: l)) with (hex_byte o +:+ ":" +:+ HardwareAddr_String (o' :: l)).
  rewrite !str_length_app. specialize (IH ltac:(done)). cbn [length String.length hex_byte] in *. lia.
Qed.

Lemma mac_pairs_String l : Forall (λ o, (o < 256)%N) l →
  mac_pairs (length l) (HardwareAddr_String l) ":" = Some l.
Proof.
  induction 1 as [|o [|o' l] Ho Hl IH]; [done|..].
  - cbn [length mac_pairs HardwareAddr_String].
    rewrite <- (str_app_nil_r (hex_byte o)), hex_byte_val by done. done.
  - change (HardwareAddr_String (o :: o' :: l)) with (hex_byte o +:+ ":" +:+ HardwareAddr_String (o' :: l)).
    change (length (o :: o' :: l)) with (S (length (o' :: l))).
    cbn [mac_pairs]. rewrite hex_byte_val by done. cbn [mbind option_bind].
    change (str_drop 3 (hex_byte o +:+ ":" +:+ HardwareAddr_String (o' :: l))) with (HardwareAddr_String (o' :: l)).
    by rewrite IH.
Qed.

(** An address reads back as it was printed. *)
Lemma ParseMAC_String l : mac_length (length l) = true → Forall (λ o, (o < 256)%N) l →
  ParseMAC (HardwareAddr_String l) = Some l.
Proof.
  intros Hl Hf. assert (l ≠ []) as Hne by (by destruct l).
  pose proof (HardwareAddr_String_length l Hne) as Hlen.
  assert (6 ≤ length l) as H6.
  { unfold mac_length in Hl. rewrite !orb_true_iff, !Nat.eqb_eq in Hl. lia. }
  unfold ParseMAC. set (s := HardwareAddr_String l) in *.
  rewrite (proj2 (Nat.ltb_ge _ 14)) by lia.
  assert (byte_at s 2 = Some ":"%char) as ->.
  { unfold s. destruct l as [|o [|o' l]]; [done|simpl in H6; lia|done]. }
  cbn [default]. rewrite Hlen.
  replace ((3 * length l) mod 3) with 0 by (rewrite Nat.mul_comm; symmetry; apply Nat.Div0.mod_mul).
  replace ((3 * length l) / 3) with (length l) by (rewrite Nat.mul_comm; symmetry; by apply Nat.div_mul).
  cbn [Nat.eqb negb Ascii.eqb orb Bool.eqb]. simpl. rewrite Hl. by apply mac_pairs_String.
Qed.
