(* ===== verification/Persist.v ===== *)
(** * Persistence of the startup datastore ([internal/store/persist.go])

    The startup document is a version number and a map from path to a typed leaf.
    The JSON text is modelled by its syntax tree: a scalar is a boolean, an integer
    literal, another number literal (by the float it denotes), a string or null.
    What [encoding/json] does to values is kept: it refuses NaN and the infinities,
    replaces invalid UTF-8 by U+FFFD, range-checks integers and reads null as the
    zero value.

    The file system is a map from path to content together with the set of
    directories.  A fault argument selects the system call that fails, and the
    operations return every intermediate file-system state, so a crash between two
    system calls can be reasoned about. *)

From S2P Require Import Prelude GoStrings GoFloat GoValue.

(** ** UTF-8 *)

Definition byte_in (a : ascii) (lo hi : N) : bool :=
  let n := N_of_ascii a in ((lo <=? n) && (n <=? hi))%N.
Definition is_cont (a : ascii) : bool := byte_in a 128 191.

(** Size in bytes of the well-formed encoding that starts [s], if there is one. *)
Definition utf8_size (s : string) : option nat :=
  match s with
  | EmptyString => None
  | String a s1 =>
      if byte_in a 0 127 then Some 1
      else match s1 with
      | EmptyString => None
      | String b s2 =>
          if byte_in a 194 223 && is_cont b then Some 2
          else match s2 with
          | EmptyString => None
          | String c s3 =>
              if is_cont c &&
                 ((byte_in a 224 224 && byte_in b 160 191) ||
                  (byte_in a 225 236 && is_cont b) ||
                  (byte_in a 237 237 && byte_in b 128 159) ||
                  (byte_in a 238 239 && is_cont b)) then Some 3
              else match s3 with
              | EmptyString => None
              | String d _ =>
                  if is_cont c && is_cont d &&
                     ((byte_in a 240 240 && byte_in b 144 191) ||
                      (byte_in a 241 243 && is_cont b) ||
                      (byte_in a 244 244 && byte_in b 128 143)) then Some 4
                  else None
              end
          end
      end
  end.

Definition replacement : string := bytes_str [239; 191; 189].

(** What [encoding/json] writes for a string: invalid bytes become U+FFFD. *)
Fixpoint utf8_coerce_aux (fuel : nat) (s : string) : string :=
  match fuel, s with
  | S fuel, String _ rest =>
      match utf8_size s with
      | Some n => str_take n s +:+ utf8_coerce_aux fuel (str_drop n s)
      | None => replacement +:+ utf8_coerce_aux fuel rest
      end
  | _, _ => EmptyString
  end.
Definition utf8_coerce (s : string) : string := utf8_coerce_aux (String.length s) s.

Fixpoint utf8_valid_aux (fuel : nat) (s : string) : bool :=
  match fuel, s with
  | _, EmptyString => true
  | S fuel, _ =>
      match utf8_size s with
      | Some n => utf8_valid_aux fuel (str_drop n s)
      | None => false
      end
  | O, _ => false
  end.
Definition utf8_valid (s : string) : bool := utf8_valid_aux (String.length s) s.

(** ** The JSON document *)

Inductive json : Set :=
  | JNull
  | JBool (b : bool)
  | JInt (z : Z)          (* an integer literal *)
  | JReal (f : float64)   (* any other number literal, by the float it denotes *)
  | JString (s : string)
  | JCompound.            (* an object, an array, or a missing value *)

Record diskLeaf : Set := mkDiskLeaf { dl_Kind : string; dl_Value : json }.
Record diskFile : Set := mkDiskFile { df_Version : Z; df_Values : gmap string diskLeaf }.

Definition fileVersion : Z := 1.

(** The kind names written next to a value. *)
Definition kindName (k : LeafKind) : string :=
  match k with
  | KBool => "bool" | KInt => "int" | KUint8 => "uint8" | KUint16 => "uint16"
  | KUint32 => "uint32" | KUint64 => "uint64" | KFloat64 => "float64" | KString => "string"
  end.

Definition kindOfName (s : string) : option LeafKind :=
  if String.eqb s "bool" then Some KBool
  else if String.eqb s "int" then Some KInt
  else if String.eqb s "uint8" then Some KUint8
  else if String.eqb s "uint16" then Some KUint16
  else if String.eqb s "uint32" then Some KUint32
  else if String.eqb s "uint64" then Some KUint64
  else if String.eqb s "float64" then Some KFloat64
  else if String.eqb s "string" then Some KString
  else None.

(** [json.Marshal] of a leaf value. *)
Definition json_marshal (v : value) : res json :=
  match v with
  | VBool b => Ok (JBool b)
  | VInt z | VUint8 z | VUint16 z | VUint32 z | VUint64 z => Ok (JInt z)
  | VFloat64 f =>
      if F64.is_finite f then Ok (JReal f) else Err [Anon "json: unsupported value"]
  | VString s => Ok (JString (utf8_coerce s))
  | VOther _ => Err [Anon "json: unsupported type"]
  end.

(** [json.Unmarshal] into an integer variable with the given range. *)
Definition json_int (lo hi : Z) (j : json) : res Z :=
  let range z := if ((lo <=? z) && (z <? hi))%Z then Ok z else Err [Anon "json: out of range"] in
  match j with
  | JNull => Ok 0%Z
  | JInt z => range z
  | JReal f =>
      match F64.to_Z_exact f with
      | Some z => if (Z.abs z <=? 2 ^ 53)%Z then range z else Err [Anon "json: not an integer"]
      | None => Err [Anon "json: not an integer"]
      end
  | _ => Err [Anon "json: cannot unmarshal"]
  end.

(** [decodeLeaf]: the typed value of one on-disk leaf. *)
Definition decodeLeaf (leaf : diskLeaf) : res value :=
  match kindOfName (dl_Kind leaf) with
  | Some KBool =>
      match dl_Value leaf with
      | JBool b => Ok (VBool b) | JNull => Ok (VBool false)
      | _ => Err [Anon "json: cannot unmarshal"]
      end
  | Some KInt => z ← json_int (- 2 ^ 63) (2 ^ 63) (dl_Value leaf); Ok (VInt z)
  | Some KUint8 => z ← json_int 0 (2 ^ 8) (dl_Value leaf); Ok (VUint8 z)
  | Some KUint16 => z ← json_int 0 (2 ^ 16) (dl_Value leaf); Ok (VUint16 z)
  | Some KUint32 => z ← json_int 0 (2 ^ 32) (dl_Value leaf); Ok (VUint32 z)
  | Some KUint64 => z ← json_int 0 (2 ^ 64) (dl_Value leaf); Ok (VUint64 z)
  | Some KFloat64 =>
      match dl_Value leaf with
      | JReal f => Ok (VFloat64 f)
      | JInt z => if F64.is_finite (F64.of_Z z) then Ok (VFloat64 (F64.of_Z z))
                  else Err [Anon "json: out of range"]
      | JNull => Ok (VFloat64 F64.zero)
      | _ => Err [Anon "json: cannot unmarshal"]
      end
  | Some KString =>
      match dl_Value leaf with
      | JString s => Ok (VString s) | JNull => Ok (VString "")
      | _ => Err [Anon "json: cannot unmarshal"]
      end
  | None => Err [StoreErrInvalidValue]
  end.

(** One leaf of the document [Save] builds. *)
Definition encodeLeaf (v : value) : res diskLeaf :=
  match leafKindOf v with
  | None => Err [StoreErrInvalidValue]
  | Some k => raw ← json_marshal v; Ok (mkDiskLeaf (kindName k) raw)
  end.

(** ** The file system *)

Inductive content : Set :=
  | CDoc (d : diskFile)   (* a complete JSON document *)
  | CBroken.              (* anything [json.Unmarshal] refuses, e.g. a truncated write *)

Record FS : Set := mkFS { fs_files : gmap string content; fs_dirs : gset string }.

Definition fs_put (fs : FS) (p : string) (c : content) : FS :=
  mkFS (<[p := c]> (fs_files fs)) (fs_dirs fs).
Definition fs_del (fs : FS) (p : string) : FS := mkFS (delete p (fs_files fs)) (fs_dirs fs).
Definition fs_rename (fs : FS) (old new : string) (c : content) : FS :=
  mkFS (<[new := c]> (delete old (fs_files fs))) (fs_dirs fs).

Inductive io_fault : Set :=
  | FaultOpen | FaultWrite | FaultSync | FaultClose | FaultRename | FaultSyncDir | FaultRead.

Global Instance io_fault_eq_dec : EqDecision io_fault.
Proof. solve_decision. Defined.

Definition tmp_of (path : string) : string := path +:+ ".tmp".

(** [writeFileAtomic]: the outcome and the states the file system goes through,
    oldest first. *)
Definition writeFileAtomic (fs : FS) (path : string) (data : content) (fault : option io_fault)
    : res unit * list FS :=
  if bool_decide (path ∈ fs_dirs fs) then (Err [Anon "target is a directory"], [fs])
  else
    let tmp := tmp_of path in
    if bool_decide (tmp ∈ fs_dirs fs) || bool_decide (fault = Some FaultOpen)
    then (Err [Anon "create temporary file"], [fs])
    else
      let fs1 := fs_put fs tmp CBroken in
      if bool_decide (fault = Some FaultWrite)
      then (Err [Anon "write temporary file"], [fs; fs1; fs_del fs1 tmp])
      else
        let fs2 := fs_put fs tmp data in
        if bool_decide (fault = Some FaultSync)
        then (Err [Anon "sync temporary file"], [fs; fs1; fs2; fs_del fs2 tmp])
        else if bool_decide (fault = Some FaultClose)
        then (Err [Anon "close temporary file"], [fs; fs1; fs2; fs_del fs2 tmp])
        else if bool_decide (fault = Some FaultRename)
        then (Err [Anon "rename temporary file"], [fs; fs1; fs2; fs_del fs2 tmp])
        else
          let fs3 := fs_rename fs2 tmp path data in
          if bool_decide (fault = Some FaultSyncDir)
          then (Err [Anon "sync directory"], [fs; fs1; fs2; fs3])
          else (Ok tt, [fs; fs1; fs2; fs3]).

Definition last_fs (fs : FS) (trace : list FS) : FS := List.last trace fs.

Fixpoint encode_values (l : list (string * value)) : res (list (string * diskLeaf)) :=
  match l with
  | [] => Ok []
  | (p, v) :: l =>
      leaf ← encodeLeaf v;
      rest ← encode_values l;
      Ok ((p, leaf) :: rest)
  end.

(** The text [json.MarshalIndent] writes for the map: keys are sorted and coerced
    to UTF-8; a key written twice keeps the last value when it is read back. *)
Definition doc_of (leaves : list (string * diskLeaf)) : diskFile :=
  mkDiskFile fileVersion
    (foldl (λ m kv, <[utf8_coerce kv.1 := kv.2]> m) ∅ leaves).

(** [Save]. *)
Definition Save (ctx : context) (fs : FS) (path : string) (values : gmap string value)
    (fault : option io_fault) : res unit * list FS :=
  match ctx_err ctx with
  | Err e => (Err e, [fs])
  | Ok _ =>
      if String.eqb path "" then (Err [Anon "store: save: path is empty"], [fs])
      else match encode_values (map_to_list values) with
      | Err e => (Err e, [fs])
      | Ok leaves => writeFileAtomic fs path (CDoc (doc_of leaves)) fault
      end
  end.

Fixpoint decode_values (l : list (string * diskLeaf)) : res (list (string * value)) :=
  match l with
  | [] => Ok []
  | (p, leaf) :: l =>
      v ← decodeLeaf leaf;
      rest ← decode_values l;
      Ok ((p, v) :: rest)
  end.

(** [Load]. *)
Definition Load (ctx : context) (fs : FS) (path : string) (fault : option io_fault)
    : res (gmap string value) :=
  _ ← ctx_err ctx;
  if String.eqb path "" then Err [Anon "store: load: path is empty"]
  else if bool_decide (path ∈ fs_dirs fs) || bool_decide (fault = Some FaultRead)
  then Err [Anon "read startup file"]
  else match fs_files fs !! path with
  | None => Ok ∅
  | Some CBroken => Err [Anon "json: syntax error"]
  | Some (CDoc doc) =>
      if negb (df_Version doc =? fileVersion)%Z then Err [Anon "unsupported version"]
      else l ← decode_values (map_to_list (df_Values doc));
           Ok (list_to_map l)
  end.

(** ** Lemmas *)

Lemma kindOfName_kindName k : kindOfName (kindName k) = Some k.
Proof. by destruct k. Qed.

Lemma str_take_drop n s : str_take n s +:+ str_drop n s = s.
Proof. revert n; induction s as [|a s IH]; intros [|n]; simpl; [done..|by rewrite IH]. Qed.

Lemma utf8_coerce_valid s : utf8_valid s = true → utf8_coerce s = s.
Proof.
  unfold utf8_valid, utf8_coerce. generalize (String.length s) as n.
  intros n; revert s. induction n as [|n IH]; intros s; [by destruct s|].
  destruct s as [|a s]; [done|].
  cbn [utf8_valid_aux utf8_coerce_aux]. destruct (utf8_size (String a s)) as [k|]; [|done].
  intros H. rewrite (IH _ H). apply str_take_drop.
Qed.

(** A value the startup document can hold without loss: in the range of its type,
    a finite float, a valid UTF-8 string. *)
Definition storable (v : value) : Prop :=
  value_wf v ∧
  match v with
  | VFloat64 f => F64.is_finite f = true
  | VString s => utf8_valid s = true
  | _ => True
  end.
Global Instance storable_dec v : Decision (storable v).
Proof. unfold storable. destruct v; apply _. Defined.

Lemma json_int_roundtrip lo hi z : (lo ≤ z < hi)%Z → json_int lo hi (JInt z) = Ok z.
Proof.
  intros H. unfold json_int. destruct (Z.leb_spec lo z), (Z.ltb_spec z hi); simpl; try done; lia.
Qed.

Lemma leaf_roundtrip v : storable v → ∃ leaf, encodeLeaf v = Ok leaf ∧ decodeLeaf leaf = Ok v.
Proof.
  intros [Hwf Hs]. unfold encodeLeaf.
  destruct v; try done.
  1-6: eexists; split; [done|]; unfold decodeLeaf; cbn -[json_int Z.pow];
       by rewrite ?json_int_roundtrip by done.
  - simpl. rewrite Hs. simpl. by eexists.
  - eexists; split; [done|]. unfold decodeLeaf; simpl. by rewrite utf8_coerce_valid.
Qed.

Lemma encode_values_spec l :
  Forall (λ kv, storable kv.2) l →
  ∃ l', encode_values l = Ok l' ∧
        Forall2 (λ kv kl, kv.1 = kl.1 ∧ decodeLeaf kl.2 = Ok kv.2) l l'.
Proof.
  induction 1 as [|[p v] l Hv _ (l' & IH & Hl)]; simpl; [eauto|].
  destruct (leaf_roundtrip v Hv) as (leaf & -> & Hd). simpl. rewrite IH. simpl.
  eexists; split; [done|]. by constructor.
Qed.

Lemma decode_values_spec l l' :
  Forall2 (λ kl kv, kl.1 = kv.1 ∧ decodeLeaf kl.2 = Ok kv.2) l l' →
  decode_values l = Ok l'.
Proof.
  induction 1 as [|[p leaf] [q v] l l' [? Hd] _ IH]; simpl in *; [done|].
  subst. rewrite Hd. simpl. rewrite IH. done.
Qed.

Lemma doc_of_values l :
  Forall (λ kl, utf8_valid kl.1 = true) l → NoDup l.*1 →
  df_Values (doc_of l) = list_to_map l.
Proof.
  intros Hv Hnd. unfold doc_of; simpl.
  assert (∀ m : gmap string diskLeaf, (∀ k, k ∈ l.*1 → m !! k = None) →
    foldl (λ m kv, <[utf8_coerce kv.1 := kv.2]> m) m l = list_to_map l ∪ m) as H.
  { induction l as [|[k x] l IH]; intros m Hm; simpl; [by rewrite (left_id_L ∅ _)|].
    apply Forall_cons in Hv as [Hk Hv]. apply NoDup_cons in Hnd as [Hnk Hnd]. simpl in *.
    rewrite utf8_coerce_valid by done. rewrite IH; [|done|done|].
    - rewrite <- insert_union_l, insert_union_r; [done|].
      by apply not_elem_of_list_to_map_1.
    - intros k' Hk'. rewrite lookup_insert_ne by (intros ->; done).
      apply Hm. by apply list_elem_of_further. }
  rewrite H by done. by rewrite (right_id_L ∅ _).
Qed.

(** Every state [writeFileAtomic] goes through holds, at the target, the old
    content or the complete new one. *)
Definition atomic_state (fs : FS) (path : string) (data : content) (st : FS) : Prop :=
  (fs_files st !! path = fs_files fs !! path ∨ fs_files st !! path = Some data) ∧
  (∀ q, q ≠ path → q ≠ tmp_of path → fs_files st !! q = fs_files fs !! q) ∧
  fs_dirs st = fs_dirs fs.

Lemma tmp_of_ne path : tmp_of path ≠ path.
Proof.
  unfold tmp_of. intros H. apply (f_equal String.length) in H.
  rewrite str_length_app in H. simpl in H. lia.
Qed.

Lemma writeFileAtomic_atomic fs path data fault r trace :
  writeFileAtomic fs path data fault = (r, trace) →
  Forall (atomic_state fs path data) trace.
Proof.
  pose proof (tmp_of_ne path) as Hne.
  assert (atomic_state fs path data fs) as H0 by (split_and!; auto).
  assert (∀ c, atomic_state fs path data (fs_put fs (tmp_of path) c)) as H1.
  { intros c. split_and!; simpl; [left; by rewrite lookup_insert_ne| |done].
    intros q _ ?. by rewrite lookup_insert_ne. }
  assert (∀ c, atomic_state fs path data (fs_del (fs_put fs (tmp_of path) c) (tmp_of path))) as H2.
  { intros c. split_and!; simpl; [left; by rewrite lookup_delete_ne, lookup_insert_ne| |done].
    intros q _ ?. by rewrite lookup_delete_ne, lookup_insert_ne. }
  assert (atomic_state fs path data
            (fs_rename (fs_put fs (tmp_of path) data) (tmp_of path) path data)) as H3.
  { split_and!; simpl; [right; by rewrite lookup_insert_eq| |done].
    intros q ??. by rewrite lookup_insert_ne, lookup_delete_ne, lookup_insert_ne. }
  unfold writeFileAtomic. repeat case_match; intros [= <- <-];
    repeat first [apply Forall_nil_2 | apply Forall_cons_2; [by auto|]].
Qed.

(** Without a fault the target holds the new content; a failure before the rename
    leaves it unchanged. *)
Lemma writeFileAtomic_final fs path data fault r trace :
  writeFileAtomic fs path data fault = (r, trace) →
  fs_files (last_fs fs trace) !! path =
    (if bool_decide (r = Ok tt ∨
                     r = Err [Anon "sync directory"]) then Some data else fs_files fs !! path).
Proof.
  pose proof (tmp_of_ne path) as Hne. unfold writeFileAtomic, last_fs. intros E.
  case_if_in E; injection E as <- <-; simpl;
    by rewrite ?lookup_insert_eq, ?lookup_delete_ne, ?lookup_insert_ne.
Qed.

(** A document built from the encoded leaves decodes to the values. *)
Lemma doc_decode values l :
  map_Forall (λ p v, utf8_valid p = true) values →
  Forall2 (λ kv kl, kv.1 = kl.1 ∧ decodeLeaf kl.2 = Ok kv.2) (map_to_list values) l →
  (l' ← decode_values (map_to_list (df_Values (doc_of l))); Ok (list_to_map l')) = Ok values.
Proof.
  intros Hutf Hl.
  assert (l.*1 = (map_to_list values).*1) as Hkeys.
  { clear -Hl. induction Hl as [|?? ?? [? _]]; simpl; [done|]. by f_equal. }
  assert (NoDup l.*1) as Hnd by (rewrite Hkeys; apply NoDup_fst_map_to_list).
  rewrite doc_of_values; [| |done].
  2:{ apply Forall_forall. intros [k leaf] Hk. simpl.
      assert (k ∈ (map_to_list values).*1) as Hk'.
      { rewrite <- Hkeys. by apply (list_elem_of_fmap_2 fst l (k, leaf)). }
      apply list_elem_of_fmap in Hk' as ([k' v] & -> & Hin). simpl.
      apply elem_of_map_to_list in Hin. by apply (Hutf k' v). }
  apply Forall2_flip in Hl.
  destruct (Forall2_perm_l _ _ (map_to_list (list_to_map l : gmap string diskLeaf)) _ Hl)
    as (l' & Hl' & Hp); [by rewrite map_to_list_to_map|].
  rewrite (decode_values_spec _ l').
  2:{ eapply Forall2_impl; [done|]. simpl. intros ?? [??]. done. }
  simpl. f_equal.
  rewrite <- (list_to_map_to_list values). symmetry. apply list_to_map_proper; [|done].
  apply NoDup_fst_map_to_list.
Qed.

Lemma save_load values fs path :
  map_Forall (λ p v, utf8_valid p = true ∧ storable v) values →
  path ≠ "" → path ∉ fs_dirs fs → tmp_of path ∉ fs_dirs fs →
  ∃ trace, Save true fs path values None = (Ok tt, trace) ∧
           Load true (last_fs fs trace) path None = Ok values.
Proof.
  intros Hall Hne Hd Ht. unfold Save, Load. simpl.
  destruct (String.eqb_spec path ""); [done|].
  destruct (encode_values_spec (map_to_list values)) as (l & -> & Hl).
  { apply Forall_forall. intros [p v] Hpv%elem_of_map_to_list. by apply (Hall p v). }
  destruct (writeFileAtomic fs path (CDoc (doc_of l)) None) as [r trace] eqn:E.
  assert (r = Ok tt ∧ trace ≠ []) as [-> Htr].
  { revert E. unfold writeFileAtomic. rewrite !bool_decide_eq_false_2 by done. simpl.
    by intros [= <- <-]. }
  exists trace. split; [done|].
  pose proof (writeFileAtomic_atomic _ _ _ _ _ _ E) as Hat.
  rewrite Forall_forall in Hat.
  destruct (Hat _ (last_elem_of fs trace Htr)) as (_ & _ & Hdirs).
  pose proof (writeFileAtomic_final _ _ _ _ _ _ E) as Hf. simpl in Hf. rewrite Hf.
  rewrite bool_decide_eq_false_2 by (unfold last_fs; by rewrite Hdirs). simpl.
  apply doc_decode; [|done]. eapply map_Forall_impl; [done|]. naive_solver.
Qed.

(** A failed Save leaves the file alone, unless the failure is the directory sync
    that follows the rename. *)
Lemma Save_failed ctx fs path values fault e trace :
  Save ctx fs path values fault = (Err e, trace) →
  fs_files (last_fs fs trace) !! path = fs_files fs !! path ∨ e = [Anon "sync directory"].
Proof.
  unfold Save. destruct (ctx_err ctx); [|intros [= <- <-]; by left].
  destruct (String.eqb path ""); [intros [= <- <-]; by left|].
  destruct (encode_values _); [|intros [= <- <-]; by left].
  intros H%writeFileAtomic_final. case_bool_decide as Hb; [|by left].
  destruct Hb as [|[= ->]]; [done|by right].
Qed.
