(* ===== verification/Store.v ===== *)
(** * The configuration datastores ([internal/store/memory.go], [diff.go], [store.go])

    [Memory] keeps three flat maps from path to leaf value, the startup file name,
    the two schema hooks the router installs, and the change tracking.  Every
    operation runs under the store lock, so it is one atomic function from a state
    to a result and a state; [now] is the reading of the store's clock during the
    operation.  Commit, Restore and LoadStartup also thread the file system. *)

From S2P Require Import Prelude GoStrings GoFloat GoValue Persist.

(** ** Data *)

(** [type Datastore string] and its three constants. *)
Abbreviation Datastore := string.
Definition Running : Datastore := "running".
Definition Candidate : Datastore := "candidate".
Definition Startup : Datastore := "startup".

Inductive Op : Set := OpCreate | OpUpdate | OpDelete.
Global Instance Op_eq_dec : EqDecision Op.
Proof. solve_decision. Defined.

(** [Change]: [Old] and [New] are nil when the path is absent on that side. *)
Record Change : Set := mkChange {
  ch_Op : Op;
  ch_Path : string;
  ch_Old : option value;
  ch_New : option value;
}.
Global Instance Change_eq_dec : EqDecision Change.
Proof. solve_decision. Defined.

Abbreviation values := (gmap string value).

(** [Validator] and the state filter of [Options]. *)
Abbreviation Validator := (context → values → res unit).

Record Memory : Type := mkMemory {
  running : values;
  candidate : values;
  startup : values;
  startupFile : string;
  validator : option Validator;
  stateFilter : option (string → bool);
  generation : gmap Datastore Z;
  configChanged : gmap Datastore time;
}.

(** [NewMemory]. *)
Definition NewMemory (file : string) (v : option Validator) (f : option (string → bool)) : Memory :=
  mkMemory ∅ ∅ ∅ file v f ∅ ∅.

Definition with_maps (m : Memory) (r c s : values) : Memory :=
  mkMemory r c s (startupFile m) (validator m) (stateFilter m) (generation m) (configChanged m).

(** [SetValidator], [SetStateFilter]. *)
Definition SetValidator (m : Memory) (v : option Validator) : Memory :=
  mkMemory (running m) (candidate m) (startup m) (startupFile m) v (stateFilter m)
    (generation m) (configChanged m).
Definition SetStateFilter (m : Memory) (f : option (string → bool)) : Memory :=
  mkMemory (running m) (candidate m) (startup m) (startupFile m) (validator m) f
    (generation m) (configChanged m).

(** ** Helpers *)

(** [copyValues]: a detached copy, rebuilt entry by entry. *)
Definition copyValues (vs : values) : values :=
  map_fold (λ p v out, <[p := v]> out) ∅ vs.

(** [isState]. *)
Definition isState (m : Memory) (path : string) : bool :=
  match stateFilter m with Some f => f path | None => false end.

(** [configOnly]: the values without the state leaves. *)
Definition configOnly (m : Memory) (vs : values) : values :=
  match stateFilter m with
  | None => copyValues vs
  | Some _ => map_fold (λ p v out, if isState m p then out else <[p := v]> out) ∅ vs
  end.

(** [validPath]: canonical form. *)
Definition validPath (path : string) : bool :=
  if String.eqb path "" || negb (String.eqb (TrimSpace path) path) then false
  else if HasPrefix path "/" || HasSuffix path "/" then false
  else negb (Contains path "//").

(** [datastore]: the map behind a name. *)
Definition datastore (m : Memory) (ds : Datastore) : res values :=
  if String.eqb ds Running then Ok (running m)
  else if String.eqb ds Candidate then Ok (candidate m)
  else if String.eqb ds Startup then Ok (startup m)
  else Err [StoreErrUnknownDatastore].

(** The Go map returned by [datastore] is shared with the store, so writing to it
    replaces that component of the state. *)
Definition put_datastore (m : Memory) (ds : Datastore) (vs : values) : Memory :=
  if String.eqb ds Running then with_maps m vs (candidate m) (startup m)
  else if String.eqb ds Candidate then with_maps m (running m) vs (startup m)
  else if String.eqb ds Startup then with_maps m (running m) (candidate m) vs
  else m.

(** [mirror]: a mutation of Running is propagated to Candidate; [None] removes. *)
Definition mirror (m : Memory) (ds : Datastore) (path : string) (v : option value) : Memory :=
  if negb (String.eqb ds Running) then m
  else match v with
  | None => with_maps m (running m) (delete path (candidate m)) (startup m)
  | Some v => with_maps m (running m) (<[path := v]> (candidate m)) (startup m)
  end.

(** [bumpLocked]: the generation always moves, ConfigChangedAt only when one of
    the paths is configuration. *)
Definition bumpLocked (m : Memory) (now : time) (ds : Datastore) (paths : list string) : Memory :=
  mkMemory (running m) (candidate m) (startup m) (startupFile m) (validator m) (stateFilter m)
    (<[ds := u64 (default 0%Z (generation m !! ds) + 1)]> (generation m))
    (if existsb (λ p, negb (isState m p)) paths
     then <[ds := now]> (configChanged m) else configChanged m).

(** [recordWriteLocked]. *)
Definition recordWriteLocked (m : Memory) (now : time) (ds : Datastore) (paths : list string)
    : Memory :=
  let m := bumpLocked m now ds paths in
  if String.eqb ds Running then bumpLocked m now Candidate paths else m.

(** [recordDiffLocked]. *)
Definition recordDiffLocked (m : Memory) (now : time) (ds : Datastore) (diff : list Change)
    : Memory := bumpLocked m now ds (ch_Path <$> diff).

(** ** [diffValues] *)

Definition change_at (old new : values) (p : string) : list Change :=
  match old !! p, new !! p with
  | Some o, Some u => if value_eqb o u then [] else [mkChange OpUpdate p (Some o) (Some u)]
  | None, Some u => [mkChange OpCreate p None (Some u)]
  | o, None => [mkChange OpDelete p o None]
  end.

Definition diffValues (old new : values) : list Change :=
  let ordered := sort_strings (elements (dom old ∪ dom new)) in
  ordered ≫= change_at old new.

(** ** Operations *)

(** [Get]. *)
Definition Get (m : Memory) (ctx : context) (ds : Datastore) (path : string) : res value :=
  _ ← ctx_err ctx;
  vs ← datastore m ds;
  match vs !! path with
  | Some v => Ok v
  | None => Err [StoreErrNotFound]
  end.

(** [Set]. *)
Definition Set_ (m : Memory) (now : time) (ctx : context) (ds : Datastore) (path : string)
    (v : value) : res unit * Memory :=
  match (_ ← ctx_err ctx;
         _ ← check (validPath path) [StoreErrInvalidPath];
         _ ← check (is_leaf v) [StoreErrInvalidValue];
         datastore m ds) with
  | Err e => (Err e, m)
  | Ok vs =>
      let m := put_datastore m ds (<[path := v]> vs) in
      let m := mirror m ds path (Some v) in
      (Ok tt, recordWriteLocked m now ds [path])
  end.

(** [Delete]. *)
Definition Delete (m : Memory) (now : time) (ctx : context) (ds : Datastore) (path : string)
    : res unit * Memory :=
  match (_ ← ctx_err ctx; datastore m ds) with
  | Err e => (Err e, m)
  | Ok vs =>
      match vs !! path with
      | None => (Err [StoreErrNotFound], m)
      | Some _ =>
          let m := put_datastore m ds (delete path vs) in
          let m := mirror m ds path None in
          (Ok tt, recordWriteLocked m now ds [path])
      end
  end.

(** The two write loops of [Apply]. *)
Definition apply_set (ds : Datastore) (m : Memory) (kv : string * value) : Memory :=
  match datastore m ds with
  | Ok vs => mirror (put_datastore m ds (<[kv.1 := kv.2]> vs)) ds kv.1 (Some kv.2)
  | Err _ => m
  end.
Definition apply_del (ds : Datastore) (m : Memory) (path : string) : Memory :=
  match datastore m ds with
  | Ok vs => mirror (put_datastore m ds (delete path vs)) ds path None
  | Err _ => m
  end.

(** [Apply]: the whole batch is checked before anything is written. *)
Definition Apply (m : Memory) (now : time) (ctx : context) (ds : Datastore) (vs : values)
    (deletions : list string) : res unit * Memory :=
  match (_ ← ctx_err ctx;
         _ ← res_for (map_to_list vs) (λ kv,
               _ ← check (validPath kv.1) [StoreErrInvalidPath];
               check (is_leaf kv.2) [StoreErrInvalidValue]);
         _ ← res_for deletions (λ p, check (validPath p) [StoreErrInvalidPath]);
         datastore m ds) with
  | Err e => (Err e, m)
  | Ok _ =>
      let m := foldl (apply_set ds) m (map_to_list vs) in
      let m := foldl (apply_del ds) m deletions in
      (Ok tt, recordWriteLocked m now ds ((map_to_list vs).*1 ++ deletions))
  end.

(** [List]. *)
Definition below (prefix p : string) : bool :=
  String.eqb prefix "" || HasPrefix p (prefix +:+ "/").

Definition List_ (m : Memory) (ctx : context) (ds : Datastore) (prefix : string)
    : res (list string) :=
  _ ← ctx_err ctx;
  vs ← datastore m ds;
  Ok (sort_strings (filter (λ p, below prefix p = true) (map_to_list vs).*1)).

(** [Diff]. *)
Definition Diff (m : Memory) (ctx : context) : res (list Change) :=
  _ ← ctx_err ctx; Ok (diffValues (running m) (candidate m)).

(** [Commit]. *)
Definition Commit (m : Memory) (now : time) (ctx : context) (fs : FS) (fault : option io_fault)
    : res unit * Memory * FS :=
  match ctx_err ctx with
  | Err e => (Err e, m, fs)
  | Ok _ =>
      match (match validator m with
             | Some v => v ctx (copyValues (candidate m))
             | None => Ok tt
             end) with
      | Err e => (Err (StoreErrValidation :: e), m, fs)
      | Ok _ =>
          let next := copyValues (candidate m) in
          let diff := diffValues (running m) next in
          let '(r, trace) :=
            if String.eqb (startupFile m) "" then (Ok tt, [fs])
            else Save ctx fs (startupFile m) (configOnly m next) fault in
          let fs := last_fs fs trace in
          match r with
          | Err e => (Err e, m, fs)
          | Ok _ =>
              let m := with_maps m next (copyValues next) (copyValues next) in
              let m := foldl (λ m ds, recordDiffLocked m now ds diff) m [Running; Candidate; Startup] in
              (Ok tt, m, fs)
          end
      end
  end.

(** [Rollback]. *)
Definition Rollback (m : Memory) (now : time) (ctx : context) : res unit * Memory :=
  match ctx_err ctx with
  | Err e => (Err e, m)
  | Ok _ =>
      let diff := diffValues (candidate m) (running m) in
      let m := with_maps m (running m) (copyValues (running m)) (startup m) in
      (Ok tt, recordDiffLocked m now Candidate diff)
  end.

(** [Snapshot]. *)
Definition Snapshot (m : Memory) (ctx : context) : res values :=
  _ ← ctx_err ctx; Ok (copyValues (running m)).

(** [Restore]. *)
Definition Restore (m : Memory) (now : time) (ctx : context) (fs : FS) (fault : option io_fault)
    (vs : values) : res unit * Memory * FS :=
  match ctx_err ctx with
  | Err e => (Err e, m, fs)
  | Ok _ =>
      let next := copyValues vs in
      let diff := diffValues (running m) next in
      let '(r, trace) :=
        if String.eqb (startupFile m) "" then (Ok tt, [fs])
        else Save ctx fs (startupFile m) (configOnly m next) fault in
      let fs := last_fs fs trace in
      match r with
      | Err e => (Err e, m, fs)
      | Ok _ =>
          let m := with_maps m next (candidate m) (copyValues next) in
          let m := recordDiffLocked m now Running diff in
          (Ok tt, recordDiffLocked m now Startup diff, fs)
      end
  end.

(** [LoadStartup]. *)
Definition LoadStartup (m : Memory) (now : time) (ctx : context) (fs : FS)
    (fault : option io_fault) : res unit * Memory :=
  match ctx_err ctx with
  | Err e => (Err e, m)
  | Ok _ =>
      if String.eqb (startupFile m) "" then (Ok tt, m)
      else match Load ctx fs (startupFile m) fault with
      | Err e => (Err e, m)
      | Ok loaded =>
          let vs := match stateFilter m with
                    | Some f => filter (λ kv, f kv.1 = false) loaded
                    | None => loaded
                    end in
          match (match validator m with Some v => v ctx vs | None => Ok tt end) with
          | Err e => (Err e, m)
          | Ok _ =>
              let diff := diffValues (running m) vs in
              let m := with_maps m (copyValues vs) (copyValues vs) (copyValues vs) in
              (Ok tt, foldl (λ m ds, recordDiffLocked m now ds diff) m
                        [Running; Candidate; Startup])
          end
      end
  end.

(** [Values], [Generation], [ConfigChangedAt]. *)
Definition Values (m : Memory) (ctx : context) (ds : Datastore) : res values :=
  _ ← ctx_err ctx; vs ← datastore m ds; Ok (copyValues vs).

Definition Generation (m : Memory) (ctx : context) (ds : Datastore) : res Z :=
  _ ← ctx_err ctx; _ ← datastore m ds; Ok (default 0%Z (generation m !! ds)).

Definition ConfigChangedAt (m : Memory) (ctx : context) (ds : Datastore) : res time :=
  _ ← ctx_err ctx; _ ← datastore m ds; Ok (default 0%Z (configChanged m !! ds)).

(** ** Lemmas *)

Lemma copyValues_id vs : copyValues vs = vs.
Proof.
  unfold copyValues.
  apply (map_fold_weak_ind (λ out m, out = m)); [done|]. by intros p v m out _ ->.
Qed.

Lemma configOnly_lookup m vs p :
  configOnly m vs !! p = if isState m p then None else vs !! p.
Proof.
  unfold configOnly, isState. destruct (stateFilter m) as [f|]; [|by rewrite copyValues_id].
  apply (map_fold_weak_ind (λ out vs, out !! p = if f p then None else vs !! p)).
  - rewrite !lookup_empty. by destruct (f p).
  - intros q v vs' out _ IH.
    destruct (f q) eqn:Hq, (decide (p = q)) as [->|Hne].
    + by rewrite IH, Hq.
    + by rewrite IH, lookup_insert_ne.
    + by rewrite !lookup_insert_eq, Hq.
    + by rewrite !lookup_insert_ne.
Qed.

(** A datastore name is one of the three, or every operation rejects it. *)
Lemma datastore_ok m ds vs :
  datastore m ds = Ok vs →
  (ds = Running ∧ vs = running m) ∨ (ds = Candidate ∧ vs = candidate m) ∨
  (ds = Startup ∧ vs = startup m).
Proof.
  unfold datastore. intros H. case_if_in H; simplify_eq; rewrite ?String.eqb_eq in *; eauto.
Qed.

(** The shape of every write: [g] is applied to the target and, for Running, to
    Candidate as well; hooks and file name do not move. *)
Definition target (d : Datastore) (ds : Datastore) : bool :=
  String.eqb d ds || (String.eqb d Running && String.eqb ds Candidate).

Record effect (m : Memory) (d : Datastore) (g : values → values) (m' : Memory) : Prop := {
  eff_running : running m' = if target d Running then g (running m) else running m;
  eff_candidate : candidate m' = if target d Candidate then g (candidate m) else candidate m;
  eff_startup : startup m' = if target d Startup then g (startup m) else startup m;
  eff_file : startupFile m' = startupFile m;
  eff_validator : validator m' = validator m;
  eff_filter : stateFilter m' = stateFilter m;
}.

Lemma effect_comp m1 m2 m3 d f g :
  effect m1 d f m2 → effect m2 d g m3 → effect m1 d (λ vs, g (f vs)) m3.
Proof.
  intros [??????] [??????]. split; try congruence.
  - by destruct (target d Running); congruence.
  - by destruct (target d Candidate); congruence.
  - by destruct (target d Startup); congruence.
Qed.

Lemma effect_bump m d g m' now ds ps :
  effect m d g m' → effect m d g (bumpLocked m' now ds ps).
Proof. intros [??????]. by split. Qed.

Lemma effect_record m d g m' now ds ps :
  effect m d g m' → effect m d g (recordWriteLocked m' now ds ps).
Proof. intros H. unfold recordWriteLocked. destruct (String.eqb ds Running); by repeat apply effect_bump. Qed.

(** One loop iteration, or the body of Set and Delete: the write and its mirror. *)
Lemma effect_put m d vs p (v : option value) :
  datastore m d = Ok vs →
  effect m d (λ vs, partial_alter (λ _, v) p vs)
    (mirror (put_datastore m d (partial_alter (λ _, v) p vs)) d p v).
Proof.
  intros [[-> ->]|[[-> ->]|[-> ->]]]%datastore_ok; destruct v; by split.
Qed.

Lemma effect_datastore m d g m' vs :
  effect m d g m' → datastore m d = Ok vs → ∃ vs', datastore m' d = Ok vs'.
Proof.
  intros _ [[-> _]|[[-> _]|[-> _]]]%datastore_ok; unfold datastore; simpl; eauto.
Qed.

Lemma Set_effect m now ctx ds p v m' :
  Set_ m now ctx ds p v = (Ok tt, m') → effect m ds (<[p := v]>) m' ∧ validPath p ∧ is_leaf v.
Proof.
  unfold Set_. destruct ctx; simpl; [|done].
  destruct (validPath p) eqn:Hp; simpl; [|done]. destruct (is_leaf v) eqn:Hv; simpl; [|done].
  destruct (datastore m ds) as [vs|] eqn:Hd; [|done]. intros [= <-].
  split; [|done]. apply effect_record, (effect_put _ _ _ _ (Some v) Hd).
Qed.

Lemma Delete_effect m now ctx ds p m' :
  Delete m now ctx ds p = (Ok tt, m') → effect m ds (delete p) m'.
Proof.
  unfold Delete. destruct ctx; simpl; [|done].
  destruct (datastore m ds) as [vs|] eqn:Hd; [|done].
  destruct (vs !! p); [|done]. intros [= <-].
  apply effect_record, (effect_put _ _ _ _ None Hd).
Qed.

(** The batch of [Apply], as a function of one datastore. *)
Definition overlay (vs : list (string * value)) (deletions : list string) (old : values) : values :=
  foldl (λ m p, delete p m) (foldl (λ m kv, <[kv.1 := kv.2]> m) old vs) deletions.

Lemma effect_loops m d l dels vs :
  datastore m d = Ok vs →
  effect m d (overlay l dels) (foldl (apply_del d) (foldl (apply_set d) m l) dels).
Proof.
  intros Hd. unfold overlay.
  assert (∀ m0 vs0 (f : values → values), effect m d f m0 → datastore m0 d = Ok vs0 →
    effect m d (λ o, foldl (λ m p, delete p m) (f o) dels) (foldl (apply_del d) m0 dels)) as Hdel.
  { induction dels as [|p dels IH]; intros m0 vs0 f Hf Hm0; simpl; [done|].
    pose proof (effect_put m0 d vs0 p None Hm0) as Hp.
    destruct (effect_datastore _ _ _ _ _ Hp Hm0) as [vs1 Hm1].
    unfold apply_del at 2. rewrite Hm0.
    exact (IH _ _ _ (effect_comp _ _ _ _ _ _ Hf Hp) Hm1). }
  assert (∀ m0 vs0 (f : values → values), effect m d f m0 → datastore m0 d = Ok vs0 →
    effect m d (λ o, foldl (λ m kv, <[kv.1 := kv.2]> m) (f o) l) (foldl (apply_set d) m0 l) ∧
    ∃ vs1, datastore (foldl (apply_set d) m0 l) d = Ok vs1) as Hset.
  { induction l as [|[p v] l IH]; intros m0 vs0 f Hf Hm0; simpl; [eauto|].
    pose proof (effect_put m0 d vs0 p (Some v) Hm0) as Hp.
    destruct (effect_datastore _ _ _ _ _ Hp Hm0) as [vs1 Hm1].
    unfold apply_set at 2 4. rewrite Hm0. simpl.
    exact (IH _ _ _ (effect_comp _ _ _ _ _ _ Hf Hp) Hm1). }
  assert (effect m d (λ o, o) m) as Hid by (split; by destruct (target d _) || done).
  destruct (Hset m vs _ Hid Hd) as [Hs [vs1 Hd1]].
  exact (Hdel _ _ _ Hs Hd1).
Qed.

Lemma overlay_lookup vs dels old p :
  overlay (map_to_list vs) dels old !! p =
    if bool_decide (p ∈ dels) then None
    else match vs !! p with Some v => Some v | None => old !! p end.
Proof.
  unfold overlay.
  assert (∀ m : values, foldl (λ m p, delete p m) m dels !! p =
    if bool_decide (p ∈ dels) then None else m !! p) as ->.
  { induction dels as [|q dels IH]; intros m; simpl; [done|]. rewrite IH.
    destruct (decide (p = q)) as [->|Hne].
    - rewrite lookup_delete_eq, (bool_decide_eq_true_2 (q ∈ q :: _)) by apply list_elem_of_here.
      by destruct (bool_decide _).
    - rewrite lookup_delete_ne by done.
      rewrite (bool_decide_ext (p ∈ q :: dels) (p ∈ dels)); [done|].
      rewrite elem_of_cons. naive_solver. }
  case_bool_decide; [done|].
  assert (∀ l : list (string * value), NoDup l.*1 → ∀ m : values,
    foldl (λ m kv, <[kv.1 := kv.2]> m) m l !! p =
      match (list_to_map l : values) !! p with Some v => Some v | None => m !! p end) as Hl.
  { induction l as [|[q v] l IH]; intros Hnd m; simpl; [by rewrite lookup_empty|].
    apply NoDup_cons in Hnd as [Hq Hnd]. rewrite IH by done. simpl in *.
    destruct (decide (p = q)) as [->|Hne].
    - by rewrite not_elem_of_list_to_map_1, !lookup_insert_eq.
    - by rewrite !lookup_insert_ne. }
  rewrite Hl by apply NoDup_fst_map_to_list. by rewrite list_to_map_to_list.
Qed.

Lemma Apply_effect m now ctx ds vs dels m' :
  Apply m now ctx ds vs dels = (Ok tt, m') →
  effect m ds (overlay (map_to_list vs) dels) m' ∧
  map_Forall (λ p v, validPath p ∧ is_leaf v) vs ∧ Forall validPath dels.
Proof.
  unfold Apply. destruct ctx; simpl; [|done].
  destruct (res_for (map_to_list vs) _) as [[]|] eqn:H1; simpl; [|done].
  destruct (res_for dels _) as [[]|] eqn:H2; simpl; [|done].
  destruct (datastore m ds) as [old|] eqn:Hd; [|done]. intros [= <-].
  split_and!.
  - apply effect_record, (effect_loops _ _ _ _ _ Hd).
  - apply res_for_ok in H1. rewrite Forall_forall in H1. intros p v Hpv.
    specialize (H1 (p, v)). simpl in H1.
    destruct (validPath p) eqn:?; [|by ospecialize (H1 _); [by apply elem_of_map_to_list|]].
    split; [done|]. ospecialize (H1 _); [by apply elem_of_map_to_list|]. simpl in H1.
    by apply check_ok in H1 as ->.
  - apply res_for_ok in H2. eapply Forall_impl; [done|]. simpl. intros p Hp.
    by apply check_ok in Hp as ->.
Qed.

(** *** Change tracking *)

Lemma bump_generation m now ds ps d :
  default 0%Z (generation (bumpLocked m now ds ps) !! d) =
    if String.eqb ds d then u64 (default 0%Z (generation m !! d) + 1)
    else default 0%Z (generation m !! d).
Proof.
  simpl. destruct (String.eqb_spec ds d) as [->|].
  - by rewrite lookup_insert_eq.
  - by rewrite lookup_insert_ne.
Qed.

Lemma bump_configChanged m now ds ps d :
  default 0%Z (configChanged (bumpLocked m now ds ps) !! d) =
    if String.eqb ds d && existsb (λ p, negb (isState m p)) ps then now
    else default 0%Z (configChanged m !! d).
Proof.
  simpl. destruct (existsb _ ps); [|by rewrite andb_false_r].
  destruct (String.eqb_spec ds d) as [->|]; simpl.
  - by rewrite lookup_insert_eq.
  - by rewrite lookup_insert_ne.
Qed.

(** *** The difference of two datastores *)

Lemma change_at_path old new p c : c ∈ change_at old new p → ch_Path c = p.
Proof.
  unfold change_at. destruct (old !! p), (new !! p); try case_match;
    rewrite ?list_elem_of_singleton; try (by intros ->); by intros ?%not_elem_of_nil.
Qed.

Lemma elem_of_diffValues old new c :
  c ∈ diffValues old new ↔
  c ∈ change_at old new (ch_Path c) ∧ ch_Path c ∈ dom old ∪ dom new.
Proof.
  unfold diffValues. rewrite list_elem_of_bind. split.
  - intros (p & Hc & Hp). pose proof (change_at_path _ _ _ _ Hc) as Hcp.
    apply elem_of_sort_strings, elem_of_elements in Hp. subst p. done.
  - intros [Hc Hd]. exists (ch_Path c). split; [done|].
    by apply elem_of_sort_strings, elem_of_elements.
Qed.

(** What one reported change says. *)
Definition change_spec (old new : values) (c : Change) : Prop :=
  ch_Old c = old !! ch_Path c ∧ ch_New c = new !! ch_Path c ∧
  match ch_Op c, ch_Old c, ch_New c with
  | OpCreate, None, Some _ => True
  | OpDelete, Some _, None => True
  | OpUpdate, Some o, Some u => value_eqb o u = false
  | _, _, _ => False
  end.

Lemma diffValues_spec old new c : c ∈ diffValues old new ↔ change_spec old new c.
Proof.
  rewrite elem_of_diffValues. unfold change_spec, change_at. destruct c as [op p o u]; simpl.
  rewrite elem_of_union, !elem_of_dom. split.
  - intros [Hc Hd].
    destruct (old !! p) as [a|], (new !! p) as [b|]; [destruct (value_eqb a b) eqn:E|..];
      rewrite ?list_elem_of_singleton in Hc; try (by apply not_elem_of_nil in Hc);
      simplify_eq; try done.
    by destruct Hd as [[??]|[??]].
  - intros (-> & -> & Hm).
    destruct op, (old !! p) as [a|], (new !! p) as [b|]; try done; rewrite ?Hm;
      (split; [by rewrite list_elem_of_singleton|eauto]).
Qed.

Lemma bind_paths_sorted (old new : values) l :
  StronglySorted String.le l → NoDup l →
  StronglySorted String.le (ch_Path <$> (l ≫= change_at old new)) ∧
  NoDup (ch_Path <$> (l ≫= change_at old new)) ∧
  (∀ p, p ∈ ch_Path <$> (l ≫= change_at old new) → p ∈ l).
Proof.
  assert (∀ p, ch_Path <$> change_at old new p = [] ∨ ch_Path <$> change_at old new p = [p]) as Hone.
  { intros p. unfold change_at. destruct (old !! p), (new !! p); try case_match; auto. }
  induction l as [|p l IH]; intros Hs Hnd; simpl.
  { split_and!; [constructor|constructor|by intros ? ?%not_elem_of_nil]. }
  apply StronglySorted_inv in Hs as [Hs Hp]. apply NoDup_cons in Hnd as [Hn Hnd].
  destruct (IH Hs Hnd) as (IH1 & IH2 & IH3). rewrite fmap_app.
  destruct (Hone p) as [-> | ->]; simpl; split_and!; try done.
  - intros q Hq. right. auto.
  - constructor; [done|]. rewrite Forall_forall in Hp |- *. auto.
  - constructor; auto.
  - intros q [->|Hq]%elem_of_cons; [by left|right; auto].
Qed.

Lemma diffValues_sorted old new :
  StronglySorted String.le (ch_Path <$> diffValues old new) ∧
  NoDup (ch_Path <$> diffValues old new).
Proof.
  destruct (bind_paths_sorted old new (sort_strings (elements (dom old ∪ dom new))))
    as (? & ? & _); [apply sort_strings_sorted| |done].
  rewrite sort_strings_perm. apply NoDup_elements.
Qed.

(** Replaying a change list on a datastore. *)
Definition apply_change (vs : values) (c : Change) : values :=
  match ch_New c with Some v => <[ch_Path c := v]> vs | None => delete (ch_Path c) vs end.

Lemma apply_changes_lookup l : NoDup (ch_Path <$> l) → ∀ vs p,
  foldl apply_change vs l !! p =
    match list_find (λ c, ch_Path c = p) l with
    | Some (_, c) => ch_New c
    | None => vs !! p
    end.
Proof.
  induction l as [|c l IH]; intros Hnd vs p; simpl; [done|].
  apply NoDup_cons in Hnd as [Hc Hnd]. rewrite IH by done.
  case_decide as Hp.
  - subst p. destruct (list_find _ l) as [[i c']|] eqn:E.
    + apply list_find_Some in E as (Hi & Hp & _). exfalso. apply Hc.
      rewrite <- Hp. by eapply list_elem_of_fmap_2, list_elem_of_lookup_2.
    + unfold apply_change. destruct (ch_New c); by rewrite ?lookup_insert_eq, ?lookup_delete_eq.
  - destruct (list_find _ l) as [[i c']|]; simpl; [done|].
    unfold apply_change. destruct (ch_New c); by rewrite ?lookup_insert_ne, ?lookup_delete_ne.
Qed.

Lemma diff_replay old new p :
  map_Forall (λ _ v, plain v) old → map_Forall (λ _ v, plain v) new →
  foldl apply_change old (diffValues old new) !! p = new !! p.
Proof.
  intros Ho Hn. rewrite apply_changes_lookup by apply diffValues_sorted.
  destruct (list_find _ _) as [[i c]|] eqn:E.
  - apply list_find_Some in E as (Hi & Hp & _).
    apply list_elem_of_lookup_2, diffValues_spec in Hi as (_ & H & _). by rewrite H, Hp.
  - apply list_find_None in E. rewrite Forall_forall in E.
    destruct (old !! p) as [o|] eqn:Eo, (new !! p) as [u|] eqn:En; [|exfalso..|done].
    + destruct (value_eqb o u) eqn:Ev.
      { apply value_eqb_eq in Ev as ->; [done|by eapply Ho|by eapply Hn]. }
      exfalso. apply (E (mkChange OpUpdate p (Some o) (Some u))); [|done].
      apply diffValues_spec. by unfold change_spec; simpl; rewrite Eo, En.
    + apply (E (mkChange OpDelete p (Some o) None)); [|done].
      apply diffValues_spec. by unfold change_spec; simpl; rewrite Eo, En.
    + apply (E (mkChange OpCreate p None (Some u))); [|done].
      apply diffValues_spec. by unfold change_spec; simpl; rewrite Eo, En.
Qed.

(** *** Commit, Rollback, Restore and LoadStartup *)

(** The persistence step shared by Commit and Restore. *)
Definition persist (m : Memory) (ctx : context) (fs : FS) (fault : option io_fault) (next : values)
    : res unit * list FS :=
  if String.eqb (startupFile m) "" then (Ok tt, [fs])
  else Save ctx fs (startupFile m) (configOnly m next) fault.

(** What replacing datastores wholesale leaves in the memory; the change tracking
    is left open. *)
Record replaced (m : Memory) (r c s : values) (m' : Memory) : Prop := {
  rep_running : running m' = r;
  rep_candidate : candidate m' = c;
  rep_startup : startup m' = s;
  rep_file : startupFile m' = startupFile m;
  rep_validator : validator m' = validator m;
  rep_filter : stateFilter m' = stateFilter m;
}.

Definition validates (m : Memory) (ctx : context) (vs : values) : res unit :=
  match validator m with Some v => v ctx vs | None => Ok tt end.

Lemma Commit_cases m now ctx fs fault r m' fs' :
  Commit m now ctx fs fault = (r, m', fs') →
  (∃ e, r = Err e ∧ m' = m ∧
     (fs' = fs ∨ validates m ctx (candidate m) = Ok tt ∧
                 fs' = last_fs fs (persist m ctx fs fault (candidate m)).2)) ∨
  (r = Ok tt ∧ ctx = true ∧ validates m ctx (candidate m) = Ok tt ∧
   (persist m ctx fs fault (candidate m)).1 = Ok tt ∧
   fs' = last_fs fs (persist m ctx fs fault (candidate m)).2 ∧
   replaced m (candidate m) (candidate m) (candidate m) m').
Proof.
  unfold Commit, validates, persist. destruct ctx; simpl; [|intros [= <- <- <-]; left; eauto 6].
  rewrite !copyValues_id. destruct (match validator m with Some v => _ | None => _ end) as [[]|e].
  2:{ intros [= <- <- <-]; left; eauto 6. }
  destruct (if String.eqb _ _ then _ else _) as [[[]|e] trace] eqn:E; intros [= <- <- <-].
  - right. by split_and!.
  - left. eauto 8.
Qed.

Lemma Commit_failed_file m now ctx fs fault e m' fs' :
  Commit m now ctx fs fault = (Err e, m', fs') →
  fs_files fs' !! startupFile m = fs_files fs !! startupFile m ∨ Anon "sync directory" ∈ e.
Proof.
  unfold Commit. destruct (ctx_err ctx); [|intros [= <- <- <-]; by left].
  destruct (match validator m with Some v => _ | None => _ end); [|intros [= <- <- <-]; by left].
  destruct (String.eqb (startupFile m) ""); [done|].
  destruct (Save _ _ _ _ _) as [[[]|e'] tr] eqn:E; intros [= <- <- <-].
  apply Save_failed in E as [?| ->]; [by left|]. right. by apply list_elem_of_singleton.
Qed.

Lemma Rollback_cases m now ctx r m' :
  Rollback m now ctx = (r, m') →
  (r = Err [CtxCanceled] ∧ m' = m) ∨
  (r = Ok tt ∧ replaced m (running m) (running m) (startup m) m').
Proof.
  unfold Rollback. destruct ctx; simpl; intros [= <- <-]; [right|by left].
  rewrite copyValues_id. by split_and!.
Qed.

Lemma Restore_cases m now ctx fs fault vs r m' fs' :
  Restore m now ctx fs fault vs = (r, m', fs') →
  (∃ e, r = Err e ∧ m' = m) ∨
  (r = Ok tt ∧ ctx = true ∧ (persist m ctx fs fault vs).1 = Ok tt ∧
   fs' = last_fs fs (persist m ctx fs fault vs).2 ∧
   replaced m vs (candidate m) vs m').
Proof.
  unfold Restore, persist. destruct ctx; simpl; [|intros [= <- <- <-]; left; eauto].
  rewrite !copyValues_id.
  destruct (if String.eqb _ _ then _ else _) as [[[]|e] trace] eqn:E; intros [= <- <- <-].
  - right. by split_and!.
  - left. eauto.
Qed.

Lemma LoadStartup_cases m now ctx fs fault r m' :
  LoadStartup m now ctx fs fault = (r, m') →
  (m' = m ∧ (r = Ok tt → startupFile m = "")) ∨
  (r = Ok tt ∧ ctx = true ∧ startupFile m ≠ "" ∧
   ∃ loaded vs, Load ctx fs (startupFile m) fault = Ok loaded ∧
     vs = filter (λ kv, isState m kv.1 = false) loaded ∧
     validates m ctx vs = Ok tt ∧ replaced m vs vs vs m').
Proof.
  unfold LoadStartup, validates, isState. destruct ctx; simpl; [|intros [= <- <-]; by left].
  destruct (String.eqb_spec (startupFile m) ""); [intros [= <- <-]; by left|].
  destruct (Load _ _ _ _) as [loaded|]; [|intros [= <- <-]; by left].
  destruct (match validator m with Some v => _ | None => _ end) as [[]|] eqn:E;
    intros [= <- <-]; [right|by left].
  split_and!; [done..|]. eexists _, _. split_and!; [done|done| |].
  - destruct (stateFilter m); [done|]. by rewrite map_filter_id by done.
  - split; simpl; rewrite ?copyValues_id; destruct (stateFilter m); try done;
      by rewrite map_filter_id by done.
Qed.

(** ** Histories

    A store is driven by a sequence of mutating calls, each with its own context,
    clock reading and disk outcome. *)
Inductive StoreOp : Type :=
  | SOSet (ds : Datastore) (path : string) (v : value)
  | SODelete (ds : Datastore) (path : string)
  | SOApply (ds : Datastore) (vs : values) (deletions : list string)
  | SOCommit
  | SORollback
  | SORestore (vs : values)
  | SOLoadStartup.

Record StoreCall : Type := mkCall {
  call_op : StoreOp;
  call_ctx : context;
  call_now : time;
  call_fault : option io_fault;
}.

Definition call (c : StoreCall) (s : Memory * FS) : res unit * Memory * FS :=
  let '(m, fs) := s in
  match call_op c with
  | SOSet ds p v => (Set_ m (call_now c) (call_ctx c) ds p v, fs)
  | SODelete ds p => (Delete m (call_now c) (call_ctx c) ds p, fs)
  | SOApply ds vs dels => (Apply m (call_now c) (call_ctx c) ds vs dels, fs)
  | SOCommit => Commit m (call_now c) (call_ctx c) fs (call_fault c)
  | SORollback => (Rollback m (call_now c) (call_ctx c), fs)
  | SORestore vs => Restore m (call_now c) (call_ctx c) fs (call_fault c) vs
  | SOLoadStartup => (LoadStartup m (call_now c) (call_ctx c) fs (call_fault c), fs)
  end.

Definition after (s : Memory * FS) (c : StoreCall) : Memory * FS :=
  let '(_, m, fs) := call c s in (m, fs).

(** The paths a caller has edited in Candidate and not yet committed, discarded or
    overwritten through Running; only successful calls count. *)
Definition edited (ds : Datastore) (ps E : gset string) : gset string :=
  if String.eqb ds Running then E ∖ ps else if String.eqb ds Candidate then E ∪ ps else E.

Definition pending_after (E : gset string) (s : Memory * FS) (c : StoreCall) : gset string :=
  if is_ok (call c s).1.1 then
    match call_op c with
    | SOSet ds p _ | SODelete ds p => edited ds {[p]} E
    | SOApply ds vs dels => edited ds (dom vs ∪ list_to_set dels) E
    | SOCommit | SORollback => ∅
    | SORestore vs =>
        E ∪ filter (λ p, running s.1 !! p ≠ vs !! p) (dom (running s.1) ∪ dom vs)
    | SOLoadStartup => if String.eqb (startupFile s.1) "" then E else ∅
    end
  else E.

Definition run_calls (s : Memory * FS * gset string) (cs : list StoreCall)
    : Memory * FS * gset string :=
  foldl (λ '(s, E) c, (after s c, pending_after E s c)) s cs.

(** Candidate is running plus the pending edits. *)
Definition superset (m : Memory) (E : gset string) : Prop :=
  ∀ p, p ∉ E → candidate m !! p = running m !! p.

Lemma superset_effect m E ds g ps m' :
  effect m ds g m' → superset m E →
  (∀ p (a b : values), a !! p = b !! p → g a !! p = g b !! p) →
  (∀ p a, p ∉ ps → g a !! p = a !! p) →
  (∀ p a b, p ∈ ps → g a !! p = g b !! p) →
  superset m' (edited ds ps E).
Proof.
  intros [Hr Hc _ _ _ _] HE Hext Hout Hin p Hp. rewrite Hr, Hc. unfold edited in Hp.
  unfold target. destruct (String.eqb ds Running) eqn:ER; simpl in *.
  - destruct (decide (p ∈ ps)); [rewrite orb_true_r; by apply Hin|].
    rewrite orb_true_r. apply Hext, HE. set_solver.
  - rewrite orb_false_r. destruct (String.eqb ds Candidate) eqn:EC; [|by apply HE].
    rewrite Hout by set_solver. apply HE. set_solver.
Qed.

(** Once both datastores are replaced by the same map nothing is pending. *)
Lemma superset_replaced m vs s E m' : replaced m vs vs s m' → superset m' E.
Proof. intros [Hr Hc _ _ _ _] p _. by rewrite Hr, Hc. Qed.

(** The outcome of one call: a failed call leaves the memory as it was, a
    successful one has the effect its operation names. *)
Definition outcome (m : Memory) (fs : FS) (c : StoreCall) (m' : Memory) (fs' : FS) : Prop :=
  match call_op c with
  | SOSet ds p v => effect m ds (<[p := v]>) m' ∧ validPath p ∧ is_leaf v
  | SODelete ds p => effect m ds (delete p) m'
  | SOApply ds vs dels =>
      effect m ds (overlay (map_to_list vs) dels) m' ∧
      map_Forall (λ p v, validPath p ∧ is_leaf v) vs ∧ Forall validPath dels
  | SOCommit =>
      validates m true (candidate m) = Ok tt ∧
      replaced m (candidate m) (candidate m) (candidate m) m'
  | SORollback => replaced m (running m) (running m) (startup m) m'
  | SORestore vs => replaced m vs (candidate m) vs m'
  | SOLoadStartup =>
      (m' = m ∧ startupFile m = "") ∨
      (startupFile m ≠ "" ∧ ∃ loaded,
         Load true fs (startupFile m) (call_fault c) = Ok loaded ∧
         let vs := filter (λ kv, isState m kv.1 = false) loaded in
         validates m true vs = Ok tt ∧ replaced m vs vs vs m')
  end.

Lemma call_cases m fs c r m' fs' :
  call c (m, fs) = (r, m', fs') →
  match r with Err _ => m' = m | Ok _ => outcome m fs c m' fs' end.
Proof.
  destruct c as [op ctx now fault]. unfold call, outcome. simpl.
  destruct op as [ds p v|ds p|ds vs dels| | |vs|]; simpl.
  - destruct r as [[]|]; intros [= E <-]; [by eapply Set_effect|].
    revert E. unfold Set_. repeat case_match; congruence.
  - destruct r as [[]|]; intros [= E <-]; [by eapply Delete_effect|].
    revert E. unfold Delete. repeat case_match; congruence.
  - destruct r as [[]|]; intros [= E <-]; [by eapply Apply_effect|].
    revert E. unfold Apply. repeat case_match; congruence.
  - by intros [(e & -> & -> & _)|(-> & -> & ? & _ & _ & ?)]%Commit_cases.
  - intros [= E <-]. by apply Rollback_cases in E as [[-> ->]|[-> H]].
  - by intros [(e & -> & ->)|(-> & _ & _ & _ & ?)]%Restore_cases.
  - intros [= E <-].
    apply LoadStartup_cases in E as [[-> H]|(-> & -> & ? & l & vs & ? & -> & ? & ?)].
    + destruct r as [[]|]; auto.
    + right. eauto.
Qed.

Lemma superset_step m fs E c :
  superset m E → superset (after (m, fs) c).1 (pending_after E (m, fs) c).
Proof.
  intros HE. unfold after, pending_after.
  destruct (call c (m, fs)) as [[r m'] fs'] eqn:Ecall. apply call_cases in Ecall. simpl.
  destruct r as [u|e]; simpl; [|by subst]. unfold outcome in Ecall.
  destruct (call_op c) as [ds p v|ds p|ds vs dels| | |vs|].
  - destruct Ecall as [Heff _]. eapply superset_effect; [done|done|..]; intros q.
    + intros a b Hab. destruct (decide (p = q)) as [->|];
        by rewrite ?lookup_insert_eq, ?lookup_insert_ne by done.
    + intros a Hq. by rewrite lookup_insert_ne by set_solver.
    + intros a b ->%elem_of_singleton. by rewrite !lookup_insert_eq.
  - eapply superset_effect; [done|done|..]; intros q.
    + intros a b Hab. destruct (decide (p = q)) as [->|];
        by rewrite ?lookup_delete_eq, ?lookup_delete_ne by done.
    + intros a Hq. by rewrite lookup_delete_ne by set_solver.
    + intros a b ->%elem_of_singleton. by rewrite !lookup_delete_eq.
  - destruct Ecall as [Heff _]. eapply superset_effect; [done|done|..]; intros q.
    + intros a b Hab. by rewrite !overlay_lookup, Hab.
    + intros a [Hq%not_elem_of_dom Hd]%not_elem_of_union. rewrite overlay_lookup, Hq.
      rewrite bool_decide_eq_false_2; [done|]. by rewrite elem_of_list_to_set in Hd.
    + intros a b Hq. rewrite !overlay_lookup. case_bool_decide; [done|].
      rewrite elem_of_union, elem_of_list_to_set in Hq. destruct Hq as [Hq|]; [|done].
      by apply elem_of_dom in Hq as [v ->].
  - destruct Ecall. by eapply superset_replaced.
  - by eapply superset_replaced.
  - destruct Ecall as [Hr Hc _ _ _ _]. intros p Hp. rewrite Hr, Hc.
    rewrite elem_of_union, elem_of_filter, elem_of_union, !elem_of_dom in Hp. simpl in Hp.
    rewrite HE by tauto.
    destruct (decide (running m !! p = vs !! p)) as [|Hne]; [done|].
    exfalso. apply Hp. right. split; [done|].
    destruct (running m !! p), (vs !! p); (done || eauto).
  - destruct Ecall as [[-> ->]|(Hf & l & _ & _ & H)]; [done|].
    destruct (String.eqb_spec (startupFile m) ""); [done|]. by eapply superset_replaced.
Qed.

Lemma superset_run cs : ∀ m fs E,
  superset m E →
  let '(m', _, E') := run_calls (m, fs, E) cs in superset m' E'.
Proof.
  induction cs as [|c cs IH]; intros m fs E HE; simpl; [done|].
  pose proof (superset_step m fs E c HE) as HE'.
  unfold run_calls in *. simpl. destruct (after (m, fs) c) as [m1 fs1]. by apply IH.
Qed.

(** *** Type invariant *)

Definition values_ok (vs : values) : Prop := map_Forall (λ p v, validPath p ∧ is_leaf v) vs.

(** Every datastore holds leaf values at canonical paths. *)
Definition store_ok (m : Memory) : Prop :=
  values_ok (running m) ∧ values_ok (candidate m) ∧ values_ok (startup m).

(** What the store relies on from its validator: it accepts canonical paths only. *)
Class CanonicalValidator (v : Validator) : Prop :=
  validator_canonical : ∀ ctx vs, v ctx vs = Ok tt → map_Forall (λ p _, validPath p) vs.

Definition validator_ok (m : Memory) : Prop :=
  match validator m with Some v => CanonicalValidator v | None => False end.

(** Restore is only handed configurations the store could hold. *)
Definition call_ok (c : StoreCall) : Prop :=
  match call_op c with SORestore vs => values_ok vs | _ => True end.

Lemma store_ok_effect m ds g m' :
  effect m ds g m' → (∀ vs, values_ok vs → values_ok (g vs)) → store_ok m → store_ok m'.
Proof.
  intros [Hr Hc Hs _ _ _] Hg (H1 & H2 & H3). unfold store_ok. rewrite Hr, Hc, Hs.
  clear Hr Hc Hs. split_and!; case_match; auto.
Qed.

Lemma store_ok_replaced m r c s m' :
  replaced m r c s m' → values_ok r → values_ok c → values_ok s → store_ok m'.
Proof. intros [Hr Hc Hs _ _ _] ???. unfold store_ok. by rewrite Hr, Hc, Hs. Qed.

Lemma overlay_ok vs dels old :
  values_ok vs → values_ok old → values_ok (overlay (map_to_list vs) dels old).
Proof.
  intros Hv Ho p v. rewrite overlay_lookup. case_bool_decide; [done|].
  destruct (vs !! p) eqn:E; [intros [= <-]; eauto|eauto].
Qed.

Lemma decodeLeaf_leaf l v : decodeLeaf l = Ok v → is_leaf v.
Proof.
  unfold decodeLeaf. intros H. destruct (kindOfName (dl_Kind l)) as [[]|]; try done.
  all: repeat match type of H with
    | context [match ?x with _ => _ end] => destruct x; try done
    | context [?m ≫= _] => destruct m; simpl in H; try done
    end; by injection H as <-.
Qed.

Lemma decode_values_leaf l l' : decode_values l = Ok l' → Forall (λ kv, is_leaf kv.2) l'.
Proof.
  revert l'. induction l as [|[p leaf] l IH]; intros l'; simpl; [by intros [= <-]|].
  destruct (decodeLeaf leaf) eqn:E; simpl; [|done].
  destruct (decode_values l) eqn:E2; simpl; [|done]. intros [= <-].
  constructor; [by eapply decodeLeaf_leaf|auto].
Qed.

Lemma Load_leaf ctx fs path fault vs :
  Load ctx fs path fault = Ok vs → map_Forall (λ _ v, is_leaf v) vs.
Proof.
  unfold Load. intros H.
  repeat match type of H with
  | context [match ?x with _ => _ end] => destruct x eqn:?; simpl in H; try done
  | context [?m ≫= _] => destruct m eqn:?; simpl in H; try done
  end; injection H as <-; try (intros ??; by rewrite lookup_empty).
  intros p v Hpv. eapply elem_of_list_to_map_2 in Hpv.
  match goal with E : decode_values _ = Ok _ |- _ => apply decode_values_leaf in E;
    rewrite Forall_forall in E; by apply (E (p, v)) end.
Qed.

Lemma effect_validator_ok m fs c :
  validator (after (m, fs) c).1 = validator m.
Proof.
  unfold after. destruct (call c (m, fs)) as [[r m'] fs'] eqn:E. apply call_cases in E. simpl.
  destruct r; [|by subst]. unfold outcome in E. destruct (call_op c).
  1,3: by destruct E as [[] _]. 1: by destruct E.
  1: by destruct E as [_ []]. 1,2: by destruct E.
  by destruct E as [[-> _]|(_ & ? & _ & _ & [])].
Qed.

Lemma store_ok_step m fs c :
  validator_ok m → call_ok c → store_ok m → store_ok (after (m, fs) c).1.
Proof.
  intros Hval Hc Hok. unfold after.
  destruct (call c (m, fs)) as [[r m'] fs'] eqn:E. apply call_cases in E. simpl.
  destruct r; [|by subst]. unfold outcome in E. unfold call_ok in Hc.
  pose proof Hok as (Hr & Hcand & Hs).
  destruct (call_op c) as [ds p v|ds p|ds vs dels| | |vs|].
  - destruct E as (Heff & Hp & Hv). eapply store_ok_effect; [done| |done].
    intros vs Hvs. by apply map_Forall_insert_2.
  - eapply store_ok_effect; [done| |done]. intros vs Hvs. by apply map_Forall_delete.
  - destruct E as (Heff & Hvs & _). eapply store_ok_effect; [done| |done].
    intros old. by apply overlay_ok.
  - destruct E as [_ E]. by eapply store_ok_replaced.
  - by eapply store_ok_replaced.
  - by eapply store_ok_replaced.
  - destruct E as [[-> _]|(_ & l & HL & HV & E)]; [done|].
    assert (values_ok (filter (λ kv, isState m kv.1 = false) l)).
    { intros p v Hpv. unfold validates in HV. unfold validator_ok in Hval.
      destruct (validator m) as [va|]; [|done]. split.
      - by apply (Hval true _ HV p v).
      - apply map_lookup_filter_Some in Hpv as [Hpv _]. by apply (Load_leaf _ _ _ _ _ HL p v). }
    by eapply store_ok_replaced.
Qed.

Lemma store_ok_run cs : ∀ m fs E,
  validator_ok m → store_ok m → Forall call_ok cs → store_ok (run_calls (m, fs, E) cs).1.1.
Proof.
  induction cs as [|c cs IH]; intros m fs E HV Hok Hcs; [done|].
  apply Forall_cons in Hcs as [Hc Hcs]. unfold run_calls in *. simpl.
  pose proof (store_ok_step m fs c HV Hc Hok) as Hok'.
  pose proof (effect_validator_ok m fs c) as Hv'.
  destruct (after (m, fs) c) as [m1 fs1]. simpl in *. apply IH; [|done|done].
  unfold validator_ok. by rewrite Hv'.
Qed.

(** *** Change tracking of one call *)

(** The datastores a successful call replaces or writes. *)
Definition touches (m : Memory) (op : StoreOp) (d : Datastore) : bool :=
  match op with
  | SOSet ds _ _ | SODelete ds _ | SOApply ds _ _ => target ds d
  | SOCommit => bool_decide (d ∈ [Running; Candidate; Startup])
  | SORollback => String.eqb Candidate d
  | SORestore _ => bool_decide (d ∈ [Running; Startup])
  | SOLoadStartup =>
      negb (String.eqb (startupFile m) "") && bool_decide (d ∈ [Running; Candidate; Startup])
  end.

(** [m'] counts one change of the datastores [ds], and dates it when [config]. *)
Definition tracked (m : Memory) (now : time) (touched : Datastore → bool) (config : bool)
    (m' : Memory) : Prop :=
  ∀ d, default 0%Z (generation m' !! d) =
         (if touched d then u64 (default 0%Z (generation m !! d) + 1)
          else default 0%Z (generation m !! d)) ∧
       default 0%Z (configChanged m' !! d) =
         (if touched d && config then now else default 0%Z (configChanged m !! d)).

Lemma tracked_fold m now ps l m' :
  NoDup l → generation m' = generation m → configChanged m' = configChanged m →
  stateFilter m' = stateFilter m →
  tracked m now (λ d, bool_decide (d ∈ l)) (existsb (λ p, negb (isState m p)) ps)
    (foldl (λ m ds, bumpLocked m now ds ps) m' l).
Proof.
  intros Hnd Hg Hc Hf.
  assert (∀ m1 l1, stateFilter m1 = stateFilter m → NoDup l1 →
    tracked m1 now (λ d, bool_decide (d ∈ l1)) (existsb (λ p, negb (isState m p)) ps)
      (foldl (λ m ds, bumpLocked m now ds ps) m1 l1)) as H.
  { intros m1 l1. revert m1. induction l1 as [|a l1 IH]; intros m1 Hf1 Hnd1 d; simpl; [done|].
    apply NoDup_cons in Hnd1 as [Ha Hnd1]. destruct (IH (bumpLocked m1 now a ps) Hf1 Hnd1 d) as [-> ->].
    rewrite bump_generation, bump_configChanged.
    assert (existsb (λ p, negb (isState m1 p)) ps = existsb (λ p, negb (isState m p)) ps) as ->.
    { unfold isState. by rewrite Hf1. }
    rewrite (bool_decide_ext (d ∈ a :: l1) (d = a ∨ d ∈ l1)) by apply elem_of_cons.
    destruct (String.eqb_spec a d) as [->|Hne].
    - rewrite (bool_decide_eq_false_2 (d ∈ l1)) by done.
      by rewrite bool_decide_eq_true_2 by auto.
    - by rewrite (bool_decide_ext (d = a ∨ d ∈ l1) (d ∈ l1)) by naive_solver. }
  intros d. destruct (H m' l Hf Hnd d) as [-> ->]. by rewrite Hg, Hc.
Qed.

(** [recordWriteLocked] is such a fold over the target and its mirror. *)
Lemma recordWrite_tracked m now ds ps m' :
  generation m' = generation m → configChanged m' = configChanged m →
  stateFilter m' = stateFilter m →
  tracked m now (target ds) (existsb (λ p, negb (isState m p)) ps) (recordWriteLocked m' now ds ps).
Proof.
  intros Hg Hc Hf d. unfold recordWriteLocked, target.
  destruct (String.eqb_spec ds Running) as [->|Hne].
  - destruct (tracked_fold m now ps [Running; Candidate] m') with (d := d) as [H1 H2];
      [by apply (bool_decide_unpack (NoDup [Running; Candidate]))|done..|].
    simpl in H1, H2 |- *. rewrite H1, H2.
    rewrite (bool_decide_ext (d ∈ [Running; Candidate])
               (String.eqb Running d || String.eqb Candidate d = true)).
    2:{ rewrite orb_true_iff, !String.eqb_eq, !elem_of_cons, elem_of_nil. naive_solver. }
    rewrite (String.eqb_sym d Candidate). by case_bool_decide as Hb; destruct (_ || _).
  - destruct (tracked_fold m now ps [ds] m') with (d := d) as [H1 H2];
      [by apply NoDup_singleton|done..|]. simpl in H1, H2 |- *. rewrite H1, H2, orb_false_r.
    rewrite (bool_decide_ext (d ∈ [ds]) (String.eqb ds d = true)).
    2:{ rewrite String.eqb_eq, list_elem_of_singleton. naive_solver. }
    by case_bool_decide as Hb; destruct (String.eqb ds d).
Qed.

Lemma put_mirror_tracking m ds vs p v :
  let m' := mirror (put_datastore m ds vs) ds p v in
  generation m' = generation m ∧ configChanged m' = configChanged m ∧
  stateFilter m' = stateFilter m.
Proof. unfold mirror, put_datastore. by repeat case_match. Qed.

Lemma loops_tracking d l dels m :
  let m' := foldl (apply_del d) (foldl (apply_set d) m l) dels in
  generation m' = generation m ∧ configChanged m' = configChanged m ∧
  stateFilter m' = stateFilter m.
Proof.
  assert (∀ A (f : Memory → A → Memory) (l : list A) m,
    (∀ m a, generation (f m a) = generation m ∧ configChanged (f m a) = configChanged m ∧
            stateFilter (f m a) = stateFilter m) →
    generation (foldl f m l) = generation m ∧ configChanged (foldl f m l) = configChanged m ∧
    stateFilter (foldl f m l) = stateFilter m) as Hfold.
  { intros A f l'. induction l' as [|a l' IH]; intros m0 Hf; simpl; [done|].
    destruct (IH (f m0 a) Hf) as (-> & -> & ->). apply Hf. }
  simpl. edestruct (Hfold _ (apply_del d) dels) as (-> & -> & ->).
  { intros m0 p. unfold apply_del. destruct (datastore m0 d); [apply put_mirror_tracking|done]. }
  apply Hfold. intros m0 [p v]. unfold apply_set.
  destruct (datastore m0 d); [apply put_mirror_tracking|done].
Qed.

(** The paths a successful call reports as changed. *)
Definition changed_paths (m : Memory) (fs : FS) (c : StoreCall) : list string :=
  match call_op c with
  | SOSet _ p _ | SODelete _ p => [p]
  | SOApply _ vs dels => (map_to_list vs).*1 ++ dels
  | SOCommit => ch_Path <$> diffValues (running m) (candidate m)
  | SORollback => ch_Path <$> diffValues (candidate m) (running m)
  | SORestore vs => ch_Path <$> diffValues (running m) vs
  | SOLoadStartup =>
      match Load (call_ctx c) fs (startupFile m) (call_fault c) with
      | Ok l => ch_Path <$> diffValues (running m) (filter (λ kv, isState m kv.1 = false) l)
      | Err _ => []
      end
  end.

Lemma three_NoDup : NoDup [Running; Candidate; Startup].
Proof. by apply (bool_decide_unpack (NoDup [Running; Candidate; Startup])). Qed.

Lemma call_tracked m fs c m' fs' :
  call c (m, fs) = (Ok tt, m', fs') →
  tracked m (call_now c) (touches m (call_op c))
    (existsb (λ p, negb (isState m p)) (changed_paths m fs c)) m'.
Proof.
  destruct c as [op ctx now fault]. unfold call, changed_paths. simpl.
  destruct op as [ds p v|ds p|ds vs dels| | |vs|]; simpl.
  - unfold Set_. intros [= E _]. destruct (_ ≫= _) as [vs|]; [|done]. injection E as <-.
    apply recordWrite_tracked; apply put_mirror_tracking.
  - unfold Delete. intros [= E _]. destruct (_ ≫= _) as [vs|]; [|done].
    destruct (vs !! p); [|done]. injection E as <-.
    apply recordWrite_tracked; apply put_mirror_tracking.
  - unfold Apply. intros [= E _]. destruct (_ ≫= _) as [old|]; [|done]. injection E as <-.
    apply recordWrite_tracked; apply loops_tracking.
  - unfold Commit. destruct (ctx_err ctx); [|done]. destruct (match validator m with Some v => _ | None => _ end); [|done].
    rewrite !copyValues_id. destruct (if String.eqb _ _ then _ else _) as [[] tr]; [|done].
    intros [= <- _]. by apply (tracked_fold m now _ _ _ three_NoDup).
  - unfold Rollback. intros [= E _]. destruct (ctx_err ctx); [|done]. injection E as <-.
    rewrite copyValues_id. intros d.
    unfold recordDiffLocked. by rewrite bump_generation, bump_configChanged.
  - unfold Restore. destruct (ctx_err ctx); [|done]. rewrite !copyValues_id.
    destruct (if String.eqb _ _ then _ else _) as [[] tr]; [|done]. intros [= <- _].
    apply (tracked_fold m now _ [Running; Startup]); try done.
    by apply (bool_decide_unpack (NoDup [Running; Startup])).
  - unfold LoadStartup. intros [= E _]. destruct (ctx_err ctx); [|done].
    destruct (String.eqb (startupFile m) "") eqn:Ef.
    { injection E as <-. intros d. simpl. by rewrite Ef. }
    destruct (Load _ _ _ _) as [l|]; [|done]. destruct (match validator m with Some v => _ | None => _ end); [|done].
    injection E as <-.
    assert ((match stateFilter m with Some f => filter (λ kv, f kv.1 = false) l | None => l end)
            = filter (λ kv, isState m kv.1 = false) l) as ->.
    { unfold isState. destruct (stateFilter m); [done|]. by rewrite map_filter_id by done. }
    intros d. unfold touches. rewrite Ef. by apply (tracked_fold m now _ _ _ three_NoDup).
Qed.

(** *** A datastore changes only when its generation does *)

Definition gen (m : Memory) (d : Datastore) : Z := default 0%Z (generation m !! d).

Definition step_touches (m : Memory) (fs : FS) (c : StoreCall) (d : Datastore) : bool :=
  is_ok (call c (m, fs)).1.1 && touches m (call_op c) d.

Lemma effect_untouched m ds g m' d :
  effect m ds g m' → target ds d = false → d ∈ [Running; Candidate; Startup] →
  datastore m' d = datastore m d.
Proof.
  intros [Hr Hc Hs _ _ _] Ht Hd.
  repeat apply elem_of_cons in Hd as [->|Hd]; [..|by apply not_elem_of_nil in Hd];
    unfold datastore; simpl; rewrite Ht in *; by rewrite ?Hr, ?Hc, ?Hs.
Qed.

Lemma after_untouched m fs c d :
  step_touches m fs c d = false → d ∈ [Running; Candidate; Startup] →
  datastore (after (m, fs) c).1 d = datastore m d.
Proof.
  unfold step_touches, after. destruct (call c (m, fs)) as [[r m'] fs'] eqn:E.
  apply call_cases in E. simpl. destruct r as [u|e]; simpl; [|by subst].
  intros Ht Hd. unfold outcome, touches in *.
  destruct (call_op c) as [ds p v|ds p|ds vs dels| | |vs|].
  - destruct E as [E _]. by eapply effect_untouched.
  - by eapply effect_untouched.
  - destruct E as [E _]. by eapply effect_untouched.
  - by apply bool_decide_eq_false in Ht.
  - destruct E as [Hr Hc Hs _ _ _].
    repeat apply elem_of_cons in Hd as [->|Hd]; [..|by apply not_elem_of_nil in Hd];
      unfold datastore; simpl in *; try done; by rewrite ?Hr, ?Hs.
  - destruct E as [Hr Hc Hs _ _ _]. apply bool_decide_eq_false in Ht.
    repeat apply elem_of_cons in Hd as [->|Hd]; [..|by apply not_elem_of_nil in Hd];
      unfold datastore; simpl in *; [set_solver|by rewrite Hc|set_solver].
  - destruct E as [[-> _]|(Hf & l & _ & _ & E)]; [done|].
    destruct (String.eqb_spec (startupFile m) ""); [done|]. by apply bool_decide_eq_false in Ht.
Qed.

Lemma after_generation m fs c d :
  gen (after (m, fs) c).1 d = if step_touches m fs c d then u64 (gen m d + 1) else gen m d.
Proof.
  unfold step_touches, after. destruct (call c (m, fs)) as [[r m'] fs'] eqn:E. simpl.
  destruct r as [[]|e]; simpl.
  - by apply (call_tracked _ _ _ _ _ E d).
  - apply call_cases in E. by subst.
Qed.

Lemma run_generation d : d ∈ [Running; Candidate; Startup] → ∀ cs m fs,
  in_u 64 (gen m d) →
  ∃ k, k ≤ length cs ∧ gen (foldl after (m, fs) cs).1 d = u64 (gen m d + Z.of_nat k) ∧
    (k = 0 → datastore (foldl after (m, fs) cs).1 d = datastore m d).
Proof.
  intros Hd. induction cs as [|c cs IH]; intros m fs Hg; simpl.
  - exists 0. split_and!; [lia| |done]. unfold u64. rewrite Z.add_0_r, Z.mod_small; [done|]. apply Hg.
  - pose proof (after_generation m fs c d) as Hgen. pose proof (after_untouched m fs c d) as Hun.
    destruct (after (m, fs) c) as [m1 fs1]. simpl in *.
    destruct (step_touches m fs c d).
    + destruct (IH m1 fs1) as (k & Hk & Hgk & _).
      { rewrite Hgen. split; [by apply Z.mod_pos_bound|by apply Z.mod_pos_bound]. }
      exists (S k). split_and!; [lia| |done]. rewrite Hgk, Hgen. unfold u64.
      rewrite Zplus_mod_idemp_l. f_equal. lia.
    + rewrite <- (Hun eq_refl Hd). rewrite <- Hgen in *. destruct (IH m1 fs1 Hg) as (k & Hk & Hgk & H0).
      exists k. split_and!; [lia|done|done].
Qed.

Lemma run_generation_range d cs m fs :
  d ∈ [Running; Candidate; Startup] → in_u 64 (gen m d) → in_u 64 (gen (foldl after (m, fs) cs).1 d).
Proof.
  intros Hd Hg. destruct (run_generation d Hd cs m fs Hg) as (k & _ & -> & _). by apply Z.mod_pos_bound.
Qed.

(** A generation seen again after fewer than 2^64 calls means the datastore held the same
    values all along. *)
Lemma same_generation_same_values d cs cs' m fs :
  d ∈ [Running; Candidate; Startup] → in_u 64 (gen m d) → (Z.of_nat (length (cs ++ cs')) < 2 ^ 64)%Z →
  gen (foldl after (m, fs) (cs ++ cs')).1 d = gen m d →
  datastore (foldl after (m, fs) (cs ++ cs')).1 d = datastore (foldl after (m, fs) cs).1 d.
Proof.
  intros Hd Hg Hl. rewrite foldl_app, length_app in *.
  destruct (run_generation d Hd cs m fs Hg) as (k & Hk & Hgk & _).
  pose proof (run_generation_range d cs m fs Hd Hg) as Hg1.
  destruct (foldl after (m, fs) cs) as [m1 fs1]. simpl in *.
  destruct (run_generation d Hd cs' m1 fs1 Hg1) as (k' & Hk' & Hgk' & H0).
  intros Heq. apply H0. rewrite Heq, Hgk in Hgk'. unfold u64, in_u in *.
  rewrite Zplus_mod_idemp_l in Hgk'.
  destruct (Z.lt_ge_cases (gen m d + Z.of_nat k + Z.of_nat k') (2 ^ 64)) as [Hlt|Hge].
  - rewrite Z.mod_small in Hgk' by lia. lia.
  - assert ((gen m d + Z.of_nat k + Z.of_nat k') mod 2 ^ 64 = gen m d + Z.of_nat k + Z.of_nat k' - 2 ^ 64)%Z as E.
    { symmetry. apply (Z.mod_unique _ _ 1); lia. }
    rewrite E in Hgk'. lia.
Qed.

(** ** Properties *)

(** Inputs for the witnesses: a validator that only checks the paths, and a store
    that persists to a file in an empty directory. *)
Definition path_validator : Validator := λ _ vs,
  check (bool_decide (map_Forall (λ p _, validPath p) vs)) [Anon "bad path"].
Definition demo_state (p : string) : bool := HasPrefix p "system/uptime".
Abbreviation demo_store := (NewMemory "/var/startup.json" (Some path_validator) (Some demo_state)).
Definition demo_fs : FS := mkFS ∅ {[ "/var" ]}.
Definition mk (op : StoreOp) : StoreCall := mkCall op true 7 None.

Global Instance path_validator_canonical : CanonicalValidator path_validator.
Proof. intros ctx vs H. apply check_ok in H. by apply bool_decide_eq_true in H. Qed.

(** C1: Commit cannot revert configuration written to Running. After any sequence
    of calls on a fresh store, every path without a pending candidate edit has the
    same value in Candidate and Running; a commit that then succeeds leaves its
    Running value as it was, and makes the three datastores equal to Candidate. *)
Theorem commit_reverts_nothing file v f fs cs now fault m fs1 E m' fs' :
  run_calls (NewMemory file v f, fs, ∅) cs = (m, fs1, E) →
  Commit m now true fs1 fault = (Ok tt, m', fs') →
  (∀ p, p ∉ E → candidate m !! p = running m !! p ∧ running m' !! p = running m !! p) ∧
  running m' = candidate m ∧ candidate m' = candidate m ∧ startup m' = candidate m.
Proof.
  intros Hrun HC. pose proof (superset_run cs (NewMemory file v f) fs ∅) as H.
  rewrite Hrun in H. assert (superset m E) as HE by (apply H; by intros p _).
  apply Commit_cases in HC as [(e & ? & _)|(_ & _ & _ & _ & _ & [Hr Hc Hs _ _ _])]; [done|].
  split_and!; [|done..]. intros p Hp. rewrite Hr. split; by apply HE.
Qed.

Definition demo_edits : list StoreCall :=
  [mk (SOSet Candidate "system/name" (VString "a")); mk (SOSet Running "system/mtu" (VInt 9))].
Abbreviation demo_run := (run_calls (demo_store, demo_fs, ∅) demo_edits).
Abbreviation demo_commit := (Commit demo_run.1.1 8 true demo_run.1.2 None).

Lemma commit_reverts_nothing_witness :
  ("system/mtu" ∉ demo_run.2) ∧
  running demo_commit.1.2 !! "system/mtu" = running demo_run.1.1 !! "system/mtu" ∧
  running demo_run.1.1 !! "system/mtu" = Some (VInt 9).
Proof.
  assert (H : "system/mtu" ∉ demo_run.2) by by_decide.
  split; [exact H|]. split; [|vm_compute; reflexivity].
  destruct (commit_reverts_nothing "/var/startup.json" (Some path_validator) (Some demo_state)
    demo_fs demo_edits 8 None demo_run.1.1 demo_run.1.2 demo_run.2 demo_commit.1.2 demo_commit.2)
    as [T _]; [apply (triple_eq demo_run _ eq_refl)| |].
  { apply (triple_eq demo_commit). vm_compute. reflexivity. }
  exact (proj2 (T _ H)).
Defined.

(** C2: Commit is all or nothing. It succeeds exactly when the context is live, the
    validator accepts the candidate and the configuration could be saved; any other
    outcome is an error that leaves the three datastores and the change tracking
    untouched (a rejected candidate reports ErrValidation), and the startup file
    keeps its old content except when only the directory sync failed. *)
Theorem commit_all_or_nothing m now ctx fs fault r m' fs' :
  Commit m now ctx fs fault = (r, m', fs') →
  (r = Ok tt ↔ ctx = true ∧ validates m ctx (candidate m) = Ok tt ∧
               (persist m ctx fs fault (candidate m)).1 = Ok tt) ∧
  (r = Ok tt → running m' = candidate m ∧ candidate m' = candidate m ∧ startup m' = candidate m) ∧
  (∀ e, r = Err e → m' = m ∧
     (is_ok (validates m ctx (candidate m)) = false → ctx = true → StoreErrValidation ∈ e) ∧
     (fs_files fs' !! startupFile m = fs_files fs !! startupFile m ∨
      Anon "sync directory" ∈ e)).
Proof.
  intros H. split_and!.
  - split.
    + intros ->. apply Commit_cases in H as [(e & ? & _)|(? & ? & ? & ? & _)]; [done|auto].
    + intros (-> & HV & HP). revert H. unfold Commit, validates, persist in *. simpl.
      rewrite !copyValues_id. rewrite HV. destruct (if String.eqb _ _ then _ else _) as [r0 tr].
      simpl in HP. subst r0. by intros [= <- _ _].
  - intros ->. apply Commit_cases in H as [(e & ? & _)|(_ & _ & _ & _ & _ & [])]; done.
  - intros e ->. pose proof H as H'.
    apply Commit_cases in H' as [(e' & [= <-] & -> & _)|(? & _)]; [|done].
    split_and!; [done| |].
    + intros HV ->. revert H. unfold Commit, validates in *. rewrite copyValues_id. simpl.
      destruct (match validator m with Some v => _ | None => _ end); [done|].
      intros [= <- _]. by left.
    + by eapply Commit_failed_file.
Qed.

Lemma commit_all_or_nothing_witness :
  (Commit demo_run.1.1 8 true demo_run.1.2 (Some FaultSyncDir)).1.2 = demo_run.1.1 ∧
  demo_commit.1.1 = Ok tt ∧ running demo_commit.1.2 = candidate demo_run.1.1.
Proof.
  assert (Ha : (Commit demo_run.1.1 8 true demo_run.1.2 (Some FaultSyncDir)).1.1
               = Err [Anon "sync directory"]) by (vm_compute; reflexivity).
  assert (Hb : demo_commit.1.1 = Ok tt) by (vm_compute; reflexivity).
  split; [|split; [exact Hb|]].
  - exact (proj1 (proj2 (proj2 (commit_all_or_nothing _ _ _ _ _ _ _ _
      (triple_eq _ _ Ha))) _ eq_refl)).
  - exact (proj1 (proj1 (proj2 (commit_all_or_nothing _ _ _ _ _ _ _ _
      (triple_eq _ _ Hb))) eq_refl)).
Defined.



(** C8: every datastore only ever holds supported leaf values at canonical paths:
    the invariant of the store is established by NewMemory and preserved by every
    mutating call, LoadStartup included when the validator rejects paths that are
    not canonical, and Restore when it is given such a configuration. *)
Theorem store_type_invariant file v f fs cs :
  CanonicalValidator v → Forall call_ok cs →
  store_ok (run_calls (NewMemory file (Some v) f, fs, ∅) cs).1.1.
Proof.
  intros Hv. apply store_ok_run; [done|]. by repeat split; try apply map_Forall_empty.
Qed.

Lemma store_type_invariant_witness : store_ok demo_run.1.1.
Proof.
  apply (store_type_invariant "/var/startup.json" path_validator (Some demo_state) demo_fs demo_edits).
  - exact path_validator_canonical.
  - repeat constructor.
Defined.

(** Diff is exact. Its report is in strict path order, one entry per path; an
    entry is reported exactly for a path created, deleted, or updated with a value
    that differs under Go's [==], with the old and the new value; and replaying it on
    Running gives Candidate whenever no leaf is a NaN or a negative zero. *)
Theorem diff_exact m changes :
  Diff m true = Ok changes →
  StronglySorted String.le (ch_Path <$> changes) ∧ NoDup (ch_Path <$> changes) ∧
  (∀ c, c ∈ changes ↔ change_spec (running m) (candidate m) c) ∧
  (map_Forall (λ _ v, plain v) (running m) → map_Forall (λ _ v, plain v) (candidate m) →
   foldl apply_change (running m) changes = candidate m).
Proof.
  intros [= <-]. destruct (diffValues_sorted (running m) (candidate m)).
  split_and!; [done|done|apply diffValues_spec|].
  intros Hr Hc. apply map_eq. intros p. by apply diff_replay.
Qed.

Lemma diff_exact_witness :
  foldl apply_change (running demo_run.1.1)
    [mkChange OpCreate "system/name" None (Some (VString "a"))] = candidate demo_run.1.1.
Proof.
  destruct (diff_exact demo_run.1.1 [mkChange OpCreate "system/name" None (Some (VString "a"))])
    as (_ & _ & _ & H); [vm_compute; reflexivity|apply H; by_decide].
Defined.

(** Apply is atomic. On success each target datastore (Running is mirrored into
    Candidate) holds, at every path, nothing if the path is deleted by the batch, the
    batch's value if it sets one, and its previous value otherwise, whatever the order
    in which the maps are traversed; a batch with a non-canonical path, an unsupported
    value or an unknown datastore is an error and changes nothing. *)
Theorem apply_atomic m now ctx ds vs dels r m' :
  Apply m now ctx ds vs dels = (r, m') →
  let result old p := if bool_decide (p ∈ dels) then None
                      else match vs !! p with Some v => Some v | None => old !! p end in
  match r with
  | Ok _ => values_ok vs ∧
      (∀ p, running m' !! p = if target ds Running then result (running m) p else running m !! p) ∧
      (∀ p, candidate m' !! p = if target ds Candidate then result (candidate m) p else candidate m !! p) ∧
      (∀ p, startup m' !! p = if target ds Startup then result (startup m) p else startup m !! p)
  | Err _ => m' = m
  end.
Proof.
  intros H result. destruct r as [[]|e].
  - apply Apply_effect in H as ([Hr Hc Hs _ _ _] & Hvs & _). split_and!; [done|..]; intros p.
    + rewrite Hr. destruct (target ds Running); [apply overlay_lookup|done].
    + rewrite Hc. destruct (target ds Candidate); [apply overlay_lookup|done].
    + rewrite Hs. destruct (target ds Startup); [apply overlay_lookup|done].
  - revert H. unfold Apply. repeat case_match; congruence.
Qed.

Abbreviation demo_apply :=
  (Apply demo_run.1.1 8 true Running {[ "system/name" := VString "b" ]} ["system/mtu"]).

Lemma apply_atomic_witness :
  demo_apply.1 = Ok tt ∧
  (∀ p, running demo_apply.2 !! p = if bool_decide (p ∈ ["system/mtu"]) then None else
     match ({[ "system/name" := VString "b" ]} : values) !! p with
     | Some v => Some v | None => running demo_run.1.1 !! p end).
Proof.
  split; [reflexivity|].
  exact (proj1 (proj2 (apply_atomic demo_run.1.1 8 true Running _ _ (Ok tt) demo_apply.2
    (pair_eq demo_apply _ eq_refl)))).
Defined.

(** Change tracking. A successful call advances the generation of exactly the
    datastores it wrote or replaced, by one modulo 2^64, and moves their
    ConfigChangedAt to the current time exactly when one of the changed paths is a
    configuration leaf; every other datastore keeps both. *)
Theorem generation_tracking m fs c m' fs' :
  call c (m, fs) = (Ok tt, m', fs') →
  ∀ d, d ∈ [Running; Candidate; Startup] →
    Generation m' true d =
      Ok (let g := default 0%Z (generation m !! d) in
          if touches m (call_op c) d then u64 (g + 1) else g) ∧
    ConfigChangedAt m' true d =
      Ok (if touches m (call_op c) d &&
             existsb (λ p, negb (isState m p)) (changed_paths m fs c)
          then call_now c else default 0%Z (configChanged m !! d)).
Proof.
  intros H d Hd. destruct (call_tracked m fs c m' fs' H d) as [Hg Hc].
  unfold Generation, ConfigChangedAt.
  assert (∃ vs, datastore m' d = Ok vs) as [vs ->].
  { repeat apply elem_of_cons in Hd as [->|Hd]; [..|by apply not_elem_of_nil in Hd]; simpl; eauto. }
  simpl. by rewrite Hg, Hc.
Qed.

Lemma generation_tracking_witness :
  Generation demo_commit.1.2 true Candidate = Ok 3%Z ∧
  ConfigChangedAt demo_commit.1.2 true Candidate = Ok 8%Z.
Proof.
  destruct (generation_tracking demo_run.1.1 demo_run.1.2 (mkCall SOCommit true 8 None)
    demo_commit.1.2 demo_commit.2) with (d := Candidate) as [-> ->];
    [apply (triple_eq demo_commit); vm_compute; reflexivity|by_decide|].
  split; vm_compute; reflexivity.
Defined.

(** Restore does not mirror into Candidate. After a Restore, the next successful
    Commit makes Running the candidate the Restore left behind: the configuration
    that was just rolled back is applied again, and the restored values are lost. *)
Theorem restore_then_commit_reapplies m now fs fault vs m1 fs1 now' fault' m2 fs2 :
  Restore m now true fs fault vs = (Ok tt, m1, fs1) →
  Commit m1 now' true fs1 fault' = (Ok tt, m2, fs2) →
  running m1 = vs ∧ running m2 = candidate m.
Proof.
  intros [(e & ? & _)|(_ & _ & _ & _ & [Hr Hc _ _ _ _])]%Restore_cases; [done|].
  intros [(e & ? & _)|(_ & _ & _ & _ & _ & [Hr2 _ _ _ _ _])]%Commit_cases; [done|].
  by rewrite Hr, Hr2, Hc.
Qed.

Abbreviation demo_restore := (Restore demo_commit.1.2 9 true demo_commit.2 None ∅).

Lemma restore_then_commit_reapplies_witness :
  running demo_restore.1.2 = ∅ ∧
  running (Commit demo_restore.1.2 10 true demo_restore.2 None).1.2 = candidate demo_commit.1.2 ∧
  candidate demo_commit.1.2 !! "system/name" = Some (VString "a").
Proof.
  destruct (restore_then_commit_reapplies demo_commit.1.2 9 demo_commit.2 None ∅
    demo_restore.1.2 demo_restore.2 10 None
    (Commit demo_restore.1.2 10 true demo_restore.2 None).1.2
    (Commit demo_restore.1.2 10 true demo_restore.2 None).2) as [H1 H2].
  - apply triple_eq. vm_compute. reflexivity.
  - apply triple_eq. vm_compute. reflexivity.
  - split; [exact H1|]. split; [exact H2|]. vm_compute. reflexivity.
Defined.

(** List enumerates exactly the leaves strictly below the prefix, each once and
    in lexicographic order. *)
Theorem list_exact m ds vs prefix paths :
  datastore m ds = Ok vs → List_ m true ds prefix = Ok paths →
  StronglySorted String.le paths ∧ NoDup paths ∧
  (∀ p, p ∈ paths ↔ is_Some (vs !! p) ∧ (prefix = "" ∨ ∃ rest, p = prefix +:+ "/" +:+ rest)).
Proof.
  unfold List_. simpl. intros ->. intros [= <-]. split_and!.
  - apply sort_strings_sorted.
  - rewrite sort_strings_perm. apply NoDup_filter, NoDup_fst_map_to_list.
  - intros p. rewrite elem_of_sort_strings, list_elem_of_filter. unfold below.
    rewrite orb_true_iff, String.eqb_eq, HasPrefix_spec.
    assert (p ∈ (map_to_list vs).*1 ↔ is_Some (vs !! p)) as ->.
    { rewrite list_elem_of_fmap. split.
      - intros ([q v] & -> & Hq%elem_of_map_to_list). eauto.
      - intros [v Hv%elem_of_map_to_list]. exists (p, v). eauto. }
    setoid_rewrite str_app_assoc. naive_solver.
Qed.

Lemma list_exact_witness :
  List_ demo_run.1.1 true Candidate "system" = Ok ["system/mtu"; "system/name"] ∧
  NoDup ["system/mtu"; "system/name"].
Proof.
  assert (H : List_ demo_run.1.1 true Candidate "system" = Ok ["system/mtu"; "system/name"])
    by (vm_compute; reflexivity).
  split; [exact H|].
  exact (proj1 (proj2 (list_exact _ Candidate _ _ _ eq_refl H))).
Defined.
