(* ===== verification/Clock.v ===== *)
(** * The deterministic clock ([internal/clock/fake.go])

    A [FakeClock] holds its current time and the timers ever scheduled on it, in
    scheduling order; a timer is identified by its index, as the Go code
    identifies it by its pointer.  A callback is a code [F] that the client
    interprets: it runs without the clock lock, so it may read the clock, schedule,
    stop and reset timers, and change the client's own state [W].  [Advance] loops
    until no timer is due, which a callback that re-arms itself with no delay never
    reaches; the loop is therefore bounded by fuel, and the theorems say when the
    fuel is enough. *)

From S2P Require Import Prelude GoStrings GoFloat GoValue.

Record fakeTimer (F : Type) : Type := mkTimer {
  deadline : time;
  fn : F;
  active : bool;
}.
Arguments mkTimer {F}. Arguments deadline {F}. Arguments fn {F}. Arguments active {F}.

Record FakeClock (F : Type) : Type := mkClock {
  now : time;
  timers : list (fakeTimer F);
}.
Arguments mkClock {F}. Arguments now {F}. Arguments timers {F}.

(** The Unix epoch as a number of nanoseconds since Go's zero time. *)
Definition unix_epoch : time := 62135596800000000000.

Section clock.
  Context {F W : Type}.
  Implicit Types (c : FakeClock F) (t : fakeTimer F) (w : W).

Definition NewFakeClock : FakeClock F := mkClock unix_epoch [].

Definition Now c : time := now c.

(** [Set]: moves the time without firing anything. *)
Definition SetTime c (t : time) : FakeClock F := mkClock t (timers c).

(** [AfterFunc]: the new timer is the last one. *)
Definition AfterFunc c (d : duration) (f : F) : nat * FakeClock F :=
  (length (timers c), mkClock (now c) (timers c ++ [mkTimer (now c + d) f true])).

(** [Stop] and [Reset]: they report whether the timer was active. *)
Definition Stop c (i : nat) : bool * FakeClock F :=
  match timers c !! i with
  | Some t => (active t, mkClock (now c) (<[i := mkTimer (deadline t) (fn t) false]> (timers c)))
  | None => (false, c)
  end.

Definition Reset c (i : nat) (d : duration) : bool * FakeClock F :=
  match timers c !! i with
  | Some t => (active t, mkClock (now c) (<[i := mkTimer (now c + d) (fn t) true]> (timers c)))
  | None => (false, c)
  end.

(** [Pending]. *)
Definition Pending c : nat := length (filter (λ t, active t = true) (timers c)).

Definition due (target : time) (t : fakeTimer F) : bool :=
  active t && negb (target <? deadline t)%Z.

(** [nextDueLocked]: one pass over the timers, keeping the first of the earliest
    deadlines that are due. *)
Fixpoint next_due_from (target : time) (i : nat) (ts : list (fakeTimer F))
    (best : option (nat * fakeTimer F)) : option (nat * fakeTimer F) :=
  match ts with
  | [] => best
  | t :: ts =>
      let best :=
        if negb (due target t) then best
        else match best with
        | None => Some (i, t)
        | Some (_, b) => if (deadline t <? deadline b)%Z then Some (i, t) else best
        end in
      next_due_from target (S i) ts best
  end.
Definition nextDueLocked c (target : time) : option (nat * fakeTimer F) :=
  next_due_from target 0 (timers c) None.

(** [Advance]: the loop returns the deadlines of the timers it fired; [None] is a
    loop that did not finish within its fuel. *)
Context (run : F → FakeClock F * W → FakeClock F * W).

Fixpoint advance_loop (fuel : nat) (target : time) c w : option (FakeClock F * W * list time) :=
  match fuel with
  | 0 => None
  | S fuel =>
      match nextDueLocked c target with
      | None => Some (mkClock target (timers c), w, [])
      | Some (i, t) =>
          let c := mkClock (deadline t) (<[i := mkTimer (deadline t) (fn t) false]> (timers c)) in
          let '(c, w) := run (fn t) (c, w) in
          '(c, w, fired) ← advance_loop fuel target c w;
          Some (c, w, deadline t :: fired)
      end
  end.

Definition Advance (fuel : nat) c w (d : duration) : option (FakeClock F * W * list time) :=
  if (d <? 0)%Z then Some (c, w, []) else advance_loop fuel (now c + d) c w.

(** ** Lemmas *)

(** The candidate is an active due timer, no due timer seen so far is earlier, and
    the ones scheduled before it are strictly later. *)
Definition best_ok (target : time) (ts : list (fakeTimer F)) (b : option (nat * fakeTimer F)) : Prop :=
  match b with
  | None => ∀ j t, ts !! j = Some t → due target t = false
  | Some (i, t) =>
      ts !! i = Some t ∧ due target t = true ∧
      (∀ j t', ts !! j = Some t' → due target t' = true →
         (deadline t ≤ deadline t')%Z ∧ (j < i → (deadline t < deadline t')%Z))
  end.

Lemma best_ok_snoc target pre t b :
  best_ok target pre b →
  best_ok target (pre ++ [t])
    (if negb (due target t) then b
     else match b with
     | None => Some (length pre, t)
     | Some (_, x) => if (deadline t <? deadline x)%Z then Some (length pre, t) else b
     end).
Proof.
  intros Hb.
  assert (∀ j t', (pre ++ [t]) !! j = Some t' →
            (pre !! j = Some t' ∧ j < length pre) ∨ (j = length pre ∧ t' = t)) as Hsnoc.
  { intros j t' [H|[Hj H]]%lookup_app_Some.
    - left. split; [done|]. by eapply lookup_lt_Some.
    - right. apply list_lookup_singleton_Some in H as [? ->]. split; [lia|done]. }
  assert ((pre ++ [t]) !! length pre = Some t) as Hlast by (by apply list_lookup_middle).
  destruct (due target t) eqn:Et; simpl; [destruct b as [[i x]|]|].
  - destruct Hb as (Hi & Hd & Hmin). destruct (Z.ltb_spec (deadline t) (deadline x)); simpl.
    + split_and!; [done|done|]. intros j t' [[Hj ?]|[-> ->]]%Hsnoc Ht'; [|lia].
      destruct (Hmin j t' Hj Ht'). lia.
    + split_and!; [by apply lookup_app_l_Some|done|].
      intros j t' [[Hj ?]|[-> ->]]%Hsnoc Ht'; [by apply Hmin|].
      apply lookup_lt_Some in Hi. lia.
  - simpl in Hb. split_and!; [done|done|]. intros j t' [[Hj ?]|[-> ->]]%Hsnoc Ht'; [|lia].
    by rewrite (Hb _ _ Hj) in Ht'.
  - destruct b as [[i x]|]; simpl in *.
    + destruct Hb as (Hi & Hd & Hmin). split_and!; [by apply lookup_app_l_Some|done|].
      intros j t' [[Hj ?]|[-> ->]]%Hsnoc Ht'; [by apply Hmin|congruence].
    + intros j t' [[Hj ?]|[-> ->]]%Hsnoc; [by eapply Hb|done].
Qed.

Lemma next_due_from_spec target ts : ∀ pre b,
  best_ok target pre b → best_ok target (pre ++ ts) (next_due_from target (length pre) ts b).
Proof.
  induction ts as [|t ts IH]; intros pre b Hb; simpl; [by rewrite app_nil_r|].
  pose proof (best_ok_snoc target pre t b Hb) as Hb'.
  specialize (IH (pre ++ [t]) _ Hb'). rewrite length_app, Nat.add_1_r in IH. simpl in IH.
  by rewrite <- app_assoc in IH.
Qed.

Lemma nextDueLocked_spec c target : best_ok target (timers c) (nextDueLocked c target).
Proof. apply (next_due_from_spec target (timers c) [] None). by intros j t ?. Qed.

Lemma pending_deactivate c i t :
  timers c !! i = Some t → active t = true →
  Pending (mkClock (deadline t) (<[i := mkTimer (deadline t) (fn t) false]> (timers c)))
    = pred (Pending c).
Proof.
  intros Hi Ha. unfold Pending. simpl. generalize dependent i.
  induction (timers c) as [|x ts IH]; intros [|i] Hi; simpl in *; try done.
  - injection Hi as ->. rewrite filter_cons_False by done. by rewrite filter_cons_True by done.
  - rewrite !filter_cons. case_decide; simpl; rewrite (IH i Hi); [|done].
    assert (0 < length (filter (λ t, active t = true) ts)); [|lia].
    destruct (filter (λ t, active t = true) ts) eqn:E; simpl; [|lia].
    exfalso. eapply (not_elem_of_nil t). rewrite <- E. apply list_elem_of_filter.
    split; [done|by eapply list_elem_of_lookup_2].
Qed.

(** Callbacks that do not raise the number of pending timers. *)
Definition quiet : Prop := ∀ f c w, Pending (run f (c, w)).1 ≤ Pending c.

(** Callbacks that leave the time alone and schedule nothing in the past. *)
Definition forward : Prop := ∀ f c w, let c' := (run f (c, w)).1 in
  now c' = now c ∧
  ∀ j t', timers c' !! j = Some t' → active t' = true →
    (∃ t, timers c !! j = Some t ∧ active t = true ∧ deadline t = deadline t') ∨
    (now c ≤ deadline t')%Z.

Lemma advance_loop_total target : quiet → ∀ fuel c w,
  Pending c < fuel → ∃ r, advance_loop fuel target c w = Some r.
Proof.
  intros Hq. induction fuel as [|fuel IH]; intros c w Hf; [lia|]. simpl.
  pose proof (nextDueLocked_spec c target) as Hn.
  destruct (nextDueLocked c target) as [[i t]|]; [|eauto].
  destruct Hn as (Hi & Hd & _). apply andb_true_iff in Hd as [Ha _].
  pose proof (pending_deactivate c i t Hi Ha) as Hp.
  assert (0 < Pending c).
  { unfold Pending. destruct (filter _ _) eqn:E; simpl; [|lia]. exfalso.
    apply (not_elem_of_nil t). rewrite <- E. apply list_elem_of_filter.
    split; [done|by eapply list_elem_of_lookup_2]. }
  set (c1 := mkClock _ _) in *. pose proof (Hq (fn t) c1 w).
  destruct (run (fn t) (c1, w)) as [c2 w2] eqn:E. simpl in *.
  destruct (IH c2 w2) as [[[c3 w3] fired] ->]; [lia|]. simpl. eauto.
Qed.

Lemma advance_loop_sorted target : forward → ∀ fuel c w c' w' fired,
  advance_loop fuel target c w = Some (c', w', fired) →
  ∀ lo, (∀ j t, timers c !! j = Some t → active t = true → lo ≤ deadline t)%Z →
  StronglySorted Z.le fired ∧ Forall (λ d : Z, lo ≤ d ≤ target)%Z fired ∧
  now c' = target ∧ (∀ j t, timers c' !! j = Some t → due target t = false).
Proof.
  intros Hfw. induction fuel as [|fuel IH]; intros c w c' w' fired; simpl; [done|].
  pose proof (nextDueLocked_spec c target) as Hn.
  destruct (nextDueLocked c target) as [[i t]|]; simpl in Hn.
  2:{ intros [= <- <- <-] lo _. split_and!; [constructor|constructor|done|done]. }
  destruct Hn as (Hi & Hd & Hmin). pose proof Hd as Hd'. apply andb_true_iff in Hd' as [Ha Hle].
  apply negb_true_iff, Z.ltb_ge in Hle.
  set (c1 := mkClock _ _). pose proof (Hfw (fn t) c1 w) as Hf.
  destruct (run (fn t) (c1, w)) as [c2 w2]. simpl in Hf. destruct Hf as [Hnow Hnew].
  destruct (advance_loop fuel target c2 w2) as [[[c3 w3] fired3]|] eqn:E; simpl; [|done].
  intros [= <- <- <-] lo Hlo.
  destruct (IH _ _ _ _ _ E (deadline t)) as (Hs & Hall & Hend & Hnone).
  - intros j t' Hj Ha'. destruct (Hnew j t' Hj Ha') as [(t0 & Hj0 & Ha0 & <-)|]; [|done].
    simpl in Hj0. destruct (decide (i = j)) as [<-|Hne].
    { rewrite list_lookup_insert_eq in Hj0 by (by eapply lookup_lt_Some).
      injection Hj0 as <-. done. }
    rewrite list_lookup_insert_ne in Hj0 by done.
    destruct (due target t0) eqn:Et0; [by apply (Hmin j t0)|].
    unfold due in Et0. rewrite Ha0 in Et0. simpl in Et0. apply negb_false_iff, Z.ltb_lt in Et0. lia.
  - split_and!; [constructor; [done|]| |done|done].
    + eapply Forall_impl; [done|]. simpl. lia.
    + assert (lo ≤ deadline t)%Z by (by eapply Hlo).
      constructor; [lia|]. eapply Forall_impl; [done|]. simpl. lia.
Qed.
End clock.

(** ** Properties *)

(** Advance terminates, fires in deadline order and leaves nothing due. When no
    callback raises the number of pending timers or schedules in the past, one more
    iteration than there are pending timers is enough; the clock then stands at
    now+d, no active timer has a deadline in the window, and the timers fired did so
    in non-decreasing deadline order, none after the end of the window. *)
Theorem advance_fires_in_order {F W} (run : F → FakeClock F * W → FakeClock F * W) c w d :
  quiet run → forward run → (0 ≤ d)%Z →
  ∃ c' w' fired, Advance run (S (Pending c)) c w d = Some (c', w', fired) ∧
    now c' = (now c + d)%Z ∧
    (∀ j t, timers c' !! j = Some t → active t = true → (now c' < deadline t)%Z) ∧
    StronglySorted Z.le fired ∧ Forall (λ x, x ≤ now c')%Z fired.
Proof.
  intros Hq Hf Hd. unfold Advance. destruct (Z.ltb_spec d 0); [lia|].
  destruct (advance_loop_total run (now c + d)%Z Hq (S (Pending c)) c w) as [[[c' w'] fired] E]; [lia|].
  set (lo := foldr (λ t acc, Z.min (deadline t) acc) 0%Z (timers c)).
  assert (∀ j t, timers c !! j = Some t → active t = true → (lo ≤ deadline t)%Z) as Hlo.
  { subst lo. clear. intros j t Hj _. generalize dependent j.
    induction (timers c) as [|x ts IH]; intros [|j] Hj; simpl in *; try done.
    - injection Hj as ->. lia.
    - specialize (IH j Hj). lia. }
  destruct (advance_loop_sorted run (now c + d)%Z Hf _ _ _ _ _ _ E lo Hlo) as (Hs & Hall & Hn & Hno).
  exists c', w', fired. split_and!; [done|done| |done|].
  - intros j t Hj Ha. specialize (Hno j t Hj). unfold due in Hno. rewrite Ha in Hno. simpl in Hno.
    apply negb_false_iff, Z.ltb_lt in Hno. lia.
  - eapply Forall_impl; [done|]. simpl. lia.
Qed.

(** Callbacks for the witness: a callback logs its name, and 1 also stops timer 2. *)
Definition log_run (f : nat) (s : FakeClock nat * list nat) : FakeClock nat * list nat :=
  let '(c, w) := s in
  (if Nat.eqb f 1 then (Stop c 2).2 else c, w ++ [f]).

Lemma stop_pending {F} (c : FakeClock F) i : Pending (Stop c i).2 ≤ Pending c.
Proof.
  unfold Stop, Pending. destruct (timers c !! i) as [t|] eqn:Hi; [|done]. simpl.
  generalize dependent i. induction (timers c) as [|x ts IH]; intros [|i] Hi; simpl in *; try done.
  - rewrite filter_cons_False by done. rewrite filter_cons. case_decide; simpl; lia.
  - rewrite !filter_cons. specialize (IH i Hi). case_decide; simpl; lia.
Qed.

Abbreviation demo_clock := (mkClock 100%Z [mkTimer 130%Z 1 true; mkTimer 110%Z 0 true; mkTimer 140%Z 2 true]).

Lemma advance_fires_in_order_witness :
  ∃ c' w' fired, Advance log_run (S (Pending demo_clock)) demo_clock [] 50%Z = Some (c', w', fired) ∧
    now c' = (now demo_clock + 50)%Z ∧
    (∀ j t, timers c' !! j = Some t → active t = true → (now c' < deadline t)%Z) ∧
    StronglySorted Z.le fired ∧ Forall (λ x, x ≤ now c')%Z fired.
Proof.
  apply advance_fires_in_order; [| |lia].
  - intros f c w. simpl. destruct (Nat.eqb f 1); [apply stop_pending|done].
  - intros f c w. simpl. unfold Stop. destruct (Nat.eqb f 1); [|split; [done|eauto]].
    destruct (timers c !! 2) as [t|] eqn:E; simpl; [|split; [done|eauto]].
    split; [done|]. intros j t' Hj Ha. left. destruct (decide (2 = j)) as [<-|].
    + rewrite list_lookup_insert_eq in Hj by (by eapply lookup_lt_Some). by injection Hj as <-.
    + rewrite list_lookup_insert_ne in Hj by done. eauto.
Defined.

(** nextDueLocked returns the earliest due timer, the first scheduled among
    equals, and nothing exactly when no active timer is due. *)
Theorem next_due_is_earliest {F} (c : FakeClock F) target :
  match nextDueLocked c target with
  | Some (i, t) => timers c !! i = Some t ∧ due target t = true ∧
      ∀ j t', timers c !! j = Some t' → due target t' = true →
        (deadline t ≤ deadline t')%Z ∧ (j < i → (deadline t < deadline t')%Z)
  | None => ∀ j t, timers c !! j = Some t → due target t = false
  end.
Proof. apply nextDueLocked_spec. Qed.
