(* ===== verification/Event.v ===== *)
(** * The event bus ([internal/event/bus.go], [event.go])

    Go channels are heap objects shared between the bus and the subscribers, so the
    model keeps a heap of channels: a channel has a capacity, a queue and a closed
    flag, and is named by its allocation number.  Sending on a closed channel and
    closing one twice panic in Go; the model reports both as [None], and the bus is
    proved never to do either.  A subscriber receives from the head of its queue.
    Bus operations run under the bus lock and are atomic; [now] is the bus clock's
    reading. *)

From S2P Require Import Prelude GoStrings GoFloat GoValue.

(** [EventType] and the constants of [event.go]. *)
Definition TypeAlarmRaised : string := "AlarmRaised".
Definition TypeAlarmCleared : string := "AlarmCleared".
Definition TypeConfigChanged : string := "ConfigChanged".
Definition TypeStateTransition : string := "StateTransition".
Definition DomainRadio : string := "radio".
Definition DomainL2 : string := "l2".
Definition DomainSync : string := "sync".
Definition AlarmRadioLinkDown : string := "radioLinkDown".
Definition AlarmRadioLinkDegraded : string := "radioLinkDegraded".
Definition AlarmL2Storm : string := "l2Storm".
Definition AlarmSyncHoldover : string := "syncHoldover".

Record Event : Set := mkEvent {
  ev_Type : string;
  ev_Resource : string;
  ev_Severity : string;
  ev_Message : string;
  ev_Domain : string;
  ev_Alarm : string;
  ev_From : string;
  ev_To : string;
  ev_Timestamp : time;
}.
Global Instance Event_eq_dec : EqDecision Event.
Proof. solve_decision. Defined.

Definition DefaultBuffer : Z := 64.

(** ** Channels *)

Record chan : Set := mkChan { ch_cap : nat; ch_buf : list Event; ch_closed : bool }.

Abbreviation chan_id := nat.
Abbreviation heap := (gmap chan_id chan).

(** [select { case ch <- e: default: }]: [None] is the panic of a send on a closed
    channel; a full buffer takes the default branch. *)
Definition try_send (h : heap) (ch : chan_id) (e : Event) : option heap :=
  c ← h !! ch;
  if ch_closed c then None
  else if Nat.ltb (length (ch_buf c)) (ch_cap c)
  then Some (<[ch := mkChan (ch_cap c) (ch_buf c ++ [e]) false]> h)
  else Some h.

(** [close(ch)]: [None] is the panic of closing a closed channel. *)
Definition close_chan (h : heap) (ch : chan_id) : option heap :=
  c ← h !! ch;
  if ch_closed c then None else Some (<[ch := mkChan (ch_cap c) (ch_buf c) true]> h).

(** A receive that does not block: the head of the queue, if there is one. *)
Definition recv (h : heap) (ch : chan_id) : option (Event * heap) :=
  c ← h !! ch;
  match ch_buf c with
  | [] => None
  | e :: rest => Some (e, <[ch := mkChan (ch_cap c) rest (ch_closed c)]> h)
  end.

(** ** The bus *)

Record Bus : Set := mkBus { subs : gset chan_id; buffer : nat; closed : bool }.

(** [New]. *)
Definition New (bufferSize : Z) : Bus :=
  mkBus ∅ (Z.to_nat (if (bufferSize <=? 0)%Z then DefaultBuffer else bufferSize)) false.

Definition stamp (now : time) (e : Event) : Event :=
  if is_zero_time (ev_Timestamp e)
  then mkEvent (ev_Type e) (ev_Resource e) (ev_Severity e) (ev_Message e) (ev_Domain e)
         (ev_Alarm e) (ev_From e) (ev_To e) now
  else e.

(** [Publish]. *)
Definition Publish (b : Bus) (h : heap) (now : time) (e : Event) : option heap :=
  if closed b then Some h
  else
    let e := stamp now e in
    foldr (λ ch acc, h ← acc; try_send h ch e) (Some h) (elements (subs b)).

(** [Subscribe]: allocates a fresh channel. *)
Definition Subscribe (b : Bus) (h : heap) : option (chan_id * Bus * heap) :=
  let ch := fresh (dom h) in
  let h := <[ch := mkChan (buffer b) [] false]> h in
  if closed b then h ← close_chan h ch; Some (ch, b, h)
  else Some (ch, mkBus ({[ch]} ∪ subs b) (buffer b) (closed b), h).

(** [Unsubscribe]. *)
Definition Unsubscribe (b : Bus) (h : heap) (ch : chan_id) : option (bool * Bus * heap) :=
  if bool_decide (ch ∈ subs b)
  then h ← close_chan h ch; Some (true, mkBus (subs b ∖ {[ch]}) (buffer b) (closed b), h)
  else Some (false, b, h).

(** [Close]. *)
Definition Close (b : Bus) (h : heap) : option (Bus * heap) :=
  if closed b then Some (b, h)
  else
    h ← foldr (λ ch acc, h ← acc; close_chan h ch) (Some h) (elements (subs b));
    Some (mkBus ∅ (buffer b) true, h).

(** [pending]. *)
Definition pending (b : Bus) : nat := size (subs b).

(** ** Invariant *)

(** Every subscribed channel is open and allocated, every other allocated channel is
    closed, queues fit their capacity, and a closed bus has no subscriber. *)
Record bus_ok (b : Bus) (h : heap) : Prop := {
  ok_subs : ∀ ch, ch ∈ subs b ↔ ∃ c, h !! ch = Some c ∧ ch_closed c = false;
  ok_cap : ∀ ch c, h !! ch = Some c → length (ch_buf c) ≤ ch_cap c;
  ok_closed : closed b = true → subs b = ∅;
}.

(** A loop over distinct channels that updates each one independently. *)
Definition send_to (e : Event) (c : chan) : chan :=
  if Nat.ltb (length (ch_buf c)) (ch_cap c)
  then mkChan (ch_cap c) (ch_buf c ++ [e]) (ch_closed c) else c.
Definition close_one (c : chan) : chan := mkChan (ch_cap c) (ch_buf c) true.

Definition open_at (h : heap) (ch : chan_id) : Prop := ∃ c, h !! ch = Some c ∧ ch_closed c = false.

Lemma try_send_open h ch c e :
  h !! ch = Some c → ch_closed c = false → try_send h ch e = Some (<[ch := send_to e c]> h).
Proof.
  intros Hc Ho. unfold try_send, send_to. rewrite Hc. simpl. rewrite Ho.
  case_match; [done|]. by rewrite insert_id.
Qed.

Lemma close_chan_open h ch c :
  h !! ch = Some c → ch_closed c = false → close_chan h ch = Some (<[ch := close_one c]> h).
Proof. intros Hc Ho. unfold close_chan. rewrite Hc. simpl. by rewrite Ho. Qed.

(** The loops of Publish and Close: with distinct open channels they succeed and
    change exactly those channels. *)
Lemma chan_loop (op : heap → chan_id → option heap) (f : chan → chan) l h :
  (∀ h ch c, h !! ch = Some c → ch_closed c = false → op h ch = Some (<[ch := f c]> h)) →
  NoDup l → Forall (open_at h) l →
  ∃ h', foldr (λ ch acc, h ← acc; op h ch) (Some h) l = Some h' ∧
    ∀ ch, h' !! ch = if bool_decide (ch ∈ l) then f <$> h !! ch else h !! ch.
Proof.
  intros Hop. induction l as [|a l IH]; intros Hnd Ho; simpl; [by eexists|].
  apply NoDup_cons in Hnd as [Ha Hnd]. apply Forall_cons in Ho as [(c & Hc & Hcl) Ho].
  destruct (IH Hnd Ho) as (h' & -> & Hh'). simpl.
  assert (h' !! a = Some c) as Hac by (by rewrite Hh', bool_decide_eq_false_2).
  rewrite (Hop _ _ _ Hac Hcl). eexists; split; [done|]. intros ch.
  destruct (decide (ch = a)) as [->|Hne].
  - rewrite lookup_insert_eq, bool_decide_eq_true_2 by apply list_elem_of_here. by rewrite Hc.
  - rewrite lookup_insert_ne, Hh' by done.
    by rewrite (bool_decide_ext (ch ∈ a :: l) (ch ∈ l)) by (rewrite elem_of_cons; naive_solver).
Qed.

Lemma subs_open b h : bus_ok b h → Forall (open_at h) (elements (subs b)).
Proof. intros [Hs _ _]. apply Forall_forall. intros ch Hch. by apply Hs, elem_of_elements. Qed.

Lemma Publish_effect b h now e :
  bus_ok b h →
  ∃ h', Publish b h now e = Some h' ∧
    ∀ ch, h' !! ch = if bool_decide (ch ∈ subs b) then send_to (stamp now e) <$> h !! ch else h !! ch.
Proof.
  intros Hok. unfold Publish. destruct (closed b) eqn:Hcl.
  - exists h. split; [done|]. intros ch. rewrite (ok_closed _ _ Hok Hcl).
    by rewrite bool_decide_eq_false_2 by set_solver.
  - destruct (chan_loop (λ h ch, try_send h ch (stamp now e)) (send_to (stamp now e))
      (elements (subs b)) h) as (h' & Heq & Hh').
    + intros. by apply try_send_open.
    + apply NoDup_elements.
    + by apply subs_open.
    + exists h'. split; [done|]. intros ch. rewrite Hh'.
      by rewrite (bool_decide_ext (ch ∈ elements (subs b)) (ch ∈ subs b)) by apply elem_of_elements.
Qed.

Lemma Close_effect b h :
  bus_ok b h → closed b = false →
  ∃ h', Close b h = Some (mkBus ∅ (buffer b) true, h') ∧
    ∀ ch, h' !! ch = if bool_decide (ch ∈ subs b) then close_one <$> h !! ch else h !! ch.
Proof.
  intros Hok Hcl. unfold Close. rewrite Hcl.
  destruct (chan_loop close_chan close_one (elements (subs b)) h) as (h' & -> & Hh').
  - intros. by apply close_chan_open.
  - apply NoDup_elements.
  - by apply subs_open.
  - exists h'. split; [done|]. intros ch. rewrite Hh'.
    by rewrite (bool_decide_ext (ch ∈ elements (subs b)) (ch ∈ subs b)) by apply elem_of_elements.
Qed.

(** ** Histories *)

Inductive bus_op : Set :=
  | BPublish (now : time) (e : Event)
  | BSubscribe
  | BUnsubscribe (ch : chan_id)
  | BClose
  | BRecv (ch : chan_id).

(** The bus, the channel heap, the events published on the open bus so far, and what
    each reader has taken out of its channel. *)
Record world : Set := mkWorld {
  w_bus : Bus;
  w_heap : heap;
  w_published : list Event;
  w_received : gmap chan_id (list Event);
}.

Definition got (w : world) (ch : chan_id) : list Event := default [] (w_received w !! ch).

(** One operation; [None] is a panic. *)
Definition bus_step (w : world) (op : bus_op) : option world :=
  let '(mkWorld b h pub rcv) := w in
  match op with
  | BPublish now e =>
      h ← Publish b h now e;
      Some (mkWorld b h (if closed b then pub else pub ++ [stamp now e]) rcv)
  | BSubscribe => '(_, b, h) ← Subscribe b h; Some (mkWorld b h pub rcv)
  | BUnsubscribe ch => '(_, b, h) ← Unsubscribe b h ch; Some (mkWorld b h pub rcv)
  | BClose => '(b, h) ← Close b h; Some (mkWorld b h pub rcv)
  | BRecv ch =>
      match recv h ch with
      | Some (e, h) => Some (mkWorld b h pub (<[ch := got w ch ++ [e]]> rcv))
      | None => Some w
      end
  end.

Fixpoint bus_run (w : world) (ops : list bus_op) : option world :=
  match ops with
  | [] => Some w
  | op :: ops => w ← bus_step w op; bus_run w ops
  end.

Definition bus_init (bufferSize : Z) : world := mkWorld (New bufferSize) ∅ [] ∅.

(** What has left the bus towards a channel was published, in that order. *)
Record world_ok (w : world) : Prop := {
  wok_bus : bus_ok (w_bus w) (w_heap w);
  wok_order : ∀ ch c, w_heap w !! ch = Some c → (got w ch ++ ch_buf c) `sublist_of` w_published w;
  wok_fresh : ∀ ch, w_heap w !! ch = None → w_received w !! ch = None;
}.

Lemma publish_ok w now e :
  world_ok w → ∃ w', bus_step w (BPublish now e) = Some w' ∧ world_ok w'.
Proof.
  destruct w as [b h pub rcv]. intros [Hb Ho Hfr]. simpl in *.
  destruct (Publish_effect b h now e Hb) as (h' & -> & Hh'). simpl. eexists; split; [done|].
  destruct Hb as [Hs Hc Hcl]. split; simpl.
  - split; simpl; [| |done].
    + intros ch. rewrite Hs, Hh'. case_bool_decide as Hin; [|done].
      apply Hs in Hin as (c & -> & Hopen). simpl. split; intros _; [|eauto].
      eexists; split; [done|]. unfold send_to. by case_match.
    + intros ch c. rewrite Hh'. case_bool_decide; [|by apply Hc].
      destruct (h !! ch) as [c0|] eqn:E; simpl; [|done]. intros [= <-].
      specialize (Hc _ _ E). unfold send_to. case_match eqn:El; simpl; [|done].
      apply Nat.ltb_lt in El. rewrite length_app. simpl. lia.
  - intros ch c. rewrite Hh'. unfold got. simpl. case_bool_decide as Hin.
    + assert (closed b = false) as ->.
      { destruct (closed b) eqn:E; [|done]. rewrite Hcl in Hin by done. set_solver. }
      destruct (h !! ch) as [c0|] eqn:E; simpl; [|done]. intros [= <-].
      specialize (Ho _ _ E). unfold got in Ho. simpl in Ho.
      unfold send_to. case_match; simpl.
      * rewrite app_assoc. by apply sublist_app.
      * by apply sublist_inserts_r.
    + intros Hch. specialize (Ho _ _ Hch). unfold got in Ho. simpl in Ho.
      destruct (closed b); [done|]. by apply sublist_inserts_r.
  - intros ch. rewrite Hh'. case_bool_decide; [|by apply Hfr].
    destruct (h !! ch) eqn:E; [done|]. intros _. by apply Hfr.
Qed.

(** An operation that replaces one channel, and the subscription of that channel. *)
Lemma world_ok_set b h pub rcv b' rcv' ch c :
  world_ok (mkWorld b h pub rcv) →
  (ch ∈ subs b' ↔ ch_closed c = false) → (∀ x, x ≠ ch → x ∈ subs b' ↔ x ∈ subs b) →
  length (ch_buf c) ≤ ch_cap c → (closed b' = true → subs b' = ∅) →
  (∀ x, x ≠ ch → rcv' !! x = rcv !! x) →
  (default [] (rcv' !! ch) ++ ch_buf c) `sublist_of` pub →
  world_ok (mkWorld b' (<[ch := c]> h) pub rcv').
Proof.
  intros [[Hs Hc Hcl] Ho Hfr] Hch Hother Hlen Hcl' Hrcv Hsub. simpl in *.
  split; simpl; [split; simpl; [intros x|intros x cx|done]|intros x cx; unfold got; simpl|intros x].
  - destruct (decide (x = ch)) as [->|Hne].
    + rewrite lookup_insert_eq, Hch. split; [eauto|]. by intros (c' & [= <-] & ?).
    + rewrite lookup_insert_ne, Hother by done. apply Hs.
  - destruct (decide (x = ch)) as [->|Hne].
    + rewrite lookup_insert_eq. by intros [= <-].
    + rewrite lookup_insert_ne by done. apply Hc.
  - destruct (decide (x = ch)) as [->|Hne].
    + rewrite lookup_insert_eq. by intros [= <-].
    + rewrite lookup_insert_ne, Hrcv by done. apply Ho.
  - destruct (decide (x = ch)) as [->|Hne]; [by rewrite lookup_insert_eq|].
    rewrite lookup_insert_ne, Hrcv by done. apply Hfr.
Qed.

Lemma subscribe_ok w :
  world_ok w → ∃ w', bus_step w BSubscribe = Some w' ∧ world_ok w'.
Proof.
  destruct w as [b h pub rcv]. intros Hw. unfold bus_step, Subscribe. cbv zeta.
  set (ch := fresh (dom h)).
  assert (h !! ch = None) as Hnew by (apply not_elem_of_dom, is_fresh).
  assert (default [] (rcv !! ch) = []) as Hr by (pose proof (wok_fresh _ Hw ch Hnew) as E; simpl in E; by rewrite E).
  assert (ch ∉ subs b) as Hns.
  { intros (c & Hc & _)%(ok_subs _ _ (wok_bus _ Hw)). simpl in Hc. congruence. }
  destruct (closed b) eqn:Ecb.
  - unfold close_chan. rewrite lookup_insert_eq. simpl. eexists; split; [done|].
    rewrite insert_insert_eq. eapply world_ok_set; [done|..]; simpl; try done; [lia| |].
    + intros _. by apply (ok_closed _ _ (wok_bus _ Hw)).
    + rewrite Hr. apply sublist_nil_l.
  - simpl. eexists; split; [done|]. eapply world_ok_set; [done|..]; simpl; try done.
    + set_solver.
    + set_solver.
    + lia.
    + rewrite Hr. apply sublist_nil_l.
Qed.

Lemma unsubscribe_ok w ch :
  world_ok w → ∃ w', bus_step w (BUnsubscribe ch) = Some w' ∧ world_ok w'.
Proof.
  destruct w as [b h pub rcv]. intros Hw. simpl. unfold Unsubscribe.
  case_bool_decide as Hin; simpl; [|by eexists].
  destruct (proj1 (ok_subs _ _ (wok_bus _ Hw) ch) Hin) as (c & Hc & Ho). simpl in Hc.
  rewrite (close_chan_open _ _ _ Hc Ho). simpl. eexists; split; [done|].
  eapply world_ok_set; [done|..]; simpl; try done.
  - set_solver.
  - set_solver.
  - by apply (ok_cap _ _ (wok_bus _ Hw) ch).
  - intros Hcl. pose proof (ok_closed _ _ (wok_bus _ Hw) Hcl) as E. simpl in E.
    rewrite E in Hin. set_solver.
  - apply (wok_order _ Hw ch c Hc).
Qed.

Lemma recv_ok w ch :
  world_ok w → ∃ w', bus_step w (BRecv ch) = Some w' ∧ world_ok w'.
Proof.
  destruct w as [b h pub rcv]. intros Hw. simpl. unfold recv.
  destruct (h !! ch) as [c|] eqn:Hc; simpl; [|by eexists].
  destruct (ch_buf c) as [|e rest] eqn:Hb; [by eexists|]. eexists; split; [done|].
  pose proof (ok_cap _ _ (wok_bus _ Hw) ch c Hc) as Hcap. rewrite Hb in Hcap. simpl in Hcap.
  eapply world_ok_set; [done|..]; simpl; try done.
  - pose proof (ok_subs _ _ (wok_bus _ Hw) ch) as E. simpl in E. rewrite E, Hc. naive_solver.
  - lia.
  - apply (ok_closed _ _ (wok_bus _ Hw)).
  - intros x ?. by rewrite lookup_insert_ne.
  - rewrite lookup_insert_eq. simpl. rewrite <- app_assoc. simpl. rewrite <- Hb.
    apply (wok_order _ Hw ch c Hc).
Qed.

Lemma close_ok w : world_ok w → ∃ w', bus_step w BClose = Some w' ∧ world_ok w'.
Proof.
  destruct w as [b h pub rcv]. intros Hw. simpl. destruct (closed b) eqn:Hcl.
  { unfold Close. rewrite Hcl. by eexists. }
  destruct Hw as [Hb Ho Hfr]. simpl in *.
  destruct (Close_effect b h Hb Hcl) as (h' & -> & Hh'). simpl. eexists; split; [done|].
  assert (∀ ch c, h' !! ch = Some c → ch_closed c = true ∧
            ∃ c0, h !! ch = Some c0 ∧ ch_buf c = ch_buf c0 ∧ ch_cap c = ch_cap c0) as Hback.
  { intros ch c. rewrite Hh'. case_bool_decide as Hin.
    - destruct (h !! ch) as [c0|]; simpl; [|done]. intros [= <-]. simpl. eauto.
    - intros Hc. split; [|eauto]. destruct (ch_closed c) eqn:E; [done|].
      exfalso. apply Hin, (ok_subs _ _ Hb). eauto. }
  split; simpl.
  - split; simpl; [| |done].
    + intros ch. split; [set_solver|]. intros (c & Hc & Hopen).
      destruct (Hback _ _ Hc). congruence.
    + intros ch c Hc. destruct (Hback _ _ Hc) as (_ & c0 & Hc0 & -> & ->). by apply (ok_cap _ _ Hb ch).
  - intros ch c Hc. destruct (Hback _ _ Hc) as (_ & c0 & Hc0 & -> & _). apply (Ho _ _ Hc0).
  - intros ch Hn. apply Hfr. rewrite Hh' in Hn. case_bool_decide; [|done]. by destruct (h !! ch).
Qed.

Lemma bus_step_ok w op : world_ok w → ∃ w', bus_step w op = Some w' ∧ world_ok w'.
Proof.
  destruct op; auto using publish_ok, subscribe_ok, unsubscribe_ok, close_ok, recv_ok.
Qed.

Lemma bus_init_ok n : world_ok (bus_init n).
Proof. split; [split|..]; simpl; set_solver. Qed.

(** ** Properties *)

(** C21: the bus never panics and never reorders. Whatever sequence of Publish,
    Subscribe, Unsubscribe, Close and reads is made on a new bus, no operation sends
    on or closes a closed channel; subscribed channels are exactly the open ones; no
    queue exceeds its capacity; and what a reader has taken from its channel followed
    by what is still queued is a subsequence of the events published, in order. *)
Theorem bus_never_panics n ops :
  ∃ w, bus_run (bus_init n) ops = Some w ∧
    (∀ ch, ch ∈ subs (w_bus w) ↔ open_at (w_heap w) ch) ∧
    (closed (w_bus w) = true → pending (w_bus w) = 0) ∧
    (∀ ch c, w_heap w !! ch = Some c → length (ch_buf c) ≤ ch_cap c ∧
       (got w ch ++ ch_buf c) `sublist_of` w_published w).
Proof.
  assert (∀ w, world_ok w → ∃ w', bus_run w ops = Some w' ∧ world_ok w') as H.
  { induction ops as [|op ops IH]; intros w Hw; simpl; [eauto|].
    destruct (bus_step_ok w op Hw) as (w1 & -> & Hw1). by apply IH. }
  destruct (H (bus_init n) (bus_init_ok n)) as (w & Hrun & [[Hs Hc Hcl] Ho _]).
  exists w. split_and!; [done|apply Hs| |].
  - intros E. unfold pending. by rewrite (Hcl E), size_empty.
  - intros ch c Hch. eauto.
Qed.

(** Publish fans out. On an open bus with the bus invariant, every subscriber whose
    queue has room gets the event, stamped with the clock if it had no timestamp, at the
    end of its queue; a full queue loses it; no other channel changes. *)
Theorem publish_fans_out b h now e :
  bus_ok b h →
  ∃ h', Publish b h now e = Some h' ∧
    (∀ ch c, ch ∈ subs b → h !! ch = Some c →
       h' !! ch = Some (if decide (length (ch_buf c) < ch_cap c)
                        then mkChan (ch_cap c) (ch_buf c ++ [stamp now e]) (ch_closed c) else c)) ∧
    (∀ ch, ch ∉ subs b → h' !! ch = h !! ch).
Proof.
  intros Hok. destruct (Publish_effect b h now e Hok) as (h' & -> & Hh').
  exists h'. split_and!; [done|..].
  - intros ch c Hin Hc. rewrite Hh', bool_decide_eq_true_2, Hc by done. simpl. f_equal.
    unfold send_to. destruct (Nat.ltb_spec (length (ch_buf c)) (ch_cap c)); case_decide; (done || lia).
  - intros ch Hin. by rewrite Hh', bool_decide_eq_false_2.
Qed.

Definition demo_event : Event := mkEvent TypeAlarmRaised "radio0" "major" "" DomainRadio AlarmRadioLinkDown "" "" 0.
Abbreviation demo_world := (default (bus_init 1) (bus_run (bus_init 1) [BSubscribe; BPublish 5 demo_event])).

Lemma publish_fans_out_witness :
  bus_ok (w_bus demo_world) (w_heap demo_world) ∧
  ∃ h', Publish (w_bus demo_world) (w_heap demo_world) 9 demo_event = Some h' ∧
    h' !! 0 = Some (mkChan 1 [stamp 5 demo_event] false).
Proof.
  assert (H : bus_ok (w_bus demo_world) (w_heap demo_world)).
  { destruct (bus_step_ok (bus_init 1) BSubscribe (bus_init_ok 1)) as (w1 & E1 & H1).
    destruct (bus_step_ok w1 (BPublish 5 demo_event) H1) as (w2 & E2 & H2).
    unfold bus_run. rewrite E1. simpl. rewrite E2. simpl. apply H2. }
  split; [exact H|].
  destruct (publish_fans_out _ _ 9%Z demo_event H) as (h' & Hp & Hin & _).
  exists h'. split; [exact Hp|].
  rewrite (Hin 0 (mkChan 1 [stamp 5 demo_event] false)); [reflexivity|by_decide|reflexivity].
Defined.
