(* ===== verification/Framing.v ===== *)
(** * NETCONF message framing ([internal/netconf/framing.go])

    A connection is the byte string still to be read; reading past its end is
    [io.EOF].  [ReadMessage] returns the message and what is left of the stream, and
    [WriteMessage] the bytes of the single [Write] call.  The chunk loop recurses on
    fuel: every iteration consumes at least two bytes, so the length of the stream is
    enough ([readChunked_fuel]). *)

From S2P Require Import Prelude GoStrings GoFloat GoValue.

Inductive framingMode : Set := framingEOM | framingChunked.
Global Instance framingMode_eq_dec : EqDecision framingMode.
Proof. solve_decision. Defined.

(** [framingMode.String]. *)
Definition framingMode_String (m : framingMode) : string :=
  match m with framingChunked => "chunked" | framingEOM => "eom" end.

Definition endOfMessage : string := "]]>]]>".
Definition maxMessageSize : Z := Z.shiftl 16 20.

Definition LF : ascii := "010".
Definition hash : ascii := "#".
Definition str1 (a : ascii) : string := String a "".
Definition len (s : string) : Z := Z.of_nat (String.length s).

(** [bufio.Reader.ReadByte]. *)
Definition ReadByte (s : string) : res (ascii * string) :=
  match s with
  | "" => Err [IoEOF]
  | String a s => Ok (a, s)
  end.

(** [io.ReadFull] into a buffer of [n] bytes: nothing read is [io.EOF], a short read
    [io.ErrUnexpectedEOF], and an empty buffer reads nothing. *)
Definition ReadFull (s : string) (n : nat) : res (string * string) :=
  if Nat.leb n (String.length s) then Ok (str_take n s, str_drop n s)
  else if String.eqb s "" then Err [IoEOF] else Err [IoUnexpectedEOF].

(** ** Hexadecimal: [strconv.ParseUint(s, 16, 32)] and the [%x] verb *)

Fixpoint parse_hex (s : string) (acc : N) : option N :=
  match s with
  | "" => Some acc
  | String a s => d ← hex_val a; parse_hex s (acc * 16 + d)%N
  end.

Definition ParseUint16 (s : string) (bits : Z) : option Z :=
  if String.eqb s "" then None
  else n ← parse_hex s 0; if (Z.of_N n <? 2 ^ bits)%Z then Some (Z.of_N n) else None.

Definition hex_char (d : N) : ascii :=
  ascii_of_N (if (d <? 10)%N then d + 48 else d + 87)%N.

Fixpoint hex_digits (fuel : nat) (n : N) (acc : string) : string :=
  match fuel with
  | 0 => acc
  | S fuel =>
      let acc := String (hex_char (n mod 16)) acc in
      if (n <? 16)%N then acc else hex_digits fuel (n / 16) acc
  end.
Definition FormatHex (n : N) : string := hex_digits (S (N.to_nat (N.log2 n))) n "".

(** ** Reading *)

(** [readEOM]: [message] is what has been read so far. *)
Fixpoint readEOM_from (message s : string) : res (string * string) :=
  match s with
  | "" => Err [IoEOF]
  | String b s =>
      let message := message +:+ str1 b in
      if (maxMessageSize <? len message)%Z then Err [NetconfErrMessageTooBig]
      else if HasSuffix message endOfMessage
      then Ok (str_take (String.length message - String.length endOfMessage) message, s)
      else readEOM_from message s
  end.
Definition readEOM (s : string) : res (string * string) := readEOM_from "" s.

(** [expectChunkStart]: the leading LF is optional. *)
Definition expectChunkStart (s : string) : res string :=
  '(b, s) ← ReadByte s;
  '(b, s) ← (if Ascii.eqb b LF then ReadByte s else Ok (b, s));
  if Ascii.eqb b hash then Ok s else Err [NetconfErrMalformedFrame].

(** The digit loop of [readChunkSize]. *)
Fixpoint size_digits (digits s : string) : res (string * string) :=
  match s with
  | "" => Err [IoEOF]
  | String b s =>
      if Ascii.eqb b LF then Ok (digits, s)
      else
        let digits := digits +:+ str1 b in
        if Nat.ltb 8 (String.length digits) then Err [NetconfErrMalformedFrame]
        else size_digits digits s
  end.

(** [readChunkSize]: [None] is the end-of-chunks marker. *)
Definition readChunkSize (s : string) : res (option Z * string) :=
  '(first, s) ← ReadByte s;
  if Ascii.eqb first hash then
    '(b, s) ← ReadByte s;
    if Ascii.eqb b LF then Ok (None, s) else Err [NetconfErrMalformedFrame]
  else
    '(digits, s) ← size_digits (str1 first) s;
    match ParseUint16 digits 32 with
    | Some size => Ok (Some size, s)
    | None => Err [NetconfErrMalformedFrame]
    end.

(** [readChunked]; running out of fuel is not an outcome of the code. *)
Fixpoint readChunked_from (fuel : nat) (message s : string) : option (res (string * string)) :=
  match fuel with
  | 0 => None
  | S fuel =>
      match (s ← expectChunkStart s; readChunkSize s) with
      | Err e => Some (Err e)
      | Ok (None, s) => Some (Ok (message, s))
      | Ok (Some size, s) =>
          if (maxMessageSize - len message <? size)%Z then Some (Err [NetconfErrMessageTooBig])
          else match ReadFull s (Z.to_nat size) with
          | Err e => Some (Err e)
          | Ok (chunk, s) => readChunked_from fuel (message +:+ chunk) s
          end
      end
  end.

Definition readChunked (s : string) : res (string * string) :=
  default (Err []) (readChunked_from (S (String.length s)) "" s).

(** [ReadMessage]. *)
Definition ReadMessage (mode : framingMode) (s : string) : res (string * string) :=
  if decide (mode = framingChunked) then readChunked s else readEOM s.

(** [detectFraming]: peeks, consumes nothing. *)
Definition detectFraming (s : string) : res framingMode :=
  match s with
  | "" => Err [IoEOF]
  | String first s =>
      if Ascii.eqb first hash then Ok framingChunked
      else if Ascii.eqb first LF then
        match s with
        | "" => Err [IoEOF]
        | String second _ => if Ascii.eqb second hash then Ok framingChunked else Ok framingEOM
        end
      else Ok framingEOM
  end.

(** ** Writing *)

(** [WriteMessage]: the bytes of the one Write call. *)
Definition WriteMessage (mode : framingMode) (message : string) : string :=
  match mode with
  | framingEOM => message +:+ endOfMessage
  | framingChunked =>
      str1 LF +:+ str1 hash +:+ FormatHex (N.of_nat (String.length message)) +:+ str1 LF
      +:+ message +:+ str1 LF +:+ "##" +:+ str1 LF
  end.

(** ** Lemmas *)

Lemma hex_val_char d : (d < 16)%N → hex_val (hex_char d) = Some d.
Proof.
  intros H. rewrite <- (N2Nat.id d) in *. remember (N.to_nat d) as n.
  assert (n < 16) as Hn by lia. clear -Hn.
  do 16 (destruct n as [|n]; [done|]). lia.
Qed.

Lemma hex_char_not d c : (d < 16)%N → hex_val c = None → hex_char d ≠ c.
Proof. intros Hd Hc <-. by rewrite hex_val_char in Hc. Qed.

Lemma parse_hex_digits fuel n s acc :
  (n < 16 ^ N.of_nat fuel)%N →
  ∃ k, (k ≤ fuel) ∧ (n < 16 ^ N.of_nat k)%N ∧
    parse_hex (hex_digits fuel n s) acc = parse_hex s (acc * 16 ^ N.of_nat k + n)%N ∧
    String.length (hex_digits fuel n s) = k + String.length s ∧
    (1 < k → (16 ^ N.of_nat (pred k) ≤ n)%N).
Proof.
  revert n s acc. induction fuel as [|fuel IH]; intros n s acc Hn; simpl.
  - exists 0. simpl in *. split_and!; try lia. by rewrite (ltac:(lia) : n = 0%N), N.mul_1_r, N.add_0_r.
  - destruct (N.ltb_spec n 16).
    + exists 1. simpl. rewrite N.mod_small, hex_val_char by done. simpl.
      split_and!; try lia; try done.
    + destruct (IH (n / 16)%N (String (hex_char (n mod 16)) s) acc) as (k & Hk & Hlt & Hp & Hl & Hge).
      { apply N.Div0.div_lt_upper_bound. replace (N.of_nat (S fuel)) with (N.succ (N.of_nat fuel)) in Hn by lia.
        rewrite N.pow_succ_r' in Hn. lia. }
      pose proof (N.div_mod n 16 ltac:(done)). pose proof (N.mod_lt n 16 ltac:(done)).
      assert (16 ^ N.of_nat (S k) = 16 * 16 ^ N.of_nat k)%N as Hpow.
      { replace (N.of_nat (S k)) with (N.succ (N.of_nat k)) by lia. apply N.pow_succ_r'. }
      exists (S k). split_and!; [lia| | | |].
      * rewrite Hpow. lia.
      * rewrite Hp. simpl. rewrite hex_val_char by done. simpl. f_equal. rewrite Hpow. lia.
      * rewrite Hl. simpl. lia.
      * intros _. simpl. destruct k as [|k]; simpl in *; [lia|].
        destruct k as [|k]; [simpl; lia|].
        specialize (Hge ltac:(lia)). simpl pred in Hge.
        assert (16 ^ N.of_nat (S (S k)) = 16 * 16 ^ N.of_nat (S k))%N as ->.
        { replace (N.of_nat (S (S k))) with (N.succ (N.of_nat (S k))) by lia. apply N.pow_succ_r'. }
        rewrite H0. etrans; [by apply N.mul_le_mono_l, Hge|]. apply N.le_add_r.
Qed.

Lemma hex_digits_byte fuel n s c :
  hex_val c = None → has_byte s c = false → has_byte (hex_digits fuel n s) c = false.
Proof.
  intros Hc. revert n s. induction fuel as [|fuel IH]; intros n s Hs; simpl; [done|].
  assert (has_byte (String (hex_char (n mod 16)) s) c = false) as Hs'.
  { rewrite has_byte_cons, Hs, orb_false_r. apply Ascii.eqb_neq, hex_char_not; [|done].
    by apply N.mod_lt. }
  destruct (n <? 16)%N; [done|]. by apply IH.
Qed.

Lemma FormatHex_spec n :
  parse_hex (FormatHex n) 0 = Some n ∧ FormatHex n ≠ "" ∧
  (∀ c, hex_val c = None → has_byte (FormatHex n) c = false) ∧
  ((n < 16 ^ 8)%N → String.length (FormatHex n) ≤ 8).
Proof.
  unfold FormatHex. set (fuel := S (N.to_nat (N.log2 n))).
  assert (n < 16 ^ N.of_nat fuel)%N as Hn.
  { subst fuel. destruct (decide (n = 0)%N) as [->|]; [done|].
    destruct (N.log2_spec n) as [_ H]; [lia|].
    replace (N.of_nat (S (N.to_nat (N.log2 n)))) with (N.succ (N.log2 n)) by lia.
    eapply N.lt_le_trans; [exact H|]. by apply N.pow_le_mono_l. }
  destruct (parse_hex_digits fuel n "" 0 Hn) as (k & Hk & Hlt & Hp & Hl & Hge).
  split_and!.
  - rewrite Hp. simpl. f_equal; lia.
  - intros E. rewrite E in Hl. simpl in Hl. assert (k = 0) as -> by lia.
    simpl in Hlt. assert (n = 0)%N as -> by lia. subst fuel. done.
  - intros c Hc. by apply hex_digits_byte.
  - intros Hsmall. rewrite Hl. simpl. destruct (decide (k ≤ 8)); [lia|].
    specialize (Hge ltac:(lia)).
    pose proof (N.pow_le_mono_r 16 8 (N.of_nat (pred k)) ltac:(done) ltac:(lia)). lia.
Qed.

Lemma ParseUint16_FormatHex n bits :
  (Z.of_N n < 2 ^ bits)%Z → ParseUint16 (FormatHex n) bits = Some (Z.of_N n).
Proof.
  intros H. destruct (FormatHex_spec n) as (Hp & Hne & _). unfold ParseUint16.
  destruct (String.eqb_spec (FormatHex n) ""); [done|]. rewrite Hp. simpl.
  destruct (Z.ltb_spec (Z.of_N n) (2 ^ bits)); [done|lia].
Qed.

Lemma str1_app a s : str1 a +:+ s = String a s.
Proof. done. Qed.

Lemma size_digits_app d digits s :
  has_byte digits LF = false → String.length (d +:+ digits) ≤ 8 →
  size_digits d (digits +:+ String LF s) = Ok (d +:+ digits, s).
Proof.
  revert d. induction digits as [|a digits IH]; intros d Hb Hl; simpl.
  - by rewrite str_app_nil_r.
  - rewrite has_byte_cons in Hb. apply orb_false_iff in Hb as [Ha Hb]. rewrite Ha.
    rewrite str_length_app in Hl. simpl in Hl.
    destruct (Nat.ltb_spec 8 (String.length (d +:+ str1 a))) as [H|_].
    { rewrite str_length_app in H. simpl in H. lia. }
    rewrite IH; [|done|].
    + by rewrite str_app_assoc.
    + rewrite !str_length_app. simpl. lia.
Qed.

Lemma readChunkSize_header n s :
  (n < 16 ^ 8)%N →
  readChunkSize (FormatHex n +:+ str1 LF +:+ s) = Ok (Some (Z.of_N n), s).
Proof.
  intros Hn. destruct (FormatHex_spec n) as (Hp & Hne & Hb & Hl).
  specialize (Hl Hn). pose proof (ParseUint16_FormatHex n 32) as HP.
  destruct (FormatHex n) as [|a digits] eqn:E; [done|].
  unfold readChunkSize. simpl.
  pose proof (Hb hash eq_refl) as Hh. rewrite has_byte_cons in Hh.
  apply orb_false_iff in Hh as [-> _].
  pose proof (Hb LF eq_refl) as Hlf. rewrite has_byte_cons in Hlf.
  apply orb_false_iff in Hlf as [_ Hlf].
  rewrite (size_digits_app (str1 a) digits s); [|done|done]. simpl.
  rewrite HP; [done|]. assert (16 ^ 8 = 2 ^ 32)%N by done. lia.
Qed.

(** Every iteration consumes the stream, so the fuel is enough. *)
Lemma expectChunkStart_len s s' :
  expectChunkStart s = Ok s' → String.length s' < String.length s.
Proof.
  unfold expectChunkStart. destruct s as [|a s]; simpl; [done|].
  destruct (Ascii.eqb a LF); [destruct s as [|b s]; simpl; [done|]|]; simpl;
    case_match; intros [= <-]; lia.
Qed.

Lemma size_digits_len d s r s' : size_digits d s = Ok (r, s') → String.length s' < String.length s.
Proof.
  revert d. induction s as [|a s IH]; intros d; simpl; [done|].
  destruct (Ascii.eqb a LF); [intros [= _ <-]; lia|].
  destruct (Nat.ltb _ _); [done|]. intros H%IH. lia.
Qed.

Lemma readChunkSize_len s r s' : readChunkSize s = Ok (r, s') → String.length s' < String.length s.
Proof.
  unfold readChunkSize. destruct s as [|a s]; simpl; [done|].
  destruct (Ascii.eqb a hash).
  - destruct s as [|b s]; simpl; [done|]. destruct (Ascii.eqb b LF); [intros [= _ <-]; lia|done].
  - destruct (size_digits _ s) as [[d s1]|] eqn:E; simpl; [|done]. apply size_digits_len in E.
    destruct (ParseUint16 d 32); [intros [= _ <-]; lia|done].
Qed.

Lemma ReadFull_split s n c s' :
  ReadFull s n = Ok (c, s') → s = c +:+ s' ∧ String.length c = n.
Proof.
  unfold ReadFull. destruct (Nat.leb_spec n (String.length s)); [|by case_match].
  intros [= <- <-]. revert n H. induction s as [|a s IH]; intros [|n] Hn; simpl in *; try done; [lia|].
  destruct (IH n) as [H1 H2]; [lia|]. split; [by f_equal|lia].
Qed.

Lemma ReadFull_app c s : ReadFull (c +:+ s) (String.length c) = Ok (c, s).
Proof.
  unfold ReadFull. rewrite str_length_app.
  destruct (Nat.leb_spec (String.length c) (String.length c + String.length s)); [|lia].
  by rewrite str_take_app, str_drop_app.
Qed.

Lemma chunk_head_len s r s' :
  (s ← expectChunkStart s; readChunkSize s) = Ok (r, s') → String.length s' + 2 ≤ String.length s.
Proof.
  destruct (expectChunkStart s) as [s1|] eqn:E1; simpl; [|done]. intros E2.
  apply expectChunkStart_len in E1. apply readChunkSize_len in E2. lia.
Qed.

Lemma readChunked_fuel fuel message s :
  String.length s < fuel → is_Some (readChunked_from fuel message s).
Proof.
  revert message s. induction fuel as [|fuel IH]; intros message s Hf; [lia|]. simpl.
  destruct (s ← expectChunkStart s; readChunkSize s) as [[[size|] s1]|e] eqn:E; [|by eexists..].
  apply chunk_head_len in E.
  destruct (_ <? size)%Z; [by eexists|].
  destruct (ReadFull s1 _) as [[chunk s2]|e] eqn:E2; [|by eexists].
  apply ReadFull_split in E2 as [-> _]. rewrite str_length_app in E. apply IH. lia.
Qed.

(** The chunked grammar of RFC 6242, section 4.2, with the optional leading LF the
    reader tolerates: [chunks m s] means [s] is a message body [m] and its
    end-of-chunks marker. *)
Definition opening (o : string) : Prop := o = str1 hash ∨ o = str1 LF +:+ str1 hash.

Inductive chunks : string → string → Prop :=
  | chunks_end o : opening o → chunks "" (o +:+ str1 hash +:+ str1 LF)
  | chunks_data o digits n data m s :
      opening o → ParseUint16 digits 32 = Some n → len data = n → chunks m s →
      chunks (data +:+ m) (o +:+ digits +:+ str1 LF +:+ data +:+ s).

Lemma expectChunkStart_inv s s' : expectChunkStart s = Ok s' → ∃ o, opening o ∧ s = o +:+ s'.
Proof.
  unfold expectChunkStart. destruct s as [|a s]; simpl; [done|].
  destruct (Ascii.eqb_spec a LF) as [->|].
  - destruct s as [|b s]; simpl; [done|]. destruct (Ascii.eqb_spec b hash) as [->|]; [|done].
    intros [= <-]. exists (str1 LF +:+ str1 hash). by split; [right|].
  - simpl. destruct (Ascii.eqb_spec a hash) as [->|]; [|done].
    intros [= <-]. exists (str1 hash). by split; [left|].
Qed.

Lemma size_digits_inv d s r s' :
  size_digits d s = Ok (r, s') → ∃ x, r = d +:+ x ∧ s = x +:+ str1 LF +:+ s'.
Proof.
  revert d. induction s as [|a s IH]; intros d; simpl; [done|].
  destruct (Ascii.eqb_spec a LF) as [->|].
  - intros [= <- <-]. exists "". by rewrite str_app_nil_r.
  - destruct (Nat.ltb _ _); [done|]. intros (x & -> & ->)%IH. exists (str1 a +:+ x).
    by rewrite str_app_assoc.
Qed.

Lemma readChunkSize_inv s r s' :
  readChunkSize s = Ok (r, s') →
  match r with
  | None => s = str1 hash +:+ str1 LF +:+ s'
  | Some n => ∃ digits, ParseUint16 digits 32 = Some n ∧ s = digits +:+ str1 LF +:+ s'
  end.
Proof.
  unfold readChunkSize. destruct s as [|a s]; simpl; [done|].
  destruct (Ascii.eqb_spec a hash) as [->|].
  - destruct s as [|b s]; simpl; [done|]. destruct (Ascii.eqb_spec b LF) as [->|]; [|done].
    by intros [= <- <-].
  - destruct (size_digits _ s) as [[d s1]|] eqn:E; simpl; [|done].
    apply size_digits_inv in E as (x & -> & ->).
    destruct (ParseUint16 _ 32) eqn:Ep; [|done]. intros [= <- <-].
    exists (str1 a +:+ x). done.
Qed.

Lemma ParseUint16_range d bits n : ParseUint16 d bits = Some n → (0 ≤ n < 2 ^ bits)%Z.
Proof.
  unfold ParseUint16. destruct (String.eqb d ""); [done|].
  destruct (parse_hex d 0) as [k|]; simpl; [|done].
  destruct (Z.ltb_spec (Z.of_N k) (2 ^ bits)); [|done]. intros [= <-]. lia.
Qed.

Lemma readChunked_sound fuel message s m rest :
  (len message ≤ maxMessageSize)%Z →
  readChunked_from fuel message s = Some (Ok (m, rest)) →
  ∃ body text, m = message +:+ body ∧ s = text +:+ rest ∧ chunks body text ∧
    (len m ≤ maxMessageSize)%Z.
Proof.
  revert message s. induction fuel as [|fuel IH]; intros message s Hmax; simpl; [done|].
  destruct (expectChunkStart s) as [s0|] eqn:E1; simpl; [|done].
  apply expectChunkStart_inv in E1 as (o & Ho & ->).
  destruct (readChunkSize s0) as [[r s1]|] eqn:E2; [|done].
  apply readChunkSize_inv in E2. destruct r as [n|].
  - destruct E2 as (digits & Hd & ->).
    destruct (Z.ltb_spec (maxMessageSize - len message) n) as [|Hle]; [done|].
    destruct (ReadFull s1 (Z.to_nat n)) as [[data s2]|] eqn:E3; [|done].
    apply ReadFull_split in E3 as [-> Hlen].
    pose proof (ParseUint16_range _ _ _ Hd) as Hr.
    assert (len data = n) as Hn by (unfold len; lia).
    intros H. apply IH in H as (body & text & -> & -> & Hc & Hm).
    2:{ unfold len in *. rewrite str_length_app. lia. }
    exists (data +:+ body), (o +:+ digits +:+ str1 LF +:+ data +:+ text).
    split_and!; [by rewrite str_app_assoc| |by eapply chunks_data|done].
    by rewrite !str_app_assoc.
  - subst s0. intros [= <- <-]. exists "", (o +:+ str1 hash +:+ str1 LF).
    split_and!; [by rewrite str_app_nil_r| |by constructor|done].
    by rewrite !str_app_assoc.
Qed.

(** *** End-of-message framing *)

Lemma Contains_app a sub b : Contains (a +:+ sub +:+ b) sub = true.
Proof.
  induction a as [|x a IH]; simpl.
  - destruct (sub +:+ b) eqn:E; simpl; rewrite <- E, HasPrefix_app; done.
  - by rewrite IH, orb_true_r.
Qed.

Lemma app_last_split p q x a :
  p +:+ q = x +:+ str1 a → q ≠ "" → ∃ q', x = p +:+ q'.
Proof.
  revert x. induction p as [|b p IH]; intros x H Hq; simpl in *; [by exists x|].
  destruct x as [|c x]; simpl in H.
  - injection H as _ H. by destruct p, q.
  - injection H as -> H. destruct (IH x H Hq) as [q' ->]. by exists q'.
Qed.

(** The delimiter occurs in the framed message only at its end. *)
Definition eom_safe (m : string) : bool := negb (Contains (m +:+ "]]>]]") endOfMessage).

Lemma eom_safe_prefix m p q :
  eom_safe m = true → m +:+ endOfMessage = p +:+ q → q ≠ "" → HasSuffix p endOfMessage = false.
Proof.
  intros Hs E Hq. destruct (HasSuffix p endOfMessage) eqn:Hp; [|done]. exfalso.
  apply HasSuffix_spec in Hp as [u ->].
  assert ((u +:+ endOfMessage) +:+ q = (m +:+ "]]>]]") +:+ str1 ">") as H.
  { rewrite <- E, str_app_assoc. done. }
  apply app_last_split in H as [q' Hq']; [|done].
  unfold eom_safe in Hs. by rewrite Hq', str_app_assoc, Contains_app in Hs.
Qed.

Lemma str_app_inj_l (a b c : string) : a +:+ b = a +:+ c → b = c.
Proof. induction a as [|x a IH]; simpl; [done|]. intros [= H]. auto. Qed.

Lemma readEOM_roundtrip m rest :
  eom_safe m = true → (len m + 6 ≤ maxMessageSize)%Z →
  readEOM (m +:+ endOfMessage +:+ rest) = Ok (m, rest).
Proof.
  intros Hs Hmax. unfold readEOM.
  assert (∀ q p, m +:+ endOfMessage = p +:+ q → q ≠ "" →
    readEOM_from p (q +:+ rest) = Ok (m, rest)) as H.
  2:{ rewrite <- str_app_assoc. apply H; [done|]. by destruct m. }
  induction q as [|b q IH]; intros p E Hq; [done|]. simpl.
  assert (m +:+ endOfMessage = (p +:+ str1 b) +:+ q) as E' by (by rewrite str_app_assoc).
  assert (len (p +:+ str1 b) ≤ len m + 6)%Z as Hlen.
  { apply (f_equal String.length) in E'. rewrite !str_length_app in E'. unfold len.
    rewrite str_length_app. simpl in *. lia. }
  destruct (Z.ltb_spec maxMessageSize (len (p +:+ str1 b))); [lia|].
  destruct (decide (q = "")) as [->|Hne].
  - rewrite str_app_nil_r in E'. rewrite <- E', HasSuffix_app. simpl.
    rewrite str_length_app. simpl. rewrite Nat.add_sub, str_take_app. done.
  - rewrite (eom_safe_prefix m (p +:+ str1 b) q) by done. by apply IH.
Qed.

Lemma expectChunkStart_hash s : expectChunkStart (String LF (String hash s)) = Ok s.
Proof. done. Qed.

Lemma readChunked_roundtrip m rest :
  (len m ≤ maxMessageSize)%Z →
  readChunked (WriteMessage framingChunked m +:+ rest) = Ok (m, rest).
Proof.
  intros Hmax. unfold readChunked.
  set (s := WriteMessage framingChunked m +:+ rest).
  assert (∃ f, String.length s = S f) as [f Hf] by (subst s; simpl; eauto).
  rewrite Hf. subst s.
  assert (N.of_nat (String.length m) < 16 ^ 8)%N as Hn.
  { unfold len, maxMessageSize in Hmax. change (Z.shiftl 16 20) with 16777216%Z in Hmax.
    change (16 ^ 8)%N with 4294967296%N. lia. }
  set (h := FormatHex (N.of_nat (String.length m))).
  assert (WriteMessage framingChunked m +:+ rest =
    String LF (String hash (h +:+ str1 LF +:+ m +:+ String LF ("##" +:+ str1 LF +:+ rest)))) as ->.
  { unfold WriteMessage. rewrite !str_app_assoc. done. }
  cbn [readChunked_from]. rewrite expectChunkStart_hash. cbn [mbind res_bind].
  subst h. rewrite readChunkSize_header by done.
  destruct (Z.ltb_spec (maxMessageSize - len "") (Z.of_N (N.of_nat (String.length m)))) as [Hb|_].
  { unfold len in *. simpl in Hb. lia. }
  replace (Z.to_nat (Z.of_N (N.of_nat (String.length m)))) with (String.length m) by lia.
  rewrite ReadFull_app. by destruct f.
Qed.

(** ** Properties *)

(** A message a peer can send in a mode: within the size limit (which counts the
    delimiter in end-of-message framing) and, in that framing, free of the delimiter. *)
Definition sendable (mode : framingMode) (m : string) : Prop :=
  match mode with
  | framingEOM => eom_safe m = true ∧ (len m + 6 ≤ maxMessageSize)%Z
  | framingChunked => (len m ≤ maxMessageSize)%Z
  end.
Global Instance sendable_dec mode m : Decision (sendable mode m).
Proof. destruct mode; simpl; apply _. Defined.

(** The reading loop of a session: [n] messages in a row. *)
Fixpoint read_messages (mode : framingMode) (n : nat) (s : string) : res (list string * string) :=
  match n with
  | 0 => Ok ([], s)
  | S n =>
      '(m, s) ← ReadMessage mode s;
      '(ms, s) ← read_messages mode n s;
      Ok (m :: ms, s)
  end.

Lemma ReadMessage_WriteMessage mode m rest :
  sendable mode m → ReadMessage mode (WriteMessage mode m +:+ rest) = Ok (m, rest).
Proof.
  destruct mode; simpl; [|apply readChunked_roundtrip].
  intros [Hs Hm]. unfold ReadMessage. simpl. rewrite str_app_assoc. by apply readEOM_roundtrip.
Qed.

(** Framing round trip. Whatever messages are written one after the other in a
    framing mode, reading in that mode returns exactly those messages, in order, and
    leaves the bytes that follow them, for every message within the size limit and,
    in end-of-message framing, free of the delimiter. *)
Theorem framing_roundtrip mode ms rest :
  Forall (sendable mode) ms →
  read_messages mode (length ms) (foldr (λ m s, WriteMessage mode m +:+ s) rest ms) = Ok (ms, rest).
Proof.
  induction 1 as [|m ms Hm _ IH]; simpl; [done|].
  rewrite ReadMessage_WriteMessage by done. simpl. by rewrite IH.
Qed.

Lemma framing_roundtrip_witness :
  read_messages framingEOM 2 ("<hello/>]]>]]>" +:+ "<rpc/>]]>]]>" +:+ "<more")
    = Ok (["<hello/>"; "<rpc/>"], "<more") ∧
  read_messages framingChunked 2
    (WriteMessage framingChunked "<a>]]>]]></a>" +:+ WriteMessage framingChunked "" +:+ "tail")
    = Ok (["<a>]]>]]></a>"; ""], "tail").
Proof.
  split.
  - apply (framing_roundtrip framingEOM ["<hello/>"; "<rpc/>"] "<more"). by_decide.
  - apply (framing_roundtrip framingChunked ["<a>]]>]]></a>"; ""] "tail"). by_decide.
Defined.

(** The chunked reader accepts only the chunk grammar. The loop always terminates
    within the length of the stream, and a message it returns is the concatenation of
    the chunk data of a well-formed prefix of the stream, with the end-of-chunks marker,
    within the size limit; what is left over is exactly the rest of the stream. *)
Theorem chunked_reader_sound s :
  ∃ r, readChunked_from (S (String.length s)) "" s = Some r ∧ readChunked s = r ∧
    ∀ m rest, r = Ok (m, rest) →
      ∃ text, s = text +:+ rest ∧ chunks m text ∧ (len m ≤ maxMessageSize)%Z.
Proof.
  destruct (readChunked_fuel (S (String.length s)) "" s) as [r Hr]; [lia|].
  exists r. split_and!; [done|by unfold readChunked; rewrite Hr|].
  intros m rest ->. apply readChunked_sound in Hr as (body & text & -> & -> & Hc & Hm); [|done].
  exists text. done.
Qed.

(** The framing of the first message is recognised: the bytes of a chunked message
    are detected as chunked, those of an end-of-message document as end-of-message. *)
Lemma detect_framing mode m rest :
  (mode = framingEOM → HasPrefix m "<" = true) →
  detectFraming (WriteMessage mode m +:+ rest) = Ok mode.
Proof.
  destruct mode; intros H; [|done].
  specialize (H eq_refl). apply HasPrefix_spec in H as [t ->]. done.
Qed.
