(* ===== verification/Path.v ===== *)
(** * Model paths ([internal/router/path.go])

    The grammar [a/b[c=d]/e]: a path is a list of segments, a segment a name with an
    optional list key predicate.  [Parse] and [Path_String] are proved inverse to each
    other between the accepted texts and the well-formed segment lists. *)

From S2P Require Import Prelude GoStrings.

Record Segment : Set := mkSeg { seg_Name : string; seg_Key : string; seg_Value : string }.
Global Instance Segment_eq_dec : EqDecision Segment.
Proof. solve_decision. Defined.

(** [Path] wraps the slice of segments. *)
Abbreviation Path := (list Segment).

Definition slash : ascii := "/".
Definition lbrack : ascii := "[".
Definition rbrack : ascii := "]".
Definition equals : ascii := "=".

(** [parseSegment]: one slash-free component. *)
Definition parseSegment (part : string) : res Segment :=
  match IndexByte part lbrack with
  | None =>
      if String.eqb part "" then Err [Anon "empty segment"] else Ok (mkSeg part "" "")
  | Some open =>
      if negb (HasSuffix part "]") || negb (Nat.eqb (CountByte part lbrack) 1)
         || negb (Nat.eqb (CountByte part rbrack) 1)
      then Err [Anon "malformed list predicate"]
      else
        let name := str_take open part in
        let body := str_take (String.length part - 1 - (open + 1)) (str_drop (open + 1) part) in
        match IndexByte body equals with
        | None => Err [Anon "malformed list predicate"]
        | Some eq =>
            if String.eqb name "" || String.eqb body "" || Nat.eqb eq 0
               || Nat.eqb eq (String.length body - 1)
            then Err [Anon "malformed list predicate"]
            else
              let key := str_take eq body in
              let value := str_drop (eq + 1) body in
              if has_byte key lbrack || has_byte key rbrack
                 || has_byte value lbrack || has_byte value rbrack
              then Err [Anon "malformed list predicate"]
              else Ok (mkSeg name key value)
        end
  end.

Fixpoint parse_parts (parts : list string) : res (list Segment) :=
  match parts with
  | [] => Ok []
  | part :: parts =>
      seg ← parseSegment part;
      segs ← parse_parts parts;
      Ok (seg :: segs)
  end.

(** [Parse]. *)
Definition Parse (s : string) : res Path :=
  if String.eqb s "" then Err [RouterErrInvalidPath]
  else if HasPrefix s "/" || HasSuffix s "/" || Contains s "//" then Err [RouterErrInvalidPath]
  else match parse_parts (SplitByte s slash) with
  | Ok segs => Ok segs
  | Err _ => Err [RouterErrInvalidPath]
  end.

Definition seg_String (seg : Segment) : string :=
  if String.eqb (seg_Key seg) "" then seg_Name seg
  else seg_Name seg +:+ "[" +:+ seg_Key seg +:+ "=" +:+ seg_Value seg +:+ "]".

(** [Path.String]. *)
Definition Path_String (p : Path) : string := Join (seg_String <$> p) "/".

(** [Path.IsZero]. *)
Definition IsZero (p : Path) : bool := match p with [] => true | _ => false end.

(** [cloneSegments]: a copy of the slice. *)
Definition cloneSegments (p : Path) : Path := map (λ s, mkSeg (seg_Name s) (seg_Key s) (seg_Value s)) p.

(** ** Well-formed paths *)

Definition clean (s : string) (cs : list ascii) : Prop := Forall (λ c, has_byte s c = false) cs.

Definition wf_segment (s : Segment) : Prop :=
  seg_Name s ≠ "" ∧ clean (seg_Name s) [slash; lbrack] ∧
  ((seg_Key s = "" ∧ seg_Value s = "") ∨
   (seg_Key s ≠ "" ∧ seg_Value s ≠ "" ∧ has_byte (seg_Name s) rbrack = false ∧
    clean (seg_Key s) [slash; lbrack; rbrack; equals] ∧
    clean (seg_Value s) [slash; lbrack; rbrack])).

Definition wf_path (p : Path) : Prop := p ≠ [] ∧ Forall wf_segment p.

Global Instance clean_dec s cs : Decision (clean s cs).
Proof. unfold clean. apply _. Defined.
Global Instance wf_segment_dec s : Decision (wf_segment s).
Proof. unfold wf_segment. apply _. Defined.
Global Instance wf_path_dec p : Decision (wf_path p).
Proof. unfold wf_path. apply _. Defined.

(** ** Lemmas *)

Lemma IndexByte_none s c : has_byte s c = false ↔ IndexByte s c = None.
Proof. unfold has_byte. destruct (IndexByte s c); naive_solver. Qed.

Lemma IndexByte_cut u v c :
  has_byte u c = false → IndexByte (u +:+ String c v) c = Some (String.length u).
Proof. intros H. rewrite IndexByte_app by done. simpl. rewrite Ascii.eqb_refl. simpl. f_equal. lia. Qed.

Lemma IndexByte_cut_inv s c n :
  IndexByte s c = Some n →
  ∃ u v, s = u +:+ String c v ∧ has_byte u c = false ∧ String.length u = n.
Proof. intros (H1 & H2 & H3)%IndexByte_split. eauto. Qed.

Lemma HasSuffix_last s a b : HasSuffix (s +:+ String a "") (String b "") = Ascii.eqb a b.
Proof.
  induction s as [|x s IH]; simpl.
  - by destruct (Ascii.eqb a b).
  - rewrite IH. destruct (Ascii.eqb a b) eqn:E; [by rewrite orb_true_r|].
    destruct (s +:+ String a "") eqn:Es; [by destruct s|].
    rewrite orb_false_r. by destruct (Ascii.eqb x b).
Qed.

Lemma Count1_split u v c : has_byte u c = false → has_byte v c = false →
  CountByte (u +:+ String c v) c = 1.
Proof.
  intros Hu%CountByte_0 Hv%CountByte_0. rewrite CountByte_app. simpl.
  rewrite Ascii.eqb_refl, Hu, Hv. done.
Qed.

Lemma app_str_cons (u : string) a v : u +:+ String a v = (u +:+ String a "") +:+ v.
Proof. by rewrite str_app_assoc. Qed.

Lemma str_drop_cut u c v : str_drop (String.length u + 1) (u +:+ String c v) = v.
Proof.
  rewrite app_str_cons. replace (String.length u + 1) with (String.length (u +:+ String c "")).
  - apply str_drop_app.
  - rewrite str_length_app. simpl. lia.
Qed.

(** [part[open+1 : len(part)-1]] of [name[body]]. *)
Lemma slice_body name body :
  str_take (String.length (name +:+ String lbrack (body +:+ "]")) - 1 - (String.length name + 1))
    (str_drop (String.length name + 1) (name +:+ String lbrack (body +:+ "]"))) = body.
Proof.
  rewrite str_drop_cut. rewrite str_length_app. simpl. rewrite str_length_app. simpl.
  replace (_ - 1 - _) with (String.length body) by lia. apply str_take_app.
Qed.

(** The components of a segment that has a predicate. *)
Lemma parseSegment_pred name key value :
  name ≠ "" → key ≠ "" → value ≠ "" →
  clean name [lbrack; rbrack] → clean key [lbrack; rbrack; equals] → clean value [lbrack; rbrack] →
  parseSegment (name +:+ "[" +:+ key +:+ "=" +:+ value +:+ "]") = Ok (mkSeg name key value).
Proof.
  intros Hn Hk Hv Cn Ck Cv. unfold clean in *. rewrite !Forall_cons in *.
  destruct Cn as (n1 & n2 & _), Ck as (k1 & k2 & k3 & _), Cv as (v1 & v2 & _).
  set (body := key +:+ "=" +:+ value).
  assert (name +:+ "[" +:+ key +:+ "=" +:+ value +:+ "]" = name +:+ String lbrack (body +:+ "]")) as ->.
  { unfold body. by rewrite !str_app_assoc. }
  assert (has_byte body lbrack = false) as b1 by (unfold body; by rewrite !has_byte_app, k1, v1).
  assert (has_byte body rbrack = false) as b2 by (unfold body; by rewrite !has_byte_app, k2, v2).
  assert (IndexByte body equals = Some (String.length key)) as He.
  { unfold body. by apply (IndexByte_cut key value equals). }
  assert (String.length body = S (String.length key + String.length value)) as Hlen.
  { unfold body. rewrite !str_length_app. simpl. lia. }
  assert (String.length key ≠ 0 ∧ String.length value ≠ 0) as [Hkl Hvl] by (by destruct key, value).
  unfold parseSegment. rewrite (IndexByte_cut name (body +:+ "]") lbrack) by done.
  rewrite app_str_cons, <- str_app_assoc, HasSuffix_last, Ascii.eqb_refl.
  rewrite str_app_assoc, <- app_str_cons.
  rewrite (Count1_split name (body +:+ "]") lbrack) by (rewrite ?has_byte_app, ?b1; done).
  assert (CountByte (name +:+ String lbrack (body +:+ "]")) rbrack = 1) as ->.
  { rewrite app_str_cons, <- str_app_assoc. apply (Count1_split _ "" rbrack); [|done].
    rewrite !has_byte_app, n2, b2. done. }
  simpl negb. cbn [orb].
  rewrite str_take_app, slice_body, He.
  destruct (String.eqb_spec name ""); [done|]. destruct (String.eqb_spec body "") as [Eb|].
  { rewrite Eb in Hlen. done. }
  destruct (Nat.eqb_spec (String.length key) 0); [done|].
  destruct (Nat.eqb_spec (String.length key) (String.length body - 1)); [lia|]. simpl.
  assert (str_take (String.length key) body = key) as -> by (unfold body; apply str_take_app).
  assert (str_drop (String.length key + 1) body = value) as -> by apply str_drop_cut.
  by rewrite k1, k2, v1, v2.
Qed.

Lemma str_app_eq_nil (a b : string) : a +:+ b = "" → a = "" ∧ b = "".
Proof. by destruct a, b. Qed.

Lemma app_last_char (p q x : string) a :
  p +:+ q = x +:+ String a "" → q ≠ "" → ∃ q', q = q' +:+ String a "".
Proof.
  revert x. induction p as [|b p IH]; intros x H Hq; simpl in *; [by exists x|].
  destruct x as [|c x]; simpl in H.
  - injection H as _ H. by apply str_app_eq_nil in H as [_ ->].
  - injection H as -> H. by eapply IH.
Qed.

(** What an accepted component looks like. *)
Lemma parseSegment_inv part seg :
  has_byte part slash = false → parseSegment part = Ok seg →
  seg_String seg = part ∧ wf_segment seg.
Proof.
  intros Hs. unfold parseSegment. destruct (IndexByte part lbrack) as [open|] eqn:Eo.
  2:{ destruct (String.eqb_spec part ""); [done|]. intros [= <-]. split; [done|].
      split_and!; [done| |by left]. simpl. repeat constructor; [done|]. by apply IndexByte_none. }
  destruct (HasSuffix part "]") eqn:Esuf; simpl; [|done].
  destruct (Nat.eqb_spec (CountByte part lbrack) 1) as [Cl|]; simpl; [|done].
  destruct (Nat.eqb_spec (CountByte part rbrack) 1) as [Cr|]; simpl; [|done].
  apply IndexByte_cut_inv in Eo as (name & rest & -> & Hnl & <-).
  apply HasSuffix_spec in Esuf as [u Hu].
  assert (∃ body, rest = body +:+ "]") as [body ->].
  { destruct (decide (rest = "")) as [->|Hne].
    - exfalso. assert (HasSuffix (name +:+ String lbrack "") "]" = true) as H by (rewrite Hu; apply HasSuffix_app).
      by rewrite HasSuffix_last in H.
    - rewrite app_str_cons in Hu. clear -Hu Hne. revert Hu.
      generalize (name +:+ String lbrack ""). clear name. intros n Hu.
      by eapply app_last_char. }
  rewrite str_take_app, slice_body.
  destruct (IndexByte body equals) as [eq|] eqn:Ee; [|done].
  apply IndexByte_cut_inv in Ee as (key & value & -> & Hke & <-).
  destruct (String.eqb_spec name ""); simpl; [done|].
  destruct (String.eqb_spec (key +:+ String equals value) ""); simpl; [done|].
  destruct (Nat.eqb_spec (String.length key) 0); simpl; [done|].
  destruct (Nat.eqb_spec (String.length key) (String.length (key +:+ String equals value) - 1)) as [|Hne]; [done|].
  rewrite str_take_app, str_drop_cut.
  destruct (has_byte key lbrack) eqn:?; simpl; [done|]. destruct (has_byte key rbrack) eqn:?; simpl; [done|].
  destruct (has_byte value lbrack) eqn:?; simpl; [done|]. destruct (has_byte value rbrack) eqn:?; simpl; [done|].
  intros [= <-].
  assert (key ≠ "") as Hk by (by intros ->).
  assert (value ≠ "") as Hv.
  { intros ->. apply Hne. rewrite str_length_app. simpl. lia. }
  rewrite !has_byte_app, !has_byte_cons, !has_byte_app, !has_byte_cons in Hs.
  rewrite !orb_false_iff in Hs. destruct Hs as (Hs1 & _ & (Hs2 & _ & Hs3) & _).
  split.
  - unfold seg_String. simpl. destruct (String.eqb_spec key ""); [done|]. rewrite !str_app_assoc. done.
  - split_and!; [done|repeat constructor; done|]. right. simpl. split_and!; [done|done| | |].
    + rewrite !CountByte_app in Cr. simpl in Cr. rewrite !CountByte_app in Cr. simpl in Cr.
      apply CountByte_0. lia.
    + repeat constructor; done.
    + repeat constructor; done.
Qed.

Lemma seg_String_ok seg :
  wf_segment seg →
  parseSegment (seg_String seg) = Ok seg ∧ has_byte (seg_String seg) slash = false ∧ seg_String seg ≠ "".
Proof.
  intros (Hn & Cn & Hkv). destruct seg as [name key value]. simpl in *.
  unfold clean in *. rewrite !Forall_cons in *. destruct Cn as (n1 & n2 & _).
  unfold seg_String. simpl. destruct Hkv as [[-> ->]|(Hk & Hv & n3 & Ck & Cv)].
  - simpl. split_and!; [|done|done]. unfold parseSegment.
    apply IndexByte_none in n2 as ->. by destruct (String.eqb_spec name "").
  - destruct Ck as (k0 & k1 & k2 & k3 & _), Cv as (v0 & v1 & v2 & _).
    destruct (String.eqb_spec key ""); [done|]. split_and!.
    + apply parseSegment_pred; try done; by repeat constructor.
    + repeat rewrite ?has_byte_app, ?has_byte_cons. by rewrite n1, k0, v0.
    + by destruct name.
Qed.

Lemma parse_parts_ok p : Forall wf_segment p → parse_parts (seg_String <$> p) = Ok p.
Proof.
  induction 1 as [|seg p Hs _ IH]; [done|]. rewrite fmap_cons. cbn [parse_parts].
  destruct (seg_String_ok seg Hs) as [-> _]. by rewrite IH.
Qed.

Lemma parse_parts_inv parts p :
  Forall (λ x, has_byte x slash = false) parts → parse_parts parts = Ok p →
  seg_String <$> p = parts ∧ Forall wf_segment p.
Proof.
  intros Hp. revert p. induction Hp as [|part parts Hs _ IH]; intros p; simpl; [by intros [= <-]|].
  destruct (parseSegment part) as [seg|] eqn:E; simpl; [|done].
  destruct (parse_parts parts) as [segs|]; simpl; [|done]. intros [= <-].
  destruct (parseSegment_inv _ _ Hs E) as [<- Hw]. destruct (IH segs eq_refl) as [<- Hws].
  split; [done|by constructor].
Qed.

Lemma Join_not_empty ps sep : ps ≠ [] → Forall (λ x, x ≠ "") ps → Join ps sep ≠ "".
Proof.
  intros Hne H. destruct H as [|p ps Hp _]; [done|].
  destruct ps as [|q ps]; [done|]. rewrite Join_cons by done. by destruct p.
Qed.

Lemma Parse_String p : wf_path p → Parse (Path_String p) = Ok p.
Proof.
  intros [Hne Hp]. unfold Parse, Path_String.
  assert (Forall (λ x, has_byte x slash = false ∧ x ≠ "") (seg_String <$> p)) as Hs.
  { apply Forall_fmap. eapply Forall_impl; [done|]. intros seg Hw. by apply (seg_String_ok seg). }
  apply Forall_and in Hs as [Hs He].
  assert (seg_String <$> p ≠ []) as Hne' by (by destruct p).
  assert (SplitByte (Join (seg_String <$> p) "/") slash = seg_String <$> p) as Hsplit
    by (by apply (Split_Join _ slash)).
  pose proof (Join_not_empty _ "/" Hne' He) as HJ.
  destruct (String.eqb_spec (Join (seg_String <$> p) "/") ""); [done|].
  pose proof (slash_checks_split _ slash HJ) as Hchk. unfold slash_free_ends in Hchk.
  rewrite Hsplit in Hchk.
  assert (forallb (λ x, negb (String.eqb x "")) (seg_String <$> p) = true) as Hall.
  { apply forallb_forall. intros x Hx%list_elem_of_In. rewrite Forall_forall in He.
    by apply negb_true_iff, String.eqb_neq, He. }
  rewrite Hall in Hchk. apply negb_true_iff in Hchk. unfold slash in Hchk. rewrite Hchk.
  rewrite Hsplit. by rewrite parse_parts_ok.
Qed.

Lemma Parse_inv s p : Parse s = Ok p → Path_String p = s ∧ wf_path p.
Proof.
  unfold Parse, Path_String. destruct (String.eqb s ""); [done|]. destruct (_ || _); [done|].
  destruct (parse_parts _) as [segs|] eqn:E; [|done]. intros [= <-].
  apply parse_parts_inv in E as [E Hw]; [|apply SplitByte_parts].
  pose proof (SplitByte_ne s slash) as Hne.
  split; [rewrite E; apply (Join_Split s slash)|]. split; [|done]. intros ->. by rewrite <- E in Hne.
Qed.

(** ** Properties *)

(** C17: paths round-trip. Parse accepts exactly the texts of well-formed segment lists:
    printing a parsed path gives back the text it was parsed from, every parsed path is
    well formed, and parsing the text of a well-formed path gives back the path. *)
Theorem path_roundtrip s p : Parse s = Ok p ↔ wf_path p ∧ Path_String p = s.
Proof.
  split; [by intros [? ?]%Parse_inv|]. intros [Hw <-]. by apply Parse_String.
Qed.

(** every other text is refused with ErrInvalidPath, so a caller never sees
    another error from Parse. *)
Theorem parse_error s e : Parse s = Err e → e = [RouterErrInvalidPath] ∧
  ∀ p, wf_path p → Path_String p ≠ s.
Proof.
  intros H. split.
  - revert H. unfold Parse. repeat case_match; by intros [= <-].
  - intros p Hw <-. by rewrite Parse_String in H.
Qed.

Lemma parse_error_witness :
  Parse "interfaces/interface[name=]/mtu" = Err [RouterErrInvalidPath] ∧
  ∀ p, wf_path p → Path_String p ≠ "interfaces/interface[name=]/mtu".
Proof.
  assert (H : Parse "interfaces/interface[name=]/mtu" = Err [RouterErrInvalidPath]) by reflexivity.
  split; [exact H|exact (proj2 (parse_error _ _ H))].
Defined.
