(* ===== verification/Model.v ===== *)
(** * The managed objects ([internal/model])

    One record per Go struct, with the source's field names behind a two- or
    three-letter prefix; unsigned integers are [Z] (their width is part of the
    reflected type, see [Schema]), [QL] is its underlying string, and the optional
    radio link is an [option].  [Validate] methods return the first violation the Go
    code reports: their result is [Ok tt] or an error chain naming the rule. *)

From S2P Require Import Prelude GoStrings GoFloat GoValue GoNet.

(** ** Constants *)

Definition InterfaceTypeRadio : string := "radio".
Definition InterfaceTypeEthernet : string := "ethernet".
Definition InterfaceMTUMin : Z := 576.
Definition InterfaceMTUMax : Z := 9216.
Definition VLANIDMin : Z := 1.
Definition VLANIDMax : Z := 4094.
Definition VLANPortModeAccess : string := "access".
Definition VLANPortModeTrunk : string := "trunk".
Definition VLANPortModeHybrid : string := "hybrid".
Definition MACEntryTypeDynamic : string := "dynamic".
Definition MACEntryTypeStatic : string := "static".
Definition MACAgingTimeMin : Z := 10.
Definition MACAgingTimeMax : Z := 1000000.
Definition MACTableMaxEntriesMin : Z := 1.
Definition MACTableMaxEntriesMax : Z := 1000000.
Definition CTagHandlingPush : string := "push".
Definition CTagHandlingPop : string := "pop".
Definition CTagHandlingTransparent : string := "transparent".
Definition LLDPTxIntervalMin : Z := 1.
Definition LLDPTxIntervalMax : Z := 3600.
Definition LLDPTxHoldMin : Z := 2.
Definition LLDPTxHoldMax : Z := 10.
Definition LLDPReinitDelayMin : Z := 1.
Definition LLDPReinitDelayMax : Z := 10.
Definition LLDPTxDelayMin : Z := 1.
Definition LLDPTxDelayMax : Z := 10.
Definition STPProtocolSTP : string := "stp".
Definition STPProtocolRSTP : string := "rstp".
Definition STPPortRoleRoot : string := "root".
Definition STPPortRoleDesignated : string := "designated".
Definition STPPortRoleAlternate : string := "alternate".
Definition STPPortRoleBackup : string := "backup".
Definition STPPortStateDisabled : string := "disabled".
Definition STPPortStateBlocking : string := "blocking".
Definition STPPortStateListening : string := "listening".
Definition STPPortStateDiscarding : string := "discarding".
Definition STPPortStateLearning : string := "learning".
Definition STPPortStateForwarding : string := "forwarding".
Definition STPBridgePriorityMax : Z := 61440.
Definition STPBridgePriorityStep : Z := 4096.
Definition STPPortPriorityMax : Z := 240.
Definition STPPortPriorityStep : Z := 16.
Definition LLDPTTLMax : Z := 65535.

Definition TxPowerMinDBM : float64 := F64.of_Z (-10).
Definition TxPowerMaxDBM : float64 := F64.of_Z 30.
Definition RSSIMinDBM : float64 := F64.of_Z (-99).
Definition RSSIMaxDBM : float64 := F64.of_Z (-20).
Definition FrequencyMinGHz : float64 := F64.of_Z 6.
Definition FrequencyMaxGHz : float64 := F64.of_Z 86.
Definition AntennaGainMinDBI : float64 := F64.of_Z 30.
Definition AntennaGainMaxDBI : float64 := F64.of_Z 45.
Definition FeedLossMinDB : float64 := F64.of_Z 1.
Definition FeedLossMaxDB : float64 := F64.of_Z 5.
Definition ACMModeAdaptive : string := "adaptive".
Definition ACMModeFixed : string := "fixed".
Definition RadioLinkStateUp : string := "up".
Definition RadioLinkStateDegraded : string := "degraded".
Definition RadioLinkStateDown : string := "down".
Definition MinACMProfile : Z := 1.
Definition MaxACMProfile : Z := 12.

Definition QLPRC : string := "QL-PRC".
Definition QLSSUA : string := "QL-SSU-A".
Definition QLSSUB : string := "QL-SSU-B".
Definition QLSEC : string := "QL-SEC".
Definition QLDNU : string := "QL-DNU".
Definition ExtendedQLPRTC : string := "QL-PRTC".
Definition ExtendedQLPRTCEnhanced : string := "QL-ePRTC".
Definition ExtendedQLEECEnhanced : string := "QL-eEEC".
Definition PTPModeMaster : string := "master".
Definition PTPModeSlave : string := "slave".
Definition PTPModeBoundary : string := "boundary".
Definition PTPDomainMax : Z := 127.
Definition PTPStateFreerun : string := "freerun".
Definition PTPStateAcquiring : string := "acquiring".
Definition PTPStateLocked : string := "locked".
Definition PTPStateHoldoverInSpec : string := "holdover-in-spec".
Definition PTPStateHoldoverOutOfSpec : string := "holdover-out-of-spec".

(** [STPPortStates]. *)
Definition STPPortStates (protocol : string) : list string :=
  if String.eqb protocol STPProtocolRSTP
  then [STPPortStateDiscarding; STPPortStateLearning; STPPortStateForwarding]
  else [STPPortStateDisabled; STPPortStateBlocking; STPPortStateListening;
        STPPortStateLearning; STPPortStateForwarding].

(** ** Data *)

Record SystemInfo : Set := mkSystemInfo {
  si_DeviceID : string;
  si_Name : string;
  si_Description : string;
  si_Contact : string;
  si_Location : string;
  si_Uptime : Z;
}.
Global Instance SystemInfo_eq_dec : EqDecision SystemInfo.
Proof. solve_decision. Defined.

Record LinkBudget : Set := mkLinkBudget {
  lb_LinkLength : float64;
  lb_Frequency : float64;
  lb_TxAntennaGain : float64;
  lb_RxAntennaGain : float64;
  lb_FeedLoss : float64;
  lb_CalculatedRSL : float64;
}.
Global Instance LinkBudget_eq_dec : EqDecision LinkBudget.
Proof. solve_decision. Defined.

Record ATPC : Set := mkATPC {
  at_Enabled : bool;
  at_TargetRSL : float64;
  at_MinPower : float64;
  at_MaxPower : float64;
  at_Range : float64;
  at_CurrentPower : float64;
}.
Global Instance ATPC_eq_dec : EqDecision ATPC.
Proof. solve_decision. Defined.

Record ACM : Set := mkACM {
  ac_Enabled : bool;
  ac_Mode : string;
  ac_MinProfile : Z;
  ac_MaxProfile : Z;
  ac_CurrentProfile : Z;
  ac_CurrentCapacity : Z;
}.
Global Instance ACM_eq_dec : EqDecision ACM.
Proof. solve_decision. Defined.

Record ModProfile : Set := mkModProfile {
  mp_ID : Z;
  mp_Name : string;
  mp_Modulation : string;
  mp_CodingRate : string;
  mp_SpectralEfficiency : float64;
  mp_RSLThreshold : float64;
  mp_Capacity : Z;
}.
Global Instance ModProfile_eq_dec : EqDecision ModProfile.
Proof. solve_decision. Defined.

Record RadioLink : Set := mkRadioLink {
  rl_Name : string;
  rl_TxPower : float64;
  rl_RSSI : float64;
  rl_FadeMargin : float64;
  rl_Capacity : Z;
  rl_LinkState : string;
  rl_LinkBudget : LinkBudget;
  rl_ATPC : ATPC;
  rl_ACM : ACM;
  rl_Profiles : list ModProfile;
}.
Global Instance RadioLink_eq_dec : EqDecision RadioLink.
Proof. solve_decision. Defined.

Record InterfaceCounters : Set := mkInterfaceCounters {
  ic_InOctets : Z;
  ic_OutOctets : Z;
  ic_InUcastPkts : Z;
  ic_OutUcastPkts : Z;
  ic_InErrors : Z;
  ic_OutErrors : Z;
  ic_InDiscards : Z;
  ic_OutDiscards : Z;
}.
Global Instance InterfaceCounters_eq_dec : EqDecision InterfaceCounters.
Proof. solve_decision. Defined.

Record Interface : Set := mkInterface {
  if_Name : string;
  if_Type : string;
  if_Enabled : bool;
  if_MTU : Z;
  if_MACAddress : string;
  if_RadioLink : option RadioLink;
  if_Counters : InterfaceCounters;
}.
Global Instance Interface_eq_dec : EqDecision Interface.
Proof. solve_decision. Defined.

Record VLANPort : Set := mkVLANPort {
  vp_Port : string;
  vp_Mode : string;
  vp_PVID : Z;
  vp_Tagged : bool;
  vp_QinQ : bool;
  vp_OuterVID : Z;
  vp_CTagHandling : string;
}.
Global Instance VLANPort_eq_dec : EqDecision VLANPort.
Proof. solve_decision. Defined.

Record VLAN : Set := mkVLAN {
  vl_ID : Z;
  vl_Name : string;
  vl_Description : string;
  vl_Ports : list VLANPort;
}.
Global Instance VLAN_eq_dec : EqDecision VLAN.
Proof. solve_decision. Defined.

Record MACEntry : Set := mkMACEntry {
  me_MAC : string;
  me_VLAN : Z;
  me_Port : Z;
  me_Type : string;
  me_Age : Z;
  me_Permanent : bool;
}.
Global Instance MACEntry_eq_dec : EqDecision MACEntry.
Proof. solve_decision. Defined.

Record MACTable : Set := mkMACTable {
  mt_Entries : list MACEntry;
  mt_AgingTime : Z;
  mt_MaxEntries : Z;
  mt_CurrentCount : Z;
}.
Global Instance MACTable_eq_dec : EqDecision MACTable.
Proof. solve_decision. Defined.

Record STPPort : Set := mkSTPPort {
  sp_Port : string;
  sp_Role : string;
  sp_State : string;
  sp_Priority : Z;
  sp_PathCost : Z;
  sp_EdgePort : bool;
}.
Global Instance STPPort_eq_dec : EqDecision STPPort.
Proof. solve_decision. Defined.

Record STPState : Set := mkSTPState {
  st_Enabled : bool;
  st_Protocol : string;
  st_BridgePriority : Z;
  st_BridgeAddress : string;
  st_RootID : string;
  st_RootCost : Z;
  st_Ports : list STPPort;
}.
Global Instance STPState_eq_dec : EqDecision STPState.
Proof. solve_decision. Defined.

Record LLDPNeighbor : Set := mkLLDPNeighbor {
  ln_Port : string;
  ln_ChassisID : string;
  ln_PortID : string;
  ln_SystemName : string;
  ln_SystemDescription : string;
  ln_TTL : Z;
  ln_Capabilities : string;
}.
Global Instance LLDPNeighbor_eq_dec : EqDecision LLDPNeighbor.
Proof. solve_decision. Defined.

Record LLDPConfig : Set := mkLLDPConfig {
  ll_Enabled : bool;
  ll_TxInterval : Z;
  ll_TxHoldMultiplier : Z;
  ll_ReinitDelay : Z;
  ll_TxDelay : Z;
  ll_ChassisID : string;
  ll_SystemName : string;
  ll_SystemDescription : string;
  ll_Neighbors : list LLDPNeighbor;
}.
Global Instance LLDPConfig_eq_dec : EqDecision LLDPConfig.
Proof. solve_decision. Defined.

Record PTPClock : Set := mkPTPClock {
  pc_Mode : string;
  pc_Domain : Z;
  pc_Priority1 : Z;
  pc_Priority2 : Z;
  pc_ClockClass : Z;
  pc_ClockAccuracy : Z;
  pc_HoldoverTimeout : Z;
  pc_State : string;
  pc_Offset : float64;
  pc_Jitter : float64;
}.
Global Instance PTPClock_eq_dec : EqDecision PTPClock.
Proof. solve_decision. Defined.

Record SyncEInterface : Set := mkSyncEInterface {
  sy_Name : string;
  sy_SSMEnabled : bool;
  sy_QL : string;
  sy_ExtendedQL : string;
  sy_Priority : Z;
  sy_PTPPreference : bool;
}.
Global Instance SyncEInterface_eq_dec : EqDecision SyncEInterface.
Proof. solve_decision. Defined.

Record ESMC : Set := mkESMC {
  es_Enabled : bool;
  es_TxInterval : Z;
  es_ExtendedCodes : bool;
}.
Global Instance ESMC_eq_dec : EqDecision ESMC.
Proof. solve_decision. Defined.

Record SyncEState : Set := mkSyncEState {
  se_Enabled : bool;
  se_SelectedSource : string;
  se_SelectedQL : string;
  se_SelectedExtendedQL : string;
  se_Interfaces : list SyncEInterface;
  se_ESMC : ESMC;
}.
Global Instance SyncEState_eq_dec : EqDecision SyncEState.
Proof. solve_decision. Defined.

Record Device : Set := mkDevice {
  dev_SystemInfo : SystemInfo;
  dev_Interfaces : list Interface;
  dev_VLANs : list VLAN;
  dev_MACTable : MACTable;
  dev_STP : STPState;
  dev_LLDP : LLDPConfig;
  dev_PTP : PTPClock;
  dev_SyncE : SyncEState;
}.
Global Instance Device_eq_dec : EqDecision Device.
Proof. solve_decision. Defined.

(** ** Validation helpers ([validate.go]) *)

Definition finite (v : float64) : bool := negb (F64.is_nan v) && negb (F64.is_inf v).
Definition inRange (v min max : float64) : bool := finite v && F64.geb v min && F64.leb v max.
Definition validMAC (s : string) : bool :=
  match ParseMAC s with Some hw => Nat.eqb (length hw) 6 | None => false end.

(** A [switch] over string constants with an erroring default. *)
Definition one_of (s : string) (l : list string) : bool := bool_decide (s ∈ l).

(** [x < min || x > max] is an error. *)
Definition within (x min max : Z) : bool := negb ((x <? min)%Z || (max <? x)%Z).

(** A rule: its test, and the error when it fails. *)
Definition require (b : bool) (what : string) : res unit := check b [Anon what].

(** The loops that validate each element and reject a repeated key; the keys seen are
    returned, as the Go map outlives the loop. *)
Fixpoint validate_each {A K} `{Countable K} (valid : A → res unit) (key : A → K) (what : string)
    (seen : gset K) (l : list A) : res (gset K) :=
  match l with
  | [] => Ok seen
  | a :: l =>
      _ ← wrapf what (valid a);
      if bool_decide (key a ∈ seen) then Err [Anon what; Anon "duplicate"]
      else validate_each valid key what ({[key a]} ∪ seen) l
  end.

(** ** [Validate] *)

Definition SystemInfo_Validate (s : SystemInfo) : res unit :=
  require (negb (String.eqb (si_DeviceID s) "")) "device-id".

Definition LinkBudget_Validate (l : LinkBudget) : res unit :=
  _ ← require (finite (lb_LinkLength l) && negb (F64.leb (lb_LinkLength l) F64.zero)) "link-length";
  _ ← require (inRange (lb_Frequency l) FrequencyMinGHz FrequencyMaxGHz) "frequency";
  _ ← require (inRange (lb_TxAntennaGain l) AntennaGainMinDBI AntennaGainMaxDBI) "tx-antenna-gain";
  _ ← require (inRange (lb_RxAntennaGain l) AntennaGainMinDBI AntennaGainMaxDBI) "rx-antenna-gain";
  _ ← require (inRange (lb_FeedLoss l) FeedLossMinDB FeedLossMaxDB) "feed-loss";
  require (inRange (lb_CalculatedRSL l) RSSIMinDBM RSSIMaxDBM) "calculated-rsl".

Definition ATPC_Validate (a : ATPC) : res unit :=
  _ ← require (inRange (at_TargetRSL a) RSSIMinDBM RSSIMaxDBM) "target-rsl";
  _ ← require (inRange (at_MinPower a) TxPowerMinDBM TxPowerMaxDBM) "min-power";
  _ ← require (inRange (at_MaxPower a) TxPowerMinDBM TxPowerMaxDBM) "max-power";
  _ ← require (finite (at_Range a) && negb (F64.leb (at_Range a) F64.zero)) "range";
  if at_Enabled a then
    _ ← require (negb (F64.geb (at_MinPower a) (at_MaxPower a))) "min-power";
    require (negb (F64.ltb (at_CurrentPower a) (at_MinPower a)
                   || F64.gtb (at_CurrentPower a) (at_MaxPower a))) "current-power"
  else Ok tt.

Definition ACM_Validate (a : ACM) : res unit :=
  _ ← require (one_of (ac_Mode a) [ACMModeAdaptive; ACMModeFixed]) "mode";
  _ ← require (within (ac_MinProfile a) MinACMProfile MaxACMProfile) "min-profile";
  _ ← require (within (ac_MaxProfile a) MinACMProfile MaxACMProfile) "max-profile";
  require (negb (ac_MaxProfile a <? ac_MinProfile a)%Z) "min-profile".

Definition ModProfile_Validate (p : ModProfile) : res unit :=
  _ ← require (within (mp_ID p) MinACMProfile MaxACMProfile) "id";
  _ ← require (negb (String.eqb (mp_Name p) "")) "name";
  _ ← require (negb (String.eqb (mp_Modulation p) "")) "modulation";
  _ ← require (negb (String.eqb (mp_CodingRate p) "")) "coding-rate";
  _ ← require (finite (mp_SpectralEfficiency p)
               && negb (F64.leb (mp_SpectralEfficiency p) F64.zero)) "spectral-efficiency";
  _ ← require (inRange (mp_RSLThreshold p) RSSIMinDBM RSSIMaxDBM) "rsl-threshold";
  require (negb (mp_Capacity p =? 0)%Z) "capacity".

Definition RadioLink_Validate (r : RadioLink) : res unit :=
  _ ← require (negb (String.eqb (rl_Name r) "")) "name";
  _ ← require (inRange (rl_TxPower r) TxPowerMinDBM TxPowerMaxDBM) "tx-power";
  _ ← require (inRange (rl_RSSI r) RSSIMinDBM RSSIMaxDBM) "rssi";
  _ ← require (finite (rl_FadeMargin r)) "fade-margin";
  _ ← require (negb (rl_Capacity r =? 0)%Z) "capacity";
  _ ← require (one_of (rl_LinkState r)
                 [RadioLinkStateUp; RadioLinkStateDegraded; RadioLinkStateDown]) "link-state";
  _ ← wrapf "link-budget" (LinkBudget_Validate (rl_LinkBudget r));
  _ ← wrapf "atpc" (ATPC_Validate (rl_ATPC r));
  _ ← wrapf "acm" (ACM_Validate (rl_ACM r));
  _ ← validate_each ModProfile_Validate mp_ID "modulation-profile" ∅ (rl_Profiles r);
  Ok tt.

Definition InterfaceCounters_Validate (_ : InterfaceCounters) : res unit := Ok tt.

Definition Interface_Validate (i : Interface) : res unit :=
  _ ← require (negb (String.eqb (if_Name i) "")) "name";
  _ ← require (one_of (if_Type i) [InterfaceTypeRadio; InterfaceTypeEthernet]) "type";
  _ ← require (within (if_MTU i) InterfaceMTUMin InterfaceMTUMax) "mtu";
  _ ← require (negb (negb (String.eqb (if_MACAddress i) "") && negb (validMAC (if_MACAddress i))))
        "mac-address";
  _ ← match if_RadioLink i with
      | Some link => wrapf "radio-link" (RadioLink_Validate link)
      | None => Ok tt
      end;
  wrapf "counters" (InterfaceCounters_Validate (if_Counters i)).

Definition VLANPort_validateQinQ (p : VLANPort) : res unit :=
  if negb (vp_QinQ p) then
    _ ← require (vp_OuterVID p =? 0)%Z "s-tag-vid";
    require (String.eqb (vp_CTagHandling p) "") "c-tag-handling"
  else
    _ ← require (within (vp_OuterVID p) VLANIDMin VLANIDMax) "s-tag-vid";
    _ ← require (negb (vp_OuterVID p =? vp_PVID p)%Z) "s-tag-vid";
    require (one_of (vp_CTagHandling p)
               [CTagHandlingPush; CTagHandlingPop; CTagHandlingTransparent]) "c-tag-handling".

Definition VLANPort_Validate (p : VLANPort) : res unit :=
  _ ← require (negb (String.eqb (vp_Port p) "")) "port";
  _ ← require (one_of (vp_Mode p) [VLANPortModeAccess; VLANPortModeTrunk; VLANPortModeHybrid]) "mode";
  _ ← require (within (vp_PVID p) VLANIDMin VLANIDMax) "pvid";
  _ ← require (negb (String.eqb (vp_Mode p) VLANPortModeAccess && vp_Tagged p)) "tagged";
  VLANPort_validateQinQ p.

Definition VLAN_Validate (v : VLAN) : res unit :=
  _ ← require (within (vl_ID v) VLANIDMin VLANIDMax) "id";
  _ ← require (negb (String.eqb (vl_Name v) "")) "name";
  res_for (vl_Ports v) (λ p, wrapf "ports" (VLANPort_Validate p)).

Definition MACEntry_Validate (m : MACEntry) : res unit :=
  _ ← require (validMAC (me_MAC m)) "mac-address";
  _ ← require (negb (VLANIDMax <? me_VLAN m)%Z) "vlan-id";
  _ ← require (one_of (me_Type m) [MACEntryTypeDynamic; MACEntryTypeStatic]) "type";
  _ ← require (negb (me_Port m =? 0)%Z) "port";
  require (negb (me_Permanent m && negb (String.eqb (me_Type m) MACEntryTypeStatic))) "permanent".

Definition MACTable_Validate (m : MACTable) : res unit :=
  _ ← require (within (mt_AgingTime m) MACAgingTimeMin MACAgingTimeMax) "aging-time";
  _ ← require (within (mt_MaxEntries m) MACTableMaxEntriesMin MACTableMaxEntriesMax) "max-entries";
  _ ← require (negb (mt_MaxEntries m <? mt_CurrentCount m)%Z) "current-count";
  _ ← validate_each MACEntry_Validate me_MAC "entry" ∅ (mt_Entries m);
  Ok tt.

Definition LLDPNeighbor_Validate (n : LLDPNeighbor) : res unit :=
  _ ← require (negb (String.eqb (ln_Port n) "")) "port";
  _ ← require (negb (String.eqb (ln_ChassisID n) "")) "chassis-id";
  _ ← require (negb (String.eqb (ln_PortID n) "")) "port-id";
  require (negb ((ln_TTL n =? 0)%Z || (LLDPTTLMax <? ln_TTL n)%Z)) "ttl".

Definition LLDPConfig_Validate (c : LLDPConfig) : res unit :=
  _ ← require (within (ll_TxInterval c) LLDPTxIntervalMin LLDPTxIntervalMax) "tx-interval";
  _ ← require (within (ll_TxHoldMultiplier c) LLDPTxHoldMin LLDPTxHoldMax) "tx-hold-multiplier";
  _ ← require (within (ll_ReinitDelay c) LLDPReinitDelayMin LLDPReinitDelayMax) "reinit-delay";
  _ ← require (within (ll_TxDelay c) LLDPTxDelayMin LLDPTxDelayMax) "tx-delay";
  _ ← require (negb (String.eqb (ll_ChassisID c) "")) "chassis-id";
  _ ← validate_each LLDPNeighbor_Validate ln_Port "neighbors" ∅ (ll_Neighbors c);
  Ok tt.

Definition STPPort_Validate (p : STPPort) : res unit :=
  _ ← require (negb (String.eqb (sp_Port p) "")) "port";
  _ ← require (one_of (sp_Role p) [STPPortRoleRoot; STPPortRoleDesignated; STPPortRoleAlternate;
                                   STPPortRoleBackup]) "role";
  _ ← require (one_of (sp_State p) [STPPortStateDisabled; STPPortStateBlocking;
                 STPPortStateListening; STPPortStateDiscarding; STPPortStateLearning;
                 STPPortStateForwarding]) "state";
  require (negb ((STPPortPriorityMax <? sp_Priority p)%Z
                 || negb (sp_Priority p mod STPPortPriorityStep =? 0)%Z)) "priority".

Definition STPState_Validate (s : STPState) : res unit :=
  _ ← require (one_of (st_Protocol s) [STPProtocolSTP; STPProtocolRSTP]) "protocol";
  _ ← require (negb ((STPBridgePriorityMax <? st_BridgePriority s)%Z
                     || negb (st_BridgePriority s mod STPBridgePriorityStep =? 0)%Z)) "bridge-priority";
  _ ← require (negb (negb (String.eqb (st_BridgeAddress s) "") && negb (validMAC (st_BridgeAddress s))))
        "bridge-address";
  _ ← require (negb (negb (String.eqb (st_RootID s) "") && negb (validMAC (st_RootID s)))) "root-id";
  if st_Enabled s then
    let states := STPPortStates (st_Protocol s) in
    res_for (st_Ports s) (λ p,
      _ ← wrapf "ports" (STPPort_Validate p);
      require (one_of (sp_State p) states) "ports")
  else Ok tt.

Definition QL_Validate (q : string) : res unit :=
  require (one_of q [QLPRC; QLSSUA; QLSSUB; QLSEC; QLDNU]) "quality level".

Definition extended_ql_ok (q : string) : bool :=
  one_of q [""; ExtendedQLPRTC; ExtendedQLPRTCEnhanced; ExtendedQLEECEnhanced].

Definition PTPClock_Validate (c : PTPClock) : res unit :=
  _ ← require (one_of (pc_Mode c) [PTPModeMaster; PTPModeSlave; PTPModeBoundary]) "mode";
  _ ← require (negb (PTPDomainMax <? pc_Domain c)%Z) "domain";
  _ ← require (negb (pc_HoldoverTimeout c =? 0)%Z) "holdover-timeout";
  _ ← require (finite (pc_Offset c)) "offset";
  _ ← require (finite (pc_Jitter c)) "jitter";
  if String.eqb (pc_State c) "" then Ok tt
  else require (one_of (pc_State c) [PTPStateFreerun; PTPStateAcquiring; PTPStateLocked;
                  PTPStateHoldoverInSpec; PTPStateHoldoverOutOfSpec]) "state".

Definition SyncEInterface_Validate (i : SyncEInterface) : res unit :=
  _ ← require (negb (String.eqb (sy_Name i) "")) "name";
  _ ← wrapf "interface" (QL_Validate (sy_QL i));
  require (extended_ql_ok (sy_ExtendedQL i)) "extended-ql".

Definition ESMC_Validate (e : ESMC) : res unit :=
  require (negb (es_TxInterval e =? 0)%Z) "tx-interval".

Definition SyncEState_Validate (s : SyncEState) : res unit :=
  seen ← validate_each SyncEInterface_Validate sy_Name "interfaces" ∅ (se_Interfaces s);
  _ ← require (negb (negb (String.eqb (se_SelectedSource s) "")
                     && negb (bool_decide (se_SelectedSource s ∈ seen)))) "selected-source";
  _ ← (if String.eqb (se_SelectedQL s) "" then Ok tt
       else wrapf "selected-ql" (QL_Validate (se_SelectedQL s)));
  _ ← require (extended_ql_ok (se_SelectedExtendedQL s)) "selected extended-ql";
  wrapf "esmc" (ESMC_Validate (se_ESMC s)).

(** [Device.Validate]. *)
Definition Device_Validate (d : Device) : res unit :=
  _ ← wrapf "system-info" (SystemInfo_Validate (dev_SystemInfo d));
  _ ← validate_each Interface_Validate if_Name "interfaces" ∅ (dev_Interfaces d);
  _ ← validate_each VLAN_Validate vl_ID "vlans" ∅ (dev_VLANs d);
  _ ← wrapf "mac-table" (MACTable_Validate (dev_MACTable d));
  _ ← wrapf "stp" (STPState_Validate (dev_STP d));
  _ ← wrapf "lldp" (LLDPConfig_Validate (dev_LLDP d));
  _ ← wrapf "ptp" (PTPClock_Validate (dev_PTP d));
  wrapf "synce" (SyncEState_Validate (dev_SyncE d)).

(** ** The boot configuration ([seed.go]) *)

Definition profile_rows : list (string * string * Z * Z * Z * Z) :=
  [("QPSK", "1/2", 1, 1, -88, 28)%Z; ("QPSK", "3/4", 3, 2, -86, 42)%Z;
   ("8PSK", "2/3", 2, 1, -83, 56)%Z; ("16QAM", "3/4", 3, 1, -79, 84)%Z;
   ("32QAM", "4/5", 4, 1, -76, 112)%Z; ("64QAM", "4/5", 5, 1, -73, 140)%Z;
   ("128QAM", "5/6", 6, 1, -70, 168)%Z; ("256QAM", "5/6", 7, 1, -67, 196)%Z;
   ("512QAM", "7/8", 8, 1, -64, 224)%Z; ("1024QAM", "7/8", 9, 1, -61, 252)%Z;
   ("2048QAM", "8/9", 10, 1, -58, 280)%Z; ("4096QAM", "9/10", 11, 1, -55, 308)%Z].

Definition defaultProfiles : list ModProfile :=
  imap (λ i '(modulation, codingRate, n, d, threshold, capacity),
    let id := u8 (Z.of_nat i + 1) in
    mkModProfile id ("acm-" +:+ Itoa id) modulation codingRate
      (F64.ratio n d) (F64.of_Z threshold) capacity) profile_rows.

Definition defaultVLAN : VLAN :=
  mkVLAN 100 "DATA" "default data vlan"
    [mkVLANPort "eth0" VLANPortModeAccess 100 false false 0 ""].

Definition defaultSTPState : STPState :=
  mkSTPState true STPProtocolRSTP 32768 "02:00:00:00:00:01" "02:00:00:00:00:01" 0
    [mkSTPPort "eth0" STPPortRoleRoot STPPortStateForwarding 128 20000 false;
     mkSTPPort "eth1" STPPortRoleAlternate STPPortStateDiscarding 128 20000 false].

Definition defaultLLDPConfig : LLDPConfig :=
  mkLLDPConfig true 30 4 2 2 "02:00:00:00:00:01" "triadsim-01" "TriadSim simulated telecom device" [].

Definition defaultPTPClock : PTPClock :=
  mkPTPClock PTPModeMaster 24 128 128 6 33 300 PTPStateLocked F64.zero F64.zero.

Definition defaultSyncEState : SyncEState :=
  mkSyncEState true "eth0" QLPRC ""
    [mkSyncEInterface "eth0" true QLPRC "" 10 true;
     mkSyncEInterface "eth1" true QLSSUA "" 20 false]
    (mkESMC true 1 false).

Definition DefaultMACAgingTime : Z := 300.

Definition zero_counters : InterfaceCounters := mkInterfaceCounters 0 0 0 0 0 0 0 0.

Definition default_link : RadioLink :=
  mkRadioLink "radio0" (F64.of_Z 20) (F64.ratio (-145) 2) (F64.ratio 25 2) 112 RadioLinkStateUp
    (mkLinkBudget (F64.ratio 25 2) (F64.of_Z 18) (F64.of_Z 38) (F64.of_Z 38) (F64.of_Z 2)
       (F64.ratio (-145) 2))
    (mkATPC true (F64.of_Z (-45)) (F64.of_Z (-10)) (F64.of_Z 30) (F64.of_Z 20) (F64.ratio 37 2))
    (mkACM true ACMModeAdaptive MinACMProfile MaxACMProfile 5 112)
    defaultProfiles.

Definition DefaultDevice : Device :=
  mkDevice
    (mkSystemInfo "sim-001" "triadsim-01" "TriadSim simulated telecom device" "noc@example.net" "lab" 0)
    [mkInterface "radio0" InterfaceTypeRadio true 1500 "" (Some default_link) zero_counters;
     mkInterface "eth0" InterfaceTypeEthernet true 1500 "02:00:00:00:00:01" None zero_counters;
     mkInterface "eth1" InterfaceTypeEthernet true 1500 "02:00:00:00:00:02" None zero_counters]
    [defaultVLAN]
    (mkMACTable [mkMACEntry "02:00:00:00:00:02" 100 3 MACEntryTypeStatic 0 true]
       DefaultMACAgingTime 8192 1)
    defaultSTPState defaultLLDPConfig defaultPTPClock defaultSyncEState.

(** ** What a valid device is

    The rules of the model as predicates, independent of the order in which the
    [Validate] methods check them. *)

(** A finite float within closed bounds, and a finite positive one. *)
Definition between (lo hi v : float64) : Prop :=
  finite v = true ∧ F64.leb lo v = true ∧ F64.leb v hi = true.
Definition positive (v : float64) : Prop := finite v = true ∧ F64.ltb F64.zero v = true.

(** An optional 48-bit hardware address. *)
Definition mac48 (s : string) : Prop := ∃ hw, ParseMAC s = Some hw ∧ length hw = 6.
Definition opt_mac48 (s : string) : Prop := s = "" ∨ mac48 s.

Definition vlan_id (z : Z) : Prop := (1 ≤ z ≤ 4094)%Z.

Definition LinkBudget_ok (l : LinkBudget) : Prop :=
  positive (lb_LinkLength l) ∧ between FrequencyMinGHz FrequencyMaxGHz (lb_Frequency l) ∧
  between AntennaGainMinDBI AntennaGainMaxDBI (lb_TxAntennaGain l) ∧
  between AntennaGainMinDBI AntennaGainMaxDBI (lb_RxAntennaGain l) ∧
  between FeedLossMinDB FeedLossMaxDB (lb_FeedLoss l) ∧
  between RSSIMinDBM RSSIMaxDBM (lb_CalculatedRSL l).

Definition ATPC_ok (a : ATPC) : Prop :=
  between RSSIMinDBM RSSIMaxDBM (at_TargetRSL a) ∧
  between TxPowerMinDBM TxPowerMaxDBM (at_MinPower a) ∧
  between TxPowerMinDBM TxPowerMaxDBM (at_MaxPower a) ∧ positive (at_Range a) ∧
  (at_Enabled a = true →
     F64.ltb (at_MinPower a) (at_MaxPower a) = true ∧
     F64.ltb (at_CurrentPower a) (at_MinPower a) = false ∧
     F64.ltb (at_MaxPower a) (at_CurrentPower a) = false).

Definition ACM_ok (a : ACM) : Prop :=
  ac_Mode a ∈ [ACMModeAdaptive; ACMModeFixed] ∧
  (1 ≤ ac_MinProfile a ≤ ac_MaxProfile a ∧ ac_MaxProfile a ≤ 12)%Z.

Definition ModProfile_ok (p : ModProfile) : Prop :=
  (1 ≤ mp_ID p ≤ 12)%Z ∧ mp_Name p ≠ "" ∧ mp_Modulation p ≠ "" ∧ mp_CodingRate p ≠ "" ∧
  positive (mp_SpectralEfficiency p) ∧ between RSSIMinDBM RSSIMaxDBM (mp_RSLThreshold p) ∧
  mp_Capacity p ≠ 0%Z.

Definition RadioLink_ok (r : RadioLink) : Prop :=
  rl_Name r ≠ "" ∧ between TxPowerMinDBM TxPowerMaxDBM (rl_TxPower r) ∧
  between RSSIMinDBM RSSIMaxDBM (rl_RSSI r) ∧ finite (rl_FadeMargin r) = true ∧
  rl_Capacity r ≠ 0%Z ∧
  rl_LinkState r ∈ [RadioLinkStateUp; RadioLinkStateDegraded; RadioLinkStateDown] ∧
  LinkBudget_ok (rl_LinkBudget r) ∧ ATPC_ok (rl_ATPC r) ∧ ACM_ok (rl_ACM r) ∧
  Forall ModProfile_ok (rl_Profiles r) ∧ NoDup (mp_ID <$> rl_Profiles r).

Definition Interface_ok (i : Interface) : Prop :=
  if_Name i ≠ "" ∧ if_Type i ∈ [InterfaceTypeRadio; InterfaceTypeEthernet] ∧
  (576 ≤ if_MTU i ≤ 9216)%Z ∧ opt_mac48 (if_MACAddress i) ∧
  (∀ link, if_RadioLink i = Some link → RadioLink_ok link).

Definition VLANPort_ok (p : VLANPort) : Prop :=
  vp_Port p ≠ "" ∧ vp_Mode p ∈ [VLANPortModeAccess; VLANPortModeTrunk; VLANPortModeHybrid] ∧
  vlan_id (vp_PVID p) ∧ (vp_Mode p = VLANPortModeAccess → vp_Tagged p = false) ∧
  (vp_QinQ p = false → vp_OuterVID p = 0%Z ∧ vp_CTagHandling p = "") ∧
  (vp_QinQ p = true → vlan_id (vp_OuterVID p) ∧ vp_OuterVID p ≠ vp_PVID p ∧
     vp_CTagHandling p ∈ [CTagHandlingPush; CTagHandlingPop; CTagHandlingTransparent]).

Definition VLAN_ok (v : VLAN) : Prop :=
  vlan_id (vl_ID v) ∧ vl_Name v ≠ "" ∧ Forall VLANPort_ok (vl_Ports v).

Definition MACEntry_ok (m : MACEntry) : Prop :=
  mac48 (me_MAC m) ∧ (me_VLAN m ≤ 4094)%Z ∧
  me_Type m ∈ [MACEntryTypeDynamic; MACEntryTypeStatic] ∧ me_Port m ≠ 0%Z ∧
  (me_Permanent m = true → me_Type m = MACEntryTypeStatic).

Definition MACTable_ok (m : MACTable) : Prop :=
  (10 ≤ mt_AgingTime m ≤ 1000000)%Z ∧ (1 ≤ mt_MaxEntries m ≤ 1000000)%Z ∧
  (mt_CurrentCount m ≤ mt_MaxEntries m)%Z ∧
  Forall MACEntry_ok (mt_Entries m) ∧ NoDup (me_MAC <$> mt_Entries m).

Definition STPPort_ok (p : STPPort) : Prop :=
  sp_Port p ≠ "" ∧
  sp_Role p ∈ [STPPortRoleRoot; STPPortRoleDesignated; STPPortRoleAlternate; STPPortRoleBackup] ∧
  (sp_Priority p ≤ 240)%Z ∧ (sp_Priority p mod 16 = 0)%Z.

Definition STPState_ok (s : STPState) : Prop :=
  st_Protocol s ∈ [STPProtocolSTP; STPProtocolRSTP] ∧
  (st_BridgePriority s ≤ 61440)%Z ∧ (st_BridgePriority s mod 4096 = 0)%Z ∧
  opt_mac48 (st_BridgeAddress s) ∧ opt_mac48 (st_RootID s) ∧
  (st_Enabled s = true →
     Forall (λ p, STPPort_ok p ∧ sp_State p ∈ STPPortStates (st_Protocol s)) (st_Ports s)).

Definition LLDPNeighbor_ok (n : LLDPNeighbor) : Prop :=
  ln_Port n ≠ "" ∧ ln_ChassisID n ≠ "" ∧ ln_PortID n ≠ "" ∧ (ln_TTL n ≠ 0 ∧ ln_TTL n ≤ 65535)%Z.

Definition LLDPConfig_ok (c : LLDPConfig) : Prop :=
  (1 ≤ ll_TxInterval c ≤ 3600)%Z ∧ (2 ≤ ll_TxHoldMultiplier c ≤ 10)%Z ∧
  (1 ≤ ll_ReinitDelay c ≤ 10)%Z ∧ (1 ≤ ll_TxDelay c ≤ 10)%Z ∧ ll_ChassisID c ≠ "" ∧
  Forall LLDPNeighbor_ok (ll_Neighbors c) ∧ NoDup (ln_Port <$> ll_Neighbors c).

Definition ql_ok (q : string) : Prop := q ∈ [QLPRC; QLSSUA; QLSSUB; QLSEC; QLDNU].
Definition eql_ok (q : string) : Prop :=
  q ∈ [""; ExtendedQLPRTC; ExtendedQLPRTCEnhanced; ExtendedQLEECEnhanced].

Definition PTPClock_ok (c : PTPClock) : Prop :=
  pc_Mode c ∈ [PTPModeMaster; PTPModeSlave; PTPModeBoundary] ∧ (pc_Domain c ≤ 127)%Z ∧
  pc_HoldoverTimeout c ≠ 0%Z ∧ finite (pc_Offset c) = true ∧ finite (pc_Jitter c) = true ∧
  pc_State c ∈ [""; PTPStateFreerun; PTPStateAcquiring; PTPStateLocked; PTPStateHoldoverInSpec;
                PTPStateHoldoverOutOfSpec].

Definition SyncEInterface_ok (i : SyncEInterface) : Prop :=
  sy_Name i ≠ "" ∧ ql_ok (sy_QL i) ∧ eql_ok (sy_ExtendedQL i).

Definition SyncEState_ok (s : SyncEState) : Prop :=
  Forall SyncEInterface_ok (se_Interfaces s) ∧ NoDup (sy_Name <$> se_Interfaces s) ∧
  (se_SelectedSource s = "" ∨ se_SelectedSource s ∈ (sy_Name <$> se_Interfaces s)) ∧
  (se_SelectedQL s = "" ∨ ql_ok (se_SelectedQL s)) ∧ eql_ok (se_SelectedExtendedQL s) ∧
  es_TxInterval (se_ESMC s) ≠ 0%Z.

Definition Device_ok (d : Device) : Prop :=
  si_DeviceID (dev_SystemInfo d) ≠ "" ∧
  Forall Interface_ok (dev_Interfaces d) ∧ NoDup (if_Name <$> dev_Interfaces d) ∧
  Forall VLAN_ok (dev_VLANs d) ∧ NoDup (vl_ID <$> dev_VLANs d) ∧
  MACTable_ok (dev_MACTable d) ∧ STPState_ok (dev_STP d) ∧ LLDPConfig_ok (dev_LLDP d) ∧
  PTPClock_ok (dev_PTP d) ∧ SyncEState_ok (dev_SyncE d).

(** ** Lemmas *)

Lemma require_ok b what : require b what = Ok tt ↔ b = true.
Proof. by destruct b. Qed.

Lemma bind_ok {A} (r : res unit) (k : res A) a : (_ ← r; k) = Ok a ↔ r = Ok tt ∧ k = Ok a.
Proof. destruct r as [[]|]; simpl; naive_solver. Qed.

Lemma wrapf_ok what (r : res unit) : wrapf what r = Ok tt ↔ r = Ok tt.
Proof. by destruct r. Qed.

Lemma one_of_ok s l : one_of s l = true ↔ s ∈ l.
Proof. apply bool_decide_eq_true. Qed.

Lemma not_empty_ok s : negb (String.eqb s "") = true ↔ s ≠ "".
Proof. by destruct (String.eqb_spec s ""). Qed.

Lemma within_ok x lo hi : within x lo hi = true ↔ (lo ≤ x ≤ hi)%Z.
Proof. unfold within. destruct (Z.ltb_spec x lo), (Z.ltb_spec hi x); simpl; split; try done; lia. Qed.

Lemma not_zero_ok x : negb (x =? 0)%Z = true ↔ x ≠ 0%Z.
Proof. by destruct (Z.eqb_spec x 0). Qed.

Lemma not_above_ok x hi : negb (hi <? x)%Z = true ↔ (x ≤ hi)%Z.
Proof. destruct (Z.ltb_spec hi x); simpl; split; (done || lia). Qed.

Lemma inRange_ok v lo hi : inRange v lo hi = true ↔ between lo hi v.
Proof. unfold inRange, between, F64.geb. rewrite !andb_true_iff. tauto. Qed.

Lemma positive_ok v : finite v && negb (F64.leb v F64.zero) = true ↔ positive v.
Proof.
  unfold positive. rewrite andb_true_iff, negb_true_iff. split; intros [Hf Hv]; (split; [done|]).
  - by destruct v as [[]|[]| |[] m e].
  - by destruct v as [[]|[]| |[] m e].
Qed.

Lemma validMAC_ok s : validMAC s = true ↔ mac48 s.
Proof.
  unfold validMAC, mac48. destruct (ParseMAC s) as [hw|]; [rewrite Nat.eqb_eq|]; naive_solver.
Qed.

Lemma opt_mac_ok s :
  negb (negb (String.eqb s "") && negb (validMAC s)) = true ↔ opt_mac48 s.
Proof.
  unfold opt_mac48. rewrite <- validMAC_ok.
  destruct (String.eqb_spec s ""), (validMAC s); simpl; naive_solver.
Qed.

Lemma priority_ok x hi step :
  negb ((hi <? x)%Z || negb (x mod step =? 0)%Z) = true ↔ (x ≤ hi)%Z ∧ (x mod step = 0)%Z.
Proof.
  rewrite negb_orb, andb_true_iff, not_above_ok, negb_involutive, Z.eqb_eq. done.
Qed.

Lemma validate_each_ok {A K} `{Countable K} (valid : A → res unit) (key : A → K) what l : ∀ seen r,
  validate_each valid key what seen l = Ok r ↔
  Forall (λ a, valid a = Ok tt) l ∧ NoDup (key <$> l) ∧ (∀ a, a ∈ l → key a ∉ seen) ∧
  r = list_to_set (key <$> l) ∪ seen.
Proof.
  induction l as [|a l IH]; intros seen r.
  - cbn. rewrite (left_id_L ∅ (∪)). split.
    + intros [= <-]. split_and!; try done; [constructor|by intros ? ?%not_elem_of_nil].
    + by intros (_ & _ & _ & ->).
  - cbn [validate_each]. rewrite bind_ok, wrapf_ok, fmap_cons, NoDup_cons, Forall_cons.
    rewrite list_to_set_cons.
    assert (key a ∈ key <$> l ↔ ∃ b, b ∈ l ∧ key b = key a) as Hin.
    { rewrite list_elem_of_fmap. naive_solver. }
    case_bool_decide as Hs.
    + split; [by intros [_ ?]|]. intros (_ & _ & Hn & _). exfalso. by apply (Hn a (list_elem_of_here _ _)).
    + rewrite IH, Hin. setoid_rewrite elem_of_cons. split.
      * intros (Hv & Hf & Hnd & Hne & ->). split_and!; try done.
        -- intros (b & Hb & Hk). apply (Hne b Hb). rewrite Hk. set_solver.
        -- intros b [->|Hb]; [done|]. specialize (Hne b Hb). set_solver.
        -- set_solver.
      * intros ([Hv Hf] & [Hk Hnd] & Hne & ->). split_and!; try done.
        -- intros b Hb [Hb'%elem_of_singleton|Hb']%elem_of_union; [apply Hk; eauto|].
           by apply (Hne b (or_intror Hb)).
        -- set_solver.
Qed.

Lemma validate_each_unit {A K} `{Countable K} (valid : A → res unit) (key : A → K) what l (k : res unit) :
  (_ ← validate_each valid key what ∅ l; k) = Ok tt ↔
  Forall (λ a, valid a = Ok tt) l ∧ NoDup (key <$> l) ∧ k = Ok tt.
Proof.
  destruct (validate_each valid key what ∅ l) as [r|e] eqn:E; simpl.
  - apply validate_each_ok in E as (? & ? & _ & _). naive_solver.
  - split; [done|]. intros (Hf & Hnd & _).
    assert (validate_each valid key what ∅ l = Ok (list_to_set (key <$> l) ∪ ∅)) as E'; [|congruence].
    by apply validate_each_ok.
Qed.

(** The rules rewrite to their predicates. *)
Create Rewrite HintDb validate.
#[export] Hint Rewrite @bind_ok @validate_each_unit require_ok wrapf_ok one_of_ok not_empty_ok within_ok
  not_zero_ok not_above_ok inRange_ok positive_ok validMAC_ok opt_mac_ok priority_ok : validate.

Ltac rules := autorewrite with validate.

Lemma Forall_iff' {A} (P Q : A → Prop) l : (∀ a, P a ↔ Q a) → Forall P l ↔ Forall Q l.
Proof. intros H. apply Forall_iff. done. Qed.

Lemma LinkBudget_Validate_ok l : LinkBudget_Validate l = Ok tt ↔ LinkBudget_ok l.
Proof. unfold LinkBudget_Validate, LinkBudget_ok. rules. done. Qed.

Lemma F64_geb_neg x y :
  F64.is_nan x = false → F64.is_nan y = false → negb (F64.geb x y) = true ↔ F64.ltb x y = true.
Proof. intros Hx Hy. unfold F64.geb. rewrite negb_true_iff. by apply F64.leb_false. Qed.

Lemma between_nan lo hi v : between lo hi v → F64.is_nan v = false.
Proof. unfold between, finite. destruct v; naive_solver. Qed.

Lemma ATPC_Validate_ok a : ATPC_Validate a = Ok tt ↔ ATPC_ok a.
Proof.
  unfold ATPC_Validate, ATPC_ok. rules.
  assert (∀ b c : bool, negb (b || c) = true ↔ b = false ∧ c = false) as Hor
    by (intros [] []; naive_solver).
  destruct (at_Enabled a); rules; [|naive_solver].
  rewrite Hor. split.
  - intros (H1 & H2 & H3 & H4 & H5 & H6). split_and!; try done. intros _.
    rewrite F64_geb_neg in H5 by eauto using between_nan. done.
  - intros (H1 & H2 & H3 & H4 & H5). destruct (H5 eq_refl) as (H6 & H7 & H8).
    rewrite F64_geb_neg by eauto using between_nan. done.
Qed.

Lemma ACM_Validate_ok a : ACM_Validate a = Ok tt ↔ ACM_ok a.
Proof.
  unfold ACM_Validate, ACM_ok, MinACMProfile, MaxACMProfile. rules.
  split; intros H; decompose [and] H; split_and!; (done || lia).
Qed.

Lemma ModProfile_Validate_ok p : ModProfile_Validate p = Ok tt ↔ ModProfile_ok p.
Proof. unfold ModProfile_Validate, ModProfile_ok, MinACMProfile, MaxACMProfile. by rules. Qed.

Lemma RadioLink_Validate_ok r : RadioLink_Validate r = Ok tt ↔ RadioLink_ok r.
Proof.
  unfold RadioLink_Validate, RadioLink_ok. rules.
  rewrite LinkBudget_Validate_ok, ATPC_Validate_ok, ACM_Validate_ok.
  rewrite (Forall_iff' _ ModProfile_ok) by apply ModProfile_Validate_ok. naive_solver.
Qed.

Lemma Interface_Validate_ok i : Interface_Validate i = Ok tt ↔ Interface_ok i.
Proof.
  unfold Interface_Validate, Interface_ok, InterfaceMTUMin, InterfaceMTUMax. rules.
  destruct (if_RadioLink i) as [link|]; rules; rewrite ?RadioLink_Validate_ok; naive_solver.
Qed.

Lemma VLANPort_Validate_ok p : VLANPort_Validate p = Ok tt ↔ VLANPort_ok p.
Proof.
  unfold VLANPort_Validate, VLANPort_validateQinQ, VLANPort_ok, vlan_id, VLANIDMin, VLANIDMax. rules.
  assert (negb (String.eqb (vp_Mode p) VLANPortModeAccess && vp_Tagged p) = true ↔
          (vp_Mode p = VLANPortModeAccess → vp_Tagged p = false)) as ->.
  { destruct (String.eqb_spec (vp_Mode p) VLANPortModeAccess), (vp_Tagged p); naive_solver. }
  destruct (vp_QinQ p); cbn [negb]; rules; rewrite ?Z.eqb_eq, ?String.eqb_eq, ?negb_true_iff, ?Z.eqb_neq;
    naive_solver.
Qed.

Lemma VLAN_Validate_ok v : VLAN_Validate v = Ok tt ↔ VLAN_ok v.
Proof.
  unfold VLAN_Validate, VLAN_ok, vlan_id, VLANIDMin, VLANIDMax. rules. rewrite res_for_ok.
  rewrite (Forall_iff' _ VLANPort_ok); [done|]. intros p. by rewrite wrapf_ok, VLANPort_Validate_ok.
Qed.

Lemma MACEntry_Validate_ok m : MACEntry_Validate m = Ok tt ↔ MACEntry_ok m.
Proof.
  unfold MACEntry_Validate, MACEntry_ok, VLANIDMax. rules.
  destruct (me_Permanent m), (String.eqb_spec (me_Type m) MACEntryTypeStatic); simpl; naive_solver.
Qed.

Lemma MACTable_Validate_ok m : MACTable_Validate m = Ok tt ↔ MACTable_ok m.
Proof.
  unfold MACTable_Validate, MACTable_ok, MACAgingTimeMin, MACAgingTimeMax, MACTableMaxEntriesMin,
    MACTableMaxEntriesMax. rules.
  rewrite (Forall_iff' _ MACEntry_ok) by apply MACEntry_Validate_ok. naive_solver.
Qed.

Lemma LLDPNeighbor_Validate_ok n : LLDPNeighbor_Validate n = Ok tt ↔ LLDPNeighbor_ok n.
Proof.
  unfold LLDPNeighbor_Validate, LLDPNeighbor_ok, LLDPTTLMax. rules.
  assert (∀ b c : bool, negb (b || c) = true ↔ negb b = true ∧ negb c = true) as ->
    by (intros [] []; naive_solver).
  rules. done.
Qed.

Lemma LLDPConfig_Validate_ok c : LLDPConfig_Validate c = Ok tt ↔ LLDPConfig_ok c.
Proof.
  unfold LLDPConfig_Validate, LLDPConfig_ok, LLDPTxIntervalMin, LLDPTxIntervalMax, LLDPTxHoldMin,
    LLDPTxHoldMax, LLDPReinitDelayMin, LLDPReinitDelayMax, LLDPTxDelayMin, LLDPTxDelayMax. rules.
  rewrite (Forall_iff' _ LLDPNeighbor_ok) by apply LLDPNeighbor_Validate_ok. naive_solver.
Qed.

Lemma STPPort_Validate_ok s p :
  (STPPort_Validate p = Ok tt ∧ sp_State p ∈ STPPortStates s) ↔
  STPPort_ok p ∧ sp_State p ∈ STPPortStates s.
Proof.
  unfold STPPort_Validate, STPPort_ok, STPPortPriorityMax, STPPortPriorityStep. rules.
  assert (sp_State p ∈ STPPortStates s → sp_State p ∈ [STPPortStateDisabled; STPPortStateBlocking;
    STPPortStateListening; STPPortStateDiscarding; STPPortStateLearning; STPPortStateForwarding]).
  { unfold STPPortStates. destruct (String.eqb s STPProtocolRSTP); set_solver. }
  naive_solver.
Qed.

Lemma STPState_Validate_ok s : STPState_Validate s = Ok tt ↔ STPState_ok s.
Proof.
  unfold STPState_Validate, STPState_ok, STPBridgePriorityMax, STPBridgePriorityStep. rules.
  destruct (st_Enabled s); [|naive_solver]. cbv zeta. rewrite res_for_ok.
  rewrite (Forall_iff' _ (λ p, STPPort_ok p ∧ sp_State p ∈ STPPortStates (st_Protocol s))); [naive_solver|].
  intros p. rules. apply STPPort_Validate_ok.
Qed.

Lemma PTPClock_Validate_ok c : PTPClock_Validate c = Ok tt ↔ PTPClock_ok c.
Proof.
  unfold PTPClock_Validate, PTPClock_ok, PTPDomainMax. rules.
  rewrite (elem_of_cons _ (pc_State c) "").
  destruct (String.eqb_spec (pc_State c) ""); rules; naive_solver.
Qed.

Lemma SyncEInterface_Validate_ok i : SyncEInterface_Validate i = Ok tt ↔ SyncEInterface_ok i.
Proof.
  unfold SyncEInterface_Validate, SyncEInterface_ok, QL_Validate, extended_ql_ok, ql_ok, eql_ok.
  by rules.
Qed.

Lemma SyncEState_Validate_ok s : SyncEState_Validate s = Ok tt ↔ SyncEState_ok s.
Proof.
  unfold SyncEState_Validate, SyncEState_ok, ESMC_Validate, QL_Validate, extended_ql_ok, ql_ok, eql_ok.
  set (keys := list_to_set (sy_Name <$> se_Interfaces s) ∪ ∅ : gset string).
  assert (∀ x, x ∈ keys ↔ x ∈ sy_Name <$> se_Interfaces s) as Hk by (subst keys; set_solver).
  assert (∀ k, (seen ← validate_each SyncEInterface_Validate sy_Name "interfaces" ∅ (se_Interfaces s); k seen)
    = Ok tt ↔ Forall SyncEInterface_ok (se_Interfaces s) ∧ NoDup (sy_Name <$> se_Interfaces s) ∧
              k keys = Ok tt) as ->.
  { intros k. rewrite <- (Forall_iff' (λ i, SyncEInterface_Validate i = Ok tt))
      by apply SyncEInterface_Validate_ok.
    destruct (validate_each _ _ _ _ _) as [r|e] eqn:E; simpl.
    - apply validate_each_ok in E as (? & ? & _ & ->). naive_solver.
    - split; [done|]. intros (Hf & Hnd & _).
      assert (validate_each SyncEInterface_Validate sy_Name "interfaces" ∅ (se_Interfaces s) = Ok keys);
        [by apply validate_each_ok|congruence]. }
  rules. rewrite <- Hk.
  destruct (String.eqb_spec (se_SelectedSource s) ""), (String.eqb_spec (se_SelectedQL s) "");
    simpl; rules; rewrite ?negb_true_iff, ?negb_false_iff, ?bool_decide_eq_true; naive_solver.
Qed.

Lemma Device_Validate_ok d : Device_Validate d = Ok tt ↔ Device_ok d.
Proof.
  unfold Device_Validate, Device_ok, SystemInfo_Validate. rules.
  rewrite MACTable_Validate_ok, STPState_Validate_ok, LLDPConfig_Validate_ok, PTPClock_Validate_ok,
    SyncEState_Validate_ok.
  rewrite (Forall_iff' _ Interface_ok) by apply Interface_Validate_ok.
  rewrite (Forall_iff' _ VLAN_ok) by apply VLAN_Validate_ok. done.
Qed.

(** ** Properties *)


(** the boot configuration is valid, so a first boot never seeds a device the
    commit validator would reject. *)
Theorem default_device_valid : Device_Validate DefaultDevice = Ok tt ∧ Device_ok DefaultDevice.
Proof.
  assert (Device_Validate DefaultDevice = Ok tt) as H by (vm_compute; reflexivity).
  split; [exact H|by apply Device_Validate_ok].
Qed.
