(* ===== verification/Reflect.v ===== *)
(** * Reflection over the managed objects ([internal/router/reflect.go])

    The router navigates the model by the struct tags.  [gotype] is the part of
    [reflect.Type] it uses: leaves by kind, pointers, slices and structs whose fields
    carry the [path], [key], [config] and [creatable] tags; [goval] is the matching part
    of [reflect.Value].  Navigation recurses on the type, which every step of a path
    descends, so no fuel is needed. *)

From S2P Require Import Prelude GoStrings GoFloat GoValue Path.

(** ** Types and values *)

(** The tags of one struct field; [ft_path] is [None] for a field without a path tag. *)
Record fieldTag : Set := mkTag {
  ft_name : string;
  ft_path : option string;
  ft_key : bool;
  ft_state : bool;      (* config:"false" *)
  ft_creatable : bool;
}.
Global Instance fieldTag_eq_dec : EqDecision fieldTag.
Proof. solve_decision. Defined.

Inductive gotype : Set :=
  | TLeaf (k : LeafKind)
  | TPtr (t : gotype)
  | TSlice (t : gotype)
  | TStruct (fields : list (fieldTag * gotype)).

Inductive goval : Set :=
  | GLeaf (v : value)
  | GPtr (v : option goval)
  | GSlice (l : list goval)
  | GStruct (l : list goval).

(** The zero value of a leaf kind, and of a type. *)
Definition zero_leaf (k : LeafKind) : value :=
  match k with
  | KBool => VBool false | KInt => VInt 0 | KUint8 => VUint8 0 | KUint16 => VUint16 0
  | KUint32 => VUint32 0 | KUint64 => VUint64 0 | KFloat64 => VFloat64 F64.zero
  | KString => VString ""
  end.

Fixpoint zero (t : gotype) : goval :=
  match t with
  | TLeaf k => GLeaf (zero_leaf k)
  | TPtr _ => GPtr None
  | TSlice _ => GSlice []
  | TStruct fields => GStruct (map (λ f, zero f.2) fields)
  end.

(** Type checking, which every value the Go code handles satisfies by construction. *)
Fixpoint has_type (v : goval) (t : gotype) {struct v} : bool :=
  match v, t with
  | GLeaf x, TLeaf k => bool_decide (leafKindOf x = Some k)
  | GPtr None, TPtr _ => true
  | GPtr (Some v), TPtr t => has_type v t
  | GSlice l, TSlice t => forallb (λ v, has_type v t) l
  | GStruct l, TStruct fields =>
      (fix go (l : list goval) (fs : list (fieldTag * gotype)) : bool :=
         match l, fs with
         | [], [] => true
         | v :: l, (_, t) :: fs => has_type v t && go l fs
         | _, _ => false
         end) l fields
  | _, _ => false
  end.

(** A resolved position: the type and value found there, and whether it lies under a
    config:"false" field. *)
Record node : Set := mkNode { n_type : gotype; n_value : goval; n_readOnly : bool }.

(** [derefValue]. *)
Fixpoint derefValue (t : gotype) (v : goval) : option (gotype * goval) :=
  match t, v with
  | TPtr t, GPtr (Some v) => derefValue t v
  | TPtr _, _ => None
  | _, _ => Some (t, v)
  end.

Fixpoint deref_type (t : gotype) : gotype :=
  match t with TPtr t => deref_type t | _ => t end.

(** ** Fields and keys *)

Fixpoint parts_match (parts : list string) (segs : list Segment) : bool :=
  match parts, segs with
  | [], _ => true
  | p :: parts, s :: segs => String.eqb p (seg_Name s) && parts_match parts segs
  | _ :: _, [] => false
  end.

(** The loop of [matchField]: the first field with the longest matching path tag;
    it reports the field's index and the number of segments consumed. *)
Fixpoint match_from (i : nat) (fields : list (fieldTag * gotype)) (segs : list Segment)
    (best : option (nat * nat)) : option (nat * nat) :=
  match fields with
  | [] => best
  | (tag, _) :: fields =>
      let best :=
        match ft_path tag with
        | None => best
        | Some path =>
            let parts := SplitByte path slash in
            let bestLen := match best with Some (_, n) => n | None => 0 end in
            if Nat.leb (length parts) (length segs) && parts_match parts segs
               && Nat.ltb bestLen (length parts)
            then Some (i, length parts) else best
        end in
      match_from (S i) fields segs best
  end.
Definition matchField (fields : list (fieldTag * gotype)) (segs : list Segment) : option (nat * nat) :=
  match_from 0 fields segs None.

(** [keyFieldIndex] and [keyTagName]. *)
Definition keyFieldIndex (fields : list (fieldTag * gotype)) : option nat :=
  fst <$> list_find (λ f, ft_key f.1 = true) fields.

Definition keyTagName (fields : list (fieldTag * gotype)) : string :=
  match keyFieldIndex fields with
  | None => ""
  | Some i =>
      match fields !! i with
      | Some (tag, _) => default "" (head (SplitByte (default "" (ft_path tag)) slash))
      | None => ""
      end
  end.

(** [scalarString]: the text of a list key.  No list of the model is keyed by a float
    ([keys_renderable]), so the float format of strconv is not modelled. *)
Definition scalarString (v : value) : option string :=
  match v with
  | VString s => Some s
  | VBool b => Some (FormatBool b)
  | VInt z => Some (Itoa z)
  | VUint8 z | VUint16 z | VUint32 z | VUint64 z => Some (FormatUint z)
  | VFloat64 _ => None
  | VOther _ => Some ""
  end.

(** The text of the key of a list element, behind its pointers. *)
Definition element_key (t : gotype) (v : goval) (keyIndex : nat) : option string :=
  match derefValue t v with
  | Some (TStruct fields, GStruct vs) =>
      match fields !! keyIndex, vs !! keyIndex with
      | Some (_, kt), Some kv =>
          match derefValue kt kv with
          | Some (_, GLeaf x) => scalarString x
          | _ => None
          end
      | _, _ => None
      end
  | _ => None
  end.

(** [synthesizeElement]: a detached zero element. *)
Fixpoint synthesizeElement (t : gotype) : goval :=
  match t with TPtr t => GPtr (Some (synthesizeElement t)) | _ => zero t end.

Definition find_key (t : gotype) (keyIndex : nat) (value : string) (l : list goval)
    : option (nat * goval) :=
  list_find (λ v, element_key t v keyIndex = Some value) l.

(** [selectElement]. *)
Definition selectElement (t : gotype) (l : list goval) (seg : Segment) (creatable : bool) : res goval :=
  match deref_type t with
  | TStruct fields =>
      match keyFieldIndex fields with
      | None => Err [RouterErrInvalidPath]
      | Some keyIndex =>
          if negb (String.eqb (keyTagName fields) (seg_Key seg)) then Err [RouterErrInvalidPath]
          else match find_key t keyIndex (seg_Value seg) l with
          | Some (_, v) => Ok v
          | None => if creatable then Ok (synthesizeElement t) else Err [RouterErrNotFound]
          end
      end
  | _ => Err [RouterErrInvalidPath]
  end.

(** ** [resolve]

    [at_field] is the last segment of the tag just matched, when the position is a field
    whose pointers and list have not been looked through yet. *)
Fixpoint resolve_from (t : gotype) (v : goval) (at_field : option (Segment * bool))
    (segs : list Segment) (ro : bool) {struct t} : res node :=
  match t, v with
  | TPtr t', GPtr o =>
      match at_field, segs with
      | None, [] => Ok (mkNode t v ro)
      | _, _ =>
          match o with
          | Some v' => resolve_from t' v' at_field segs ro
          | None => Err [RouterErrNotFound]
          end
      end
  | TSlice te, GSlice l =>
      match at_field with
      | Some (last, creatable) =>
          if String.eqb (seg_Key last) "" then
            match segs with
            | [] => Ok (mkNode t v ro)
            | _ => Err [RouterErrInvalidPath]
            end
          else
            element ← selectElement te l last creatable;
            resolve_from te element None segs ro
      | None => match segs with [] => Ok (mkNode t v ro) | _ => Err [RouterErrInvalidPath] end
      end
  | TStruct fields, GStruct vs =>
      match segs with
      | [] => Ok (mkNode t v ro)
      | _ =>
          match matchField fields segs with
          | None => Err [RouterErrNotFound]
          | Some (i, consumed) =>
              (fix pick (fs : list (fieldTag * gotype)) (j : nat) {struct fs} : res node :=
                 match fs, j with
                 | (tag, ft) :: _, 0 =>
                     match vs !! i, segs !! (consumed - 1) with
                     | Some fv, Some last =>
                         resolve_from ft fv (Some (last, ft_creatable tag))
                           (drop consumed segs) (ro || ft_state tag)
                     | _, _ => Err [RouterErrNotFound]
                     end
                 | _ :: fs, S j => pick fs j
                 | [], _ => Err [RouterErrNotFound]
                 end) fields i
          end
      end
  | _, _ =>
      match segs with [] => Ok (mkNode t v ro) | _ => Err [RouterErrNotFound] end
  end.

(** [resolve]: the root is a non-nil pointer to the device, already looked through. *)
Definition resolve (t : gotype) (root : goval) (segs : list Segment) : res node :=
  resolve_from t root None segs false.

(** [isLeaf]. *)
Definition isLeaf (n : node) : bool :=
  match derefValue (n_type n) (n_value n) with Some (TLeaf _, _) => true | _ => false end.

(** ** Leaf conversion *)

(** [leafValue]: every leaf kind of the model is one the store holds. *)
Definition leafValue (v : goval) : res value :=
  match v with
  | GLeaf x => if is_leaf x then Ok x else Err [RouterErrTypeMismatch]
  | _ => Err [RouterErrTypeMismatch]
  end.

Definition MaxInt64 : Z := 2 ^ 63 - 1.

(** [toInt64] and [toUint64]: the bounds are compared after rounding to float64, so
    the floats 2^63 and 2^64 pass; Go leaves their conversion to the machine (on amd64
    the results are -2^63 and 0). *)
Definition toInt64 (v : value) : option Z :=
  match v with
  | VInt z => Some z
  | VUint8 u | VUint16 u | VUint32 u | VUint64 u => if (MaxInt64 <? u)%Z then None else Some u
  | VFloat64 f =>
      match F64.to_Z_exact f with
      | None => None
      | Some z =>
          if (z <? - 2 ^ 63)%Z || (2 ^ 63 <? z)%Z then None
          else Some (if (z =? 2 ^ 63)%Z then - 2 ^ 63 else z)%Z
      end
  | _ => None
  end.

Definition toUint64 (v : value) : option Z :=
  match v with
  | VInt z => if (z <? 0)%Z then None else Some z
  | VUint8 u | VUint16 u | VUint32 u | VUint64 u => Some u
  | VFloat64 f =>
      match F64.to_Z_exact f with
      | None => None
      | Some z =>
          if (z <? 0)%Z || (2 ^ 64 <? z)%Z then None
          else Some (if (z =? 2 ^ 64)%Z then 0 else z)%Z
      end
  | _ => None
  end.

Definition toFloat64 (v : value) : option float64 :=
  match v with
  | VInt z | VUint8 z | VUint16 z | VUint32 z | VUint64 z => Some (F64.of_Z z)
  | VFloat64 f => Some f
  | _ => None
  end.

(** The unsigned leaf kinds with their width and constructor. *)
Definition uint_kind (k : LeafKind) : option (Z * (Z → value)) :=
  match k with
  | KUint8 => Some (8%Z, VUint8)
  | KUint16 => Some (16%Z, VUint16)
  | KUint32 => Some (32%Z, VUint32)
  | KUint64 => Some (64%Z, VUint64)
  | _ => None
  end.

(** [assignLeaf], as the value the destination holds afterwards. *)
Definition assignLeaf (k : LeafKind) (v : value) : res value :=
  match k with
  | KString => match v with VString s => Ok (VString s) | _ => Err [RouterErrTypeMismatch] end
  | KBool => match v with VBool b => Ok (VBool b) | _ => Err [RouterErrTypeMismatch] end
  | KInt => match toInt64 v with Some x => Ok (VInt x) | None => Err [RouterErrTypeMismatch] end
  | KFloat64 =>
      match toFloat64 v with Some x => Ok (VFloat64 x) | None => Err [RouterErrTypeMismatch] end
  | KUint8 | KUint16 | KUint32 | KUint64 =>
      match uint_kind k with
      | None => Err [RouterErrTypeMismatch]
      | Some (bits, mk) =>
          match toUint64 v with
          | Some x => if (2 ^ bits <=? x)%Z then Err [RouterErrBadValue] else Ok (mk x)
          | None =>
              match toInt64 v with
              | Some x => if (x <? 0)%Z then Err [RouterErrBadValue] else Err [RouterErrTypeMismatch]
              | None => Err [RouterErrTypeMismatch]
              end
          end
      end
  end.

(** [coerce]. *)
Definition coerce (v : value) (t : gotype) : res value :=
  match t with
  | TLeaf k => x ← assignLeaf k v; leafValue (GLeaf x)
  | _ => Err [RouterErrTypeMismatch]
  end.

(** ** [walkLeaves]

    The leaves in declaration order with their path and access, as the callback of the
    Go function sees them. *)
Definition with_key (segs : list Segment) (key : string) (value : option string) : list Segment :=
  match value, last segs with
  | Some value, Some s => removelast segs ++ [mkSeg (seg_Name s) key value]
  | _, _ => segs
  end.

Fixpoint walkLeaves (v : goval) (t : gotype) (segs : list Segment) (ro : bool) {struct v}
    : list (Path * value * bool) :=
  match v, t with
  | GPtr (Some v), TPtr t => walkLeaves v t segs ro
  | GPtr None, TPtr _ => []
  | GStruct vs, TStruct fields =>
      (fix go (vs : list goval) (fs : list (fieldTag * gotype)) : list (Path * value * bool) :=
         match vs, fs with
         | v :: vs, (tag, t) :: fs =>
             match ft_path tag with
             | Some path =>
                 walkLeaves v t (segs ++ ((λ n, mkSeg n "" "") <$> SplitByte path slash))
                   (ro || ft_state tag)
             | None => []
             end ++ go vs fs
         | _, _ => []
         end) vs fields
  | GSlice l, TSlice te =>
      let fields := match deref_type te with TStruct fields => fields | _ => [] end in
      let keyName := keyTagName fields in
      (fix go (l : list goval) : list (Path * value * bool) :=
         match l with
         | [] => []
         | v :: l =>
             let key := match keyFieldIndex fields with
                        | Some i => element_key te v i
                        | None => None
                        end in
             walkLeaves v te (with_key segs keyName key) ro ++ go l
         end) l
  | GLeaf x, _ => [(segs, x, ro)]
  | _, _ => []
  end.

(** ** Lemmas *)

(** Induction over types and values, with the hypothesis on every field and element. *)
Lemma gotype_rect' (P : gotype → Prop) :
  (∀ k, P (TLeaf k)) → (∀ t, P t → P (TPtr t)) → (∀ t, P t → P (TSlice t)) →
  (∀ fs, Forall (λ f, P f.2) fs → P (TStruct fs)) → ∀ t, P t.
Proof.
  intros HL HP HS HT. fix IH 1. intros [k|t|t|fs]; [apply HL|apply HP, IH|apply HS, IH|].
  apply HT. induction fs as [|[tag t] fs IHfs]; constructor; [apply IH|apply IHfs].
Qed.

Lemma goval_rect' (P : goval → Prop) :
  (∀ v, P (GLeaf v)) → P (GPtr None) → (∀ v, P v → P (GPtr (Some v))) →
  (∀ l, Forall P l → P (GSlice l)) → (∀ l, Forall P l → P (GStruct l)) → ∀ v, P v.
Proof.
  intros HL HN HP HS HT. fix IH 1. intros [v|[v|]|l|l]; [apply HL|apply HP, IH|apply HN| |].
  - apply HS. induction l as [|v l IHl]; constructor; [apply IH|apply IHl].
  - apply HT. induction l as [|v l IHl]; constructor; [apply IH|apply IHl].
Qed.

(** The struct case of typing, as a relation between the two lists. *)
Lemma has_type_struct l fs :
  has_type (GStruct l) (TStruct fs) = true ↔ Forall2 (λ v f, has_type v f.2 = true) l fs.
Proof.
  simpl. revert fs. induction l as [|v l IH]; intros [|[tag t] fs]; simpl.
  - split; [by constructor|done].
  - split; [done|by intros ?%Forall2_nil_inv_l].
  - split; [done|by intros ?%Forall2_nil_inv_r].
  - rewrite andb_true_iff, IH. split; [by intros []; constructor|].
    intros H. by apply Forall2_cons_1 in H.
Qed.

Lemma has_type_slice l t :
  has_type (GSlice l) (TSlice t) = true ↔ Forall (λ v, has_type v t = true) l.
Proof.
  simpl. induction l as [|v l IH]; simpl; [by split|]. rewrite andb_true_iff, IH, Forall_cons. done.
Qed.

Lemma zero_typed t : has_type (zero t) t = true.
Proof.
  induction t as [k|t IH|t IH|fs IH] using gotype_rect'; [by destruct k|done|done|].
  apply has_type_struct. induction IH; constructor; auto.
Qed.

(** [matchField] returns a field whose path tag is the names of the segments it
    consumes. *)
Lemma parts_match_spec parts segs :
  length parts ≤ length segs → parts_match parts segs = true →
  seg_Name <$> take (length parts) segs = parts.
Proof.
  revert segs. induction parts as [|p parts IH]; intros [|s segs]; simpl; try done.
  intros Hl [Hp Hm]%andb_true_iff. apply String.eqb_eq in Hp as ->.
  f_equal. apply IH; [lia|done].
Qed.

Definition match_ok (fields : list (fieldTag * gotype)) (segs : list Segment) (r : option (nat * nat)) : Prop :=
  ∀ i n, r = Some (i, n) →
  ∃ tag t path, fields !! i = Some (tag, t) ∧ ft_path tag = Some path ∧
    seg_Name <$> take n segs = SplitByte path slash ∧ 0 < n ≤ length segs.

Lemma match_from_ok fields segs : ∀ pre best,
  match_ok (pre ++ fields) segs best →
  match_ok (pre ++ fields) segs (match_from (length pre) fields segs best).
Proof.
  induction fields as [|[tag t] fields IH]; intros pre best Hb; simpl; [done|].
  replace (S (length pre)) with (length (pre ++ [(tag, t)])) by (rewrite length_app; simpl; lia).
  replace (pre ++ (tag, t) :: fields) with ((pre ++ [(tag, t)]) ++ fields) in *
    by (by rewrite <- app_assoc).
  apply IH. destruct (ft_path tag) as [path|] eqn:Hp; [|done].
  destruct (Nat.leb_spec (length (SplitByte path slash)) (length segs)); simpl; [|done].
  destruct (parts_match (SplitByte path slash) segs) eqn:Hm; simpl; [|done].
  destruct (Nat.ltb _ _) eqn:Hlt; [|done]. apply Nat.ltb_lt in Hlt.
  intros i n [= <- <-]. exists tag, t, path. split_and!; [|done| |lia|lia].
  - rewrite <- app_assoc. simpl. by apply list_lookup_middle.
  - by apply parts_match_spec.
Qed.

Lemma matchField_ok fields segs : match_ok fields segs (matchField fields segs).
Proof. apply (match_from_ok fields segs [] None). done. Qed.

(** [assignLeaf] produces a value of the destination's kind. *)
Lemma assignLeaf_kind k v x : assignLeaf k v = Ok x → leafKindOf x = Some k.
Proof.
  destruct k; simpl; repeat case_match; by intros [= <-].
Qed.

(** A converted value is within the range of its type. *)
Lemma assignLeaf_wf k v x : value_wf v → assignLeaf k v = Ok x → value_wf x.
Proof.
  intros Hv.
  assert (∀ z, toUint64 v = Some z → (0 ≤ z)%Z) as Hu.
  { intros z. unfold toUint64. destruct v; simpl in *; unfold in_u in *; repeat case_match;
      intros [= <-]; rewrite ?orb_false_iff, ?Z.ltb_ge, ?Z.eqb_eq in *; lia. }
  assert (∀ z, toInt64 v = Some z → (- 2 ^ 63 ≤ z < 2 ^ 63)%Z) as Hi.
  { intros z. unfold toInt64, MaxInt64. destruct v; simpl in *; unfold in_u in *; repeat case_match;
      intros [= <-]; rewrite ?orb_false_iff, ?Z.ltb_ge, ?Z.eqb_eq, ?Z.eqb_neq in *; lia. }
  destruct k; cbn -[Z.pow].
  1,8: by destruct v; intros [= <-].
  1: destruct (toInt64 v) eqn:E; [intros [= <-]; by apply Hi|done].
  1-4: destruct (toUint64 v) as [z|] eqn:E; [|repeat case_match; done];
       destruct (_ <=? z)%Z eqn:El; [done|]; apply Z.leb_gt in El;
       intros [= <-]; split; [by apply Hu|done].
  destruct (toFloat64 v); [by intros [= <-]|done].
Qed.
