(* ===== verification/Reflected.v ===== *)
(** * The reflected types of the managed objects

    [reflect] sees a Go struct as its field types and tags.  A [Codec] is the view of
    one Go type: its [gotype], and the translation of its values to and from [goval];
    [CodecLaw] states that the translation loses nothing and is well typed, and every
    struct of the model has an instance.  The tag lists are the struct tags of
    [internal/model]. *)

From S2P Require Import Prelude GoStrings GoFloat GoValue GoNet Path Model Reflect.

Record Codec (A : Type) : Type := mkCodec {
  ct : gotype;
  enc : A → goval;
  dec : goval → option A;
}.
Arguments mkCodec {A}. Arguments ct {A}. Arguments enc {A}. Arguments dec {A}.

Class CodecLaw {A} (c : Codec A) : Prop := {
  codec_dec_enc : ∀ a, dec c (enc c a) = Some a;
  codec_typed : ∀ a, has_type (enc c a) (ct c) = true;
  codec_total : ∀ v, has_type v (ct c) = true → ∃ a, dec c v = Some a ∧ enc c a = v;
}.

(** ** Leaves, pointers and slices *)

Definition c_bool : Codec bool := mkCodec (TLeaf KBool) (λ b, GLeaf (VBool b))
  (λ v, match v with GLeaf (VBool b) => Some b | _ => None end).
Definition c_str : Codec string := mkCodec (TLeaf KString) (λ s, GLeaf (VString s))
  (λ v, match v with GLeaf (VString s) => Some s | _ => None end).
Definition c_f64 : Codec float64 := mkCodec (TLeaf KFloat64) (λ f, GLeaf (VFloat64 f))
  (λ v, match v with GLeaf (VFloat64 f) => Some f | _ => None end).
Definition c_u8 : Codec Z := mkCodec (TLeaf KUint8) (λ z, GLeaf (VUint8 z))
  (λ v, match v with GLeaf (VUint8 z) => Some z | _ => None end).
Definition c_u16 : Codec Z := mkCodec (TLeaf KUint16) (λ z, GLeaf (VUint16 z))
  (λ v, match v with GLeaf (VUint16 z) => Some z | _ => None end).
Definition c_u32 : Codec Z := mkCodec (TLeaf KUint32) (λ z, GLeaf (VUint32 z))
  (λ v, match v with GLeaf (VUint32 z) => Some z | _ => None end).
Definition c_u64 : Codec Z := mkCodec (TLeaf KUint64) (λ z, GLeaf (VUint64 z))
  (λ v, match v with GLeaf (VUint64 z) => Some z | _ => None end).

Fixpoint dec_list {A} (c : Codec A) (l : list goval) : option (list A) :=
  match l with
  | [] => Some []
  | v :: l => a ← dec c v; r ← dec_list c l; Some (a :: r)
  end.
Definition c_list {A} (c : Codec A) : Codec (list A) := mkCodec (TSlice (ct c))
  (λ l, GSlice (map (enc c) l))
  (λ v, match v with GSlice l => dec_list c l | _ => None end).
Definition c_ptr {A} (c : Codec A) : Codec (option A) := mkCodec (TPtr (ct c))
  (λ o, GPtr (enc c <$> o))
  (λ v, match v with
        | GPtr None => Some None
        | GPtr (Some v) => a ← dec c v; Some (Some a)
        | _ => None
        end).

Ltac leaf_codec := split; [done|done|intros [[]|[]| |]; simpl; intros; (done || eauto)].
#[export] Instance c_bool_law : CodecLaw c_bool.
Proof. leaf_codec. Qed.
#[export] Instance c_str_law : CodecLaw c_str.
Proof. leaf_codec. Qed.
#[export] Instance c_f64_law : CodecLaw c_f64.
Proof. leaf_codec. Qed.
#[export] Instance c_u8_law : CodecLaw c_u8.
Proof. leaf_codec. Qed.
#[export] Instance c_u16_law : CodecLaw c_u16.
Proof. leaf_codec. Qed.
#[export] Instance c_u32_law : CodecLaw c_u32.
Proof. leaf_codec. Qed.
#[export] Instance c_u64_law : CodecLaw c_u64.
Proof. leaf_codec. Qed.

#[export] Instance c_list_law {A} (c : Codec A) : CodecLaw c → CodecLaw (c_list c).
Proof.
  intros [H1 H2 H3]. split.
  - intros l. simpl. induction l as [|a l IH]; simpl; [done|]. rewrite H1. simpl. by rewrite IH.
  - intros l. simpl. induction l as [|a l IH]; simpl; [done|]. by rewrite H2, IH.
  - intros [|[]|l|]; try done. intros Hl%has_type_slice. simpl.
    induction Hl as [|v l Hv _ (r & IH & He)]; simpl; [by exists []|].
    destruct (H3 v Hv) as (a & -> & Ha). simpl. rewrite IH. simpl. exists (a :: r). split; [done|].
    simpl. injection He as ->. by rewrite Ha.
Qed.

#[export] Instance c_ptr_law {A} (c : Codec A) : CodecLaw c → CodecLaw (c_ptr c).
Proof.
  intros [H1 H2 H3]. split; [intros [a|]; simpl; rewrite ?H1, ?H2; done..|].
  intros [|[v|]| |]; simpl; try done; [|by eexists]. intros (a & -> & Ha)%H3. simpl.
  eexists. split; [done|]. simpl. by rewrite Ha.
Qed.

(** A struct codec follows from those of its fields. *)
Ltac field_totals l Hv :=
  repeat (destruct l as [|? l]; cbn beta iota in Hv; [discriminate Hv|];
          let H := fresh "Hf" in
          apply andb_true_iff in Hv as [H Hv]; let H' := fresh "He" in apply codec_total in H as (? & H & H'));
  destruct l; [|discriminate Hv].

Ltac solve_codec c tags :=
  split;
  [intros []; unfold c; cbn [dec enc];
   repeat (rewrite codec_dec_enc; cbn [mbind option_bind]); reflexivity
  |intros []; unfold c, tags; cbn [ct enc zip zip_with has_type]; rewrite !codec_typed; reflexivity
  |intros [|[]| |l]; [done..|]; unfold c, tags; cbn [ct dec zip zip_with has_type]; intros Hv;
   field_totals l Hv;
   repeat match goal with H : dec _ ?v = Some _ |- _ =>
     rewrite H; clear H; cbn [mbind option_bind] end;
   eexists; split; [reflexivity|]; subst; reflexivity].

(** ** Structs *)

Definition SystemInfo_tags : list fieldTag :=
  [mkTag "DeviceID" (Some "device-id") false false false;
   mkTag "Name" (Some "name") false false false;
   mkTag "Description" (Some "description") false false false;
   mkTag "Contact" (Some "contact") false false false;
   mkTag "Location" (Some "location") false false false;
   mkTag "Uptime" (Some "uptime") false true false].
Definition c_SystemInfo : Codec SystemInfo := mkCodec
  (TStruct (zip SystemInfo_tags [ct c_str; ct c_str; ct c_str; ct c_str; ct c_str; ct c_u32]))
  (λ a, GStruct [enc c_str (si_DeviceID a); enc c_str (si_Name a); enc c_str (si_Description a); enc c_str (si_Contact a); enc c_str (si_Location a); enc c_u32 (si_Uptime a)])
  (λ v, match v with
        | GStruct [x0; x1; x2; x3; x4; x5] =>
            x0 ← dec c_str x0;
            x1 ← dec c_str x1;
            x2 ← dec c_str x2;
            x3 ← dec c_str x3;
            x4 ← dec c_str x4;
            x5 ← dec c_u32 x5;
            Some (mkSystemInfo x0 x1 x2 x3 x4 x5)
        | _ => None
        end).
#[export] Instance c_SystemInfo_law : CodecLaw c_SystemInfo.
Proof. solve_codec c_SystemInfo SystemInfo_tags. Qed.

Definition LinkBudget_tags : list fieldTag :=
  [mkTag "LinkLength" (Some "link-length") false false false;
   mkTag "Frequency" (Some "frequency") false false false;
   mkTag "TxAntennaGain" (Some "tx-antenna-gain") false false false;
   mkTag "RxAntennaGain" (Some "rx-antenna-gain") false false false;
   mkTag "FeedLoss" (Some "feed-loss") false false false;
   mkTag "CalculatedRSL" (Some "calculated-rsl") false true false].
Definition c_LinkBudget : Codec LinkBudget := mkCodec
  (TStruct (zip LinkBudget_tags [ct c_f64; ct c_f64; ct c_f64; ct c_f64; ct c_f64; ct c_f64]))
  (λ a, GStruct [enc c_f64 (lb_LinkLength a); enc c_f64 (lb_Frequency a); enc c_f64 (lb_TxAntennaGain a); enc c_f64 (lb_RxAntennaGain a); enc c_f64 (lb_FeedLoss a); enc c_f64 (lb_CalculatedRSL a)])
  (λ v, match v with
        | GStruct [x0; x1; x2; x3; x4; x5] =>
            x0 ← dec c_f64 x0;
            x1 ← dec c_f64 x1;
            x2 ← dec c_f64 x2;
            x3 ← dec c_f64 x3;
            x4 ← dec c_f64 x4;
            x5 ← dec c_f64 x5;
            Some (mkLinkBudget x0 x1 x2 x3 x4 x5)
        | _ => None
        end).
#[export] Instance c_LinkBudget_law : CodecLaw c_LinkBudget.
Proof. solve_codec c_LinkBudget LinkBudget_tags. Qed.

Definition ATPC_tags : list fieldTag :=
  [mkTag "Enabled" (Some "enabled") false false false;
   mkTag "TargetRSL" (Some "target-rsl") false false false;
   mkTag "MinPower" (Some "min-power") false false false;
   mkTag "MaxPower" (Some "max-power") false false false;
   mkTag "Range" (Some "range") false false false;
   mkTag "CurrentPower" (Some "current-power") false true false].
Definition c_ATPC : Codec ATPC := mkCodec
  (TStruct (zip ATPC_tags [ct c_bool; ct c_f64; ct c_f64; ct c_f64; ct c_f64; ct c_f64]))
  (λ a, GStruct [enc c_bool (at_Enabled a); enc c_f64 (at_TargetRSL a); enc c_f64 (at_MinPower a); enc c_f64 (at_MaxPower a); enc c_f64 (at_Range a); enc c_f64 (at_CurrentPower a)])
  (λ v, match v with
        | GStruct [x0; x1; x2; x3; x4; x5] =>
            x0 ← dec c_bool x0;
            x1 ← dec c_f64 x1;
            x2 ← dec c_f64 x2;
            x3 ← dec c_f64 x3;
            x4 ← dec c_f64 x4;
            x5 ← dec c_f64 x5;
            Some (mkATPC x0 x1 x2 x3 x4 x5)
        | _ => None
        end).
#[export] Instance c_ATPC_law : CodecLaw c_ATPC.
Proof. solve_codec c_ATPC ATPC_tags. Qed.

Definition ACM_tags : list fieldTag :=
  [mkTag "Enabled" (Some "enabled") false false false;
   mkTag "Mode" (Some "mode") false false false;
   mkTag "MinProfile" (Some "min-profile") false false false;
   mkTag "MaxProfile" (Some "max-profile") false false false;
   mkTag "CurrentProfile" (Some "current-profile") false true false;
   mkTag "CurrentCapacity" (Some "current-capacity") false true false].
Definition c_ACM : Codec ACM := mkCodec
  (TStruct (zip ACM_tags [ct c_bool; ct c_str; ct c_u8; ct c_u8; ct c_u8; ct c_u32]))
  (λ a, GStruct [enc c_bool (ac_Enabled a); enc c_str (ac_Mode a); enc c_u8 (ac_MinProfile a); enc c_u8 (ac_MaxProfile a); enc c_u8 (ac_CurrentProfile a); enc c_u32 (ac_CurrentCapacity a)])
  (λ v, match v with
        | GStruct [x0; x1; x2; x3; x4; x5] =>
            x0 ← dec c_bool x0;
            x1 ← dec c_str x1;
            x2 ← dec c_u8 x2;
            x3 ← dec c_u8 x3;
            x4 ← dec c_u8 x4;
            x5 ← dec c_u32 x5;
            Some (mkACM x0 x1 x2 x3 x4 x5)
        | _ => None
        end).
#[export] Instance c_ACM_law : CodecLaw c_ACM.
Proof. solve_codec c_ACM ACM_tags. Qed.

Definition ModProfile_tags : list fieldTag :=
  [mkTag "ID" (Some "id") true false false;
   mkTag "Name" (Some "name") false false false;
   mkTag "Modulation" (Some "modulation") false false false;
   mkTag "CodingRate" (Some "coding-rate") false false false;
   mkTag "SpectralEfficiency" (Some "spectral-efficiency") false false false;
   mkTag "RSLThreshold" (Some "rsl-threshold") false false false;
   mkTag "Capacity" (Some "capacity") false false false].
Definition c_ModProfile : Codec ModProfile := mkCodec
  (TStruct (zip ModProfile_tags [ct c_u8; ct c_str; ct c_str; ct c_str; ct c_f64; ct c_f64; ct c_u32]))
  (λ a, GStruct [enc c_u8 (mp_ID a); enc c_str (mp_Name a); enc c_str (mp_Modulation a); enc c_str (mp_CodingRate a); enc c_f64 (mp_SpectralEfficiency a); enc c_f64 (mp_RSLThreshold a); enc c_u32 (mp_Capacity a)])
  (λ v, match v with
        | GStruct [x0; x1; x2; x3; x4; x5; x6] =>
            x0 ← dec c_u8 x0;
            x1 ← dec c_str x1;
            x2 ← dec c_str x2;
            x3 ← dec c_str x3;
            x4 ← dec c_f64 x4;
            x5 ← dec c_f64 x5;
            x6 ← dec c_u32 x6;
            Some (mkModProfile x0 x1 x2 x3 x4 x5 x6)
        | _ => None
        end).
#[export] Instance c_ModProfile_law : CodecLaw c_ModProfile.
Proof. solve_codec c_ModProfile ModProfile_tags. Qed.

Definition RadioLink_tags : list fieldTag :=
  [mkTag "Name" (Some "name") false false false;
   mkTag "TxPower" (Some "tx-power") false false false;
   mkTag "RSSI" (Some "rssi") false true false;
   mkTag "FadeMargin" (Some "fade-margin") false true false;
   mkTag "Capacity" (Some "capacity") false true false;
   mkTag "LinkState" (Some "link-state") false true false;
   mkTag "LinkBudget" (Some "link-budget") false false false;
   mkTag "ATPC" (Some "atpc") false false false;
   mkTag "ACM" (Some "acm") false false false;
   mkTag "Profiles" (Some "modulation-profile") false false false].
Definition c_RadioLink : Codec RadioLink := mkCodec
  (TStruct (zip RadioLink_tags [ct c_str; ct c_f64; ct c_f64; ct c_f64; ct c_u32; ct c_str; ct c_LinkBudget; ct c_ATPC; ct c_ACM; ct (c_list c_ModProfile)]))
  (λ a, GStruct [enc c_str (rl_Name a); enc c_f64 (rl_TxPower a); enc c_f64 (rl_RSSI a); enc c_f64 (rl_FadeMargin a); enc c_u32 (rl_Capacity a); enc c_str (rl_LinkState a); enc c_LinkBudget (rl_LinkBudget a); enc c_ATPC (rl_ATPC a); enc c_ACM (rl_ACM a); enc (c_list c_ModProfile) (rl_Profiles a)])
  (λ v, match v with
        | GStruct [x0; x1; x2; x3; x4; x5; x6; x7; x8; x9] =>
            x0 ← dec c_str x0;
            x1 ← dec c_f64 x1;
            x2 ← dec c_f64 x2;
            x3 ← dec c_f64 x3;
            x4 ← dec c_u32 x4;
            x5 ← dec c_str x5;
            x6 ← dec c_LinkBudget x6;
            x7 ← dec c_ATPC x7;
            x8 ← dec c_ACM x8;
            x9 ← dec (c_list c_ModProfile) x9;
            Some (mkRadioLink x0 x1 x2 x3 x4 x5 x6 x7 x8 x9)
        | _ => None
        end).
#[export] Instance c_RadioLink_law : CodecLaw c_RadioLink.
Proof. solve_codec c_RadioLink RadioLink_tags. Qed.

Definition InterfaceCounters_tags : list fieldTag :=
  [mkTag "InOctets" (Some "in-octets") false true false;
   mkTag "OutOctets" (Some "out-octets") false true false;
   mkTag "InUcastPkts" (Some "in-ucast-pkts") false true false;
   mkTag "OutUcastPkts" (Some "out-ucast-pkts") false true false;
   mkTag "InErrors" (Some "in-errors") false true false;
   mkTag "OutErrors" (Some "out-errors") false true false;
   mkTag "InDiscards" (Some "in-discards") false true false;
   mkTag "OutDiscards" (Some "out-discards") false true false].
Definition c_InterfaceCounters : Codec InterfaceCounters := mkCodec
  (TStruct (zip InterfaceCounters_tags [ct c_u64; ct c_u64; ct c_u64; ct c_u64; ct c_u32; ct c_u32; ct c_u32; ct c_u32]))
  (λ a, GStruct [enc c_u64 (ic_InOctets a); enc c_u64 (ic_OutOctets a); enc c_u64 (ic_InUcastPkts a); enc c_u64 (ic_OutUcastPkts a); enc c_u32 (ic_InErrors a); enc c_u32 (ic_OutErrors a); enc c_u32 (ic_InDiscards a); enc c_u32 (ic_OutDiscards a)])
  (λ v, match v with
        | GStruct [x0; x1; x2; x3; x4; x5; x6; x7] =>
            x0 ← dec c_u64 x0;
            x1 ← dec c_u64 x1;
            x2 ← dec c_u64 x2;
            x3 ← dec c_u64 x3;
            x4 ← dec c_u32 x4;
            x5 ← dec c_u32 x5;
            x6 ← dec c_u32 x6;
            x7 ← dec c_u32 x7;
            Some (mkInterfaceCounters x0 x1 x2 x3 x4 x5 x6 x7)
        | _ => None
        end).
#[export] Instance c_InterfaceCounters_law : CodecLaw c_InterfaceCounters.
Proof. solve_codec c_InterfaceCounters InterfaceCounters_tags. Qed.

Definition Interface_tags : list fieldTag :=
  [mkTag "Name" (Some "name") true false false;
   mkTag "Type" (Some "type") false false false;
   mkTag "Enabled" (Some "enabled") false false false;
   mkTag "MTU" (Some "mtu") false false false;
   mkTag "MACAddress" (Some "mac-address") false false false;
   mkTag "RadioLink" (Some "radio-link") false false false;
   mkTag "Counters" (Some "counters") false false false].
Definition c_Interface : Codec Interface := mkCodec
  (TStruct (zip Interface_tags [ct c_str; ct c_str; ct c_bool; ct c_u32; ct c_str; ct (c_ptr c_RadioLink); ct c_InterfaceCounters]))
  (λ a, GStruct [enc c_str (if_Name a); enc c_str (if_Type a); enc c_bool (if_Enabled a); enc c_u32 (if_MTU a); enc c_str (if_MACAddress a); enc (c_ptr c_RadioLink) (if_RadioLink a); enc c_InterfaceCounters (if_Counters a)])
  (λ v, match v with
        | GStruct [x0; x1; x2; x3; x4; x5; x6] =>
            x0 ← dec c_str x0;
            x1 ← dec c_str x1;
            x2 ← dec c_bool x2;
            x3 ← dec c_u32 x3;
            x4 ← dec c_str x4;
            x5 ← dec (c_ptr c_RadioLink) x5;
            x6 ← dec c_InterfaceCounters x6;
            Some (mkInterface x0 x1 x2 x3 x4 x5 x6)
        | _ => None
        end).
#[export] Instance c_Interface_law : CodecLaw c_Interface.
Proof. solve_codec c_Interface Interface_tags. Qed.

Definition VLANPort_tags : list fieldTag :=
  [mkTag "Port" (Some "port") true false false;
   mkTag "Mode" (Some "mode") false false false;
   mkTag "PVID" (Some "pvid") false false false;
   mkTag "Tagged" (Some "tagged") false false false;
   mkTag "QinQ" (Some "qinq") false false false;
   mkTag "OuterVID" (Some "s-tag-vid") false false false;
   mkTag "CTagHandling" (Some "c-tag-handling") false false false].
Definition c_VLANPort : Codec VLANPort := mkCodec
  (TStruct (zip VLANPort_tags [ct c_str; ct c_str; ct c_u16; ct c_bool; ct c_bool; ct c_u16; ct c_str]))
  (λ a, GStruct [enc c_str (vp_Port a); enc c_str (vp_Mode a); enc c_u16 (vp_PVID a); enc c_bool (vp_Tagged a); enc c_bool (vp_QinQ a); enc c_u16 (vp_OuterVID a); enc c_str (vp_CTagHandling a)])
  (λ v, match v with
        | GStruct [x0; x1; x2; x3; x4; x5; x6] =>
            x0 ← dec c_str x0;
            x1 ← dec c_str x1;
            x2 ← dec c_u16 x2;
            x3 ← dec c_bool x3;
            x4 ← dec c_bool x4;
            x5 ← dec c_u16 x5;
            x6 ← dec c_str x6;
            Some (mkVLANPort x0 x1 x2 x3 x4 x5 x6)
        | _ => None
        end).
#[export] Instance c_VLANPort_law : CodecLaw c_VLANPort.
Proof. solve_codec c_VLANPort VLANPort_tags. Qed.

Definition VLAN_tags : list fieldTag :=
  [mkTag "ID" (Some "id") true false false;
   mkTag "Name" (Some "name") false false false;
   mkTag "Description" (Some "description") false false false;
   mkTag "Ports" (Some "ports/port") false false true].
Definition c_VLAN : Codec VLAN := mkCodec
  (TStruct (zip VLAN_tags [ct c_u16; ct c_str; ct c_str; ct (c_list c_VLANPort)]))
  (λ a, GStruct [enc c_u16 (vl_ID a); enc c_str (vl_Name a); enc c_str (vl_Description a); enc (c_list c_VLANPort) (vl_Ports a)])
  (λ v, match v with
        | GStruct [x0; x1; x2; x3] =>
            x0 ← dec c_u16 x0;
            x1 ← dec c_str x1;
            x2 ← dec c_str x2;
            x3 ← dec (c_list c_VLANPort) x3;
            Some (mkVLAN x0 x1 x2 x3)
        | _ => None
        end).
#[export] Instance c_VLAN_law : CodecLaw c_VLAN.
Proof. solve_codec c_VLAN VLAN_tags. Qed.

Definition MACEntry_tags : list fieldTag :=
  [mkTag "MAC" (Some "mac-address") true false false;
   mkTag "VLAN" (Some "vlan-id") false false false;
   mkTag "Port" (Some "port") false false false;
   mkTag "Type" (Some "type") false false false;
   mkTag "Age" (Some "age") false true false;
   mkTag "Permanent" (Some "permanent") false false false].
Definition c_MACEntry : Codec MACEntry := mkCodec
  (TStruct (zip MACEntry_tags [ct c_str; ct c_u16; ct c_u32; ct c_str; ct c_u32; ct c_bool]))
  (λ a, GStruct [enc c_str (me_MAC a); enc c_u16 (me_VLAN a); enc c_u32 (me_Port a); enc c_str (me_Type a); enc c_u32 (me_Age a); enc c_bool (me_Permanent a)])
  (λ v, match v with
        | GStruct [x0; x1; x2; x3; x4; x5] =>
            x0 ← dec c_str x0;
            x1 ← dec c_u16 x1;
            x2 ← dec c_u32 x2;
            x3 ← dec c_str x3;
            x4 ← dec c_u32 x4;
            x5 ← dec c_bool x5;
            Some (mkMACEntry x0 x1 x2 x3 x4 x5)
        | _ => None
        end).
#[export] Instance c_MACEntry_law : CodecLaw c_MACEntry.
Proof. solve_codec c_MACEntry MACEntry_tags. Qed.

Definition MACTable_tags : list fieldTag :=
  [mkTag "Entries" (Some "entry") false false true;
   mkTag "AgingTime" (Some "aging-time") false false false;
   mkTag "MaxEntries" (Some "max-entries") false false false;
   mkTag "CurrentCount" (Some "current-count") false true false].
Definition c_MACTable : Codec MACTable := mkCodec
  (TStruct (zip MACTable_tags [ct (c_list c_MACEntry); ct c_u32; ct c_u32; ct c_u32]))
  (λ a, GStruct [enc (c_list c_MACEntry) (mt_Entries a); enc c_u32 (mt_AgingTime a); enc c_u32 (mt_MaxEntries a); enc c_u32 (mt_CurrentCount a)])
  (λ v, match v with
        | GStruct [x0; x1; x2; x3] =>
            x0 ← dec (c_list c_MACEntry) x0;
            x1 ← dec c_u32 x1;
            x2 ← dec c_u32 x2;
            x3 ← dec c_u32 x3;
            Some (mkMACTable x0 x1 x2 x3)
        | _ => None
        end).
#[export] Instance c_MACTable_law : CodecLaw c_MACTable.
Proof. solve_codec c_MACTable MACTable_tags. Qed.

Definition STPPort_tags : list fieldTag :=
  [mkTag "Port" (Some "port") true false false;
   mkTag "Role" (Some "role") false false false;
   mkTag "State" (Some "state") false false false;
   mkTag "Priority" (Some "priority") false false false;
   mkTag "PathCost" (Some "path-cost") false false false;
   mkTag "EdgePort" (Some "edge-port") false false false].
Definition c_STPPort : Codec STPPort := mkCodec
  (TStruct (zip STPPort_tags [ct c_str; ct c_str; ct c_str; ct c_u8; ct c_u32; ct c_bool]))
  (λ a, GStruct [enc c_str (sp_Port a); enc c_str (sp_Role a); enc c_str (sp_State a); enc c_u8 (sp_Priority a); enc c_u32 (sp_PathCost a); enc c_bool (sp_EdgePort a)])
  (λ v, match v with
        | GStruct [x0; x1; x2; x3; x4; x5] =>
            x0 ← dec c_str x0;
            x1 ← dec c_str x1;
            x2 ← dec c_str x2;
            x3 ← dec c_u8 x3;
            x4 ← dec c_u32 x4;
            x5 ← dec c_bool x5;
            Some (mkSTPPort x0 x1 x2 x3 x4 x5)
        | _ => None
        end).
#[export] Instance c_STPPort_law : CodecLaw c_STPPort.
Proof. solve_codec c_STPPort STPPort_tags. Qed.

Definition STPState_tags : list fieldTag :=
  [mkTag "Enabled" (Some "enabled") false false false;
   mkTag "Protocol" (Some "protocol") false false false;
   mkTag "BridgePriority" (Some "bridge-priority") false false false;
   mkTag "BridgeAddress" (Some "bridge-address") false false false;
   mkTag "RootID" (Some "root-id") false true false;
   mkTag "RootCost" (Some "root-cost") false true false;
   mkTag "Ports" (Some "ports/port") false false false].
Definition c_STPState : Codec STPState := mkCodec
  (TStruct (zip STPState_tags [ct c_bool; ct c_str; ct c_u16; ct c_str; ct c_str; ct c_u32; ct (c_list c_STPPort)]))
  (λ a, GStruct [enc c_bool (st_Enabled a); enc c_str (st_Protocol a); enc c_u16 (st_BridgePriority a); enc c_str (st_BridgeAddress a); enc c_str (st_RootID a); enc c_u32 (st_RootCost a); enc (c_list c_STPPort) (st_Ports a)])
  (λ v, match v with
        | GStruct [x0; x1; x2; x3; x4; x5; x6] =>
            x0 ← dec c_bool x0;
            x1 ← dec c_str x1;
            x2 ← dec c_u16 x2;
            x3 ← dec c_str x3;
            x4 ← dec c_str x4;
            x5 ← dec c_u32 x5;
            x6 ← dec (c_list c_STPPort) x6;
            Some (mkSTPState x0 x1 x2 x3 x4 x5 x6)
        | _ => None
        end).
#[export] Instance c_STPState_law : CodecLaw c_STPState.
Proof. solve_codec c_STPState STPState_tags. Qed.

Definition LLDPNeighbor_tags : list fieldTag :=
  [mkTag "Port" (Some "port") true false false;
   mkTag "ChassisID" (Some "chassis-id") false false false;
   mkTag "PortID" (Some "port-id") false false false;
   mkTag "SystemName" (Some "system-name") false false false;
   mkTag "SystemDescription" (Some "system-description") false false false;
   mkTag "TTL" (Some "ttl") false false false;
   mkTag "Capabilities" (Some "capabilities") false false false].
Definition c_LLDPNeighbor : Codec LLDPNeighbor := mkCodec
  (TStruct (zip LLDPNeighbor_tags [ct c_str; ct c_str; ct c_str; ct c_str; ct c_str; ct c_u32; ct c_str]))
  (λ a, GStruct [enc c_str (ln_Port a); enc c_str (ln_ChassisID a); enc c_str (ln_PortID a); enc c_str (ln_SystemName a); enc c_str (ln_SystemDescription a); enc c_u32 (ln_TTL a); enc c_str (ln_Capabilities a)])
  (λ v, match v with
        | GStruct [x0; x1; x2; x3; x4; x5; x6] =>
            x0 ← dec c_str x0;
            x1 ← dec c_str x1;
            x2 ← dec c_str x2;
            x3 ← dec c_str x3;
            x4 ← dec c_str x4;
            x5 ← dec c_u32 x5;
            x6 ← dec c_str x6;
            Some (mkLLDPNeighbor x0 x1 x2 x3 x4 x5 x6)
        | _ => None
        end).
#[export] Instance c_LLDPNeighbor_law : CodecLaw c_LLDPNeighbor.
Proof. solve_codec c_LLDPNeighbor LLDPNeighbor_tags. Qed.

Definition LLDPConfig_tags : list fieldTag :=
  [mkTag "Enabled" (Some "enabled") false false false;
   mkTag "TxInterval" (Some "tx-interval") false false false;
   mkTag "TxHoldMultiplier" (Some "tx-hold-multiplier") false false false;
   mkTag "ReinitDelay" (Some "reinit-delay") false false false;
   mkTag "TxDelay" (Some "tx-delay") false false false;
   mkTag "ChassisID" (Some "chassis-id") false false false;
   mkTag "SystemName" (Some "system-name") false false false;
   mkTag "SystemDescription" (Some "system-description") false false false;
   mkTag "Neighbors" (Some "neighbors/neighbor") false false true].
Definition c_LLDPConfig : Codec LLDPConfig := mkCodec
  (TStruct (zip LLDPConfig_tags [ct c_bool; ct c_u32; ct c_u32; ct c_u32; ct c_u32; ct c_str; ct c_str; ct c_str; ct (c_list c_LLDPNeighbor)]))
  (λ a, GStruct [enc c_bool (ll_Enabled a); enc c_u32 (ll_TxInterval a); enc c_u32 (ll_TxHoldMultiplier a); enc c_u32 (ll_ReinitDelay a); enc c_u32 (ll_TxDelay a); enc c_str (ll_ChassisID a); enc c_str (ll_SystemName a); enc c_str (ll_SystemDescription a); enc (c_list c_LLDPNeighbor) (ll_Neighbors a)])
  (λ v, match v with
        | GStruct [x0; x1; x2; x3; x4; x5; x6; x7; x8] =>
            x0 ← dec c_bool x0;
            x1 ← dec c_u32 x1;
            x2 ← dec c_u32 x2;
            x3 ← dec c_u32 x3;
            x4 ← dec c_u32 x4;
            x5 ← dec c_str x5;
            x6 ← dec c_str x6;
            x7 ← dec c_str x7;
            x8 ← dec (c_list c_LLDPNeighbor) x8;
            Some (mkLLDPConfig x0 x1 x2 x3 x4 x5 x6 x7 x8)
        | _ => None
        end).
#[export] Instance c_LLDPConfig_law : CodecLaw c_LLDPConfig.
Proof. solve_codec c_LLDPConfig LLDPConfig_tags. Qed.

Definition PTPClock_tags : list fieldTag :=
  [mkTag "Mode" (Some "mode") false false false;
   mkTag "Domain" (Some "domain") false false false;
   mkTag "Priority1" (Some "priority1") false false false;
   mkTag "Priority2" (Some "priority2") false false false;
   mkTag "ClockClass" (Some "clock-class") false false false;
   mkTag "ClockAccuracy" (Some "clock-accuracy") false false false;
   mkTag "HoldoverTimeout" (Some "holdover-timeout") false false false;
   mkTag "State" (Some "state") false true false;
   mkTag "Offset" (Some "offset") false true false;
   mkTag "Jitter" (Some "jitter") false true false].
Definition c_PTPClock : Codec PTPClock := mkCodec
  (TStruct (zip PTPClock_tags [ct c_str; ct c_u8; ct c_u8; ct c_u8; ct c_u8; ct c_u8; ct c_u32; ct c_str; ct c_f64; ct c_f64]))
  (λ a, GStruct [enc c_str (pc_Mode a); enc c_u8 (pc_Domain a); enc c_u8 (pc_Priority1 a); enc c_u8 (pc_Priority2 a); enc c_u8 (pc_ClockClass a); enc c_u8 (pc_ClockAccuracy a); enc c_u32 (pc_HoldoverTimeout a); enc c_str (pc_State a); enc c_f64 (pc_Offset a); enc c_f64 (pc_Jitter a)])
  (λ v, match v with
        | GStruct [x0; x1; x2; x3; x4; x5; x6; x7; x8; x9] =>
            x0 ← dec c_str x0;
            x1 ← dec c_u8 x1;
            x2 ← dec c_u8 x2;
            x3 ← dec c_u8 x3;
            x4 ← dec c_u8 x4;
            x5 ← dec c_u8 x5;
            x6 ← dec c_u32 x6;
            x7 ← dec c_str x7;
            x8 ← dec c_f64 x8;
            x9 ← dec c_f64 x9;
            Some (mkPTPClock x0 x1 x2 x3 x4 x5 x6 x7 x8 x9)
        | _ => None
        end).
#[export] Instance c_PTPClock_law : CodecLaw c_PTPClock.
Proof. solve_codec c_PTPClock PTPClock_tags. Qed.

Definition SyncEInterface_tags : list fieldTag :=
  [mkTag "Name" (Some "name") true false false;
   mkTag "SSMEnabled" (Some "ssm-enabled") false false false;
   mkTag "QL" (Some "ql") false false false;
   mkTag "ExtendedQL" (Some "extended-ql") false false false;
   mkTag "Priority" (Some "priority") false false false;
   mkTag "PTPPreference" (Some "ptp-preference") false false false].
Definition c_SyncEInterface : Codec SyncEInterface := mkCodec
  (TStruct (zip SyncEInterface_tags [ct c_str; ct c_bool; ct c_str; ct c_str; ct c_u8; ct c_bool]))
  (λ a, GStruct [enc c_str (sy_Name a); enc c_bool (sy_SSMEnabled a); enc c_str (sy_QL a); enc c_str (sy_ExtendedQL a); enc c_u8 (sy_Priority a); enc c_bool (sy_PTPPreference a)])
  (λ v, match v with
        | GStruct [x0; x1; x2; x3; x4; x5] =>
            x0 ← dec c_str x0;
            x1 ← dec c_bool x1;
            x2 ← dec c_str x2;
            x3 ← dec c_str x3;
            x4 ← dec c_u8 x4;
            x5 ← dec c_bool x5;
            Some (mkSyncEInterface x0 x1 x2 x3 x4 x5)
        | _ => None
        end).
#[export] Instance c_SyncEInterface_law : CodecLaw c_SyncEInterface.
Proof. solve_codec c_SyncEInterface SyncEInterface_tags. Qed.

Definition ESMC_tags : list fieldTag :=
  [mkTag "Enabled" (Some "enabled") false false false;
   mkTag "TxInterval" (Some "tx-interval") false false false;
   mkTag "ExtendedCodes" (Some "extended-codes") false false false].
Definition c_ESMC : Codec ESMC := mkCodec
  (TStruct (zip ESMC_tags [ct c_bool; ct c_u32; ct c_bool]))
  (λ a, GStruct [enc c_bool (es_Enabled a); enc c_u32 (es_TxInterval a); enc c_bool (es_ExtendedCodes a)])
  (λ v, match v with
        | GStruct [x0; x1; x2] =>
            x0 ← dec c_bool x0;
            x1 ← dec c_u32 x1;
            x2 ← dec c_bool x2;
            Some (mkESMC x0 x1 x2)
        | _ => None
        end).
#[export] Instance c_ESMC_law : CodecLaw c_ESMC.
Proof. solve_codec c_ESMC ESMC_tags. Qed.

Definition SyncEState_tags : list fieldTag :=
  [mkTag "Enabled" (Some "enabled") false false false;
   mkTag "SelectedSource" (Some "selected-source") false true false;
   mkTag "SelectedQL" (Some "selected-ql") false true false;
   mkTag "SelectedExtendedQL" (Some "selected-extended-ql") false true false;
   mkTag "Interfaces" (Some "interfaces/interface") false false false;
   mkTag "ESMC" (Some "esmc") false false false].
Definition c_SyncEState : Codec SyncEState := mkCodec
  (TStruct (zip SyncEState_tags [ct c_bool; ct c_str; ct c_str; ct c_str; ct (c_list c_SyncEInterface); ct c_ESMC]))
  (λ a, GStruct [enc c_bool (se_Enabled a); enc c_str (se_SelectedSource a); enc c_str (se_SelectedQL a); enc c_str (se_SelectedExtendedQL a); enc (c_list c_SyncEInterface) (se_Interfaces a); enc c_ESMC (se_ESMC a)])
  (λ v, match v with
        | GStruct [x0; x1; x2; x3; x4; x5] =>
            x0 ← dec c_bool x0;
            x1 ← dec c_str x1;
            x2 ← dec c_str x2;
            x3 ← dec c_str x3;
            x4 ← dec (c_list c_SyncEInterface) x4;
            x5 ← dec c_ESMC x5;
            Some (mkSyncEState x0 x1 x2 x3 x4 x5)
        | _ => None
        end).
#[export] Instance c_SyncEState_law : CodecLaw c_SyncEState.
Proof. solve_codec c_SyncEState SyncEState_tags. Qed.

Definition Device_tags : list fieldTag :=
  [mkTag "SystemInfo" (Some "system-info") false false false;
   mkTag "Interfaces" (Some "interfaces/interface") false false false;
   mkTag "VLANs" (Some "vlans/vlan") false false true;
   mkTag "MACTable" (Some "mac-table") false false false;
   mkTag "STP" (Some "stp/state") false false false;
   mkTag "LLDP" (Some "lldp") false false false;
   mkTag "PTP" (Some "ptp/clock") false false false;
   mkTag "SyncE" (Some "synce") false false false].
Definition c_Device : Codec Device := mkCodec
  (TStruct (zip Device_tags [ct c_SystemInfo; ct (c_list c_Interface); ct (c_list c_VLAN); ct c_MACTable; ct c_STPState; ct c_LLDPConfig; ct c_PTPClock; ct c_SyncEState]))
  (λ a, GStruct [enc c_SystemInfo (dev_SystemInfo a); enc (c_list c_Interface) (dev_Interfaces a); enc (c_list c_VLAN) (dev_VLANs a); enc c_MACTable (dev_MACTable a); enc c_STPState (dev_STP a); enc c_LLDPConfig (dev_LLDP a); enc c_PTPClock (dev_PTP a); enc c_SyncEState (dev_SyncE a)])
  (λ v, match v with
        | GStruct [x0; x1; x2; x3; x4; x5; x6; x7] =>
            x0 ← dec c_SystemInfo x0;
            x1 ← dec (c_list c_Interface) x1;
            x2 ← dec (c_list c_VLAN) x2;
            x3 ← dec c_MACTable x3;
            x4 ← dec c_STPState x4;
            x5 ← dec c_LLDPConfig x5;
            x6 ← dec c_PTPClock x6;
            x7 ← dec c_SyncEState x7;
            Some (mkDevice x0 x1 x2 x3 x4 x5 x6 x7)
        | _ => None
        end).
#[export] Instance c_Device_law : CodecLaw c_Device.
Proof. solve_codec c_Device Device_tags. Qed.

