(* ===== verification/Hydrate.v ===== *)
(** * Rebuilding a device from a datastore ([internal/router/hydrate.go])

    A datastore is a flat map from path to leaf.  [deviceFromValues] copies the boot
    template, drops the list entries the datastore does not mention ([pruneLists]) and
    then assigns every path in lexicographic order, creating list entries and pointer
    subtrees on demand ([assignPath]).  The Go code mutates an addressable value in
    place; the model rebuilds it along the path, and a failure discards the whole device,
    as the caller does. *)

From S2P Require Import Prelude GoStrings GoFloat GoValue GoNet Path Model Reflect Reflected.

(** ** The template copy *)

(** [deepCopy]: containers are rebuilt, scalars are shared. *)
Fixpoint deepCopy (v : goval) : goval :=
  match v with
  | GLeaf x => GLeaf x
  | GPtr None => GPtr None
  | GPtr (Some v) => GPtr (Some (deepCopy v))
  | GSlice l => GSlice (map deepCopy l)
  | GStruct l => GStruct (map deepCopy l)
  end.

(** [cloneDevice]. *)
Definition cloneDevice (root : goval) : goval := deepCopy root.

(** ** List membership *)

Record hydrator : Set := mkHydrator {
  instances : gmap string (gset string);
  seeded : bool;
}.

(** The segment loop of [newHydrator]: the prefix is the names only. *)
Fixpoint add_instances (prefix : string) (segs : list Segment)
    (m : gmap string (gset string)) : gmap string (gset string) :=
  match segs with
  | [] => m
  | s :: segs =>
      let prefix := if String.eqb prefix "" then seg_Name s else prefix +:+ "/" +:+ seg_Name s in
      let m := if String.eqb (seg_Key s) "" then m
               else <[prefix := {[seg_Value s]} ∪ default ∅ (m !! prefix)]> m in
      add_instances prefix segs m
  end.

Fixpoint collect_instances (paths : list string) (m : gmap string (gset string))
    : res (gmap string (gset string)) :=
  match paths with
  | [] => Ok m
  | path :: paths =>
      segs ← Parse path;
      collect_instances paths (add_instances "" segs m)
  end.

(** [newHydrator]. *)
Definition newHydrator (values : gmap string value) : res hydrator :=
  m ← collect_instances (map_to_list values).*1 ∅;
  Ok (mkHydrator m (negb (Nat.eqb (size values) 0))).

(** [joinPath]. *)
Definition joinPath (prefix tag : string) : string :=
  if String.eqb prefix "" then tag else prefix +:+ "/" +:+ tag.

Definition struct_fields (t : gotype) : list (fieldTag * gotype) :=
  match t with TStruct fields => fields | _ => [] end.

(** [pruneList]'s test of one element; a list without a key is left alone. *)
Definition keep_element (h : hydrator) (te : gotype) (path : string) (v : goval) : bool :=
  match deref_type te with
  | TStruct fields =>
      match keyFieldIndex fields with
      | None => true
      | Some i =>
          match element_key te v i with
          | Some key => bool_decide (key ∈ default ∅ (instances h !! path))
          | None => false
          end
      end
  | _ => true
  end.

(** [keyPredicateOf] of an element behind its pointers. *)
Definition keyPredicateOf (te : gotype) (v : goval) : option string :=
  let fields := struct_fields (deref_type te) in
  i ← keyFieldIndex fields;
  key ← element_key te v i;
  Some (keyTagName fields +:+ "=" +:+ key).

(** [pruneLists] on a seeded datastore. *)
Fixpoint prune (h : hydrator) (v : goval) (t : gotype) (path : string) {struct v} : goval :=
  match v, t with
  | GPtr (Some v), TPtr t => GPtr (Some (prune h v t path))
  | GStruct vs, TStruct fields =>
      GStruct ((fix go (vs : list goval) (fs : list (fieldTag * gotype)) : list goval :=
        match vs, fs with
        | v :: vs, (tag, t) :: fs =>
            match ft_path tag with
            | Some tagpath => prune h v t (joinPath path tagpath)
            | None => v
            end :: go vs fs
        | vs, _ => vs
        end) vs fields)
  | GSlice l, TSlice te =>
      GSlice ((fix go (l : list goval) : list goval :=
        match l with
        | [] => []
        | v :: l =>
            if keep_element h te path v then
              prune h v te
                (match keyPredicateOf te v with
                 | Some predicate => path +:+ "[" +:+ predicate +:+ "]"
                 | None => path
                 end) :: go l
            else go l
        end) l)
  | v, _ => v
  end.

Definition pruneLists (h : hydrator) (v : goval) (t : gotype) (path : string) : goval :=
  if seeded h then prune h v t path else v.

(** ** Assignment *)

(** [setKey]: the key text parsed into the key field's type; [None] is the parse
    error.  A float key, which no list of the model has, is not modelled. *)
Definition setKey (k : LeafKind) (text : string) : option value :=
  match k with
  | KString => Some (VString text)
  | KBool => VBool <$> ParseBool text
  | KInt => VInt <$> ParseInt text 64
  | KUint8 => VUint8 <$> ParseUint text 8
  | KUint16 => VUint16 <$> ParseUint text 16
  | KUint32 => VUint32 <$> ParseUint text 32
  | KUint64 => VUint64 <$> ParseUint text 64
  | KFloat64 => None
  end.

(** A fresh element with its key set, behind the pointer of its type. *)
Definition new_element (te : gotype) (keyIndex : nat) (text : string) : option goval :=
  let set (t : gotype) : option goval :=
    match t, zero t with
    | TStruct fields, GStruct vs =>
        '(_, kt) ← fields !! keyIndex;
        match kt with
        | TLeaf k => x ← setKey k text; Some (GStruct (<[keyIndex := GLeaf x]> vs))
        | _ => None
        end
    | _, _ => None
    end in
  match te with
  | TPtr t => v ← set t; Some (GPtr (Some v))
  | t => set t
  end.

(** [appendOrSelect]: the list with the element of [seg] in it, and its index. *)
Definition appendOrSelect (te : gotype) (l : list goval) (seg : Segment) : res (list goval * nat) :=
  let base := match te with TPtr t => t | t => t end in
  match base with
  | TStruct fields =>
      match keyFieldIndex fields with
      | None => Err [RouterErrInvalidPath]
      | Some keyIndex =>
          if negb (String.eqb (keyTagName fields) (seg_Key seg)) then Err [RouterErrInvalidPath]
          else match find_key te keyIndex (seg_Value seg) l with
          | Some (i, _) => Ok (l, i)
          | None =>
              match new_element te keyIndex (seg_Value seg) with
              | Some v => Ok (l ++ [v], length l)
              | None => Err [RouterErrTypeMismatch]
              end
          end
      end
  | _ => Err [RouterErrInvalidPath]
  end.

(** [assignPath]: the value at [t] with the leaf at [segs] assigned.  [at_list] is the
    last segment of the tag just matched when the position is a field. *)
Fixpoint assignPath (t : gotype) (v : goval) (at_field : option Segment) (segs : list Segment)
    (x : value) {struct t} : res goval :=
  match t, v with
  | TSlice te, GSlice l =>
      match at_field with
      | Some last =>
          if String.eqb (seg_Key last) "" then Err [RouterErrInvalidPath]
          else
            '(l, i) ← appendOrSelect te l last;
            match l !! i with
            | Some element =>
                element ← assignPath te element None segs x;
                Ok (GSlice (<[i := element]> l))
            | None => Err [RouterErrNotFound]
            end
      | None => match segs with [] => Err [RouterErrTypeMismatch] | _ => Err [RouterErrNotFound] end
      end
  | TPtr t, GPtr o =>
      match segs with
      | [] => Err [RouterErrTypeMismatch]
      | _ =>
          inner ← assignPath t (default (zero t) o) None segs x;
          Ok (GPtr (Some inner))
      end
  | TStruct fields, GStruct vs =>
      match segs with
      | [] => Err [RouterErrTypeMismatch]
      | _ =>
          match matchField fields segs with
          | None => Err [RouterErrNotFound]
          | Some (i, consumed) =>
              (fix pick (fs : list (fieldTag * gotype)) (j : nat) {struct fs} : res goval :=
                 match fs, j with
                 | (_, ft) :: _, 0 =>
                     match vs !! i, segs !! (consumed - 1) with
                     | Some fv, Some last =>
                         fv ← assignPath ft fv (Some last) (drop consumed segs) x;
                         Ok (GStruct (<[i := fv]> vs))
                     | _, _ => Err [RouterErrNotFound]
                     end
                 | _ :: fs, S j => pick fs j
                 | [], _ => Err [RouterErrNotFound]
                 end) fields i
          end
      end
  | TLeaf k, _ =>
      match segs with
      | [] => y ← assignLeaf k x; Ok (GLeaf y)
      | _ => Err [RouterErrNotFound]
      end
  | _, _ => Err [RouterErrTypeMismatch]
  end.

(** The assignment loop over the sorted paths. *)
Fixpoint assign_all (t : gotype) (values : gmap string value) (paths : list string) (v : goval)
    : res goval :=
  match paths with
  | [] => Ok v
  | path :: paths =>
      segs ← Parse path;
      match values !! path with
      | Some x => v ← assignPath t v None segs x; assign_all t values paths v
      | None => Err [RouterErrNotFound]
      end
  end.

Definition device_type : gotype := ct c_Device.

(** [deviceFromValues], on the reflected template. *)
Definition hydrate (root : goval) (values : gmap string value) : res goval :=
  let device := cloneDevice root in
  h ← newHydrator values;
  let device := pruneLists h device device_type "" in
  assign_all device_type values (sort_strings (map_to_list values).*1) device.

(** [deviceFromValues]. *)
Definition deviceFromValues (root : Device) (values : gmap string value) : res Device :=
  v ← hydrate (enc c_Device root) values;
  match dec c_Device v with Some d => Ok d | None => Err [RouterErrTypeMismatch] end.

(** [Router.Validate]. *)
Definition Router_Validate (root : Device) (ctx : context) (values : gmap string value) : res unit :=
  _ ← ctx_err ctx;
  target ← deviceFromValues root values;
  Device_Validate target.

(** The leaves [Seed] writes. *)
Definition template_leaves (root : Device) : list (Path * value * bool) :=
  walkLeaves (enc c_Device root) device_type [] false.
Definition template_values (root : Device) : gmap string value :=
  list_to_map ((λ x, (Path_String x.1.1, x.1.2)) <$> template_leaves root).

(** ** Lemmas *)

Lemma deepCopy_id v : deepCopy v = v.
Proof.
  induction v as [v| |v IH|l IH|l IH] using goval_rect'; simpl; try done; [by rewrite IH|..];
    f_equal; induction IH; simpl; f_equal; done.
Qed.

(** The struct case of [assignPath] without its inner recursion. *)
Lemma assignPath_struct fields vs at_field segs x :
  assignPath (TStruct fields) (GStruct vs) at_field segs x =
  match segs with
  | [] => Err [RouterErrTypeMismatch]
  | _ =>
      match matchField fields segs with
      | None => Err [RouterErrNotFound]
      | Some (i, consumed) =>
          match fields !! i, vs !! i, segs !! (consumed - 1) with
          | Some (_, ft), Some fv, Some last =>
              fv ← assignPath ft fv (Some last) (drop consumed segs) x;
              Ok (GStruct (<[i := fv]> vs))
          | _, _, _ => Err [RouterErrNotFound]
          end
      end
  end.
Proof.
  destruct segs as [|s segs]; [done|]. simpl.
  destruct (matchField fields (s :: segs)) as [[i n]|]; [|done].
  generalize (vs !! i), ((s :: segs) !! (n - 1)). intros fv last.
  assert (∀ (f : goval → goval) fs j,
    (fix pick (fs : list (fieldTag * gotype)) (j : nat) {struct fs} : res goval :=
       match fs, j with
       | (_, ft) :: _, 0 =>
           match fv, last with
           | Some fv, Some last => fv ← assignPath ft fv (Some last) (drop n (s :: segs)) x; Ok (f fv)
           | _, _ => Err [RouterErrNotFound]
           end
       | _ :: fs, S j => pick fs j
       | [], _ => Err [RouterErrNotFound]
       end) fs j =
    match fs !! j, fv, last with
    | Some (_, ft), Some fv, Some last =>
        fv ← assignPath ft fv (Some last) (drop n (s :: segs)) x; Ok (f fv)
    | _, _, _ => Err [RouterErrNotFound]
    end) as H.
  { intros f fs. induction fs as [|[tag ft] fs IH]; intros j; simpl; [by destruct j|].
    destruct j as [|j]; simpl; [by destruct fv, last|apply IH]. }
  apply (H (λ fv, GStruct (<[i := fv]> vs))).
Qed.

(** Every name of an assignable path is a component of a path tag of the type. *)
Fixpoint names (t : gotype) : list string :=
  match t with
  | TLeaf _ => []
  | TPtr t | TSlice t => names t
  | TStruct fields =>
      concat (map (λ f, match ft_path f.1 with Some p => SplitByte p slash | None => [] end
                        ++ names f.2) fields)
  end.

Lemma names_field fields i tag ft :
  fields !! i = Some (tag, ft) →
  (∀ p, ft_path tag = Some p → SplitByte p slash ⊆ names (TStruct fields)) ∧
  names ft ⊆ names (TStruct fields).
Proof.
  intros Hi. simpl. generalize dependent i.
  induction fields as [|[tag' ft'] fields IH]; intros [|i] Hi; simpl in *; try done.
  - injection Hi as -> ->. split; [intros p ->|]; set_solver.
  - destruct (IH i Hi) as [H1 H2]. split; [intros p Hp; specialize (H1 p Hp)|]; set_solver.
Qed.

Lemma assignPath_names t : ∀ v at_field segs x v',
  assignPath t v at_field segs x = Ok v' → Forall (λ s, seg_Name s ∈ names t) segs.
Proof.
  induction t as [k|t IH|t IH|fields IH] using gotype_rect'; intros v at_field segs x v'.
  - simpl. by destruct segs.
  - simpl. destruct v; try done. destruct segs as [|s segs]; [done|].
    destruct (assignPath t _ None (s :: segs) x) as [u|] eqn:E; [|done]. intros _. by eapply IH.
  - simpl. destruct v as [| |l|]; try done. destruct at_field as [last|]; [|by destruct segs].
    destruct (String.eqb _ ""); [done|].
    destruct (appendOrSelect t l last) as [[l' i]|]; simpl; [|done].
    destruct (l' !! i) as [e|]; [|done].
    destruct (assignPath t e None segs x) as [u|] eqn:E; [|done]. intros _. by eapply IH.
  - destruct v as [| | |vs]; try done. rewrite assignPath_struct.
    destruct segs as [|s segs]; [done|]. set (ss := s :: segs) in *.
    pose proof (matchField_ok fields ss) as Hm.
    destruct (matchField fields ss) as [[i n]|]; [|done].
    destruct (Hm i n eq_refl) as (tag & ft & path & Hi & Hp & Hn & _). rewrite Hi.
    destruct (vs !! i) as [fv|]; [|done]. destruct (ss !! (n - 1)) as [last|]; [|done].
    destruct (assignPath ft fv (Some last) (drop n ss) x) as [u|] eqn:E; [|done]. intros _.
    destruct (names_field _ _ _ _ Hi) as [H1 H2]. specialize (H1 _ Hp).
    rewrite <- (take_drop n ss). apply Forall_app. split.
    + apply Forall_forall. intros s' Hs'. apply H1. rewrite <- Hn. by apply list_elem_of_fmap_2.
    + rewrite Forall_forall in IH. specialize (IH _ (list_elem_of_lookup_2 _ _ _ Hi)). simpl in IH.
      eapply Forall_impl; [by eapply IH|]. simpl. auto.
Qed.

(** [assignPath] and [pruneLists] keep the value well typed. *)
Lemma setKey_kind k text y : setKey k text = Some y → leafKindOf y = Some k.
Proof. destruct k; simpl; try (by intros (z & _ & ->)%fmap_Some); by intros [= <-]. Qed.

Lemma appendOrSelect_typed te l seg l' i :
  appendOrSelect te l seg = Ok (l', i) →
  Forall (λ v, has_type v te = true) l → Forall (λ v, has_type v te = true) l'.
Proof.
  unfold appendOrSelect, new_element. intros H Hl.
  destruct te as [k|[| | |fields]| |fields]; try done.
  all: destruct (keyFieldIndex fields) as [ki|]; [|done]; destruct (negb _); [done|];
    destruct (find_key _ _ _ _) as [[j u]|]; [by injection H as <- <-|].
  all: cbn [zero] in H; destruct (fields !! ki) as [[tag kt]|] eqn:Hk; simpl in H; [|done];
    destruct kt as [k| | |]; simpl in H; try done;
    destruct (setKey k _) as [y|] eqn:Hy; simpl in H; [|done]; injection H as <- <-;
    apply Forall_app; split; [done|]; constructor; [|done].
  all: cbn [has_type]; apply has_type_struct.
  all: apply setKey_kind in Hy.
  all: assert (Forall2 (λ v f, has_type v f.2 = true) (map (λ f, zero f.2) fields) fields) as Hz
    by (clear; induction fields; constructor; auto using zero_typed).
  all: revert Hz; generalize (map (λ f, zero f.2) fields); intros zs Hz;
    rewrite <- (list_insert_id fields ki (tag, TLeaf k) Hk); apply Forall2_insert; [done|];
    simpl; by rewrite bool_decide_eq_true_2.
Qed.

Lemma assignPath_typed t : ∀ v at_field segs x v',
  has_type v t = true → assignPath t v at_field segs x = Ok v' → has_type v' t = true.
Proof.
  induction t as [k|t IH|t IH|fields IH] using gotype_rect'; intros v at_field segs x v' Hv.
  - simpl. destruct segs; [|done]. destruct (assignLeaf k x) as [y|] eqn:E; simpl; [|done].
    intros [= <-]. apply assignLeaf_kind in E. simpl. by rewrite bool_decide_eq_true_2.
  - simpl. destruct v as [|o| |]; try done. destruct segs as [|s segs]; [done|].
    destruct (assignPath t _ None (s :: segs) x) as [u|] eqn:E; simpl; [|done]. intros [= <-].
    simpl. eapply IH; [|done]. destruct o as [u'|]; simpl in *; [done|apply zero_typed].
  - simpl. destruct v as [|[]|l|]; try done. destruct at_field as [last|]; [|by destruct segs].
    destruct (String.eqb _ ""); [done|].
    destruct (appendOrSelect t l last) as [[l' i]|] eqn:Ea; simpl; [|done].
    apply has_type_slice in Hv. apply (appendOrSelect_typed _ _ _ _ _ Ea) in Hv.
    destruct (l' !! i) as [e|] eqn:Ei; [|done].
    destruct (assignPath t e None segs x) as [u|] eqn:E; simpl; [|done]. intros [= <-].
    apply has_type_slice, Forall_insert; [done|]. eapply IH; [|done].
    by eapply Forall_lookup_1 in Hv.
  - destruct v as [|[]| |vs]; try done. rewrite assignPath_struct.
    destruct segs as [|s segs]; [done|]. set (ss := s :: segs) in *.
    destruct (matchField fields ss) as [[i n]|]; [|done].
    destruct (fields !! i) as [[tag ft]|] eqn:Hi; [|done].
    destruct (vs !! i) as [fv|] eqn:Hfv; [|done]. destruct (ss !! (n - 1)) as [last|]; [|done].
    destruct (assignPath ft fv (Some last) (drop n ss) x) as [u|] eqn:E; simpl; [|done].
    intros [= <-]. apply has_type_struct in Hv. apply has_type_struct.
    rewrite <- (list_insert_id fields i (tag, ft) Hi). apply Forall2_insert; [done|]. simpl.
    rewrite Forall_forall in IH. eapply (IH _ (list_elem_of_lookup_2 _ _ _ Hi)); [|done].
    by eapply (Forall2_lookup_lr _ _ _ _ _ _ Hv Hfv Hi).
Qed.

Lemma prune_typed h v : ∀ t path, has_type v t = true → has_type (prune h v t path) t = true.
Proof.
  induction v as [v| |v IH|l IH|l IH] using goval_rect'; intros t path Ht; [done|done|..].
  - destruct t; try done. simpl in *. by apply IH.
  - destruct t as [| |te|]; try done. apply has_type_slice in Ht. apply has_type_slice.
    induction IH as [|v l Hv _ IHl]; [constructor|]. apply Forall_cons in Ht as [Hv0 Hl].
    destruct (keep_element h te path v); [|by apply IHl].
    constructor; [by apply Hv|by apply IHl].
  - destruct t as [| | |fields]; try done. apply has_type_struct in Ht.
    cbn [prune]. apply has_type_struct. revert fields Ht.
    induction IH as [|v l Hv _ IHl]; intros fields Ht; [done|].
    destruct fields as [|[tag t] fields]; [by apply Forall2_nil_inv_r in Ht|].
    apply Forall2_cons_1 in Ht as [Hv0 Hl]. constructor; [|by apply IHl].
    simpl in *. destruct (ft_path tag); [by apply Hv|done].
Qed.

Lemma assign_all_typed t values paths : ∀ v v',
  has_type v t = true → assign_all t values paths v = Ok v' → has_type v' t = true.
Proof.
  induction paths as [|p paths IH]; intros v v' Hv; simpl; [by intros [= <-]|].
  destruct (Parse p) as [segs|]; simpl; [|done]. destruct (values !! p) as [x|]; [|done].
  destruct (assignPath t v None segs x) as [u|] eqn:E; simpl; [|done].
  apply IH. by eapply assignPath_typed.
Qed.

Lemma hydrate_typed root values v :
  has_type root device_type = true → hydrate root values = Ok v → has_type v device_type = true.
Proof.
  intros Hr. unfold hydrate. destruct (newHydrator values) as [h|]; cbn [mbind res_bind]; [|done].
  apply assign_all_typed. unfold pruneLists, cloneDevice. rewrite deepCopy_id.
  destruct (seeded h); [by apply prune_typed|done].
Qed.

Lemma assign_all_paths t values paths : ∀ v v' p,
  assign_all t values paths v = Ok v' → p ∈ paths →
  ∃ segs u u' x, Parse p = Ok segs ∧ assignPath t u None segs x = Ok u'.
Proof.
  induction paths as [|q paths IH]; intros v v' p; simpl; [by intros _ ?%not_elem_of_nil|].
  destruct (Parse q) as [segs|] eqn:Eq; simpl; [|done]. destruct (values !! q) as [x|]; [|done].
  destruct (assignPath t v None segs x) as [u|] eqn:E; simpl; [|done].
  intros Hall [->|Hp]%elem_of_cons; [eauto 6|by eapply IH].
Qed.
