(* ===== verification/Schema.v ===== *)
(** * The schema tree ([internal/router/schema.go])

    [buildSchema] derives a tree of containers, lists and leaves from the struct tags of
    the model type; protocol codecs browse it with [Children].  The Go code appends to
    the children of shared nodes in place; the model rebuilds the branch it extends. *)

From S2P Require Import Prelude GoStrings GoFloat GoValue GoNet Path Model Reflect Reflected Hydrate.

(** ** Data *)

Inductive Kind : Set := KindContainer | KindList | KindLeaf.
Global Instance Kind_eq_dec : EqDecision Kind.
Proof. solve_decision. Defined.

(** [Node]; [nd_Leaf] is the leaf kind, the empty string of the Go field being [None]. *)
Record Node : Set := mkSNode {
  nd_Name : string;
  nd_Kind : Kind;
  nd_Key : string;
  nd_Leaf : option LeafKind;
}.
Global Instance Node_eq_dec : EqDecision Node.
Proof. solve_decision. Defined.

Inductive schemaNode : Set := SNode (node : Node) (children : list schemaNode).

Definition sn_node (s : schemaNode) : Node := match s with SNode n _ => n end.
Definition sn_children (s : schemaNode) : list schemaNode := match s with SNode _ l => l end.

(** ** Building *)

(** [child], with the position of the node. *)
Definition child_at (s : schemaNode) (name : string) : option (nat * schemaNode) :=
  list_find (λ c, nd_Name (sn_node c) = name) (sn_children s).
Definition child (s : schemaNode) (name : string) : option schemaNode := snd <$> child_at s name.

Definition add_child (s c : schemaNode) : schemaNode := SNode (sn_node s) (sn_children s ++ [c]).
Definition set_child (s : schemaNode) (i : nat) (c : schemaNode) : schemaNode :=
  SNode (sn_node s) (<[i := c]> (sn_children s)).
Definition named (name : string) (s : schemaNode) : schemaNode :=
  let n := sn_node s in SNode (mkSNode name (nd_Kind n) (nd_Key n) (nd_Leaf n)) (sn_children s).

(** The body of the field loop of [addSchemaChildren]: the intermediate containers of a
    tag of several segments are found or created, then the field's node is appended. *)
Fixpoint place (owner : schemaNode) (parts : list string) (node : res schemaNode) : res schemaNode :=
  match parts with
  | [] => Err [Anon "schema: empty tag"]
  | [name] =>
      match child owner name with
      | Some _ => Err [Anon "schema: duplicate node"]
      | None => c ← node; Ok (add_child owner (named name c))
      end
  | part :: parts =>
      match child_at owner part with
      | None =>
          sub ← place (SNode (mkSNode part KindContainer "" None) []) parts node;
          Ok (add_child owner sub)
      | Some (i, existing) =>
          if bool_decide (nd_Kind (sn_node existing) = KindContainer) then
            sub ← place existing parts node;
            Ok (set_child owner i sub)
          else Err [Anon "schema: not a container"]
      end
  end.

(** [newSchemaNode] with the field loop of [addSchemaChildren]: [entry] holds the key name
    when the struct is the entry type of a list. *)
Fixpoint newSchemaNode (t : gotype) (entry : option string) : res schemaNode :=
  match t with
  | TPtr t => newSchemaNode t entry
  | TLeaf k => Ok (SNode (mkSNode "" KindLeaf "" (Some k)) [])
  | TSlice te =>
      match deref_type te with
      | TStruct fields =>
          let key := keyTagName fields in
          if String.eqb key "" then Err [Anon "schema: list has no key field"]
          else newSchemaNode te (Some key)
      | _ => Err [Anon "schema: not a list of structs"]
      end
  | TStruct fields =>
      let top := match entry with
                 | Some key => SNode (mkSNode "" KindList key None) []
                 | None => SNode (mkSNode "" KindContainer "" None) []
                 end in
      (fix go (fs : list (fieldTag * gotype)) (parent : schemaNode) : res schemaNode :=
         match fs with
         | [] => Ok parent
         | (tag, ft) :: fs =>
             match ft_path tag with
             | None => go fs parent
             | Some path =>
                 parent ← place parent (SplitByte path slash) (newSchemaNode ft None);
                 go fs parent
             end
         end) fields top
  end.

(** [buildSchema]. *)
Definition buildSchema (root : gotype) : res schemaNode :=
  match deref_type root with
  | TStruct _ => newSchemaNode root None
  | _ => Err [Anon "schema: not a struct"]
  end.

(** ** Browsing *)

(** The segment loop of [Children]. *)
Fixpoint schema_walk (current : schemaNode) (segs : list Segment) : res schemaNode :=
  match segs with
  | [] => Ok current
  | seg :: segs =>
      match child current (seg_Name seg) with
      | None => Err [RouterErrNotFound]
      | Some c =>
          let n := sn_node c in
          _ ← match nd_Kind n with
              | KindList =>
                  check (negb (String.eqb (seg_Key seg) "") && String.eqb (seg_Key seg) (nd_Key n))
                    [RouterErrInvalidPath]
              | _ => check (String.eqb (seg_Key seg) "") [RouterErrInvalidPath]
              end;
          match nd_Kind n, segs with
          | KindLeaf, [] => Err [RouterErrInvalidPath]
          | KindLeaf, _ => Err [RouterErrNotFound]
          | _, _ => schema_walk c segs
          end
      end
  end.

(** [Children]. *)
Definition Children (schema : schemaNode) (path : string) : res (list Node) :=
  current ← (if String.eqb path "" then Ok schema
             else segs ← Parse path; schema_walk schema segs);
  Ok (sn_node <$> sn_children current).

(** [Schema] and [schemaNodeOf]: the exported copy of the tree. *)
Fixpoint schemaNodeOf (s : schemaNode) : schemaNode :=
  match s with SNode n l => SNode n (map schemaNodeOf l) end.

(** ** The schema of a type

    [represents entry t s]: the node [s] describes values of type [t]; [entry] marks the
    entry type of a list, which shares the list's node. *)

Definition renderable_key (te : gotype) : bool :=
  match te with
  | TStruct fields =>
      match keyFieldIndex fields with
      | Some i =>
          match fields !! i with
          | Some (_, TLeaf k) => bool_decide (k ≠ KFloat64)
          | _ => false
          end
      | None => false
      end
  | _ => false
  end.

(** The node a tag of several segments leads to, through containers. *)
Fixpoint via (s : schemaNode) (parts : list string) : option schemaNode :=
  match parts with
  | [] => None
  | [name] => child s name
  | part :: parts =>
      c ← child s part;
      if bool_decide (nd_Kind (sn_node c) = KindContainer) then via c parts else None
  end.

Fixpoint represents (entry : bool) (t : gotype) (s : schemaNode) : bool :=
  let n := sn_node s in
  match t with
  | TLeaf k => negb entry && bool_decide (nd_Kind n = KindLeaf ∧ nd_Key n = "" ∧ nd_Leaf n = Some k)
  | TPtr t => negb entry && represents false t s
  | TSlice te =>
      negb entry && renderable_key te && represents true te s &&
      bool_decide (nd_Key n ≠ "" ∧ nd_Key n = keyTagName (struct_fields te))
  | TStruct fields =>
      bool_decide (nd_Kind n = if entry then KindList else KindContainer) &&
      (fix go (fs : list (fieldTag * gotype)) : bool :=
         match fs with
         | [] => true
         | (tag, ft) :: fs =>
             match ft_path tag with
             | None => true
             | Some path =>
                 match via s (SplitByte path slash) with
                 | Some c => represents false ft c
                 | None => false
                 end
             end && go fs
         end) fields
  end.

(** ** Lemmas *)

Lemma child_In s name c : child s name = Some c → c ∈ sn_children s ∧ nd_Name (sn_node c) = name.
Proof.
  unfold child, child_at. intros H. apply fmap_Some in H as ([i x] & H & ->).
  apply list_find_Some in H as (H & Hn & _). split; [by eapply list_elem_of_lookup_2|done].
Qed.

(** [locates s segs k]: from the node [s] the segments lead to a leaf of kind [k], and the
    walk of [Children] accepts all of them but the last. *)
Definition locates (s : schemaNode) (segs : list Segment) (k : option LeafKind) : Prop :=
  ∃ pre name s' c, segs = pre ++ [mkSeg name "" ""] ∧ schema_walk s pre = Ok s' ∧
    child s' name = Some c ∧ sn_node c = mkSNode name KindLeaf "" k.

(** The same for a node whose own segment comes first. *)
Definition below_node (s : schemaNode) (seg : Segment) (rest : list Segment) (k : option LeafKind) : Prop :=
  match nd_Kind (sn_node s) with
  | KindLeaf => rest = [] ∧ seg = mkSeg (nd_Name (sn_node s)) "" "" ∧
                nd_Key (sn_node s) = "" ∧ nd_Leaf (sn_node s) = k
  | KindContainer => seg_Key seg = "" ∧ locates s rest k
  | KindList => seg_Key seg = nd_Key (sn_node s) ∧ nd_Key (sn_node s) ≠ "" ∧ locates s rest k
  end.

Lemma below_locates s seg rest c k :
  child s (seg_Name seg) = Some c → below_node c seg rest k → locates s (seg :: rest) k.
Proof.
  intros Hc. destruct (child_In _ _ _ Hc) as [_ Hname]. unfold below_node.
  destruct (nd_Kind (sn_node c)) eqn:Hk.
  - intros [Hkey (pre & name & s' & c' & -> & Hw & H1 & H2)].
    exists (seg :: pre), name, s', c'. split_and!; [done| |done|done].
    simpl. rewrite Hc, Hk, Hkey. done.
  - intros (Hkey & Hne & (pre & name & s' & c' & -> & Hw & H1 & H2)).
    exists (seg :: pre), name, s', c'. split_and!; [done| |done|done].
    simpl. rewrite Hc, Hk, Hkey, String.eqb_refl. destruct (String.eqb_spec (nd_Key (sn_node c)) ""); [done|].
    done.
  - intros (-> & Hseg & Hkey & Hl). exists [], (nd_Name (sn_node c)), s, c.
    split_and!; [by rewrite Hseg|done|by rewrite Hname|].
    destruct (sn_node c). simpl in *. by subst.
Qed.

Lemma via_locates parts : ∀ s c, via s parts = Some c →
  ∃ init name, parts = init ++ [name] ∧ nd_Name (sn_node c) = name ∧
  ∀ seg rest k, seg_Name seg = name → below_node c seg rest k →
    locates s (((λ n, mkSeg n "" "") <$> init) ++ seg :: rest) k.
Proof.
  induction parts as [|part parts IH]; intros s c Hv; [done|]. destruct parts as [|q parts].
  - simpl in Hv. exists [], part. destruct (child_In _ _ _ Hv) as [_ Hn].
    split_and!; [done|done|]. intros seg rest k <- Hb. by eapply below_locates.
  - change (via s (part :: q :: parts)) with
      (c ← child s part; if bool_decide (nd_Kind (sn_node c) = KindContainer) then via c (q :: parts) else None) in Hv.
    destruct (child s part) as [c1|] eqn:H1; [|done]. simpl in Hv.
    destruct (bool_decide_reflect (nd_Kind (sn_node c1) = KindContainer)) as [Hk|]; [|done].
    destruct (IH c1 c Hv) as (init & name & -> & Hn & Hl). exists (part :: init), name.
    split_and!; [done|done|]. intros seg rest k Hs Hb.
    apply (below_locates s (mkSeg part "" "") _ c1); [done|].
    unfold below_node. rewrite Hk. split; [done|]. by apply Hl.
Qed.

(** The key of a list entry of a type with a renderable key is always printed. *)
Lemma element_key_some te v i :
  renderable_key te = true → has_type v te = true → keyFieldIndex (struct_fields te) = Some i →
  ∃ text, element_key te v i = Some text.
Proof.
  destruct te as [| | |fields]; simpl; try done. intros Hr Ht Hi. rewrite Hi in Hr.
  destruct v as [|[]| |vs]; try done.
  destruct (fields !! i) as [[tag kt]|] eqn:Hf; [|done]. destruct kt as [k| | |]; try done.
  apply has_type_struct in Ht.
  destruct (Forall2_lookup_r _ _ _ _ _ Ht Hf) as (kv & Hkv & Hty).
  unfold element_key. simpl. rewrite Hf, Hkv. simpl in Hty.
  destruct kv as [x|[]| |]; simpl in *; try done. apply bool_decide_eq_true in Hty, Hr.
  destruct x; simpl in *; eauto. by injection Hty as <-.
Qed.

Lemma with_key_app pre n key text :
  with_key (pre ++ [mkSeg n "" ""]) key (Some text) = pre ++ [mkSeg n key text].
Proof. unfold with_key. rewrite last_snoc, removelast_last. done. Qed.

(** The struct case of [represents] and of [walkLeaves]. *)
Lemma represents_struct entry fs s : represents entry (TStruct fs) s = true →
  Forall (λ f, ∀ path, ft_path f.1 = Some path →
    ∃ c, via s (SplitByte path slash) = Some c ∧ represents false f.2 c = true) fs.
Proof.
  simpl. intros [_ H]%andb_true_iff. induction fs as [|[tag ft] fs IH]; constructor.
  - intros path. simpl. intros Hp. rewrite Hp in H. apply andb_true_iff in H as [H _].
    destruct (via s _) as [c|]; [|done]. eauto.
  - apply IH. destruct (ft_path tag); by apply andb_true_iff in H as [_ H].
Qed.

Lemma walk_struct vs fs pre ro x :
  x ∈ walkLeaves (GStruct vs) (TStruct fs) pre ro →
  ∃ i v tag ft path, vs !! i = Some v ∧ fs !! i = Some (tag, ft) ∧ ft_path tag = Some path ∧
    x ∈ walkLeaves v ft (pre ++ ((λ n, mkSeg n "" "") <$> SplitByte path slash)) (ro || ft_state tag).
Proof.
  simpl. revert fs. induction vs as [|v vs IH]; intros [|[tag ft] fs] H; try by apply elem_of_nil in H.
  apply elem_of_app in H as [H|H].
  - destruct (ft_path tag) as [path|] eqn:Hp; [|by apply elem_of_nil in H]. by exists 0, v, tag, ft, path.
  - destruct (IH fs H) as (i & v' & tag' & ft' & path & ? & ? & ? & ?). by exists (S i), v', tag', ft', path.
Qed.

Lemma walk_slice l te pre ro x :
  x ∈ walkLeaves (GSlice l) (TSlice te) pre ro →
  ∃ v, v ∈ l ∧ x ∈ walkLeaves v te (with_key pre (keyTagName (struct_fields (deref_type te)))
    (i ← keyFieldIndex (struct_fields (deref_type te)); element_key te v i)) ro.
Proof.
  simpl. induction l as [|v l IH]; intros H; [by apply elem_of_nil in H|].
  apply elem_of_app in H as [H|H].
  - exists v. split; [apply list_elem_of_here|].
    exact H.
  - destruct (IH H) as (v' & ? & ?). exists v'. split; [by apply list_elem_of_further|done].
Qed.

(** Every leaf of a typed value lies where the schema of its type says. *)
Lemma walk_represented v : 
  (∀ t s pre ro p x r, has_type v t = true → represents false t s = true →
    (p, x, r) ∈ walkLeaves v t (pre ++ [mkSeg (nd_Name (sn_node s)) "" ""]) ro →
    ∃ seg rest, p = pre ++ seg :: rest ∧ seg_Name seg = nd_Name (sn_node s) ∧
      below_node s seg rest (leafKindOf x)) ∧
  (∀ entry fs s pre ro p x r, has_type v (TStruct fs) = true → represents entry (TStruct fs) s = true →
    (p, x, r) ∈ walkLeaves v (TStruct fs) pre ro →
    ∃ rest, p = pre ++ rest ∧ locates s rest (leafKindOf x)).
Proof.
  assert (∀ t v' s, has_type (GPtr v') t = true → represents false t s = true → ∃ t', t = TPtr t') as Hptr.
  { intros [| | |] [] ?; simpl; try done; eauto. }
  induction v as [y| |v [IH _]|l IH|l IH] using goval_rect'.
  - split; [|done]. intros [k| | |] s pre ro p x r Ht Hr Hin; try done.
    simpl in *. apply list_elem_of_singleton in Hin. injection Hin as -> -> ->.
    apply bool_decide_eq_true in Ht, Hr as (Hk & Hkey & Hleaf).
    exists (mkSeg (nd_Name (sn_node s)) "" ""), []. split_and!; [done|done|].
    unfold below_node. rewrite Hk. by rewrite Ht.
  - split; [|done]. intros t s pre ro p x r Ht Hr Hin. destruct (Hptr _ _ _ Ht Hr) as [t' ->].
    by apply elem_of_nil in Hin.
  - split; [|done]. intros t s pre ro p x r Ht Hr Hin. destruct (Hptr _ _ _ Ht Hr) as [t' ->].
    simpl in *. by eapply IH.
  - split; [|done]. intros [| |te|] s pre ro p x r Ht Hr Hin; try done.
    apply has_type_slice in Ht. apply walk_slice in Hin as (v & Hv & Hin).
    rewrite Forall_forall in Ht, IH. specialize (Ht v Hv). destruct (IH v Hv) as [_ IHv].
    simpl in Hr. rewrite !andb_true_iff in Hr. destruct Hr as [[Hkey Hr] Hn].
    apply bool_decide_eq_true in Hn as [Hne Hn].
    assert (∃ fs i, te = TStruct fs ∧ keyFieldIndex fs = Some i) as (fs & i & -> & Hi).
    { unfold renderable_key in Hkey. destruct te; try done. destruct (keyFieldIndex fields) eqn:?; [eauto|done]. }
    destruct (element_key_some _ v i Hkey Ht Hi) as [text Htext]. simpl in Hin. rewrite Hi in Hin.
    simpl in Hin. rewrite Htext, with_key_app in Hin.
    destruct (IHv true fs s _ _ _ _ _ Ht Hr Hin) as (rest & -> & Hl).
    exists (mkSeg (nd_Name (sn_node s)) (keyTagName fs) text), rest. rewrite <- app_assoc.
    split_and!; [done|done|]. unfold below_node. apply andb_true_iff in Hr as [Hr _].
    apply bool_decide_eq_true in Hr as ->. done.
  - assert (Hstruct : ∀ entry fs s pre ro p x r, has_type (GStruct l) (TStruct fs) = true →
      represents entry (TStruct fs) s = true → (p, x, r) ∈ walkLeaves (GStruct l) (TStruct fs) pre ro →
      ∃ rest, p = pre ++ rest ∧ locates s rest (leafKindOf x)).
    { intros entry fs s pre ro p x r Ht Hr Hin.
      apply walk_struct in Hin as (i & v & tag & ft & path & Hv & Hf & Hp & Hin).
      apply has_type_struct in Ht. pose proof (Forall2_lookup_lr _ _ _ _ _ _ Ht Hv Hf) as Htv.
      apply represents_struct in Hr. pose proof (Forall_lookup_1 _ _ _ _ Hr Hf) as Hc.
      destruct (Hc path Hp) as (c & Hvia & Hrc).
      destruct (Forall_lookup_1 _ _ _ _ IH Hv) as [IHv _].
      destruct (via_locates _ _ _ Hvia) as (init & name & Hsplit & Hname & Hloc).
      rewrite Hsplit, fmap_app, app_assoc in Hin. simpl in Hin. rewrite <- Hname in Hin.
      destruct (IHv ft c _ _ _ _ _ Htv Hrc Hin) as (seg & rest & -> & Hseg & Hb).
      rewrite <- app_assoc. eexists. split; [done|]. apply Hloc; [congruence|done]. }
    split; [|done]. intros [| | |fs] s pre ro p x r Ht Hr Hin; try done.
    destruct (Hstruct false fs s _ _ _ _ _ Ht Hr Hin) as (rest & -> & Hl).
    exists (mkSeg (nd_Name (sn_node s)) "" ""), rest. rewrite <- app_assoc. split_and!; [done|done|].
    unfold below_node. apply andb_true_iff in Hr as [Hr _]. by apply bool_decide_eq_true in Hr as ->.
Qed.

Lemma schema_walk_parse schema p s :
  Forall wf_segment p → schema_walk schema p = Ok s →
  Children schema (Path_String p) = Ok (sn_node <$> sn_children s).
Proof.
  intros Hw Hs. unfold Children. destruct p as [|seg p]; [by injection Hs as ->|].
  destruct (String.eqb_spec (Path_String (seg :: p)) "") as [He|_].
  - pose proof (Parse_String (seg :: p)) as HP. rewrite He in HP. by discriminate HP.
  - rewrite Parse_String by done. cbn [mbind res_bind]. by rewrite Hs.
Qed.

(** One step of the walk of [Children]. *)
Definition seg_fits (c : schemaNode) (seg : Segment) : Prop :=
  match nd_Kind (sn_node c) with
  | KindContainer => seg_Key seg = ""
  | KindList => seg_Key seg ≠ "" ∧ seg_Key seg = nd_Key (sn_node c)
  | KindLeaf => False
  end.

Lemma schema_walk_cons s seg segs s' : schema_walk s (seg :: segs) = Ok s' ↔
  ∃ c, child s (seg_Name seg) = Some c ∧ seg_fits c seg ∧ schema_walk c segs = Ok s'.
Proof.
  simpl. destruct (child s (seg_Name seg)) as [c|]; [|split; [done|by intros (? & ? & _)]].
  unfold seg_fits. transitivity (seg_fits c seg ∧ schema_walk c segs = Ok s'); [|naive_solver].
  unfold seg_fits. destruct (nd_Kind (sn_node c)); simpl.
  - destruct (String.eqb_spec (seg_Key seg) ""); simpl; naive_solver.
  - destruct (String.eqb_spec (seg_Key seg) ""), (String.eqb_spec (seg_Key seg) (nd_Key (sn_node c))); simpl; naive_solver.
  - destruct (String.eqb (seg_Key seg) ""), segs; simpl; naive_solver.
Qed.

(** *** Schema nodes and resolved values

    A path that the walk of [Children] accepts never resolves to a leaf. *)

Lemma resolve_struct fields vs at_field segs ro n :
  segs ≠ [] → resolve_from (TStruct fields) (GStruct vs) at_field segs ro = Ok n →
  ∃ i consumed tag ft fv last, matchField fields segs = Some (i, consumed) ∧
    fields !! i = Some (tag, ft) ∧
    resolve_from ft fv (Some (last, ft_creatable tag)) (drop consumed segs) (ro || ft_state tag) = Ok n.
Proof.
  intros Hne. cbn [resolve_from]. destruct segs as [|seg segs]; [done|].
  destruct (matchField fields (seg :: segs)) as [[i consumed]|]; [|done].
  set (final := λ tag ft, match vs !! i, (seg :: segs) !! (consumed - 1) with
    | Some fv, Some last => resolve_from ft fv (Some (last, ft_creatable tag)) (drop consumed (seg :: segs)) (ro || ft_state tag)
    | _, _ => Err [RouterErrNotFound] end).
  intros H. assert (∃ tag ft, fields !! i = Some (tag, ft) ∧ final tag ft = Ok n) as (tag & ft & Hi & Hf).
  { revert H. generalize i at 2 3. induction fields as [|[tag ft] fields IH]; intros [|j]; try done.
    - intros H. exists tag, ft. done.
    - apply IH. }
  unfold final in Hf. destruct (vs !! i) as [fv|]; [|done].
  destruct ((seg :: segs) !! (consumed - 1)) as [last|]; [|done]. eauto 10.
Qed.

Lemma walk_via parts : ∀ s c segs n s', via s parts = Some c → seg_Name <$> take n segs = parts →
  schema_walk s segs = Ok s' → nd_Kind (sn_node c) ≠ KindLeaf ∧ schema_walk c (drop n segs) = Ok s'.
Proof.
  induction parts as [|part parts IH]; intros s c segs n s' Hv Hs Hw; [done|].
  destruct n as [|n]; [done|]. destruct segs as [|seg segs]; [done|]. simpl in Hs.
  injection Hs as Hname Hs. apply schema_walk_cons in Hw as (c1 & Hc1 & Hfit & Hw1). rewrite Hname in Hc1.
  assert (nd_Kind (sn_node c1) ≠ KindLeaf) as Hk by (intros E; unfold seg_fits in Hfit; by rewrite E in Hfit).
  destruct parts as [|q parts].
  - simpl in Hv. rewrite Hc1 in Hv. injection Hv as <-. split; [done|].
    apply fmap_nil_inv in Hs. simpl. by rewrite <- (take_drop n segs), Hs in Hw1.
  - change (via s (part :: q :: parts)) with
      (c ← child s part; if bool_decide (nd_Kind (sn_node c) = KindContainer) then via c (q :: parts) else None) in Hv.
    rewrite Hc1 in Hv. cbn [mbind option_bind] in Hv. destruct (bool_decide _); [|done]. exact (IH c1 c segs n s' Hv Hs Hw1).
Qed.

Lemma represented_not_leaf t : ∀ entry v ro s,
  represents entry t s = true → nd_Kind (sn_node s) ≠ KindLeaf → isLeaf (mkNode t v ro) = false.
Proof.
  induction t as [k|t IH|t IH|fs IH] using gotype_rect'; intros entry v ro s Hr Hk; try done.
  - simpl in Hr. apply andb_true_iff in Hr as [_ Hr]. by apply bool_decide_eq_true in Hr as [? _].
  - simpl in Hr. apply andb_true_iff in Hr as [_ Hr]. unfold isLeaf. simpl.
    destruct v as [|[v|]| |]; try done. by apply (IH false v ro s).
Qed.

Lemma walk_not_leaf t : ∀ entry v at_field segs ro n s s',
  represents entry t s = true → nd_Kind (sn_node s) ≠ KindLeaf → schema_walk s segs = Ok s' →
  resolve_from t v at_field segs ro = Ok n → isLeaf n = false.
Proof.
  induction t as [k|t IH|t IH|fs IH] using gotype_rect'; intros entry v at_field segs ro n s s' Hr Hk Hw Hres.
  - simpl in Hr. apply andb_true_iff in Hr as [_ Hr]. by apply bool_decide_eq_true in Hr as [? _].
  - destruct v as [x|o|l|l]; simpl in Hres.
    1,3,4: (destruct segs; [|done]); injection Hres as <-; by eapply represented_not_leaf.
    apply andb_true_iff in Hr as [Hn Hr].
    assert (∀ seg rest, (match o with Some v' => resolve_from t v' seg rest ro | None => Err [RouterErrNotFound] end) = Ok n →
      schema_walk s rest = Ok s' → isLeaf n = false) as Hdown.
    { intros seg rest. destruct o as [v'|]; [|done]. intros ? ?. by eapply IH. }
    destruct at_field as [af|]; [by eapply Hdown|]. destruct segs as [|seg segs]; [|by eapply Hdown].
    injection Hres as <-. eapply represented_not_leaf; [|done]. by apply andb_true_iff.
  - destruct v as [x|o|l|l]; simpl in Hres.
    1,2,4: (destruct segs; [|done]); injection Hres as <-; done.
    destruct at_field as [[last creatable]|]; [|destruct segs; [by injection Hres as <-|done]].
    destruct (String.eqb (seg_Key last) ""); [destruct segs; [by injection Hres as <-|done]|].
    destruct (selectElement t l last creatable) as [element|]; simpl in Hres; [|done].
    simpl in Hr. rewrite !andb_true_iff in Hr. destruct Hr as [[_ Hr] _]. by eapply IH.
  - destruct v as [x|o|l|l]; simpl in Hres.
    1-3: (destruct segs; [|done]); injection Hres as <-; done.
    destruct (decide (segs = [])) as [->|Hne]; [by injection Hres as <-|].
    apply (resolve_struct fs l at_field segs ro n Hne) in Hres as
      (i & consumed & tag & ft & fv & last & Hm & Hi & Hres).
    destruct (matchField_ok fs segs i consumed Hm) as (tag' & ft' & path & Hi' & Hp & Hnames & _).
    rewrite Hi in Hi'. injection Hi' as <- <-.
    apply represents_struct in Hr. destruct (Forall_lookup_1 _ _ _ _ Hr Hi path Hp) as (c & Hv & Hrc).
    destruct (walk_via _ _ _ _ _ _ Hv Hnames Hw) as [Hkc Hwc].
    by eapply (Forall_lookup_1 _ _ _ _ IH Hi).
Qed.

(** ** Properties *)

(** The schema tells a codec the truth. For every device, whatever lists and optional
    subtrees it has, each of its leaves is announced by Children: the path of the leaf
    without its last segment is accepted, and among the children returned is a leaf node
    with the last segment's name and exactly the kind of the value held there. *)
Theorem schema_complete schema root p x ro :
  buildSchema device_type = Ok schema → (p, x, ro) ∈ template_leaves root → Forall wf_segment p →
  ∃ pre name nodes, p = pre ++ [mkSeg name "" ""] ∧ Children schema (Path_String pre) = Ok nodes ∧
    mkSNode name KindLeaf "" (leafKindOf x) ∈ nodes.
Proof.
  intros Hb Hin Hw.
  assert (Hr : represents false device_type schema = true).
  { assert (match buildSchema device_type with Ok s => represents false device_type s | Err _ => false end = true)
      as Hc by (vm_compute; reflexivity). by rewrite Hb in Hc. }
  destruct (proj2 (walk_represented (enc c_Device root)) false _ schema [] false p x ro
    (codec_typed root) Hr Hin) as (rest & -> & pre & name & s' & c & -> & Hwalk & Hc & Hn).
  simpl in *. apply Forall_app in Hw as [Hw _]. exists pre, name, (sn_node <$> sn_children s').
  split_and!; [done|by apply schema_walk_parse|].
  rewrite <- Hn. apply list_elem_of_fmap_2. by apply child_In in Hc as [Hc _].
Qed.

Lemma schema_complete_witness :
  ∃ pre name nodes, [mkSeg "system-info" "" ""; mkSeg "name" "" ""] = pre ++ [mkSeg name "" ""] ∧
    match buildSchema device_type with
    | Ok schema => Children schema (Path_String pre) = Ok nodes
    | Err _ => False
    end ∧ mkSNode name KindLeaf "" (Some KString) ∈ nodes.
Proof.
  destruct (buildSchema device_type) as [schema|] eqn:Hb; [|exfalso; vm_compute in Hb; discriminate Hb].
  apply (schema_complete schema DefaultDevice [mkSeg "system-info" "" ""; mkSeg "name" "" ""]
    (VString "triadsim-01") false Hb).
  - apply (bool_decide_eq_true_1 _). vm_compute. reflexivity.
  - repeat constructor; simpl; unfold clean; repeat constructor; by left || done.
Defined.
