(* ===== verification/Oid.v ===== *)
(** * The SNMP object tables ([internal/router/oid.go], [buildObjects] of [router.go])

    The static OID rules, the value conversions they name, the order of OIDs, and the
    derivation of the concrete objects of a device.  A converted value is a leaf value or
    the octets of an OctetString. *)

From S2P Require Import Prelude GoStrings GoFloat GoValue GoNet Path Model Reflect Reflected Hydrate Schema.

Definition EnterpriseOID : string := "1.3.6.1.4.1.99999".

Inductive SNMPType : Set :=
  | TypeInteger | TypeOctetString | TypeObjectID | TypeGauge32 | TypeCounter32 | TypeCounter64
  | TypeTimeTicks | TypeOpaqueDouble.
Global Instance SNMPType_eq_dec : EqDecision SNMPType.
Proof. solve_decision. Defined.

Inductive scope : Set :=
  | scopeScalar | scopeInterface | scopeRadio | scopeSTPPort | scopeMAC | scopeVLAN | scopeSyncE.
Global Instance scope_eq_dec : EqDecision scope.
Proof. solve_decision. Defined.

(** What an SNMP object carries: a leaf value or the bytes of a []byte. *)
Inductive snmpValue : Set :=
  | SVal (v : value)
  | SOctets (l : list N).
Global Instance snmpValue_eq_dec : EqDecision snmpValue.
Proof. solve_decision. Defined.

Record objectRule : Type := mkRule {
  ru_scope : scope;
  ru_suffix : string;
  ru_oid : string;
  ru_typ : SNMPType;
  ru_writable : bool;
  ru_convert : option (value → snmpValue);
  ru_decode : option (value → res value);
}.

(** ** Conversions *)

Definition int_ (z : Z) : snmpValue := SVal (VInt z).

Definition ifTypeValue (v : value) : snmpValue :=
  match v with VString s => if String.eqb s "radio" then int_ 1 else int_ 6 | _ => int_ 6 end.
Definition ifOperStatusValue (v : value) : snmpValue :=
  match v with VBool true => int_ 1 | _ => int_ 2 end.
Definition truthValue (v : value) : snmpValue :=
  match v with VBool true => int_ 1 | _ => int_ 2 end.

(** [truthFromInt]: the inverse, for a writable TruthValue. *)
Definition truthFromInt (v : value) : res value :=
  match v with
  | VBool b => Ok (VBool b)
  | VInt n | VUint32 n =>
      if (n =? 1)%Z then Ok (VBool true)
      else if (n =? 2)%Z then Ok (VBool false)
      else Err [Anon "TruthValue"]
  | _ => Err [Anon "TruthValue"]
  end.

(** [ticksFromSeconds]: the product wraps at 32 bits. *)
Definition ticksFromSeconds (v : value) : snmpValue :=
  match v with VUint32 n => SVal (VUint32 (u32 (n * 100))) | _ => SVal v end.

Definition macOctets (v : value) : snmpValue :=
  match v with
  | VString text =>
      match ParseMAC text with
      | Some address => if Nat.eqb (length address) 6 then SOctets address else SVal v
      | None => SVal v
      end
  | _ => SVal v
  end.

Definition macInstance (text : string) : string :=
  match ParseMAC text with
  | Some address =>
      if Nat.eqb (length address) 6 then Join ((λ o, Itoa (Z.of_N o)) <$> address) "." else ""
  | None => ""
  end.

(** A mapping from names to integers; a value that is no string passes through. *)
Definition name_code (table : list (string * Z)) (other : Z) (v : value) : snmpValue :=
  match v with
  | VString name =>
      match list_find (λ e, e.1 = name) table with
      | Some (_, (_, code)) => int_ code
      | None => int_ other
      end
  | _ => SVal v
  end.

Definition stpPortStateValue : value → snmpValue :=
  name_code [("disabled", 1); ("blocking", 2); ("discarding", 2); ("listening", 3);
             ("learning", 4); ("forwarding", 5)]%Z 1.
Definition stpPortEnableValue (v : value) : snmpValue :=
  match v with VString name => if String.eqb name "disabled" then int_ 2 else int_ 1 | _ => int_ 1 end.
Definition fdbStatusValue (v : value) : snmpValue :=
  match v with VString typ => if String.eqb typ "static" then int_ 5 else int_ 3 | _ => int_ 3 end.
Definition ptpStateValue : value → snmpValue :=
  name_code [("freerun", 1); ("acquiring", 2); ("locked", 3); ("holdover-in-spec", 4);
             ("holdover-out-of-spec", 5)]%Z 1.
Definition linkStateValue : value → snmpValue :=
  name_code [("degraded", 2); ("down", 3)]%Z 1.
Definition qlValue : value → snmpValue :=
  name_code [("QL-PRC", 2); ("QL-SSU-A", 4); ("QL-SSU-B", 8); ("QL-SEC", 11); ("QL-DNU", 15)]%Z 0.
Definition extendedQLValue : value → snmpValue :=
  name_code [("QL-PRTC", 32); ("QL-ePRTC", 33); ("QL-eEEC", 34)]%Z 0.

(** ** The rules *)

Definition objectRules : list objectRule :=
  [mkRule scopeScalar "system-info/description" "1.3.6.1.2.1.1.1" TypeOctetString false None None;
   mkRule scopeScalar "system-info/uptime" "1.3.6.1.2.1.1.3" TypeTimeTicks false (Some ticksFromSeconds) None;
   mkRule scopeScalar "system-info/contact" "1.3.6.1.2.1.1.4" TypeOctetString true None None;
   mkRule scopeScalar "system-info/name" "1.3.6.1.2.1.1.5" TypeOctetString true None None;
   mkRule scopeScalar "system-info/location" "1.3.6.1.2.1.1.6" TypeOctetString true None None;
   mkRule scopeInterface "name" "1.3.6.1.2.1.2.2.1.2" TypeOctetString false None None;
   mkRule scopeInterface "type" "1.3.6.1.2.1.2.2.1.3" TypeInteger false (Some ifTypeValue) None;
   mkRule scopeInterface "mtu" "1.3.6.1.2.1.2.2.1.4" TypeInteger false None None;
   mkRule scopeInterface "mac-address" "1.3.6.1.2.1.2.2.1.6" TypeOctetString false (Some macOctets) None;
   mkRule scopeInterface "enabled" "1.3.6.1.2.1.2.2.1.7" TypeInteger true (Some ifOperStatusValue) (Some truthFromInt);
   mkRule scopeInterface "enabled" "1.3.6.1.2.1.2.2.1.8" TypeInteger false (Some ifOperStatusValue) None;
   mkRule scopeInterface "counters/in-octets" "1.3.6.1.2.1.2.2.1.10" TypeCounter32 false None None;
   mkRule scopeInterface "counters/in-ucast-pkts" "1.3.6.1.2.1.2.2.1.11" TypeCounter32 false None None;
   mkRule scopeInterface "counters/in-discards" "1.3.6.1.2.1.2.2.1.13" TypeCounter32 false None None;
   mkRule scopeInterface "counters/in-errors" "1.3.6.1.2.1.2.2.1.14" TypeCounter32 false None None;
   mkRule scopeInterface "counters/out-octets" "1.3.6.1.2.1.2.2.1.16" TypeCounter32 false None None;
   mkRule scopeInterface "counters/out-ucast-pkts" "1.3.6.1.2.1.2.2.1.17" TypeCounter32 false None None;
   mkRule scopeInterface "counters/out-discards" "1.3.6.1.2.1.2.2.1.19" TypeCounter32 false None None;
   mkRule scopeInterface "counters/out-errors" "1.3.6.1.2.1.2.2.1.20" TypeCounter32 false None None;
   mkRule scopeInterface "name" "1.3.6.1.2.1.31.1.1.1.1" TypeOctetString false None None;
   mkRule scopeInterface "counters/in-octets" "1.3.6.1.2.1.31.1.1.1.6" TypeCounter64 false None None;
   mkRule scopeInterface "counters/in-ucast-pkts" "1.3.6.1.2.1.31.1.1.1.7" TypeCounter64 false None None;
   mkRule scopeInterface "counters/out-octets" "1.3.6.1.2.1.31.1.1.1.10" TypeCounter64 false None None;
   mkRule scopeInterface "counters/out-ucast-pkts" "1.3.6.1.2.1.31.1.1.1.11" TypeCounter64 false None None;
   mkRule scopeScalar "stp/state/bridge-address" "1.3.6.1.2.1.17.1.1" TypeOctetString false (Some macOctets) None;
   mkRule scopeScalar "stp/state/bridge-priority" "1.3.6.1.2.1.17.2.2" TypeInteger true None None;
   mkRule scopeSTPPort "priority" "1.3.6.1.2.1.17.2.15.1.2" TypeInteger true None None;
   mkRule scopeSTPPort "state" "1.3.6.1.2.1.17.2.15.1.3" TypeInteger false (Some stpPortStateValue) None;
   mkRule scopeSTPPort "state" "1.3.6.1.2.1.17.2.15.1.4" TypeInteger false (Some stpPortEnableValue) None;
   mkRule scopeSTPPort "path-cost" "1.3.6.1.2.1.17.2.15.1.5" TypeInteger true None None;
   mkRule scopeScalar "mac-table/aging-time" "1.3.6.1.2.1.17.4.2" TypeInteger true None None;
   mkRule scopeMAC "mac-address" "1.3.6.1.2.1.17.4.3.1.1" TypeOctetString false (Some macOctets) None;
   mkRule scopeMAC "port" "1.3.6.1.2.1.17.4.3.1.2" TypeInteger false None None;
   mkRule scopeMAC "type" "1.3.6.1.2.1.17.4.3.1.3" TypeInteger false (Some fdbStatusValue) None;
   mkRule scopeVLAN "name" "1.3.6.1.2.1.17.7.1.4.3.1.1" TypeOctetString false None None;
   mkRule scopeRadio "rssi" (EnterpriseOID +:+ ".1.1.1") TypeOpaqueDouble false None None;
   mkRule scopeRadio "fade-margin" (EnterpriseOID +:+ ".1.1.2") TypeOpaqueDouble false None None;
   mkRule scopeRadio "capacity" (EnterpriseOID +:+ ".1.1.3") TypeGauge32 false None None;
   mkRule scopeRadio "tx-power" (EnterpriseOID +:+ ".1.1.4") TypeOpaqueDouble true None None;
   mkRule scopeRadio "atpc/enabled" (EnterpriseOID +:+ ".1.1.5") TypeInteger true (Some truthValue) (Some truthFromInt);
   mkRule scopeRadio "acm/current-profile" (EnterpriseOID +:+ ".1.1.6") TypeInteger false None None;
   mkRule scopeRadio "acm/current-capacity" (EnterpriseOID +:+ ".1.1.7") TypeGauge32 false None None;
   mkRule scopeRadio "link-state" (EnterpriseOID +:+ ".1.1.8") TypeInteger false (Some linkStateValue) None;
   mkRule scopeScalar "ptp/clock/state" (EnterpriseOID +:+ ".2.1.1") TypeInteger false (Some ptpStateValue) None;
   mkRule scopeScalar "ptp/clock/offset" (EnterpriseOID +:+ ".2.1.2") TypeOpaqueDouble false None None;
   mkRule scopeScalar "ptp/clock/domain" (EnterpriseOID +:+ ".2.1.3") TypeGauge32 true None None;
   mkRule scopeScalar "ptp/clock/priority1" (EnterpriseOID +:+ ".2.1.4") TypeGauge32 true None None;
   mkRule scopeScalar "synce/selected-ql" (EnterpriseOID +:+ ".2.1.5") TypeInteger false (Some qlValue) None;
   mkRule scopeScalar "synce/selected-extended-ql" (EnterpriseOID +:+ ".2.1.6") TypeInteger false (Some extendedQLValue) None;
   mkRule scopeSyncE "ql" (EnterpriseOID +:+ ".2.1.7.1.1") TypeInteger false (Some qlValue) None;
   mkRule scopeSyncE "ssm-enabled" (EnterpriseOID +:+ ".2.1.7.1.2") TypeInteger false (Some truthValue) None;
   mkRule scopeScalar "ptp/clock/jitter" (EnterpriseOID +:+ ".2.1.8") TypeOpaqueDouble false None None].

Definition sysObjectIDOID : string := "1.3.6.1.2.1.1.2.0".
Definition ifIndexOID : string := "1.3.6.1.2.1.2.2.1.1".

(** ** The order of OIDs *)

(** [strings.TrimPrefix(s, ".")]. *)
Definition trim_dot (s : string) : string := if HasPrefix s "." then str_drop 1 s else s.

Fixpoint compare_components (a b : list string) : comparison :=
  match a, b with
  | x :: a, y :: b =>
      let next := compare_components a b in
      match Atoi x, Atoi y with
      | Some i, Some j => match (i ?= j)%Z with Eq => next | c => c end
      | _, _ => match String.compare x y with Eq => next | c => c end
      end
  | [], [] => Eq
  | [], _ :: _ => Lt
  | _ :: _, [] => Gt
  end.

(** [CompareOID]: -1, 0 and 1 are [Lt], [Eq] and [Gt]. *)
Definition CompareOID (a b : string) : comparison :=
  compare_components (SplitByte (trim_dot a) ".") (SplitByte (trim_dot b) ".").

Definition instanceOID (base : string) (instance_ : Z) : string := base +:+ "." +:+ Itoa instance_.
Definition indexOID (base index : string) : string := base +:+ "." +:+ index.

(** [interfaceIndexOf]: the 1-based index, or zero. *)
Definition interfaceIndexOf (root : Device) (name : string) : Z :=
  match list_find (λ i, if_Name i = name) (dev_Interfaces root) with
  | Some (i, _) => Z.of_nat i + 1
  | None => 0
  end.

(** ** The objects of a device ([router.go]) *)

Record indexedObject : Type := mkObject {
  ob_oid : string;
  ob_path : string;
  ob_typ : SNMPType;
  ob_writable : bool;
  ob_convert : option (value → snmpValue);
  ob_decode : option (value → res value);
  ob_constant : option value;
}.

Definition rule_object (r : objectRule) (oid path : string) : indexedObject :=
  mkObject oid path (ru_typ r) (ru_writable r) (ru_convert r) (ru_decode r) None.

(** [checkPath]. *)
Definition checkPath (root : Device) (path : string) : res unit :=
  segs ← Parse path;
  n ← resolve device_type (enc c_Device root) segs;
  check (isLeaf n) [RouterErrNotFound].

(** [tableKeys]. *)
Definition tableKeys (root : Device) (kind : scope) : list string :=
  match kind with
  | scopeSTPPort => sp_Port <$> st_Ports (dev_STP root)
  | scopeMAC => me_MAC <$> mt_Entries (dev_MACTable root)
  | scopeVLAN => (λ v, Itoa (vl_ID v)) <$> dev_VLANs root
  | scopeSyncE => sy_Name <$> se_Interfaces (dev_SyncE root)
  | _ => []
  end.

(** [tableObjects]. *)
Definition tableObjects (root : Device) (kind : scope) (prefix : string) (keyed : string → string)
    : list indexedObject :=
  tableKeys root kind ≫= λ key,
    let index := keyed key in
    if String.eqb index "" then []
    else
      (λ r, rule_object r (indexOID (ru_oid r) index) (prefix +:+ key +:+ "]" +:+ "/" +:+ ru_suffix r))
        <$> filter (λ r, ru_scope r = kind) objectRules.

Definition interface_index_key (root : Device) (name : string) : string :=
  let i := interfaceIndexOf root name in if (0 <? i)%Z then Itoa i else "".

(** The interface loop of [buildObjects]; [exposed] says whether a radio link has been
    exposed already. *)
Fixpoint interface_objects (i : Z) (exposed : bool) (l : list Interface) : list indexedObject :=
  match l with
  | [] => []
  | iface :: l =>
      let instance_ := (i + 1)%Z in
      let base := "interfaces/interface[name=" +:+ if_Name iface +:+ "]" in
      let has_radio := match if_RadioLink iface with Some _ => true | None => false end in
      [mkObject (instanceOID ifIndexOID instance_) "" TypeInteger false None None (Some (VInt instance_))] ++
      (objectRules ≫= λ r,
        match ru_scope r with
        | scopeInterface => [rule_object r (instanceOID (ru_oid r) instance_) (base +:+ "/" +:+ ru_suffix r)]
        | scopeRadio =>
            if negb has_radio || exposed then []
            else [rule_object r (ru_oid r +:+ ".0") (base +:+ "/radio-link/" +:+ ru_suffix r)]
        | _ => []
        end) ++
      interface_objects instance_ (exposed || has_radio) l
  end.

Fixpoint insert_object (o : indexedObject) (l : list indexedObject) : list indexedObject :=
  match l with
  | [] => [o]
  | x :: l => match CompareOID (ob_oid o) (ob_oid x) with
              | Gt => x :: insert_object o l
              | _ => o :: x :: l
              end
  end.
Definition sort_objects (l : list indexedObject) : list indexedObject := foldr insert_object [] l.

(** The objects in the order the code appends them, and [buildObjects]. *)
Definition raw_objects (root : Device) : list indexedObject :=
  let scalars :=
    (λ r, rule_object r (ru_oid r +:+ ".0") (ru_suffix r)) <$>
    filter (λ r, ru_scope r = scopeScalar ∧ is_ok (checkPath root (ru_suffix r)) = true) objectRules in
  let sys := [mkObject sysObjectIDOID "" TypeObjectID false None None
                (Some (VString (EnterpriseOID +:+ ".1")))] in
  scalars ++ sys ++ interface_objects 0 false (dev_Interfaces root) ++
    tableObjects root scopeSTPPort "stp/state/ports/port[port=" (interface_index_key root) ++
    tableObjects root scopeMAC "mac-table/entry[mac-address=" macInstance ++
    tableObjects root scopeVLAN "vlans/vlan[id=" (λ id, id) ++
    tableObjects root scopeSyncE "synce/interfaces/interface[name=" (interface_index_key root).

Definition buildObjects (root : Device) : list indexedObject := sort_objects (raw_objects root).

(** ** The indexes of [New] *)

Record Router : Type := mkRouter {
  r_root : Device;
  r_schema : schemaNode;
  r_byOID : gmap string indexedObject;
  r_byPath : gmap string indexedObject;
}.

(** The path index keeps the first object of a path that has a decoder. *)
Definition add_path (m : gmap string indexedObject) (o : indexedObject) : gmap string indexedObject :=
  if String.eqb (ob_path o) "" then m
  else match m !! ob_path o with
  | Some x => match ob_decode x with
              | Some _ => m
              | None => <[ob_path o := o]> m
              end
  | None => <[ob_path o := o]> m
  end.

Fixpoint index_objects (l : list indexedObject) (r : Router) : res Router :=
  match l with
  | [] => Ok r
  | o :: l =>
      match r_byOID r !! ob_oid o with
      | Some _ => Err [Anon "router: duplicate OID"]
      | None =>
          index_objects l (mkRouter (r_root r) (r_schema r) (<[ob_oid o := o]> (r_byOID r)) (add_path (r_byPath r) o))
      end
  end.

(** [New], on a non-nil template and store. *)
Definition NewRouter (root : Device) : res Router :=
  schema ← buildSchema device_type;
  index_objects (buildObjects root) (mkRouter root schema ∅ ∅).

(** [PathForOID] and [OIDForPath]. *)
Definition PathForOID (r : Router) (oid : string) : option Path :=
  match r_byOID r !! trim_dot oid with
  | Some o =>
      if String.eqb (ob_path o) "" then None
      else match Parse (ob_path o) with Ok p => Some p | Err _ => None end
  | None => None
  end.

Definition OIDForPath (r : Router) (path : string) : option string :=
  match Parse path with
  | Ok p => ob_oid <$> r_byPath r !! Path_String p
  | Err _ => None
  end.

(** ** Lemmas *)

(** *** The order of numeric OIDs *)

Fixpoint lex (a b : list Z) : comparison :=
  match a, b with
  | x :: a, y :: b => match (x ?= y)%Z with Eq => lex a b | c => c end
  | [], [] => Eq
  | [], _ :: _ => Lt
  | _ :: _, [] => Gt
  end.

(** The numbers of an OID all of whose components are decimal. *)
Definition oid_numbers (s : string) : option (list Z) := mapM Atoi (SplitByte (trim_dot s) ".").

Lemma CompareOID_lex a b na nb :
  oid_numbers a = Some na → oid_numbers b = Some nb → CompareOID a b = lex na nb.
Proof.
  unfold oid_numbers, CompareOID. generalize (SplitByte (trim_dot a) ".") (SplitByte (trim_dot b) ".").
  intros la lb Ha%mapM_Some Hb%mapM_Some. revert lb nb Hb.
  induction Ha as [|x n la na Hx _ IH]; intros lb nb Hb; destruct Hb as [|y m lb nb Hy Hb]; try done.
  simpl. rewrite Hx, Hy. by rewrite (IH _ _ Hb).
Qed.

Lemma lex_eq a b : lex a b = Eq → a = b.
Proof.
  revert b. induction a as [|x a IH]; intros [|y b]; simpl; try done.
  destruct (Z.compare_spec x y) as [->| |]; try done. by intros ->%IH.
Qed.

Lemma lex_antisym a b : lex b a = CompOpp (lex a b).
Proof.
  revert b. induction a as [|x a IH]; intros [|y b]; simpl; try done.
  rewrite (Z.compare_antisym x y). destruct (x ?= y)%Z; simpl; auto.
Qed.

Lemma lex_trans a b c : lex a b ≠ Gt → lex b c ≠ Gt → lex a c ≠ Gt.
Proof.
  revert b c. induction a as [|x a IH]; intros [|y b] [|z c]; simpl; try done.
  destruct (Z.compare_spec x y), (Z.compare_spec y z), (Z.compare_spec x z); try done; try lia.
  apply IH.
Qed.

(** *** Sorting *)

Definition numeric (o : indexedObject) : Prop := is_Some (oid_numbers (ob_oid o)).
Definition oid_le (a b : indexedObject) : Prop := CompareOID (ob_oid a) (ob_oid b) ≠ Gt.

Lemma oid_le_trans a b c : numeric a → numeric b → numeric c → oid_le a b → oid_le b c → oid_le a c.
Proof.
  intros [na Ha] [nb Hb] [nc Hc]. unfold oid_le.
  rewrite !(CompareOID_lex _ _ _ _ Ha Hb), !(CompareOID_lex _ _ _ _ Hb Hc), !(CompareOID_lex _ _ _ _ Ha Hc).
  apply lex_trans.
Qed.

Lemma oid_le_total a b : numeric a → numeric b → CompareOID (ob_oid a) (ob_oid b) = Gt → oid_le b a.
Proof.
  intros [na Ha] [nb Hb]. unfold oid_le.
  rewrite (CompareOID_lex _ _ _ _ Ha Hb), (CompareOID_lex _ _ _ _ Hb Ha), (lex_antisym na nb).
  by intros ->.
Qed.

Lemma insert_object_perm o l : insert_object o l ≡ₚ o :: l.
Proof.
  induction l as [|x l IH]; simpl; [done|]. destruct (CompareOID _ _); try done.
  rewrite IH. by apply Permutation_swap.
Qed.

Lemma sort_objects_perm l : sort_objects l ≡ₚ l.
Proof. induction l as [|o l IH]; simpl; [done|]. by rewrite insert_object_perm, IH. Qed.

Lemma insert_object_sorted o l :
  numeric o → Forall numeric l → StronglySorted oid_le l → StronglySorted oid_le (insert_object o l).
Proof.
  intros Ho Hl Hs. induction Hs as [|x l Hs IH Hx]; simpl; [by repeat constructor|].
  apply Forall_cons in Hl as [Hnx Hl]. destruct (CompareOID (ob_oid o) (ob_oid x)) eqn:E.
  1,2: assert (oid_le o x) as Hox by (unfold oid_le; by rewrite E);
       constructor; [by constructor|]; constructor; [done|];
       rewrite Forall_forall in Hx, Hl |- *; intros y Hy; apply (oid_le_trans o x y); auto.
  constructor; [by apply IH|]. rewrite insert_object_perm. constructor; [by apply oid_le_total|done].
Qed.

Lemma sort_objects_sorted l : Forall numeric l → StronglySorted oid_le (sort_objects l).
Proof.
  induction 1 as [|o l Ho Hl IH]; simpl; [constructor|].
  apply insert_object_sorted; [done| |done]. by rewrite sort_objects_perm.
Qed.
