(* ===== verification/Router.v ===== *)
(** * The router's operations ([internal/router/router.go], [validate.go])

    The router resolves a path against the template to learn the node's type and access
    and then reads or writes the store.  An operation is a function of the router (the
    template and its SNMP indexes), the store's memory, the clock reading and the
    context; it returns its result and the memory afterwards. *)

From S2P Require Import Prelude GoStrings GoFloat GoValue GoNet Persist Store Path Model Reflect Reflected Hydrate Schema Oid.

(** [Result]. *)
Record Result : Set := mkResult {
  res_Path : string;
  res_OID : string;
  res_Value : value;
  res_Type : option SNMPType;
  res_Writable : bool;
}.
Global Instance Result_eq_dec : EqDecision Result.
Proof. solve_decision. Defined.

(** [result]. *)
Definition result (r : Router) (path : string) (v : value) (writable : bool) : Result :=
  match r_byPath r !! path with
  | Some o => mkResult path (ob_oid o) v (Some (ob_typ o)) writable
  | None => mkResult path "" v None writable
  end.

(** The common head of the operations: parse, resolve against the template, and
    require a leaf. *)
Definition resolve_leaf (r : Router) (path : string) : res (Path * node) :=
  segs ← Parse path;
  n ← resolve device_type (enc c_Device (r_root r)) segs;
  _ ← check (isLeaf n) [RouterErrNotFound];
  Ok (segs, n).

(** A store.ErrNotFound becomes a router.ErrNotFound. *)
Definition map_not_found {A} (r : res A) : res A :=
  match r with
  | Err e => if errors_is e StoreErrNotFound then Err (RouterErrNotFound :: e) else Err e
  | Ok a => Ok a
  end.

(** [Router.Get]. *)
Definition Router_Get (r : Router) (m : Memory) (ctx : context) (ds : Datastore) (path : string)
    : res Result :=
  _ ← ctx_err ctx;
  '(segs, n) ← resolve_leaf r path;
  v ← map_not_found (Get m ctx ds (Path_String segs));
  Ok (result r (Path_String segs) v (negb (n_readOnly n))).

(** [convert]. *)
Definition convert (r : Router) (path : string) (v : value) (allowReadOnly : bool) : res Result :=
  '(segs, n) ← resolve_leaf r path;
  _ ← check (negb (n_readOnly n && negb allowReadOnly)) [RouterErrReadOnly];
  v ← match r_byPath r !! Path_String segs with
      | Some o =>
          match ob_decode o with
          | Some decode => match decode v with Ok v => Ok v | Err _ => Err [RouterErrBadValue] end
          | None => Ok v
          end
      | None => Ok v
      end;
  v ← coerce v (n_type n);
  Ok (result r (Path_String segs) v true).

(** [Router.Convert]. *)
Definition Convert (r : Router) (path : string) (v : value) : res Result := convert r path v false.

(** The write that follows a conversion. *)
Definition store_result (m : Memory) (now : time) (ctx : context) (ds : Datastore) (x : res Result)
    : res Result * Memory :=
  match x with
  | Err e => (Err e, m)
  | Ok result =>
      match Set_ m now ctx ds (res_Path result) (res_Value result) with
      | (Ok _, m) => (Ok result, m)
      | (Err e, m) => (Err e, m)
      end
  end.

(** [Router.Set]. *)
Definition Router_Set (r : Router) (m : Memory) (now : time) (ctx : context) (ds : Datastore)
    (path : string) (v : value) : res Result * Memory :=
  match ctx_err ctx with
  | Err e => (Err e, m)
  | Ok _ => store_result m now ctx ds (Convert r path v)
  end.

(** [Router.SetState]. *)
Definition SetState (r : Router) (m : Memory) (now : time) (ctx : context) (path : string) (v : value)
    : res Result * Memory :=
  match ctx_err ctx with
  | Err e => (Err e, m)
  | Ok _ => store_result m now ctx Running (convert r path v true)
  end.

(** [Router.DeleteState]: an absent leaf is not an error. *)
Definition DeleteState (r : Router) (m : Memory) (now : time) (ctx : context) (path : string)
    : res unit * Memory :=
  match (_ ← ctx_err ctx; resolve_leaf r path) with
  | Err e => (Err e, m)
  | Ok (segs, _) =>
      match Delete m now ctx Running (Path_String segs) with
      | (Err e, m) => if errors_is e StoreErrNotFound then (Ok tt, m) else (Err e, m)
      | (Ok _, m) => (Ok tt, m)
      end
  end.

(** [Router.Delete]. *)
Definition Router_Delete (r : Router) (m : Memory) (now : time) (ctx : context) (ds : Datastore)
    (path : string) : res unit * Memory :=
  match (_ ← ctx_err ctx; resolve_leaf r path) with
  | Err e => (Err e, m)
  | Ok (segs, _) =>
      let '(x, m) := Delete m now ctx ds (Path_String segs) in (map_not_found x, m)
  end.

(** The conversion loop of [Router.Apply]. *)
Fixpoint convert_all (r : Router) (l : list (string * value)) (out : values) : res values :=
  match l with
  | [] => Ok out
  | (path, v) :: l =>
      result ← Convert r path v;
      convert_all r l (<[res_Path result := res_Value result]> out)
  end.

(** [Router.Apply]. *)
Definition Router_Apply (r : Router) (m : Memory) (now : time) (ctx : context) (ds : Datastore)
    (vs : values) (deletions : list string) : res unit * Memory :=
  match (_ ← ctx_err ctx; convert_all r (map_to_list vs) ∅) with
  | Err e => (Err e, m)
  | Ok converted => Apply m now ctx ds converted deletions
  end.

(** [describe]. *)
Definition describe (r : Router) (path : string) (v : value) : res Result :=
  '(segs, n) ← resolve_leaf r path;
  Ok (result r (Path_String segs) v (negb (n_readOnly n))).

Fixpoint describe_all (r : Router) (vs : values) (paths : list string) : res (list Result) :=
  match paths with
  | [] => Ok []
  | path :: paths =>
      match vs !! path with
      | Some v =>
          x ← describe r path v;
          rest ← describe_all r vs paths;
          Ok (x :: rest)
      | None => Err [RouterErrNotFound]
      end
  end.

(** [Router.List]. *)
Definition Router_List (r : Router) (m : Memory) (ctx : context) (ds : Datastore) (prefix : string)
    : res (list Result) :=
  _ ← ctx_err ctx;
  vs ← Values m ctx ds;
  describe_all r vs
    (sort_strings (filter (λ p, below prefix p = true) (map_to_list vs).*1)).

(** [Router.Values]: the described leaves; the Go map is keyed by the stored path. *)
Definition Router_Values (r : Router) (m : Memory) (ctx : context) (ds : Datastore)
    : res (list (string * Result)) :=
  _ ← ctx_err ctx;
  vs ← Values m ctx ds;
  l ← describe_all r vs (map_to_list vs).*1;
  Ok (zip (map_to_list vs).*1 l).

(** [Router.IsState]. *)
Definition IsState (r : Router) (path : string) : bool :=
  match (segs ← Parse path; resolve device_type (enc c_Device (r_root r)) segs) with
  | Ok n => n_readOnly n
  | Err _ => false
  end.

(** [OpKind], [Op] and [Dispatch]. *)
Inductive OpKind : Set := OpGet | OpSet | OpDel | OpList | OpUnknown.

Inductive dispatched : Type :=
  | DResult (r : Result)
  | DPath (path : string)
  | DList (path : string) (l : list Result).

Definition Dispatch (r : Router) (m : Memory) (now : time) (ctx : context) (kind : OpKind)
    (ds : Datastore) (path : string) (v : value) : res dispatched * Memory :=
  match kind with
  | OpGet => (x ← Router_Get r m ctx ds path; Ok (DResult x), m)
  | OpSet => let '(x, m) := Router_Set r m now ctx ds path v in (x ← x; Ok (DResult x), m)
  | OpDel => let '(x, m) := Router_Delete r m now ctx ds path in (_ ← x; Ok (DPath path), m)
  | OpList => (l ← Router_List r m ctx ds path; Ok (DList path l), m)
  | OpUnknown => (Err [RouterErrInvalidPath], m)
  end.

(** [Router.Seed]: every leaf of the template, in declaration order. *)
Fixpoint seed_leaves (m : Memory) (now : time) (ctx : context) (ds : Datastore)
    (l : list (Path * value * bool)) : res unit * Memory :=
  match l with
  | [] => (Ok tt, m)
  | (segs, v, _) :: l =>
      match (_ ← ctx_err ctx; leafValue (GLeaf v)) with
      | Err e => (Err e, m)
      | Ok leaf =>
          match Set_ m now ctx ds (Path_String segs) leaf with
          | (Ok _, m) => seed_leaves m now ctx ds l
          | (Err e, m) => (Err e, m)
          end
      end
  end.

Definition Seed (r : Router) (m : Memory) (now : time) (ctx : context) (ds : Datastore)
    : res unit * Memory :=
  match ctx_err ctx with
  | Err e => (Err e, m)
  | Ok _ => seed_leaves m now ctx ds (template_leaves (r_root r))
  end.

(** [flatValues] and [Router.Snapshot]. *)
Definition flatValues (m : Memory) (ctx : context) (ds : Datastore) : res values :=
  _ ← ctx_err ctx; Values m ctx ds.

Definition Router_Snapshot (r : Router) (m : Memory) (ctx : context) (ds : Datastore) : res Device :=
  vs ← flatValues m ctx ds; deviceFromValues (r_root r) vs.

(** [Binding] and [Router.Bindings]; the memoized copy is keyed by the datastore and its
    generation. *)
Record Binding : Set := mkBinding {
  bi_OID : string;
  bi_Path : string;
  bi_Value : snmpValue;
  bi_Type : SNMPType;
  bi_Writable : bool;
}.

Record bindingCache : Set := mkCache {
  bc_ds : Datastore;
  bc_generation : Z;
  bc_bindings : list Binding;
}.
Definition empty_cache : bindingCache := mkCache "" 0 [].

Definition bind_object (vs : values) (o : indexedObject) : list Binding :=
  let bind v := [mkBinding (ob_oid o) (ob_path o)
                   (match ob_convert o with Some f => f v | None => SVal v end)
                   (ob_typ o) (ob_writable o)] in
  if String.eqb (ob_path o) "" then bind (default (VOther "nil") (ob_constant o))
  else match vs !! ob_path o with
  | Some v => bind v
  | None => []
  end.

(** The store lock is released between reading the generation and copying the values:
    [m] is the memory at the first and [m'] at the second. *)
Definition bindings_of (r : Router) (m : Memory) (ctx : context) (ds : Datastore) : res (list Binding) :=
  vs ← flatValues m ctx ds;
  device ← deviceFromValues (r_root r) vs;
  Ok (buildObjects device ≫= bind_object vs).

Definition Bindings (r : Router) (cache : bindingCache) (m m' : Memory) (ctx : context) (ds : Datastore)
    : res (list Binding) * bindingCache :=
  match (_ ← ctx_err ctx; Generation m ctx ds) with
  | Err e => (Err e, cache)
  | Ok generation =>
      if String.eqb (bc_ds cache) ds && (bc_generation cache =? generation)%Z
      then (Ok (bc_bindings cache), cache)
      else match bindings_of r m' ctx ds with
      | Err e => (Err e, cache)
      | Ok bindings => (Ok bindings, mkCache ds generation bindings)
      end
  end.

(** ** Lemmas *)

Lemma resolve_leaf_inv r path segs n :
  resolve_leaf r path = Ok (segs, n) →
  Parse path = Ok segs ∧ resolve device_type (enc c_Device (r_root r)) segs = Ok n ∧ isLeaf n = true.
Proof.
  unfold resolve_leaf. destruct (Parse path) as [s|]; simpl; [|done].
  destruct (resolve _ _ s) as [x|] eqn:E; simpl; [|done].
  destruct (isLeaf x) eqn:El; simpl; [|done]. by intros [= <- <-].
Qed.

(** The path of a resolved leaf is its own canonical text. *)
Lemma resolve_leaf_path r path segs n : resolve_leaf r path = Ok (segs, n) → Path_String segs = path.
Proof. intros (H & _)%resolve_leaf_inv. by apply Parse_inv in H as [? _]. Qed.

Lemma convert_inv r path v ro x :
  convert r path v ro = Ok x →
  ∃ segs n k, resolve_leaf r path = Ok (segs, n) ∧ n_type n = TLeaf k ∧
    (n_readOnly n = true → ro = true) ∧ x = result r path (res_Value x) true ∧
    leafKindOf (res_Value x) = Some k.
Proof.
  unfold convert. destruct (resolve_leaf r path) as [[segs n]|] eqn:E; simpl; [|done].
  destruct (negb _) eqn:Hro; simpl; [|done].
  destruct (match r_byPath r !! Path_String segs with Some o => _ | None => _ end) as [v'|]; simpl; [|done].
  unfold coerce. destruct (n_type n) as [k| | |] eqn:Ht; try done.
  destruct (assignLeaf k v') as [y|] eqn:Ea; cbn [mbind res_bind leafValue]; [|done].
  destruct (is_leaf y) eqn:Hy; simpl; [|done]. intros [= <-].
  rewrite (resolve_leaf_path _ _ _ _ E).
  assert (∀ p w, res_Value (result r p y w) = y) as Hval by (intros; unfold result; by case_match).
  exists segs, n, k. rewrite Hval. split_and!; try done.
  - intros Hn. rewrite Hn in Hro. by destruct ro.
  - by eapply assignLeaf_kind.
Qed.

Lemma result_fields r path v w :
  res_Path (result r path v w) = path ∧ res_Value (result r path v w) = v.
Proof. unfold result. by case_match. Qed.

Lemma store_result_ok m now ctx ds x res m' :
  store_result m now ctx ds x = (Ok res, m') →
  x = Ok res ∧ Set_ m now ctx ds (res_Path res) (res_Value res) = (Ok tt, m').
Proof.
  unfold store_result. destruct x as [y|]; [|done].
  destruct (Set_ _ _ _ _ _ _) as [[[]|] m1] eqn:E; by intros [= <- <-].
Qed.

Lemma store_result_err m now ctx ds x e m' :
  store_result m now ctx ds x = (Err e, m') → m' = m.
Proof.
  unfold store_result. destruct x as [y|]; [|by intros [= _ <-]].
  destruct (Set_ _ _ _ _ _ _) as [[[]|] m1] eqn:E; [done|]. intros [= _ <-].
  revert E. unfold Set_. repeat case_match; congruence.
Qed.

Lemma effect_get m ds g m' d :
  effect m ds g m' → d ∈ [Running; Candidate; Startup] →
  ∃ vs, datastore m d = Ok vs ∧ datastore m' d = Ok (if target ds d then g vs else vs).
Proof.
  intros [Hr Hc Hs _ _ _] Hd.
  repeat apply elem_of_cons in Hd as [->|Hd]; [..|by apply not_elem_of_nil in Hd];
    eexists; (split; [done|]); unfold datastore; simpl; by rewrite ?Hr, ?Hc, ?Hs.
Qed.

Lemma Set_Get m now ds p v m' :
  Set_ m now true ds p v = (Ok tt, m') →
  ds ∈ [Running; Candidate; Startup] ∧
  ∀ d q, d ∈ [Running; Candidate; Startup] →
    Get m' true d q = if target ds d && String.eqb p q then Ok v else Get m true d q.
Proof.
  intros E. assert (ds ∈ [Running; Candidate; Startup]) as Hds.
  { revert E. unfold Set_. destruct (validPath p); simpl; [|done]. destruct (is_leaf v); simpl; [|done].
    destruct (datastore m ds) eqn:Hd; [|done]. intros _.
    apply datastore_ok in Hd as [[-> _]|[[-> _]|[-> _]]]; set_solver. }
  split; [done|]. intros d q Hd.
  apply Set_effect in E as [Heff _]. destruct (effect_get _ _ _ _ d Heff Hd) as (vs & H1 & H2).
  unfold Get. cbn [ctx_err check mbind res_bind]. rewrite H1, H2. cbn [mbind res_bind].
  destruct (target ds d); simpl; [|done].
  destruct (String.eqb_spec p q) as [->|]; [by rewrite lookup_insert_eq|by rewrite lookup_insert_ne].
Qed.

(** Names and key predicates that a path of the model can start and end with. *)
Definition graphic_ends (s : string) : bool :=
  match s with
  | "" => false
  | String a _ => graphic a && match str_rev s with String b _ => graphic b | "" => false end
  end.

Lemma graphic_ends_spec s :
  graphic_ends s = true →
  ∃ a x b y, s = String a x ∧ s = y +:+ String b "" ∧ graphic a = true ∧ graphic b = true.
Proof.
  unfold graphic_ends. destruct s as [|a x]; [done|]. intros [Ha Hr]%andb_true_iff.
  destruct (str_rev (String a x)) as [|b r] eqn:E; [done|].
  assert (String a x = str_rev r +:+ String b "") as H.
  { rewrite <- (str_rev_involutive (String a x)), E. apply str_rev_cons. }
  exists a, x, b, (str_rev r). done.
Qed.

Lemma device_names_graphic : forallb graphic_ends (names device_type) = true.
Proof. vm_compute. reflexivity. Qed.

Lemma names_graphic n : n ∈ names device_type → graphic_ends n = true.
Proof.
  intros H. pose proof device_names_graphic as Hall. rewrite forallb_forall in Hall.
  by apply Hall, list_elem_of_In.
Qed.

(** The text of a non-empty path starts with the first name and ends with the last name
    or a bracket. *)
Lemma path_ends segs :
  segs ≠ [] → Forall (λ s, graphic_ends (seg_Name s) = true) segs →
  (∃ a x, Path_String segs = String a x ∧ graphic a = true) ∧
  (∃ b y, Path_String segs = y +:+ String b "" ∧ graphic b = true).
Proof.
  intros Hne H.
  assert (∀ s, graphic_ends (seg_Name s) = true →
    (∃ a x, seg_String s = String a x ∧ graphic a = true) ∧
    (∃ b y, seg_String s = y +:+ String b "" ∧ graphic b = true)) as Hseg.
  { intros s (a & x & b & y & E1 & E2 & Ha & Hb)%graphic_ends_spec. unfold seg_String.
    destruct (String.eqb (seg_Key s) ""); [naive_solver|]. split.
    - exists a. eexists. rewrite E1. split; [done|done].
    - exists "]"%char, (seg_Name s +:+ "[" +:+ seg_Key s +:+ "=" +:+ seg_Value s).
      by rewrite !str_app_assoc. }
  unfold Path_String. induction H as [|s segs Hs Hrest IH]; [done|].
  destruct (Hseg s Hs) as [(a & x & Ea & Ha) (b & y & Eb & Hb)].
  destruct segs as [|s' segs]; [simpl; split; eauto|].
  rewrite fmap_cons, Join_cons by done. destruct (IH ltac:(done)) as [_ (b' & y' & Eb' & Hb')].
  split.
  - rewrite Ea. simpl. eauto.
  - rewrite Eb'. exists b', (seg_String s +:+ "/" +:+ y'). by rewrite !str_app_assoc.
Qed.

Lemma Parse_slashes s p : Parse s = Ok p →
  s ≠ "" ∧ HasPrefix s "/" = false ∧ HasSuffix s "/" = false ∧ Contains s "//" = false.
Proof.
  unfold Parse. destruct (String.eqb_spec s ""); [done|].
  destruct (HasPrefix s "/"), (HasSuffix s "/"), (Contains s "//"); simpl; done.
Qed.

Lemma assignable_valid_path path segs u x u' :
  Parse path = Ok segs → assignPath device_type u None segs x = Ok u' → validPath path = true.
Proof.
  intros Hp Ha. pose proof (Parse_slashes _ _ Hp) as (Hne & H1 & H2 & H3).
  apply Parse_inv in Hp as [<- [Hs _]]. apply assignPath_names in Ha.
  assert (Forall (λ s, graphic_ends (seg_Name s) = true) segs) as Hg.
  { eapply Forall_impl; [done|]. intros s. apply names_graphic. }
  destruct (path_ends segs Hs Hg) as [(a & x' & Ea & Hga) (b & y & Eb & Hgb)].
  unfold validPath. destruct (String.eqb_spec (Path_String segs) ""); [done|].
  rewrite H1, H2, H3. simpl.
  assert (TrimSpace (Path_String segs) = Path_String segs) as ->.
  { rewrite Ea in *. by apply (TrimSpace_graphic a x' b y). }
  by rewrite String.eqb_refl.
Qed.

(** The router discharges what the store relies on from its validator. *)
Global Instance router_validator_canonical root : CanonicalValidator (Router_Validate root).
Proof.
  intros ctx vs. unfold Router_Validate, deviceFromValues, hydrate.
  destruct ctx; simpl; [|done].
  destruct (newHydrator vs) as [h|]; simpl; [|done].
  destruct (assign_all device_type vs _ _) as [v|] eqn:E; simpl; [|done]. intros _ p x Hp.
  assert (p ∈ sort_strings (map_to_list vs).*1) as Hin.
  { apply elem_of_sort_strings, list_elem_of_fmap. exists (p, x). split; [done|].
    by apply elem_of_map_to_list. }
  destruct (assign_all_paths _ _ _ _ _ _ E Hin) as (segs & u & u' & y & Hparse & Ha).
  by rewrite (assignable_valid_path _ _ _ _ _ Hparse Ha).
Qed.

(** ** Properties *)

Definition default_router : Router :=
  match NewRouter DefaultDevice with Ok r => r | Err _ => mkRouter DefaultDevice (SNode (mkSNode "" KindContainer "" None) []) ∅ ∅ end.
Abbreviation empty_store := (NewMemory "" (Some (Router_Validate DefaultDevice)) (Some (IsState default_router))).
Abbreviation seeded_store := (Seed default_router empty_store 1 true Running).2.

(** What the router writes is what it reads. After a successful Set the router's Get
    of the same path in the same datastore returns the very result Set reported, with a
    value of the leaf's kind at the canonical path; the leaf is configuration, not state;
    and every other leaf of every datastore keeps its value, except that a write to
    Running reaches the same path of Candidate. *)
Theorem router_set_get r m now ds path v x m' :
  Router_Set r m now true ds path v = (Ok x, m') →
  Router_Get r m' true ds path = Ok x ∧ res_Path x = path ∧ IsState r path = false ∧
  (∃ segs n k, resolve_leaf r path = Ok (segs, n) ∧ n_type n = TLeaf k ∧
     leafKindOf (res_Value x) = Some k) ∧
  (∀ d q, d ∈ [Running; Candidate; Startup] → (q ≠ path ∨ target ds d = false) →
     Get m' true d q = Get m true d q).
Proof.
  intros [Hc Hset]%store_result_ok.
  apply convert_inv in Hc as (segs & n & k & Hl & Hk & Hro & Hx & Hkind).
  pose proof (result_fields r path (res_Value x) true) as [Hp _]. rewrite <- Hx in Hp.
  rewrite Hp in Hset. destruct (Set_Get _ _ _ _ _ _ Hset) as [Hds Hget].
  assert (n_readOnly n = false) as Hn by (destruct (n_readOnly n); [by specialize (Hro eq_refl)|done]).
  assert (target ds ds = true) as Ht by (unfold target; by rewrite String.eqb_refl).
  pose proof (resolve_leaf_path _ _ _ _ Hl) as Hs.
  split_and!; [|done| |by eauto 6|].
  - unfold Router_Get. simpl. rewrite Hl. cbn [mbind res_bind]. rewrite Hs, Hget by done.
    rewrite Ht, String.eqb_refl. simpl. rewrite Hn, Hx. by destruct (result_fields r path (res_Value x) true) as [_ ->].
  - apply resolve_leaf_inv in Hl as (Hparse & Hres & _). unfold IsState. rewrite Hparse.
    cbn [mbind res_bind]. by rewrite Hres.
  - intros d q Hd Hq. rewrite Hget by done.
    destruct (target ds d), (String.eqb_spec path q); simpl; try done. by destruct Hq.
Qed.

Abbreviation mtu_path := "interfaces/interface[name=eth0]/mtu".
Abbreviation mtu_result :=
  (mkResult mtu_path "1.3.6.1.2.1.2.2.1.4.2" (VUint32 9000) (Some TypeInteger) true).
Abbreviation mtu_set := (Router_Set default_router seeded_store 2 true Candidate mtu_path (VInt 9000)).

Lemma router_set_get_witness :
  mtu_set.1 = Ok mtu_result ∧ Router_Get default_router mtu_set.2 true Candidate mtu_path = Ok mtu_result.
Proof.
  assert (H : mtu_set.1 = Ok mtu_result) by (vm_compute; reflexivity).
  split; [exact H|].
  exact (proj1 (router_set_get _ _ _ _ _ _ _ _ (pair_eq _ _ H))).
Defined.

(** a management plane cannot write a state leaf. Set on a leaf that IsState marks
    fails with ErrReadOnly and changes nothing; any other failure of Set, whatever its
    cause, also leaves the store as it was. *)
Theorem router_set_refused r m now ctx ds path v :
  (∀ e m', Router_Set r m now ctx ds path v = (Err e, m') → m' = m) ∧
  (∀ segs n, resolve_leaf r path = Ok (segs, n) → IsState r path = true →
     Router_Set r m now true ds path v = (Err [RouterErrReadOnly], m)).
Proof.
  split.
  - intros e m'. unfold Router_Set. destruct ctx; simpl; [apply store_result_err|by intros [= _ <-]].
  - intros segs n Hl Hs. unfold Router_Set, Convert, convert. simpl. rewrite Hl. simpl.
    apply resolve_leaf_inv in Hl as (Hp & Hr & _). unfold IsState in Hs. rewrite Hp in Hs.
    cbn [mbind res_bind] in Hs. rewrite Hr in Hs. by rewrite Hs.
Qed.

Lemma router_set_refused_witness :
  Router_Set default_router seeded_store 2 true Running "system-info/uptime" (VUint32 5)
    = (Err [RouterErrReadOnly], seeded_store).
Proof.
  assert (H : ∃ p, resolve_leaf default_router "system-info/uptime" = Ok p)
    by (eexists; vm_compute; reflexivity).
  destruct H as [[segs n] H].
  apply (proj2 (router_set_refused default_router seeded_store 2 true Running "system-info/uptime"
    (VUint32 5)) segs n H).
  vm_compute. reflexivity.
Defined.

(** C6: a committed configuration is a valid device. When the store validates with the
    router, a successful Commit leaves a Running datastore from which the router rebuilds
    a device that satisfies every rule of the model. *)
Theorem committed_device_valid r m now fs fault m' fs' :
  validator m = Some (Router_Validate (r_root r)) →
  Commit m now true fs fault = (Ok tt, m', fs') →
  ∃ d, Router_Snapshot r m' true Running = Ok d ∧ Device_ok d.
Proof.
  intros Hv [(e & ? & _)|(_ & _ & HV & _ & _ & [Hr _ _ _ _ _])]%Commit_cases; [done|].
  unfold validates in HV. rewrite Hv in HV. unfold Router_Validate in HV. simpl in HV.
  unfold Router_Snapshot, flatValues, Values. cbn [ctx_err check mbind res_bind].
  change (datastore m' Running) with (@Ok values (running m')). cbn [mbind res_bind].
  rewrite Hr, copyValues_id.
  destruct (deviceFromValues (r_root r) (candidate m)) as [d|]; simpl in *; [|done].
  exists d. split; [done|]. by apply Device_Validate_ok.
Qed.

Lemma committed_device_valid_witness :
  ∃ d, Router_Snapshot default_router (Commit seeded_store 3 true (mkFS ∅ ∅) None).1.2 true Running = Ok d
       ∧ Device_ok d.
Proof.
  apply (committed_device_valid default_router seeded_store 3 (mkFS ∅ ∅) None _
    (Commit seeded_store 3 true (mkFS ∅ ∅) None).2).
  - reflexivity.
  - apply triple_eq. vm_compute. reflexivity.
Defined.
