(* ===== verification/Rebuild.v ===== *)
(** * What the rebuilt device shows of a datastore ([internal/router/hydrate.go])

    Two behaviours of the rebuild that the comments of the source do not announce,
    evaluated on the boot template. *)

From S2P Require Import Prelude GoStrings GoFloat GoValue GoNet Persist Store Path Model Reflect Reflected Hydrate Schema Oid Router.

(** The modulation profiles of the first interface of a device, in their order. *)
Definition profile_ids (d : Device) : list Z :=
  match dev_Interfaces d with
  | i :: _ => match if_RadioLink i with Some l => mp_ID <$> rl_Profiles l | None => [] end
  | [] => []
  end.

(** The instances of a nested list are collected under the path without predicates and
    looked up under the path with them, so the template's entries are pruned and appended
    again in the lexicographic order of their paths: the twelve profiles of a freshly
    seeded device come back as 10, 11, 12, 1, 2, ... *)
Example rebuild_profile_order :
  profile_ids DefaultDevice = [1; 2; 3; 4; 5; 6; 7; 8; 9; 10; 11; 12]%Z ∧
  match deviceFromValues DefaultDevice (template_values DefaultDevice) with
  | Ok d => profile_ids d = [10; 11; 12; 1; 2; 3; 4; 5; 6; 7; 8; 9]%Z
  | Err _ => False
  end.
Proof. split; vm_compute; reflexivity. Qed.

(** A key predicate on a node that is no list is ignored by [resolve] and [assignPath]
    but kept in the stored path, while [Children] refuses it: a write to
    system-info[x=y]/name lands beside system-info/name and overrides it in every
    snapshot. *)
Example phantom_predicate :
  Children (r_schema default_router) "system-info[x=y]" = Err [RouterErrInvalidPath] ∧
  match Convert default_router "system-info[x=y]/name" (VString "other") with
  | Ok x => res_Path x = "system-info[x=y]/name" ∧
      match deviceFromValues DefaultDevice
              (<[res_Path x := res_Value x]> (template_values DefaultDevice)) with
      | Ok d => si_Name (dev_SystemInfo d) = "other"
      | Err _ => False
      end
  | Err _ => False
  end.
Proof. split; [vm_compute; reflexivity|]. vm_compute. split; reflexivity. Qed.
