(* ===== verification/Snmp.v ===== *)
(** * The SNMP object index under concurrent writes ([internal/router/router.go])

    [Router.Bindings] memoizes the object index per datastore generation, and the store
    may be written between its two reads.  A history interleaves store calls with
    requests; the properties relate each answer to the values of the store, and the OID
    indexes of [New] to the object table. *)

From S2P Require Import Prelude GoStrings GoFloat GoValue GoNet Persist Store Path Model Reflect Reflected Hydrate Schema Oid Router.

(** ** Histories *)

(** A store call, or a request for the bindings of [ds] during which the calls [between]
    run after the generation is read and before the values are. *)
Inductive request : Type :=
  | RCall (c : StoreCall)
  | RBindings (ds : Datastore) (between : list StoreCall).

Definition request_calls (q : request) : nat :=
  match q with RCall _ => 1 | RBindings _ between => length between end.

(** The memories at the two reads of each request, with its answer. *)
Record answer : Type := mkAnswer {
  an_ds : Datastore; an_before : Memory; an_after : Memory; an_result : res (list Binding);
}.

Fixpoint serve (r : Router) (s : Memory * FS) (cache : bindingCache) (qs : list request) : list answer :=
  match qs with
  | [] => []
  | RCall c :: qs => serve r (after s c) cache qs
  | RBindings ds between :: qs =>
      let s' := foldl after s between in
      let '(a, cache') := Bindings r cache s.1 s'.1 true ds in
      mkAnswer ds s.1 s'.1 a :: serve r s' cache' qs
  end.

Definition truthful (r : Router) (a : answer) : Prop :=
  ∀ b, an_result a = Ok b →
    bindings_of r (an_before a) true (an_ds a) = Ok b ∨ bindings_of r (an_after a) true (an_ds a) = Ok b.

(** ** The cache invariant *)

(** The cache was filled from a memory of the history, after a read of the generation it
    records; [n] bounds the calls made since that read. *)
Definition cache_ok (r : Router) (s : Memory * FS) (cache : bindingCache) (n : nat) : Prop :=
  bc_ds cache = "" ∨
  bc_ds cache ∈ [Running; Candidate; Startup] ∧
  ∃ s0 cs cs', in_u 64 (gen s0.1 (bc_ds cache)) ∧ gen s0.1 (bc_ds cache) = bc_generation cache ∧
    bindings_of r (foldl after s0 cs).1 true (bc_ds cache) = Ok (bc_bindings cache) ∧
    s = foldl after s0 (cs ++ cs') ∧ length (cs ++ cs') ≤ n.

Lemma cache_ok_more r s cache n cs : cache_ok r s cache n → cache_ok r (foldl after s cs) cache (n + length cs).
Proof.
  intros [H|(Hd & s0 & c1 & c2 & Hg & He & Hb & -> & Hn)]; [by left|right]. split; [done|].
  exists s0, c1, (c2 ++ cs). split_and!; [done|done|done| |].
  - by rewrite app_assoc, (foldl_app _ (c1 ++ c2)).
  - rewrite app_assoc, length_app. lia.
Qed.

Lemma bindings_of_ext r m m' ctx ds :
  datastore m ds = datastore m' ds → bindings_of r m ctx ds = bindings_of r m' ctx ds.
Proof. unfold bindings_of, flatValues, Values. by intros ->. Qed.

Lemma Bindings_cases r cache m m' ds a cache' :
  Bindings r cache m m' true ds = (a, cache') →
  (∃ e, a = Err e ∧ cache' = cache) ∨
  (ds ∈ [Running; Candidate; Startup] ∧
   ((a = Ok (bc_bindings cache) ∧ cache' = cache ∧ bc_ds cache = ds ∧ bc_generation cache = gen m ds) ∨
    (∃ b, a = Ok b ∧ bindings_of r m' true ds = Ok b ∧ cache' = mkCache ds (gen m ds) b))).
Proof.
  unfold Bindings, Generation. cbn [ctx_err check mbind res_bind].
  destruct (datastore m ds) as [vs|] eqn:Hds; cbn [mbind res_bind]; [|intros [= <- <-]; left; eauto].
  fold (gen m ds).
  assert (ds ∈ [Running; Candidate; Startup]) as Hd.
  { apply datastore_ok in Hds as [[-> _]|[[-> _]|[-> _]]]; by_decide. }
  destruct (String.eqb_spec (bc_ds cache) ds) as [He|He]; cbn [andb].
  1: destruct (Z.eqb_spec (bc_generation cache) (gen m ds)) as [Hg|Hg].
  1: intros [= <- <-]; right; split; [done|]; left; done.
  all: destruct (bindings_of r m' true ds) as [b|] eqn:Eb; intros [= <- <-]; [right|left; by eauto].
  all: split; [done|]; right; eauto.
Qed.

(** ** Serving *)

Lemma serve_truthful r qs : ∀ s cache n,
  cache_ok r s cache n → (∀ d, d ∈ [Running; Candidate; Startup] → in_u 64 (gen s.1 d)) →
  (Z.of_nat (n + sum_list_with request_calls qs) < 2 ^ 64)%Z →
  Forall (truthful r) (serve r s cache qs).
Proof.
  induction qs as [|[c|ds between] qs IH]; intros s cache n Hc Hg Hn; [constructor| |].
  - cbn [serve]. change (after s c) with (foldl after s [c]).
    apply (IH _ _ (n + 1)).
    + by apply (cache_ok_more r s cache n [c]).
    + intros d Hd. destruct s as [m fs]. by apply run_generation_range, Hg.
    + simpl in Hn. lia.
  - cbn [serve]. destruct (Bindings r cache s.1 (foldl after s between).1 true ds) as [a cache'] eqn:E.
    simpl in Hn.
    assert (∀ d, d ∈ [Running; Candidate; Startup] → in_u 64 (gen (foldl after s between).1 d)) as Hg'.
    { intros d Hd. destruct s as [m fs]. by apply run_generation_range, Hg. }
    apply Bindings_cases in E as [(e & -> & ->)|(Hd & [(-> & -> & Hds & Hgen)|(b & -> & Hb & ->)])].
    + constructor; [by intros b|]. apply (IH _ _ (n + length between)); [by apply cache_ok_more|done|lia].
    + constructor; [|apply (IH _ _ (n + length between)); [by apply cache_ok_more|done|lia]].
      intros b [= <-]. left. simpl.
      destruct Hc as [Hc|(_ & [m0 fs0] & cs & cs' & Hg0 & He & Hb & -> & Hlen)].
      { rewrite Hc in Hds. subst ds. exfalso. revert Hd. by_decide. }
      rewrite Hds in *. rewrite <- Hb. apply bindings_of_ext, same_generation_same_values; try done; [lia|by rewrite <- Hgen, <- He].
    + constructor; [intros b' [= <-]; by right|].
      apply (IH _ _ (length between)); [|done|lia]. right. split; [done|].
      exists s, between, []. rewrite app_nil_r. split_and!; try done. by apply Hg.
Qed.

(** ** Properties *)

(** C12: the memoized SNMP index never serves stale data. Whatever store calls are
    interleaved with the requests, even between the two reads one request makes of the
    store, each answer is exactly the index recomputed from the values the datastore held
    when the request started or when it finished.  The bound on the number of calls is
    the 64-bit generation counter's. *)
Theorem bindings_cache_coherent r file v f fs qs :
  (Z.of_nat (sum_list_with request_calls qs) < 2 ^ 64)%Z →
  Forall (truthful r) (serve r (NewMemory file v f, fs) empty_cache qs).
Proof.
  intros Hn. apply (serve_truthful r qs _ _ 0); [by left| |done].
  intros d _. unfold gen. simpl. by rewrite lookup_empty.
Qed.

Abbreviation poll := (RBindings Running []).

Lemma bindings_cache_coherent_witness :
  Forall (truthful default_router)
    (serve default_router (NewMemory "" None None, mkFS ∅ ∅) empty_cache
      [poll; RCall (mkCall (SOSet Running "system-info/name" (VString "n")) true 3 None); poll; poll]).
Proof. apply bindings_cache_coherent. vm_compute. reflexivity. Defined.

(** ** The order of the object table *)

(** The numbers of a dotted text. *)
Definition nums (s : string) : option (list Z) := mapM Atoi (SplitByte s ".").

Lemma nums_app a b na nb : nums a = Some na → nums b = Some nb → nums (a +:+ "." +:+ b) = Some (na ++ nb).
Proof.
  unfold nums. intros Ha%mapM_Some Hb%mapM_Some. apply mapM_Some.
  change ("." +:+ b) with (String "." b). rewrite SplitByte_cut. by apply Forall2_app.
Qed.

(** A dotted number has no leading dot for [TrimPrefix] to drop. *)
Lemma oid_numbers_nums s n : nums s = Some n → oid_numbers s = Some n.
Proof.
  unfold oid_numbers. intros H. assert (trim_dot s = s) as ->; [|done].
  unfold trim_dot. destruct s as [|a s]; [done|]. destruct (HasPrefix (String a s) ".") eqn:Hp; [|done].
  exfalso. change "." with (String "." "") in Hp. rewrite HasPrefix_head in Hp.
  apply Ascii.eqb_eq in Hp as <-. unfold nums in H. cbn [SplitByte Ascii.eqb] in H. done.
Qed.

Lemma Itoa_nat z : (0 ≤ z)%Z → Itoa z = FormatUint z.
Proof. intros Hz. unfold Itoa, FormatUint. by destruct z. Qed.

Lemma Atoi_Itoa z : (0 ≤ z < 2 ^ 63)%Z → Atoi (Itoa z) = Some z.
Proof.
  intros Hz. rewrite Itoa_nat by lia. unfold Atoi, ParseInt, FormatUint.
  assert (∀ c s, pretty (Z.to_N z) = String c s → c ≠ "+"%char ∧ c ≠ "-"%char) as Hsign.
  { intros c s E. split; intros ->.
    - pose proof (pretty_N_no_byte (Z.to_N z) "+" eq_refl) as H. by rewrite E in H.
    - pose proof (pretty_N_no_byte (Z.to_N z) "-" eq_refl) as H. by rewrite E in H. }
  pose proof (parse_digits_pretty (Z.to_N z)) as Hp.
  destruct (pretty (Z.to_N z)) as [|c s] eqn:E; [by apply pretty_N_not_empty in E|].
  destruct (Hsign c s eq_refl) as [H1 H2].
  assert (match String c s with String "+" s' => s' | String "-" s' => s' | _ => String c s end = String c s) as ->
    by (destruct c as [[] [] [] [] [] [] [] []]; done).
  assert (match String c s with String "-" _ => true | _ => false end = false) as ->
    by (destruct c as [[] [] [] [] [] [] [] []]; done).
  rewrite Hp. cbn [mbind option_bind]. rewrite Z2N.id by lia.
  change (2 ^ (64 - 1))%Z with (2 ^ 63)%Z. destruct (Z.ltb_spec z (2 ^ 63)); [done|lia].
Qed.

Lemma nums_Itoa z : (0 ≤ z < 2 ^ 63)%Z → nums (Itoa z) = Some [z].
Proof.
  intros Hz. unfold nums. rewrite SplitByte_none.
  - simpl. by rewrite Atoi_Itoa.
  - rewrite Itoa_nat by lia. by apply FormatUint_no_byte.
Qed.

Lemma nums_macInstance text : macInstance text ≠ "" → is_Some (nums (macInstance text)).
Proof.
  unfold macInstance. destruct (ParseMAC text) as [address|] eqn:E; [|done].
  destruct (Nat.eqb_spec (length address) 6) as [Hl|]; [|done]. intros _.
  apply ParseMAC_spec in E as [_ Hr]. exists (Z.of_N <$> address). unfold nums.
  rewrite (Split_Join _ "."); [|by destruct address|].
  - apply mapM_Some. clear Hl. induction Hr as [|o l Ho _ IH]; [by constructor|]. rewrite !fmap_cons. constructor; [|done].
    apply Atoi_Itoa. lia.
  - apply Forall_fmap. eapply Forall_impl; [done|]. intros o Ho. simpl.
    rewrite Itoa_nat by lia. by apply FormatUint_no_byte.
Qed.

Lemma rules_numeric : Forall (λ r, is_Some (nums (ru_oid r))) objectRules.
Proof. by_decide. Qed.

(** A rule's OID with a numeric instance is numeric. *)
Lemma numeric_rule r idx path : r ∈ objectRules → is_Some (nums idx) →
  numeric (rule_object r (ru_oid r +:+ "." +:+ idx) path).
Proof.
  intros Hr [n Hn]. pose proof rules_numeric as H. rewrite Forall_forall in H.
  destruct (H r Hr) as [m Hm]. exists (m ++ n). simpl. by apply oid_numbers_nums, nums_app.
Qed.

(** What the types bound: an interface index is an int, a VLAN id a uint16. *)
Definition indexable (root : Device) : Prop :=
  (Z.of_nat (length (dev_Interfaces root)) < 2 ^ 62)%Z ∧ Forall (λ v, in_u 16 (vl_ID v)) (dev_VLANs root).

Lemma table_numeric root kind prefix keyed :
  (∀ key, key ∈ tableKeys root kind → keyed key ≠ "" → is_Some (nums (keyed key))) →
  Forall numeric (tableObjects root kind prefix keyed).
Proof.
  intros Hk. apply Forall_forall. intros o Ho. unfold tableObjects in Ho.
  apply list_elem_of_bind in Ho as (key & Ho & Hkey). simpl in Ho.
  destruct (String.eqb_spec (keyed key) ""); [by apply elem_of_nil in Ho|].
  apply list_elem_of_fmap in Ho as (r & -> & [_ Hr]%list_elem_of_filter).
  apply numeric_rule; auto.
Qed.

Lemma interface_key_numeric root name :
  indexable root → interface_index_key root name ≠ "" → is_Some (nums (interface_index_key root name)).
Proof.
  intros [Hl _]. unfold interface_index_key, interfaceIndexOf.
  destruct (list_find _ _) as [[i x]|] eqn:E; [|done].
  apply list_find_Some in E as (E & _). apply lookup_lt_Some in E.
  destruct (Z.ltb_spec 0 (Z.of_nat i + 1)); [|done]. intros _. rewrite nums_Itoa by lia. eauto.
Qed.

Lemma interfaces_numeric l : ∀ i exposed, (0 ≤ i)%Z → (i + Z.of_nat (length l) < 2 ^ 63)%Z →
  Forall numeric (interface_objects i exposed l).
Proof.
  induction l as [|iface l IH]; intros i exposed Hi Hl; cbn [interface_objects]; [constructor|].
  cbn [length] in Hl. assert (is_Some (nums (Itoa (i + 1)))) as Hn by (rewrite nums_Itoa by lia; eauto).
  apply Forall_app. split; [|apply Forall_app; split].
  - constructor; [|done]. destruct Hn as [n Hn].
    eexists. apply oid_numbers_nums. simpl. apply nums_app; [|exact Hn]. vm_compute. reflexivity.
  - apply Forall_forall. intros o (r & Ho & Hr)%list_elem_of_bind.
    destruct (ru_scope r); try by apply elem_of_nil in Ho.
    + apply list_elem_of_singleton in Ho as ->. by apply numeric_rule.
    + destruct (_ || _); [by apply elem_of_nil in Ho|]. apply list_elem_of_singleton in Ho as ->.
      apply (numeric_rule r "0"); [done|]. by_decide.
  - apply IH; lia.
Qed.

Lemma raw_numeric root : indexable root → Forall numeric (raw_objects root).
Proof.
  intros Hix. unfold raw_objects. repeat (apply Forall_app; split).
  - apply Forall_fmap, Forall_forall. intros r [_ Hr]%list_elem_of_filter.
    apply (numeric_rule r "0"); [done|]. by_decide.
  - constructor; [|done]. by_decide.
  - apply interfaces_numeric; [done|]. destruct Hix. lia.
  - apply table_numeric. intros key _. by apply interface_key_numeric.
  - apply table_numeric. intros key _. apply nums_macInstance.
  - apply table_numeric. intros key Hkey _. apply list_elem_of_fmap in Hkey as (v & -> & Hv).
    destruct Hix as [_ Hix]. rewrite Forall_forall in Hix. specialize (Hix v Hv). unfold in_u in Hix.
    rewrite nums_Itoa by lia. eauto.
  - apply table_numeric. intros key _. by apply interface_key_numeric.
Qed.

(** the SNMP object table is in walk order. For every device, [buildObjects] returns
    the objects of its scalars, interfaces and tables, each of them once, and in the order
    of the numbers of their OIDs, which is the order a GETNEXT walk has to follow. *)
Theorem object_table_sorted root :
  indexable root →
  buildObjects root ≡ₚ raw_objects root ∧
  StronglySorted (λ a b, ∃ na nb, oid_numbers (ob_oid a) = Some na ∧ oid_numbers (ob_oid b) = Some nb ∧
    lex na nb ≠ Gt) (buildObjects root).
Proof.
  intros Hix. unfold buildObjects. split; [apply sort_objects_perm|].
  pose proof (raw_numeric root Hix) as Hn.
  pose proof (sort_objects_sorted _ Hn) as Hs.
  rewrite <- (sort_objects_perm (raw_objects root)) in Hn.
  induction Hs as [|o l Hs IH Ho]; [constructor|]. apply Forall_cons in Hn as [[n Hno] Hn].
  constructor; [by apply IH|]. rewrite Forall_forall in Ho, Hn |- *. intros x Hx.
  destruct (Hn x Hx) as [nx Hnx]. exists n, nx. split_and!; [done|done|].
  rewrite <- (CompareOID_lex _ _ _ _ Hno Hnx). by apply Ho.
Qed.

Lemma object_table_sorted_witness :
  indexable DefaultDevice ∧ buildObjects DefaultDevice ≡ₚ raw_objects DefaultDevice.
Proof.
  assert (H : indexable DefaultDevice) by (split; [vm_compute; reflexivity|repeat constructor; vm_compute; discriminate]).
  split; [exact H|]. exact (proj1 (object_table_sorted DefaultDevice H)).
Defined.

(** ** The indexes of [New] *)

(** What the two maps hold after indexing the objects [done_]. *)
Definition indexed (done_ : list indexedObject) (r : Router) : Prop :=
  NoDup (ob_oid <$> done_) ∧
  (∀ oid o, r_byOID r !! oid = Some o ↔ o ∈ done_ ∧ ob_oid o = oid) ∧
  (∀ path o, r_byPath r !! path = Some o →
     o ∈ done_ ∧ ob_path o = path ∧ path ≠ "" ∧
     (ob_decode o = None → ∀ o', o' ∈ done_ → ob_path o' = path → ob_decode o' = None)) ∧
  (∀ o, o ∈ done_ → ob_path o ≠ "" → is_Some (r_byPath r !! ob_path o)).

Lemma add_path_cases m o path :
  add_path m o !! path = m !! path ∧ (path ≠ ob_path o ∨ ob_path o = "" ∨
    ∃ x, m !! path = Some x ∧ ob_decode x ≠ None) ∨
  add_path m o !! path = Some o ∧ path = ob_path o ∧ path ≠ "" ∧
    (∀ x, m !! path = Some x → ob_decode x = None).
Proof.
  unfold add_path. destruct (String.eqb_spec (ob_path o) ""); [left; auto|].
  destruct (decide (path = ob_path o)) as [->|Hne].
  - destruct (m !! ob_path o) as [x|] eqn:E; [destruct (ob_decode x) eqn:Ed|]; rewrite ?lookup_insert_eq.
    + left. split; [done|]. right. right. exists x. by rewrite Ed.
    + right. split_and!; try done. by intros y [= <-].
    + right. by split_and!.
  - left. split; [|by left]. destruct (m !! ob_path o) as [x|]; [destruct (ob_decode x)|];
      by rewrite ?lookup_insert_ne by done.
Qed.

Lemma index_step done_ r o :
  indexed done_ r → r_byOID r !! ob_oid o = None →
  indexed (done_ ++ [o]) (mkRouter (r_root r) (r_schema r) (<[ob_oid o := o]> (r_byOID r)) (add_path (r_byPath r) o)).
Proof.
  intros (Hnd & Ho & Hp & Hex) Hnew.
  assert (∀ x, x ∈ done_ → ob_oid x ≠ ob_oid o) as Hfresh.
  { intros x Hx E. specialize (proj2 (Ho (ob_oid o) x) (conj Hx E)). by rewrite Hnew. }
  split_and!; simpl.
  - rewrite fmap_app. apply NoDup_app. split_and!; [done| |apply NoDup_singleton].
    intros x (y & -> & Hy)%list_elem_of_fmap ?%list_elem_of_singleton. by apply (Hfresh y).
  - intros oid x. destruct (decide (oid = ob_oid o)) as [->|Hne].
    + rewrite lookup_insert_eq. split.
      * intros [= <-]. split; [set_solver|done].
      * intros [[Hx|Hx%list_elem_of_singleton]%elem_of_app He]; [by apply Hfresh in Hx|by subst].
    + rewrite lookup_insert_ne by done. rewrite Ho. set_solver.
  - intros path x. destruct (add_path_cases (r_byPath r) o path) as [[-> Hc]|(-> & -> & Hne & Hold)].
    + intros H. destruct (Hp path x H) as (Hx & Hpx & Hne & Hdec). split_and!; [set_solver|done|done|].
      intros Hd o' [Ho'|Ho'%list_elem_of_singleton]%elem_of_app Hp'; [by apply Hdec|]. subst o'.
      destruct Hc as [Hc|[Hc|(y & Hy & Hdy)]]; [congruence|congruence|].
      rewrite H in Hy. by injection Hy as ->.
    + intros [= <-]. split_and!; [set_solver|done|done|].
      intros Hd o' [Ho'|Ho'%list_elem_of_singleton]%elem_of_app Hp'; [|by subst].
      destruct (Hex o' Ho') as [y Hy]; [by rewrite Hp'|]. rewrite Hp' in Hy.
      destruct (Hp _ _ Hy) as (_ & _ & _ & Hdec). apply Hdec; [by apply Hold|done|done].
  - intros x Hx Hne. destruct (add_path_cases (r_byPath r) o (ob_path x)) as [[-> Hc]|(-> & _)]; [|eauto].
    apply elem_of_app in Hx as [Hx|Hx%list_elem_of_singleton]; [by apply Hex|]. subst x.
    destruct Hc as [Hc|[Hc|(y & Hy & _)]]; [done|done|eauto].
Qed.

Lemma index_objects_indexed l : ∀ done_ r r', indexed done_ r → index_objects l r = Ok r' →
  indexed (done_ ++ l) r' ∧ r_root r' = r_root r ∧ r_schema r' = r_schema r.
Proof.
  induction l as [|o l IH]; intros done_ r r' Hi; simpl.
  - intros [= <-]. by rewrite app_nil_r.
  - destruct (r_byOID r !! ob_oid o) eqn:E; [done|]. intros H.
    apply (IH (done_ ++ [o])) in H; [|by apply index_step]. by rewrite <- app_assoc in H.
Qed.

Lemma indexed_nil root schema : indexed [] (mkRouter root schema ∅ ∅).
Proof.
  split; [constructor|]. split; [|split].
  - intros oid o. simpl. rewrite lookup_empty. split; [done|by intros [?%elem_of_nil _]].
  - intros path o. simpl. by rewrite lookup_empty.
  - intros o Ho. by apply elem_of_nil in Ho.
Qed.

(** a router that [New] builds translates both ways. No two objects share an OID; an
    OID leads to its object and nothing else; every object's path leads to an object with
    that path, and to one with a decoder when the path has one, so a writable leaf that
    several MIB objects expose keeps the mapping that can decode an SNMP SET. *)
Theorem new_router_indexed root r :
  NewRouter root = Ok r → r_root r = root ∧ indexed (buildObjects root) r ∧
  (∀ o p, o ∈ buildObjects root → Parse (ob_path o) = Ok p → HasPrefix (ob_oid o) "." = false →
     PathForOID r (ob_oid o) = Some p ∧
     ∃ o', o' ∈ buildObjects root ∧ ob_path o' = ob_path o ∧ OIDForPath r (ob_path o) = Some (ob_oid o')).
Proof.
  unfold NewRouter. destruct (buildSchema device_type) as [schema|]; cbn [mbind res_bind]; [|done]. intros H.
  apply (index_objects_indexed _ []) in H as (Hi & Hr & _); [|apply indexed_nil].
  split_and!; [done|done|]. intros o p Ho Hp Hdot.
  change ([] ++ buildObjects root) with (buildObjects root) in Hi.
  destruct Hi as (_ & Hoid & Hpath & Hex).
  assert (ob_path o ≠ "") as Hne by (intros E; by rewrite E in Hp).
  split.
  - unfold PathForOID, trim_dot. rewrite Hdot, (proj2 (Hoid _ o)) by done.
    destruct (String.eqb_spec (ob_path o) ""); [done|]. by rewrite Hp.
  - destruct (Hex o Ho Hne) as [o' Ho']. destruct (Hpath _ _ Ho') as (H1 & H2 & _).
    exists o'. split_and!; [done|done|]. unfold OIDForPath. rewrite Hp.
    apply Parse_inv in Hp as [-> _]. by rewrite Ho'.
Qed.

Lemma new_router_indexed_witness :
  ∃ r, NewRouter DefaultDevice = Ok r ∧ r_root r = DefaultDevice.
Proof.
  assert (H : is_ok (NewRouter DefaultDevice) = true) by (vm_compute; reflexivity).
  destruct (is_ok_inv _ H) as [r E].
  exists r. split; [exact E|]. exact (proj1 (new_router_indexed DefaultDevice r E)).
Defined.
