(* ===== verification/Ops.v ===== *)
(** * NETCONF operation parameters ([internal/netconf/ops])

    The element tree of [xmltree.go] (local names; the XML tokenizer of the standard
    library that fills it is not modelled), the error constructors of
    [internal/datatree/errors.go] and the readers of the <source>, <target> and <commit>
    parameters. *)

From S2P Require Import Prelude GoStrings GoFloat GoValue Persist Store.

(** ** Errors *)

Inductive errorType : Set := TypeRPC | TypeProtocol | TypeApplication.

(** Every constructor of [errors.go] fixes the type of its tag. *)
Definition type_of_tag (t : errorTag) : errorType :=
  match t with
  | TagMalformedMessage | TagTooBig | TagMissingAttribute => TypeRPC
  | TagOperationFailed => TypeApplication
  | _ => TypeProtocol
  end.

Definition newError {A} (tag : errorTag) (path : string) : res A := Err [OpError tag path false].
Definition UnknownElement {A} : res A := newError TagUnknownElement "".
Definition MissingElement {A} : res A := newError TagMissingElement "".
Definition InvalidValue {A} : res A := newError TagInvalidValue "".
Definition InvalidValueAt {A} (path : string) : res A := newError TagInvalidValue path.
Definition AccessDenied {A} (path : string) : res A := newError TagAccessDenied path.
Definition Denied {A} : res A := newError TagAccessDenied "".
Definition DataExists {A} (path : string) : res A := newError TagDataExists path.
Definition DataMissing {A} (path : string) : res A := newError TagDataMissing path.
Definition NotSupported {A} : res A := newError TagOperationNotSupported "".
(** [Failed] keeps the text of the error only. *)
Definition Failed {A} (e : error) : res A := newError TagOperationFailed "".
Definition ValidationError {A} (e : error) : res A := Err [OpError TagInvalidValue "" true].

(** [AsError]: the first data-tree error of the chain. *)
Fixpoint AsError (e : error) : option sentinel :=
  match e with
  | [] => None
  | OpError t p v :: _ => Some (OpError t p v)
  | _ :: e => AsError e
  end.

(** [fromDataTree]. *)
Definition fromDataTree {A} (e : error) : res A :=
  match AsError e with Some s => Err [s] | None => Failed e end.

(** ** Elements *)

Inductive Element : Set :=
  | Elem (space name : string) (attrs : list (string * string)) (text : string) (children : list Element).

Definition el_name (e : Element) : string := let 'Elem _ n _ _ _ := e in n.
Definition el_attrs (e : Element) : list (string * string) := let 'Elem _ _ a _ _ := e in a.
Definition el_text (e : Element) : string := let 'Elem _ _ _ t _ := e in t.
Definition el_children (e : Element) : list Element := let 'Elem _ _ _ _ c := e in c.

(** [NewElement] and [Append]. *)
Definition NewElement (name : string) : Element := Elem "" name [] "" [].
Definition Append (e : Element) (children : list Element) : Element :=
  let 'Elem sp n a t c := e in Elem sp n a t (c ++ children).

Definition Child (e : Element) (name : string) : option Element :=
  snd <$> list_find (λ c, el_name c = name) (el_children e).
Definition ChildrenNamed (e : Element) (name : string) : list Element :=
  filter (λ c, el_name c = name) (el_children e).
Definition Attr (e : Element) (name : string) : option string :=
  (λ x, x.2.2) <$> list_find (λ a, a.1 = name) (el_attrs e).
Definition TrimmedText (e : Element) : string := TrimSpace (el_text e).

(** ** Documents

    The tokens of package [encoding/xml]; comments, directives and processing instructions
    are [TokenOther].  A token stream ends with the end of the input, or with the error the
    tokenizer reports there. *)
Inductive token : Set :=
  | StartElement (space name : string) (attrs : list (string * string))
  | EndElement (name : string)
  | CharData (text : string)
  | TokenOther.

(** [ParseElement]: [stack] are the open elements, innermost first; the Go code shares them
    with the tree by pointer, the model attaches an element to its parent when it closes
    (and the ones still open when the input ends). *)
Definition close (child parent : Element) : Element := Append parent [child].
Definition close_all (stack : list Element) : option Element :=
  match stack with [] => None | top :: rest => Some (foldl close top rest) end.
Definition add_text (e : Element) (text : string) : Element :=
  let 'Elem sp n a t c := e in Elem sp n a (t +:+ text) c.

Fixpoint parse_tokens (tokens : list token) (fail : option error) (root : option Element) (stack : list Element)
    : res Element :=
  match tokens with
  | [] =>
      match fail with
      | Some e => Err e
      | None =>
          match close_all stack, root with
          | Some e, _ | None, Some e => Ok e
          | None, None => Err [Anon "netconf: empty document"]
          end
      end
  | StartElement sp n a :: tokens =>
      match root, stack with
      | Some _, [] => Err [Anon "netconf: multiple root elements"]
      | _, _ => parse_tokens tokens fail root (Elem sp n a "" [] :: stack)
      end
  | EndElement n :: tokens =>
      match stack with
      | [] => Err [Anon "netconf: unexpected end element"]
      | [top] => parse_tokens tokens fail (Some top) []
      | top :: parent :: stack => parse_tokens tokens fail root (close top parent :: stack)
      end
  | CharData t :: tokens =>
      match stack with
      | [] => parse_tokens tokens fail root []
      | top :: stack => parse_tokens tokens fail root (add_text top t :: stack)
      end
  | TokenOther :: tokens => parse_tokens tokens fail root stack
  end.
Definition ParseElement (tokens : list token) (fail : option error) : res Element :=
  parse_tokens tokens fail None [].

(** [MarshalXML]: the tokens it encodes. *)
Fixpoint MarshalXML (e : Element) : list token :=
  let 'Elem sp n a t c := e in
  StartElement sp n a :: (if String.eqb t "" then [] else [CharData t]) ++ flat_map MarshalXML c ++ [EndElement n].

(** ** Datastores *)

(** [datastoreElement]. *)
Definition datastoreElement (container : Element) : res Datastore :=
  match el_children container with
  | [] => MissingElement
  | [c] =>
      if String.eqb (el_name c) "running" then Ok Running
      else if String.eqb (el_name c) "candidate" then Ok Candidate
      else if String.eqb (el_name c) "startup" then Ok Startup
      else UnknownElement
  | _ => InvalidValue
  end.

(** [sourceDatastore] and [targetDatastore]. *)
Definition sourceDatastore (operation : Element) : res Datastore :=
  match Child operation "source" with
  | None => MissingElement
  | Some source => datastoreElement source
  end.

Definition targetDatastore (operation : Element) : res Datastore :=
  match Child operation "target" with
  | None => MissingElement
  | Some target =>
      ds ← datastoreElement target;
      if String.eqb ds Startup then NotSupported else Ok ds
  end.

(** [checkEditOptions]. *)
Definition checkEditOptions (operation : Element) : res unit :=
  _ ← match Child operation "test-option" with
      | None => Ok tt
      | Some e =>
          let text := TrimmedText e in
          if bool_decide (text ∈ [""; "test-then-set"; "set"]) then Ok tt
          else if String.eqb text "test-only" then NotSupported else InvalidValue
      end;
  match Child operation "error-option" with
  | None => Ok tt
  | Some e =>
      let text := TrimmedText e in
      if bool_decide (text ∈ [""; "stop-on-error"]) then Ok tt
      else if bool_decide (text ∈ ["continue-on-error"; "rollback-on-error"]) then NotSupported
      else InvalidValue
  end.

(** ** <commit> *)

Record commitParams : Set := mkParams { cp_confirmed : bool; cp_timeout : duration }.

(** 64-bit signed wrap-around of [time.Duration] arithmetic. *)
Definition i64 (z : Z) : Z := ((z + 2 ^ 63) mod 2 ^ 64 - 2 ^ 63)%Z.

Definition DefaultConfirmTimeout : duration := (600 * second)%Z.

(** [parseCommit]. *)
Definition parseCommit (operation : Element) : res commitParams :=
  _ ← match Child operation "source" with
      | None => Ok tt
      | Some source =>
          ds ← datastoreElement source;
          if String.eqb ds Candidate then Ok tt else NotSupported
      end;
  _ ← res_for ["persist"; "persist-id"] (λ name,
        match Child operation name with Some _ => NotSupported | None => Ok tt end);
  match Child operation "confirmed", Child operation "confirm-timeout" with
  | None, Some _ => MissingElement
  | None, None => Ok (mkParams false 0)
  | Some _, None => Ok (mkParams true DefaultConfirmTimeout)
  | Some _, Some timeout =>
      match Atoi (TrimmedText timeout) with
      | Some seconds =>
          if (seconds <=? 0)%Z then InvalidValue
          else Ok (mkParams true (i64 (seconds * second)))
      | None => InvalidValue
      end
  end.
