(* ===== verification/Confirmed.v ===== *)
(** * Confirmed commit ([internal/netconf/ops/confirmed_commit.go], [commit.go], [discard.go])

    A confirmed commit applies the candidate and arms a timer that restores the
    configuration of before unless a confirming commit arrives.  Three locks are involved
    (the store's, the [Confirmed] state's and the clock's), and the timer callback and the
    rollback run without the one that armed them.  The server state therefore holds,
    besides the store and the pending commit, what is in flight between two critical
    sections; each [action] is one critical section, and a history is any interleaving of
    the actions of all sessions. *)

From S2P Require Import Prelude GoStrings GoFloat GoValue Persist Store Event Ops.

(** ** State *)

(** [pendingCommit]: the rollback closure is [rollbackTo] of a snapshot, and the timer is
    identified by the commit's number. *)
Record pendingCommit : Set := mkPending {
  pc_seq : Z;
  pc_session : Z;
  pc_rollback : values;
}.

(** A confirmed commit that has taken its snapshot and not entered [Apply] yet. *)
Record commitRequest : Set := mkRequest {
  rq_session : Z;
  rq_timeout : duration;
  rq_snapshot : values;
}.

Record server : Type := mkServer {
  sv_mem : Memory;
  sv_fs : FS;
  sv_next : Z;
  sv_pend : option pendingCommit;
  sv_timers : gmap Z time;              (* active timers and their deadlines *)
  sv_fires : list Z;                    (* expired callbacks that have not run *)
  sv_rollbacks : list values;           (* rollbacks decided and not yet executed *)
  sv_requests : list commitRequest;
  sv_confirms : nat;                    (* plain commits applied and not yet confirming *)
  sv_events : list Event;               (* published, oldest first *)
}.

Definition set_store (s : server) (m : Memory) (fs : FS) : server :=
  mkServer m fs (sv_next s) (sv_pend s) (sv_timers s) (sv_fires s) (sv_rollbacks s) (sv_requests s)
    (sv_confirms s) (sv_events s).
Definition set_pend (s : server) (p : option pendingCommit) : server :=
  mkServer (sv_mem s) (sv_fs s) (sv_next s) p (sv_timers s) (sv_fires s) (sv_rollbacks s)
    (sv_requests s) (sv_confirms s) (sv_events s).
Definition set_timers (s : server) (t : gmap Z time) : server :=
  mkServer (sv_mem s) (sv_fs s) (sv_next s) (sv_pend s) t (sv_fires s) (sv_rollbacks s)
    (sv_requests s) (sv_confirms s) (sv_events s).
Definition set_fires (s : server) (l : list Z) : server :=
  mkServer (sv_mem s) (sv_fs s) (sv_next s) (sv_pend s) (sv_timers s) l (sv_rollbacks s)
    (sv_requests s) (sv_confirms s) (sv_events s).
Definition set_rollbacks (s : server) (l : list values) : server :=
  mkServer (sv_mem s) (sv_fs s) (sv_next s) (sv_pend s) (sv_timers s) (sv_fires s) l
    (sv_requests s) (sv_confirms s) (sv_events s).
Definition set_requests (s : server) (l : list commitRequest) : server :=
  mkServer (sv_mem s) (sv_fs s) (sv_next s) (sv_pend s) (sv_timers s) (sv_fires s) (sv_rollbacks s)
    l (sv_confirms s) (sv_events s).
Definition set_confirms (s : server) (n : nat) : server :=
  mkServer (sv_mem s) (sv_fs s) (sv_next s) (sv_pend s) (sv_timers s) (sv_fires s) (sv_rollbacks s)
    (sv_requests s) n (sv_events s).

(** [NewConfirmed] beside a store. *)
Definition new_server (m : Memory) (fs : FS) : server :=
  mkServer m fs 0 None ∅ [] [] [] 0 [].

(** ** Operations *)

(** [publishConfigChanged], with a bus; the timestamp is the bus's. *)
Definition publishConfigChanged (s : server) (reason : string) : server :=
  mkServer (sv_mem s) (sv_fs s) (sv_next s) (sv_pend s) (sv_timers s) (sv_fires s) (sv_rollbacks s)
    (sv_requests s) (sv_confirms s)
    (sv_events s ++ [mkEvent TypeConfigChanged "device" "" reason "" "" "" "" 0]).

(** [applyCommit]. *)
Definition applyCommit (s : server) (now : time) (ctx : context) (fault : option io_fault)
    (reason : string) : res unit * server :=
  match Commit (sv_mem s) now ctx (sv_fs s) fault with
  | (Ok _, m, fs) => (Ok tt, publishConfigChanged (set_store s m fs) reason)
  | (Err e, m, fs) =>
      (if errors_is e StoreErrValidation then InvalidValue else Failed e, set_store s m fs)
  end.

(** [Confirmed.Apply], under its lock. *)
Definition Apply (s : server) (now : time) (ctx : context) (fault : option io_fault)
    (req : commitRequest) : res unit * server :=
  if match sv_pend s with
     | Some p => negb (pc_session p =? rq_session req)%Z
     | None => false
     end
  then (Denied, s)
  else
    let '(r, s) := applyCommit s now ctx fault "confirmed-commit" in
    match r with
    | Err e => (Err e, s)
    | Ok _ =>
        let timeout := if (rq_timeout req <=? 0)%Z then DefaultConfirmTimeout else rq_timeout req in
        match sv_pend s with
        | Some p => (Ok tt, set_timers s (<[pc_seq p := (now + timeout)%Z]> (sv_timers s)))
        | None =>
            let seq := u64 (sv_next s + 1) in
            (Ok tt, mkServer (sv_mem s) (sv_fs s) seq
                      (Some (mkPending seq (rq_session req) (rq_snapshot req)))
                      (<[seq := (now + timeout)%Z]> (sv_timers s)) (sv_fires s) (sv_rollbacks s)
                      (sv_requests s) (sv_confirms s) (sv_events s))
        end
    end.

(** [Confirm] and [Close]: the timer is stopped and nothing is reverted. *)
Definition Confirm (s : server) : server :=
  match sv_pend s with
  | None => s
  | Some p => set_pend (set_timers s (delete (pc_seq p) (sv_timers s))) None
  end.
Definition Close (s : server) : server := Confirm s.

(** The critical section of [SessionEnded]; the rollback runs after it. *)
Definition SessionEnded (s : server) (session : Z) : server :=
  match sv_pend s with
  | None => s
  | Some p =>
      if (pc_session p =? session)%Z then
        set_rollbacks (set_pend (set_timers s (delete (pc_seq p) (sv_timers s))) None)
          (sv_rollbacks s ++ [pc_rollback p])
      else s
  end.

(** The critical section of [fire]. *)
Definition fire (s : server) (seq : Z) : server :=
  match sv_pend s with
  | None => s
  | Some p =>
      if (pc_seq p =? seq)%Z
      then set_rollbacks (set_pend s None) (sv_rollbacks s ++ [pc_rollback p])
      else s
  end.

(** [runRollback] of the closure that [rollbackTo] builds, with a context that is never
    cancelled. *)
Definition runRollback (s : server) (now : time) (fault : option io_fault) (snapshot : values)
    : res unit * server :=
  match Restore (sv_mem s) now true (sv_fs s) fault snapshot with
  | (Ok _, m, fs) => (Ok tt, publishConfigChanged (set_store s m fs) "confirmed-commit rollback")
  | (Err e, m, fs) => (Err e, set_store s m fs)
  end.

(** [DiscardChanges]. *)
Definition DiscardChanges (s : server) (now : time) (ctx : context) : res unit * server :=
  match Rollback (sv_mem s) now ctx with
  | (Ok _, m) => (Ok tt, set_store s m (sv_fs s))
  | (Err e, m) => (Failed e, set_store s m (sv_fs s))
  end.

Definition Pending (s : server) : bool := match sv_pend s with Some _ => true | None => false end.

(** The <commit> handler, when no other session interferes. *)
Definition commitConfirmed (s : server) (now : time) (ctx : context) (fault : option io_fault)
    (session : Z) (params : commitParams) : res unit * server :=
  match Snapshot (sv_mem s) ctx with
  | Err e => (Failed e, s)
  | Ok snapshot => Apply s now ctx fault (mkRequest session (cp_timeout params) snapshot)
  end.

Definition Commit_rpc (s : server) (now : time) (ctx : context) (fault : option io_fault)
    (session : Z) (operation : Element) : res unit * server :=
  match parseCommit operation with
  | Err e => (Err e, s)
  | Ok params =>
      if cp_confirmed params then commitConfirmed s now ctx fault session params
      else match applyCommit s now ctx fault "commit" with
           | (Err e, s) => (Err e, s)
           | (Ok _, s) => (Ok tt, Confirm s)
           end
  end.

(** ** Interleavings

    One action is one critical section of some session, timer or management plane. *)
Inductive action : Type :=
  | ASnapshot (session : Z) (timeout : duration) (ctx : context)
  | AApply (i : nat) (now : time) (ctx : context) (fault : option io_fault)
  | APlain (now : time) (ctx : context) (fault : option io_fault)
  | AConfirm
  | ASessionEnded (session : Z)
  | AExpire (seq : Z) (now : time)
  | AFire (i : nat)
  | ARollback (i : nat) (now : time) (fault : option io_fault)
  | AClose
  | AStore (c : StoreCall).

Definition remove_at {A} (i : nat) (l : list A) : list A := take i l ++ drop (S i) l.

(** [None]: the action is not enabled. *)
Definition exec (s : server) (a : action) : option server :=
  match a with
  | ASnapshot session timeout ctx =>
      match Snapshot (sv_mem s) ctx with
      | Ok vs => Some (set_requests s (sv_requests s ++ [mkRequest session timeout vs]))
      | Err _ => Some s
      end
  | AApply i now ctx fault =>
      req ← sv_requests s !! i;
      Some (Apply (set_requests s (remove_at i (sv_requests s))) now ctx fault req).2
  | APlain now ctx fault =>
      let '(r, s) := applyCommit s now ctx fault "commit" in
      Some (if is_ok r then set_confirms s (S (sv_confirms s)) else s)
  | AConfirm =>
      match sv_confirms s with
      | 0 => None
      | S n => Some (Confirm (set_confirms s n))
      end
  | ASessionEnded session => Some (SessionEnded s session)
  | AExpire seq now =>
      deadline ← sv_timers s !! seq;
      if (deadline <=? now)%Z
      then Some (set_fires (set_timers s (delete seq (sv_timers s))) (sv_fires s ++ [seq]))
      else None
  | AFire i =>
      seq ← sv_fires s !! i;
      Some (fire (set_fires s (remove_at i (sv_fires s))) seq)
  | ARollback i now fault =>
      vs ← sv_rollbacks s !! i;
      Some (runRollback (set_rollbacks s (remove_at i (sv_rollbacks s))) now fault vs).2
  | AClose => Some (Close s)
  | AStore c => let '(m, fs) := after (sv_mem s, sv_fs s) c in Some (set_store s m fs)
  end.

Fixpoint execs (s : server) (l : list action) : option server :=
  match l with
  | [] => Some s
  | a :: l => s ← exec s a; execs s l
  end.

(** ** The invariant

    Numbers are handed out in order, so a number in a timer or in flight is at most
    [sv_next]; and the pending commit always has a timer or a callback on its way. *)
Record inv (n : nat) (s : server) : Prop := {
  inv_next : (0 ≤ sv_next s ≤ Z.of_nat n)%Z;
  inv_timers : ∀ k d, sv_timers s !! k = Some d → (k ≤ sv_next s)%Z;
  inv_fires : Forall (λ k, k ≤ sv_next s)%Z (sv_fires s);
  inv_pend : ∀ p, sv_pend s = Some p →
    (pc_seq p ≤ sv_next s)%Z ∧ (is_Some (sv_timers s !! pc_seq p) ∨ pc_seq p ∈ sv_fires s);
}.

(** The four components the invariant reads. *)
Definition same_core (s s' : server) : Prop :=
  sv_next s' = sv_next s ∧ sv_pend s' = sv_pend s ∧ sv_timers s' = sv_timers s ∧ sv_fires s' = sv_fires s.

Lemma inv_core n n' s s' : inv n s → n ≤ n' → same_core s s' → inv n' s'.
Proof.
  intros [H1 H2 H3 H4] Hn (E1 & E2 & E3 & E4).
  split; rewrite ?E1, ?E2, ?E3, ?E4; try done. lia.
Qed.

Lemma applyCommit_core s now ctx fault reason r s' :
  applyCommit s now ctx fault reason = (r, s') → same_core s s' ∧
  sv_rollbacks s' = sv_rollbacks s ∧ sv_requests s' = sv_requests s.
Proof.
  unfold applyCommit. destruct (Commit _ _ _ _ _) as [[[u|e] m] fs]; by intros [= _ <-].
Qed.

Lemma runRollback_core s now fault vs : same_core s (runRollback s now fault vs).2.
Proof. unfold runRollback. by destruct (Restore _ _ _ _ _ _) as [[[u|e] m] fs]. Qed.

(** [Apply] refuses, fails, restarts the timer of the pending commit, or arms a new one. *)
Lemma Apply_cases s now ctx fault req r s' :
  Apply s now ctx fault req = (r, s') →
  (∃ e, r = Err e ∧ same_core s s') ∨
  (∃ d p, r = Ok tt ∧ sv_pend s = Some p ∧ pc_session p = rq_session req ∧ sv_next s' = sv_next s ∧
     sv_pend s' = Some p ∧ sv_timers s' = <[pc_seq p := d]> (sv_timers s) ∧ sv_fires s' = sv_fires s) ∨
  (∃ d, r = Ok tt ∧ sv_pend s = None ∧ sv_next s' = u64 (sv_next s + 1) ∧
     sv_pend s' = Some (mkPending (sv_next s') (rq_session req) (rq_snapshot req)) ∧
     sv_timers s' = <[sv_next s' := d]> (sv_timers s) ∧ sv_fires s' = sv_fires s).
Proof.
  unfold Apply. intros H.
  destruct (match sv_pend s with Some p => negb (pc_session p =? rq_session req)%Z | None => false end) eqn:Hd.
  { injection H as <- <-. left. eexists. by repeat split. }
  destruct (applyCommit s now ctx fault "confirmed-commit") as [[u|e] s1] eqn:E.
  2: { injection H as <- <-. left. exists e. split; [done|]. by apply applyCommit_core in E as [? _]. }
  apply applyCommit_core in E as [(E1 & E2 & E3 & E4) _]. rewrite E2 in H.
  destruct (sv_pend s) as [p|] eqn:Hp; injection H as <- <-; right; [left|right].
  - apply negb_false_iff, Z.eqb_eq in Hd. eexists _, p. simpl. rewrite E2, E3. by split_and!.
  - eexists. simpl. rewrite E1, E3. by split_and!.
Qed.

Lemma remove_at_elem {A} (l : list A) i x : x ∈ remove_at i l → x ∈ l.
Proof.
  unfold remove_at. rewrite elem_of_app, !list_elem_of_lookup. intros [[j Hj]|[j Hj]].
  - apply lookup_take_Some in Hj as [Hj _]. eauto.
  - rewrite lookup_drop in Hj. eauto.
Qed.

Lemma remove_at_keeps {A} (l : list A) i x y : x ∈ l → l !! i = Some y → x ≠ y → x ∈ remove_at i l.
Proof.
  intros Hx Hi Hne. unfold remove_at. apply list_elem_of_lookup in Hx as [j Hj]. apply elem_of_app.
  destruct (Nat.lt_total j i) as [Hlt|[->|Hgt]].
  - left. apply list_elem_of_lookup. exists j. by rewrite lookup_take_lt.
  - congruence.
  - right. apply list_elem_of_lookup. exists (j - S i). rewrite lookup_drop. rewrite <- Hj. f_equal. lia.
Qed.

(** Stopping the timer of the pending commit together with forgetting the commit. *)
Lemma inv_cleared n s s' :
  inv n s → sv_next s' = sv_next s → sv_pend s' = None → sv_fires s' = sv_fires s →
  (sv_timers s' = sv_timers s ∨ ∃ k, sv_timers s' = delete k (sv_timers s)) → inv (S n) s'.
Proof.
  intros [H1 H2 H3 H4] E1 E2 E3 E4. split; rewrite ?E1, ?E2, ?E3; try done; [lia|].
  intros k d. destruct E4 as [->|[j ->]]; [apply H2|]. intros [_ H]%lookup_delete_Some. by eapply H2.
Qed.

Lemma Confirm_cases s :
  (sv_pend s = None ∧ Confirm s = s) ∨
  (∃ p, sv_pend s = Some p ∧ sv_pend (Confirm s) = None ∧ sv_next (Confirm s) = sv_next s ∧
     sv_timers (Confirm s) = delete (pc_seq p) (sv_timers s) ∧ sv_fires (Confirm s) = sv_fires s).
Proof. unfold Confirm. destruct (sv_pend s) as [p|]; [right; by exists p|by left]. Qed.

Lemma SessionEnded_cases s sid :
  SessionEnded s sid = s ∨
  (∃ p, sv_pend s = Some p ∧ sv_pend (SessionEnded s sid) = None ∧
     sv_next (SessionEnded s sid) = sv_next s ∧ sv_fires (SessionEnded s sid) = sv_fires s ∧
     sv_timers (SessionEnded s sid) = delete (pc_seq p) (sv_timers s)).
Proof.
  unfold SessionEnded. destruct (sv_pend s) as [p|]; [|by left].
  destruct (_ =? _)%Z; [right; by exists p|by left].
Qed.

Lemma fire_cases s k :
  (fire s k = s ∧ ∀ p, sv_pend s = Some p → pc_seq p ≠ k) ∨
  (∃ p, sv_pend s = Some p ∧ pc_seq p = k ∧
     fire s k = set_rollbacks (set_pend s None) (sv_rollbacks s ++ [pc_rollback p])).
Proof.
  unfold fire. destruct (sv_pend s) as [p|]; [|by left].
  destruct (Z.eqb_spec (pc_seq p) k); [right; by exists p|left].
  split; [done|]. by intros q [= <-].
Qed.

Lemma inv_Confirm n s : inv n s → inv (S n) (Confirm s).
Proof.
  intros H. destruct (Confirm_cases s) as [[_ ->]|(p & _ & E1 & E2 & E3 & E4)].
  - eapply inv_core; [done|lia|done].
  - eapply inv_cleared; eauto.
Qed.

Lemma inv_Apply n s now ctx fault req :
  inv n s → (Z.of_nat (S n) < 2 ^ 64)%Z → inv (S n) (Apply s now ctx fault req).2.
Proof.
  intros H Hn. destruct (Apply s now ctx fault req) as [r s'] eqn:E. simpl.
  apply Apply_cases in E as [(e & _ & E)|[(d & p & _ & Hp & _ & E1 & E2 & E3 & E4)|
    (d & _ & Hp & E1 & E2 & E3 & E4)]]; destruct H as [H1 H2 H3 H4].
  - eapply inv_core; [by split|lia|done].
  - destruct (H4 p Hp) as [Hk Ha]. split; rewrite ?E1, ?E4; [lia| |done|].
    + intros k d'. rewrite E3, lookup_insert_Some. intros [[<- _]|[_ H]]; [done|by eapply H2].
    + intros q. rewrite E2. intros [= <-]. split; [done|]. left. rewrite E3, lookup_insert_eq. eauto.
  - assert (sv_next s' = sv_next s + 1)%Z as En.
    { rewrite E1. unfold u64. rewrite Z.mod_small; lia. }
    split; rewrite ?E4, ?En; [lia| | |].
    + intros k d'. rewrite E3, lookup_insert_Some. intros [[<- _]|[_ H]]; [lia|]. apply H2 in H. lia.
    + eapply Forall_impl; [done|]. simpl. lia.
    + intros q. rewrite E2. intros [= <-]. simpl. split; [lia|]. left. rewrite E3, lookup_insert_eq. eauto.
Qed.

Lemma inv_step n s a s' :
  inv n s → (Z.of_nat (S n) < 2 ^ 64)%Z → exec s a = Some s' → inv (S n) s'.
Proof.
  intros H Hn. destruct a as [sid t ctx|i now ctx fault|now ctx fault| |sid|k now|i|i now fault| |c]; simpl.
  - destruct (Snapshot _ _); intros [= <-]; eapply inv_core; by eauto.
  - destruct (sv_requests s !! i) as [req|]; simpl; [|done]. intros [= <-].
    apply inv_Apply; [|done]. eapply inv_core; by eauto.
  - destruct (applyCommit s now ctx fault "commit") as [r s1] eqn:E.
    apply applyCommit_core in E as [Hc _]. intros [= <-].
    destruct (is_ok r); (eapply inv_core; [done|lia|done]).
  - destruct (sv_confirms s); [done|]. intros [= <-]. apply inv_Confirm. eapply inv_core; by eauto.
  - intros [= <-]. destruct (SessionEnded_cases s sid) as [->|(p & _ & E1 & E2 & E3 & E4)].
    + eapply inv_core; [done|lia|done].
    + eapply inv_cleared; eauto.
  - destruct (sv_timers s !! k) as [d|] eqn:Hk; simpl; [|done]. destruct (_ <=? _)%Z; [|done].
    intros [= <-]. destruct H as [H1 H2 H3 H4]. split; simpl; [lia| | |].
    + intros j d' [_ Hj]%lookup_delete_Some. by eapply H2.
    + apply Forall_app. split; [done|]. constructor; [by eapply H2|done].
    + intros p Hp. destruct (H4 p Hp) as [Hle Ha]. split; [done|].
      destruct (decide (pc_seq p = k)) as [->|Hne]; [right; set_solver|].
      destruct Ha as [Ha|Ha]; [left|right; set_solver]. by rewrite lookup_delete_ne.
  - destruct (sv_fires s !! i) as [k|] eqn:Hi; simpl; [|done]. intros [= <-].
    set (s1 := set_fires s (remove_at i (sv_fires s))).
    assert (Forall (λ k, k ≤ sv_next s)%Z (remove_at i (sv_fires s))) as Hf.
    { destruct H as [_ _ H3 _]. rewrite Forall_forall in H3 |- *. intros x Hx. apply H3. by eapply remove_at_elem. }
    destruct (fire_cases s1 k) as [[-> Hne]|(p & Hp & _ & ->)]; destruct H as [H1 H2 H3 H4].
    + split; simpl; [lia|done|done|]. intros p Hp. destruct (H4 p Hp) as [Hle Ha]. split; [done|].
      destruct Ha as [Ha|Ha]; [by left|right]. eapply remove_at_keeps; [done|done|]. by apply Hne.
    + split; simpl; [lia|done|done|done].
  - destruct (sv_rollbacks s !! i) as [vs|]; simpl; [|done]. intros [= <-].
    eapply inv_core; [done|lia|]. 
    exact (runRollback_core (set_rollbacks s (remove_at i (sv_rollbacks s))) now fault vs).
  - intros [= <-]. by apply inv_Confirm.
  - destruct (after _ c) as [m fs]. intros [= <-]. eapply inv_core; [done|lia|done].
Qed.

Lemma inv_steps l : ∀ n s s', inv n s → (Z.of_nat (n + length l) < 2 ^ 64)%Z →
  execs s l = Some s' → inv (n + length l) s'.
Proof.
  induction l as [|a l IH]; intros n s s' H Hn; simpl in *.
  - intros [= <-]. by rewrite Nat.add_0_r.
  - destruct (exec s a) as [s1|] eqn:E; simpl; [|done]. rewrite Nat.add_succ_r.
    apply (IH (S n)); [|lia]. eapply inv_step; [done|lia|done].
Qed.

Lemma inv_new m fs : inv 0 (new_server m fs).
Proof. split; simpl; [lia|intros k d; by rewrite lookup_empty|constructor|done]. Qed.

(** ** What a number stands for

    [tracks k vs s]: number [k] has been handed out, and while the commit with that number
    is pending its rollback target is [vs]. *)
Definition tracks (k : Z) (vs : option values) (s : server) : Prop :=
  (k ≤ sv_next s)%Z ∧ ∀ p, sv_pend s = Some p → pc_seq p = k → Some (pc_rollback p) = vs.

Lemma tracks_step k vs n s a s' :
  inv n s → (Z.of_nat (S n) < 2 ^ 64)%Z → tracks k vs s → exec s a = Some s' → tracks k vs s'.
Proof.
  intros Hi Hn [Hk Hp].
  assert (∀ s1 s2, same_core s s1 → same_core s1 s2 → tracks k vs s2) as Hcore.
  { intros s1 s2 (E1 & E2 & _) (F1 & F2 & _). split; rewrite ?F1, ?F2, ?E1, ?E2; done. }
  assert (∀ s2, sv_next s2 = sv_next s → sv_pend s2 = None → tracks k vs s2) as Hnone.
  { intros s2 E1 E2. split; rewrite ?E1, ?E2; done. }
  assert (∀ s1, same_core s s1 → tracks k vs (Confirm s1)) as Hconf.
  { intros s1 Hc. destruct (Confirm_cases s1) as [[_ ->]|(p & _ & E1 & E2 & _)]; [by apply (Hcore s1)|].
    apply Hnone; [|done]. destruct Hc as (Hc & _). by rewrite E2. }
  destruct a as [sid t ctx|i now ctx fault|now ctx fault| |sid|j now|i|i now fault| |c]; simpl.
  - destruct (Snapshot _ _); intros [= <-]; by apply (Hcore s).
  - destruct (sv_requests s !! i) as [req|]; simpl; [|done]. intros [= <-].
    destruct (Apply _ now ctx fault req) as [r s1] eqn:E. simpl.
    apply Apply_cases in E as [(e & _ & E)|[(d & p & _ & Hp' & _ & E1 & E2 & _)|(d & _ & _ & E1 & E2 & _)]].
    + by apply (Hcore (set_requests s (remove_at i (sv_requests s)))).
    + simpl in *. split; rewrite ?E1, ?E2; [done|]. rewrite <- Hp'. done.
    + simpl in *. destruct Hi as [Hi _ _ _].
      assert (sv_next s1 = sv_next s + 1)%Z as En by (rewrite E1; unfold u64; rewrite Z.mod_small; lia).
      split; [lia|]. rewrite E2. intros p [= <-]. simpl. lia.
  - destruct (applyCommit s now ctx fault "commit") as [r s1] eqn:E.
    apply applyCommit_core in E as [Hc _]. intros [= <-]. destruct (is_ok r); by apply (Hcore s1).
  - destruct (sv_confirms s); [done|]. intros [= <-]. by apply Hconf.
  - intros [= <-]. destruct (SessionEnded_cases s sid) as [->|(p & _ & E1 & E2 & _)]; [done|by apply Hnone].
  - destruct (sv_timers s !! j); simpl; [|done]. destruct (_ <=? _)%Z; [|done]. by intros [= <-].
  - destruct (sv_fires s !! i) as [j|]; simpl; [|done]. intros [= <-].
    destruct (fire_cases (set_fires s (remove_at i (sv_fires s))) j) as [[-> _]|(p & _ & _ & ->)]; [done|].
    by apply Hnone.
  - destruct (sv_rollbacks s !! i) as [v|]; simpl; [|done]. intros [= <-].
    eapply Hcore; [|apply runRollback_core]. done.
  - intros [= <-]. by apply Hconf.
  - destruct (after _ c) as [m fs]. intros [= <-]. by apply (Hcore s).
Qed.

Lemma tracks_steps k vs l : ∀ n s s', inv n s → (Z.of_nat (n + length l) < 2 ^ 64)%Z →
  tracks k vs s → execs s l = Some s' → tracks k vs s'.
Proof.
  induction l as [|a l IH]; intros n s s' H Hn Ht; simpl in *; [by intros [= <-]|].
  destruct (exec s a) as [s1|] eqn:E; simpl; [|done].
  apply (IH (S n)); [eapply inv_step; [done|lia|done]|lia|eapply tracks_step; [done|lia|done|done]].
Qed.

Lemma runRollback_ok s now fault vs s' :
  runRollback s now fault vs = (Ok tt, s') →
  running (sv_mem s') = vs ∧ startup (sv_mem s') = vs ∧ candidate (sv_mem s') = candidate (sv_mem s).
Proof.
  unfold runRollback. destruct (Restore _ _ _ _ _ _) as [[r m] fs] eqn:E.
  apply Restore_cases in E as [(e & -> & _)|(-> & _ & _ & _ & [Hr Hc Hs _ _ _])]; [done|].
  intros [= <-]. done.
Qed.

(** What a successful [commitConfirmed] without a pending commit arms. *)
Lemma commitConfirmed_armed s now ctx fault sid params s1 :
  sv_pend s = None → commitConfirmed s now ctx fault sid params = (Ok tt, s1) →
  sv_next s1 = u64 (sv_next s + 1) ∧
  sv_pend s1 = Some (mkPending (sv_next s1) sid (running (sv_mem s))).
Proof.
  intros Hp. unfold commitConfirmed, Snapshot. destruct ctx; simpl; [|done]. rewrite copyValues_id. intros H.
  apply Apply_cases in H as [(e & ? & _)|[(d & p & _ & Hp' & _)|(d & _ & _ & E1 & E2 & _)]]; [done| |done].
  congruence.
Qed.

Lemma inv_commitConfirmed n s now ctx fault sid params :
  inv n s → (Z.of_nat (S n) < 2 ^ 64)%Z → inv (S n) (commitConfirmed s now ctx fault sid params).2.
Proof.
  intros H Hn. unfold commitConfirmed. destruct (Snapshot _ _); simpl; [by apply inv_Apply|].
  eapply inv_core; [done|lia|done].
Qed.

(** ** Properties *)


(** A server whose candidate holds one edit, and a confirmed commit of session 7. *)
Abbreviation demo_mem := (Set_ (NewMemory "" None None) 1 true Candidate "a" (VInt 1)).2.
Abbreviation demo_server := (new_server demo_mem (mkFS ∅ ∅)).
Abbreviation demo_confirmed := (commitConfirmed demo_server 2 true None 7 (mkParams true 5)).


(** C4: a confirmed configuration stays. Once the confirming commit has ended the pending
    one, or the server has closed it, no later interleaving brings it back: a timer
    callback with its number, even one already on its way, changes nothing, and any commit
    pending later has a larger number. *)
Theorem confirmation_is_final m fs acts0 s p acts s2 :
  execs (new_server m fs) acts0 = Some s → sv_pend s = Some p →
  execs (Confirm s) acts = Some s2 → (Z.of_nat (length acts0 + 1 + length acts) < 2 ^ 64)%Z →
  fire s2 (pc_seq p) = s2 ∧ ∀ q, sv_pend s2 = Some q → pc_seq q ≠ pc_seq p.
Proof.
  intros H0 Hp H2 Hn.
  pose proof (inv_steps acts0 0 _ _ (inv_new m fs) ltac:(simpl; lia) H0) as Hi. simpl in Hi.
  pose proof (inv_Confirm _ _ Hi) as Hi1.
  assert (tracks (pc_seq p) None (Confirm s)) as Ht.
  { destruct (Confirm_cases s) as [[? _]|(q & Hq & E1 & E2 & _)]; [congruence|].
    split; rewrite ?E1, ?E2; [|done]. by apply (inv_pend _ _ Hi). }
  pose proof (tracks_steps _ _ acts _ _ _ Hi1 ltac:(lia) Ht H2) as [_ Ht2].
  assert (∀ q, sv_pend s2 = Some q → pc_seq q ≠ pc_seq p) as Hq.
  { intros q Hq E. by specialize (Ht2 q Hq E). }
  split; [|done]. destruct (fire_cases s2 (pc_seq p)) as [[-> _]|(q & Hq' & E & _)]; [done|].
  by apply Hq in Hq'.
Qed.

Lemma confirmation_is_final_witness :
  fire (Confirm demo_confirmed.2) 1 = Confirm demo_confirmed.2.
Proof.
  refine (proj1 (confirmation_is_final demo_mem (mkFS ∅ ∅) [ASnapshot 7 5 true; AApply 0 2 true None]
    demo_confirmed.2 (mkPending 1 7 ∅) [] (Confirm demo_confirmed.2) _ _ _ _)); vm_compute; reflexivity.
Defined.

(** C9: a confirmed commit never hangs. In every reachable state the pending commit has an
    active timer or an expired callback that has not run, so the clock alone is enough to
    end it and to schedule its rollback. *)
Theorem pending_commit_expires m fs acts s p :
  execs (new_server m fs) acts = Some s → (Z.of_nat (length acts) < 2 ^ 64)%Z → sv_pend s = Some p →
  ∃ now acts' s', execs s acts' = Some s' ∧ Forall (λ a, (∃ i, a = AFire i) ∨ a = AExpire (pc_seq p) now) acts' ∧
    sv_pend s' = None ∧ sv_rollbacks s' = sv_rollbacks s ++ [pc_rollback p].
Proof.
  intros H Hn Hp. pose proof (inv_steps acts 0 _ _ (inv_new m fs) Hn H) as Hi. simpl in Hi.
  destruct (inv_pend _ _ Hi p Hp) as [_ [[d Hd]|Hin]].
  - exists d, [AExpire (pc_seq p) d; AFire (length (sv_fires s))]. eexists. split; [|split].
    + simpl. rewrite Hd. simpl. rewrite Z.leb_refl. simpl. rewrite lookup_app_r, Nat.sub_diag by lia. simpl.
      reflexivity.
    + constructor; [by right|]. constructor; [by eauto|constructor].
    + unfold fire. simpl. rewrite Hp, Z.eqb_refl. done.
  - apply list_elem_of_lookup in Hin as [i Hi']. exists 0%Z, [AFire i]. eexists. split; [|split].
    + simpl. rewrite Hi'. simpl. reflexivity.
    + constructor; [by eauto|constructor].
    + unfold fire. simpl. rewrite Hp, Z.eqb_refl. done.
Qed.

Lemma pending_commit_expires_witness :
  ∃ now acts' s', execs demo_confirmed.2 acts' = Some s' ∧
    Forall (λ a, (∃ i, a = AFire i) ∨ a = AExpire 1 now) acts' ∧
    sv_pend s' = None ∧ sv_rollbacks s' = [∅].
Proof.
  refine (pending_commit_expires demo_mem (mkFS ∅ ∅) [ASnapshot 7 5 true; AApply 0 2 true None]
    demo_confirmed.2 (mkPending 1 7 ∅) _ _ _); vm_compute; reflexivity.
Defined.

(** One unconfirmed configuration at a time. While a confirmed commit of one session is
    pending, a confirmed commit of another session is refused with access-denied and
    changes nothing at all; so is one whose candidate does not validate, which leaves the
    pending commit and its timer as they were. *)
Theorem confirmed_commit_exclusive s now fault sid params p :
  sv_pend s = Some p →
  (pc_session p ≠ sid → commitConfirmed s now true fault sid params = (Denied, s)) ∧
  (∀ r s', commitConfirmed s now true fault sid params = (r, s') → r ≠ Ok tt →
     same_core s s' ∧ sv_mem s' = sv_mem s ∧ sv_events s' = sv_events s).
Proof.
  intros Hp. unfold commitConfirmed, Snapshot. cbn [ctx_err check mbind res_bind]. split.
  - intros Hne. unfold Apply. rewrite Hp. simpl. by destruct (Z.eqb_spec (pc_session p) sid).
  - intros r s'. unfold Apply. rewrite Hp. destruct (negb _); [by intros [= <- <-]|].
    unfold applyCommit. destruct (Commit (sv_mem s) now true (sv_fs s) fault) as [[u m] fs] eqn:E.
    apply Commit_cases in E as [(e & -> & -> & _)|(-> & _)].
    + destruct (errors_is e StoreErrValidation); simpl; intros [= <- <-] _; done.
    + simpl. rewrite Hp. by intros [= <- <-].
Qed.

Lemma confirmed_commit_exclusive_witness :
  commitConfirmed demo_confirmed.2 3 true None 8 (mkParams true 5) = (Denied, demo_confirmed.2).
Proof.
  refine (proj1 (confirmed_commit_exclusive demo_confirmed.2 3 None 8 (mkParams true 5) (mkPending 1 7 ∅) _) _);
    [vm_compute; reflexivity|discriminate].
Defined.

(** *** Two interleavings the comments of the source exclude *)

Definition set_candidate (v : Z) : action := AStore (mkCall (SOSet Candidate "a" (VInt v)) true 1 None).

(** The callback of an expired timer is on its way when a follow-up confirmed commit of
    the same session restarts the timer: the commit keeps its number, so the callback
    still reverts it, a full timeout early. *)
Example stale_callback_reverts :
  match execs (new_server (NewMemory "" None None) (mkFS ∅ ∅))
          [set_candidate 1; ASnapshot 7 5 true; AApply 0 2 true None; AExpire 1 7;
           set_candidate 2; ASnapshot 7 5 true; AApply 0 7 true None;
           AFire 0; ARollback 0 8 None] with
  | Some s => sv_timers s = {[1%Z := 12%Z]} ∧ running (sv_mem s) = ∅
  | None => False
  end.
Proof. vm_compute. split; reflexivity. Qed.

(** The snapshot is taken before the lock: when another session commits in between, the
    rollback target lacks that commit and reverting undoes it as well. *)
Example stale_snapshot_reverts_other_commit :
  match execs (new_server (NewMemory "" None None) (mkFS ∅ ∅))
          [ASnapshot 7 5 true;
           set_candidate 1; APlain 1 true None; AConfirm;
           set_candidate 2; AApply 0 2 true None;
           AExpire 1 7; AFire 0; ARollback 0 8 None] with
  | Some s => running (sv_mem s) = ∅
  | None => False
  end.
Proof. vm_compute. reflexivity. Qed.
