(* ===== verification/Notif.v ===== *)
(** * NETCONF notifications ([internal/netconf/notif])

    The dispatcher takes events from its bus subscription, renders each once and queues it
    for every subscribed session; each subscription has a goroutine that writes its queue to
    the session.  Subscriptions are heap objects: one that has been replaced or ended can
    still be the target of a delivery in progress, and its writer may still be running.  A
    step of the machine is one critical section or one channel operation, and a history is
    any interleaving of them. *)

From S2P Require Import Prelude GoStrings GoFloat GoValue Store Event Ops.

Definition NotificationNamespace : string := "urn:ietf:params:xml:ns:netconf:notification:1.0".
Definition EventsNamespace : string := "urn:sim:sim-events".
Definition StreamName : string := "sim-events".

(** ** Requests *)

Record Request : Set := mkStreamRequest { rq_Stream : string }.

(** [ParseRequest]. *)
Definition known_parameter (name : string) : bool :=
  String.eqb name "stream" || String.eqb name "filter" || String.eqb name "startTime" || String.eqb name "stopTime".
Definition has_child (operation : Element) (name : string) : bool :=
  match Child operation name with Some _ => true | None => false end.

Definition ParseRequest (operation : Element) : res Request :=
  if has_child operation "filter" then NotSupported
  else if has_child operation "startTime" || has_child operation "stopTime" then NotSupported
  else if negb (forallb (λ c, known_parameter (el_name c)) (el_children operation)) then UnknownElement
  else
    stream ← match Child operation "stream" with
             | None => Ok StreamName
             | Some stream => if String.eqb (TrimmedText stream) "" then InvalidValue else Ok (TrimmedText stream)
             end;
    if String.eqb stream StreamName then Ok (mkStreamRequest stream) else InvalidValue.

(** ** Rendering *)

Section notifications.
(** [Time.UTC().Format(time.RFC3339Nano)]. *)
Context (format : time → string).

(** A field with [omitempty]. *)
Definition optional_field (name text : string) : list Element :=
  if String.eqb text "" then [] else [Elem "" name [] text []].

(** [Render]: the document that is encoded. *)
Definition Render (e : Event) : Element :=
  Elem NotificationNamespace "notification" [] ""
    [Elem "" "eventTime" [] (format (ev_Timestamp e)) [];
     Elem EventsNamespace "event" [] ""
       ([Elem "" "type" [] (ev_Type e) []] ++ optional_field "resource" (ev_Resource e) ++
        optional_field "severity" (ev_Severity e) ++ optional_field "message" (ev_Message e) ++
        optional_field "alarm" (ev_Alarm e) ++ optional_field "from" (ev_From e) ++ optional_field "to" (ev_To e))].

(** ** Subscriptions *)

(** [Subscription].  The last four fields are histories: how many events had been
    dispatched when it was made, the documents it was offered, the ones its session got,
    and whether one was dropped or failed to be written. *)
Record Subscription : Set := mkSubscription {
  sb_session : Z;
  sb_out : list Element;
  sb_done : bool;
  sb_running : bool;
  sb_since : nat;
  sb_offered : list Element;
  sb_written : list Element;
  sb_lost : bool;
}.

(** [newSubscription]; the writer runs at once. *)
Definition newSubscription (session : Z) (since : nat) : Subscription :=
  mkSubscription session [] false true since [] [] false.

(** [deliver]: a full queue drops the document. *)
Definition deliver (doc : Element) (s : Subscription) : Subscription :=
  if Nat.ltb (length (sb_out s)) (Z.to_nat DefaultBuffer)
  then mkSubscription (sb_session s) (sb_out s ++ [doc]) (sb_done s) (sb_running s) (sb_since s)
         (sb_offered s ++ [doc]) (sb_written s) (sb_lost s)
  else mkSubscription (sb_session s) (sb_out s) (sb_done s) (sb_running s) (sb_since s)
         (sb_offered s ++ [doc]) (sb_written s) true.

(** [stop]: closes [done] once. *)
Definition stop (s : Subscription) : Subscription :=
  mkSubscription (sb_session s) (sb_out s) true (sb_running s) (sb_since s) (sb_offered s) (sb_written s) (sb_lost s).

(** One turn of [writeLoop] that takes a document; a failing send ends the loop.  [None]: the
    loop has ended or the queue is empty. *)
Definition write_one (ok : bool) (s : Subscription) : option (option Element * Subscription) :=
  match sb_running s, sb_out s with
  | true, doc :: rest =>
      Some (if ok
            then (Some doc, mkSubscription (sb_session s) rest (sb_done s) true (sb_since s) (sb_offered s)
                              (sb_written s ++ [doc]) (sb_lost s))
            else (None, mkSubscription (sb_session s) rest (sb_done s) false (sb_since s) (sb_offered s)
                          (sb_written s) true))
  | _, _ => None
  end.

(** A turn of [writeLoop] that finds [done] closed. *)
Definition write_done (s : Subscription) : option Subscription :=
  if sb_running s && sb_done s
  then Some (mkSubscription (sb_session s) (sb_out s) (sb_done s) false (sb_since s) (sb_offered s) (sb_written s) (sb_lost s))
  else None.

(** ** The dispatcher *)

Abbreviation sub_id := nat.

(** [Dispatcher], with the heap of subscriptions, the deliveries of the dispatch in progress,
    and two histories: the documents dispatched and what the sessions got, in order. *)
Record Dispatcher : Set := mkDispatcher {
  di_closed : bool;
  di_subs : gmap Z sub_id;
  di_heap : gmap sub_id Subscription;
  di_pending : list (sub_id * Element);
  di_dispatched : list Element;
  di_stream : list (Z * Element);
}.

(** [NewDispatcher]. *)
Definition NewDispatcher : Dispatcher := mkDispatcher false ∅ ∅ [] [] [].

Definition with_heap (d : Dispatcher) (h : gmap sub_id Subscription) : Dispatcher :=
  mkDispatcher (di_closed d) (di_subs d) h (di_pending d) (di_dispatched d) (di_stream d).
Definition with_subs (d : Dispatcher) (subs : gmap Z sub_id) : Dispatcher :=
  mkDispatcher (di_closed d) subs (di_heap d) (di_pending d) (di_dispatched d) (di_stream d).

(** [Dispatcher.Subscribe], for a sender that is not nil. *)
Definition ErrUnknownStream : error := [Anon "netconf: unknown event stream"].
Definition ErrClosed : error := [Anon "netconf: notification dispatcher is closed"].
Definition Subscribe (d : Dispatcher) (session : Z) (stream : string) : res unit * Dispatcher :=
  if negb (String.eqb stream StreamName) then (Err ErrUnknownStream, d)
  else
    let id := fresh (dom (di_heap d)) in
    let sub := newSubscription session (length (di_dispatched d)) in
    if di_closed d then (Err ErrClosed, with_heap d (<[id := stop sub]> (di_heap d)))
    else
      let heap := match di_subs d !! session with Some previous => alter stop previous (di_heap d) | None => di_heap d end in
      (Ok tt, with_subs (with_heap d (<[id := sub]> heap)) (<[session := id]> (di_subs d))).

(** [Dispatcher.Unsubscribe]. *)
Definition Unsubscribe (d : Dispatcher) (session : Z) : Dispatcher :=
  match di_subs d !! session with
  | None => d
  | Some id => with_subs (with_heap d (alter stop id (di_heap d))) (delete session (di_subs d))
  end.

(** The subscriptions of the map, in the order of a loop over it. *)
Definition subscriptions (d : Dispatcher) : list sub_id := (map_to_list (di_subs d)).*2.

(** [Dispatcher.Close]. *)
Definition CloseDispatcher (d : Dispatcher) : Dispatcher :=
  if di_closed d then d
  else mkDispatcher true ∅ (foldr (alter stop) (di_heap d) (subscriptions d)) (di_pending d) (di_dispatched d) (di_stream d).

(** [Subscribers]. *)
Definition Subscribers (d : Dispatcher) : nat := size (di_subs d).

(** The critical section of [dispatch]: the subscriptions are collected in some order. *)
Definition collect_subs (d : Dispatcher) (e : Event) (order : list sub_id) : Dispatcher :=
  mkDispatcher (di_closed d) (di_subs d) (di_heap d) ((λ id, (id, Render e)) <$> order)
    (di_dispatched d ++ [Render e]) (di_stream d).

(** The next delivery of the dispatch in progress. *)
Definition deliver_next (d : Dispatcher) : option Dispatcher :=
  match di_pending d with
  | [] => None
  | (id, doc) :: rest =>
      Some (mkDispatcher (di_closed d) (di_subs d) (alter (deliver doc) id (di_heap d)) rest (di_dispatched d) (di_stream d))
  end.

Definition write_next (d : Dispatcher) (id : sub_id) (ok : bool) : option Dispatcher :=
  s ← di_heap d !! id;
  '(doc, s') ← write_one ok s;
  Some (mkDispatcher (di_closed d) (di_subs d) (<[id := s']> (di_heap d)) (di_pending d) (di_dispatched d)
          (di_stream d ++ match doc with Some doc => [(sb_session s, doc)] | None => [] end)).

Definition quit (d : Dispatcher) (id : sub_id) : option Dispatcher :=
  s ← di_heap d !! id;
  s' ← write_done s;
  Some (with_heap d (<[id := s']> (di_heap d))).

(** ** Histories

    The dispatcher handles one event at a time; sessions subscribe and end, the dispatcher is
    closed, and the writers run, at any time. *)
Inductive notif_step : Dispatcher → Dispatcher → Prop :=
  | notif_subscribe d session stream : notif_step d (Subscribe d session stream).2
  | notif_unsubscribe d session : notif_step d (Unsubscribe d session)
  | notif_close d : notif_step d (CloseDispatcher d)
  | notif_receive d e order : di_pending d = [] → order ≡ₚ subscriptions d → notif_step d (collect_subs d e order)
  | notif_deliver d d' : deliver_next d = Some d' → notif_step d d'
  | notif_write d d' id ok : write_next d id ok = Some d' → notif_step d d'
  | notif_quit d d' id : quit d id = Some d' → notif_step d d'.

(** ** The invariant *)

(** The documents a dispatch in progress still has for a subscription. *)
Definition pending_for (id : sub_id) (l : list (sub_id * Element)) : list Element := (filter (λ x, x.1 = id) l).*2.

Record sub_ok (d : Dispatcher) (id : sub_id) (s : Subscription) : Prop := {
  so_order : sb_written s ++ sb_out s `sublist_of` sb_offered s;
  so_all : sb_lost s = false → sb_written s ++ sb_out s = sb_offered s;
  so_buffer : length (sb_out s) ≤ Z.to_nat DefaultBuffer;
  so_events : sb_offered s ++ pending_for id (di_pending d) `prefix_of` drop (sb_since s) (di_dispatched d);
  so_since : sb_since s ≤ length (di_dispatched d);
}.

(** A registered subscription: the one of its session, not ended, offered every event since
    it was made. *)
Record registered_ok (d : Dispatcher) (session : Z) (id : sub_id) (s : Subscription) : Prop := {
  ro_session : sb_session s = session;
  ro_open : sb_done s = false;
  ro_events : sb_offered s ++ pending_for id (di_pending d) = drop (sb_since s) (di_dispatched d);
}.

Record dispatcher_ok (d : Dispatcher) : Prop := {
  do_subs : ∀ id s, di_heap d !! id = Some s → sub_ok d id s;
  do_registered : ∀ session id, di_subs d !! session = Some id →
    ∃ s, di_heap d !! id = Some s ∧ registered_ok d session id s;
  do_pending : ∀ x, x ∈ di_pending d → is_Some (di_heap d !! x.1);
  do_closed : di_closed d = true → di_subs d = ∅;
}.

Lemma registered_inj d session session' id : dispatcher_ok d →
  di_subs d !! session = Some id → di_subs d !! session' = Some id → session = session'.
Proof.
  intros H H1 H2. destruct (do_registered d H _ _ H1) as (s & Hs & [<- _ _]).
  destruct (do_registered d H _ _ H2) as (s' & Hs' & [<- _ _]). congruence.
Qed.

Lemma subscriptions_NoDup d : dispatcher_ok d → NoDup (subscriptions d).
Proof.
  intros H. unfold subscriptions. apply NoDup_fmap_2_strong; [|apply NoDup_map_to_list].
  intros [a i] [b j] Ha%elem_of_map_to_list Hb%elem_of_map_to_list. cbn [snd]. intros ->.
  by rewrite (registered_inj d a b j).
Qed.

Lemma elem_subscriptions d id : id ∈ subscriptions d ↔ ∃ session, di_subs d !! session = Some id.
Proof.
  unfold subscriptions. rewrite list_elem_of_fmap. split.
  - intros ([session j] & -> & H%elem_of_map_to_list). by exists session.
  - intros [session H]. exists (session, id). by rewrite elem_of_map_to_list.
Qed.

(** What ending a subscription keeps. *)
Lemma stop_ok d id s : sub_ok d id s → sub_ok d id (stop s).
Proof. by intros []. Qed.

Lemma alter_stop_ok d j : (∀ id s, di_heap d !! id = Some s → sub_ok d id s) →
  ∀ id s, alter stop j (di_heap d) !! id = Some s → sub_ok d id s.
Proof.
  intros H id s. destruct (decide (id = j)) as [-> |].
  - rewrite lookup_alter_eq. intros (s' & Hs' & ->)%fmap_Some. by apply stop_ok, H.
  - rewrite lookup_alter_ne by done. apply H.
Qed.

Lemma foldr_stop_ok d l : ∀ id s, foldr (alter stop) (di_heap d) l !! id = Some s →
  ∃ s', di_heap d !! id = Some s' ∧ (s = s' ∨ s = stop s').
Proof.
  induction l as [|j l IH]; intros id s; cbn [foldr]; [intros; eauto|].
  destruct (decide (id = j)) as [-> |].
  - rewrite lookup_alter_eq. intros (s1 & (s' & Hs' & [-> | ->])%IH & ->)%fmap_Some; eauto.
  - rewrite lookup_alter_ne by done. apply IH.
Qed.

Lemma foldr_stop_dom (h : gmap sub_id Subscription) l id : is_Some (h !! id) → is_Some (foldr (alter stop) h l !! id).
Proof.
  intros H. induction l as [|j l IH]; cbn [foldr]; [done|].
  destruct (decide (id = j)) as [-> |]; [rewrite lookup_alter_eq; by apply fmap_is_Some|by rewrite lookup_alter_ne].
Qed.

(** The invariant reads only the histories of deliveries and dispatches of the dispatcher. *)
Lemma sub_ok_view d d' id s : di_pending d' = di_pending d → di_dispatched d' = di_dispatched d →
  sub_ok d id s → sub_ok d' id s.
Proof. intros E1 E2 []. split; rewrite ?E1, ?E2; done. Qed.

Lemma pending_fresh d id : dispatcher_ok d → di_heap d !! id = None → pending_for id (di_pending d) = [].
Proof.
  intros H Hid. unfold pending_for. enough (filter (λ x, x.1 = id) (di_pending d) = []) as -> by done.
  destruct (filter _ _) as [|x l] eqn:E; [done|].
  assert (x ∈ filter (λ x, x.1 = id) (di_pending d)) as [Hx Hin]%list_elem_of_filter by (rewrite E; by left).
  apply (do_pending d H) in Hin as [s Hs]. by rewrite Hx, Hid in Hs.
Qed.

Lemma dispatcher_subscribe_ok d session stream : dispatcher_ok d → dispatcher_ok (Subscribe d session stream).2.
Proof.
  intros H. unfold Subscribe. destruct (negb _); [done|]. set (id := fresh (dom (di_heap d))).
  assert (di_heap d !! id = None) as Hid by (apply not_elem_of_dom, is_fresh).
  pose proof (pending_fresh d id H Hid) as Hpf.
  assert (sub_ok d id (newSubscription session (length (di_dispatched d)))) as Hnew.
  { split; cbn; [done|done|lia| |done]. rewrite Hpf. by rewrite drop_all. }
  destruct (di_closed d) eqn:Hc; cbn [snd].
  - split; cbn [di_heap di_subs di_pending di_closed with_heap].
    + intros j s. destruct (decide (j = id)) as [-> |]; [rewrite lookup_insert_eq; intros [= <-]|rewrite lookup_insert_ne by done; intros Hj%(do_subs d H)].
      * by apply (sub_ok_view d), stop_ok.
      * by apply (sub_ok_view d).
    + rewrite (do_closed d H Hc). by intros ? ? ?%lookup_empty_Some.
    + intros x [s Hs]%(do_pending d H). rewrite lookup_insert_ne by congruence. by exists s.
    + intros _. by apply (do_closed d H).
  - set (heap := match di_subs d !! session with Some previous => _ | None => _ end).
    assert (∀ j s, heap !! j = Some s → sub_ok d j s) as Hheap.
    { unfold heap. destruct (di_subs d !! session); [apply alter_stop_ok|]; apply (do_subs d H). }
    assert (∀ j, is_Some (di_heap d !! j) → is_Some (heap !! j) ∧ j ≠ id) as Hdom.
    { intros j Hj. split; [|intros ->; rewrite Hid in Hj; by destruct Hj]. unfold heap.
      destruct (di_subs d !! session); [|done]. by apply lookup_alter_is_Some. }
    split; cbn [di_heap di_subs di_pending di_closed with_heap with_subs].
    + intros j s. destruct (decide (j = id)) as [-> |]; [rewrite lookup_insert_eq; intros [= <-]|rewrite lookup_insert_ne by done; intros Hj%Hheap];
        by apply (sub_ok_view d).
    + intros k j. destruct (decide (k = session)) as [-> |Hk].
      * rewrite lookup_insert_eq. intros [= <-]. eexists. rewrite lookup_insert_eq. split; [done|].
        split; [done|done|]. cbn [newSubscription sb_offered sb_since di_pending with_subs with_heap di_dispatched app].
        by rewrite Hpf, drop_all.
      * rewrite lookup_insert_ne by done. intros Hj. destruct (do_registered d H k j Hj) as (s & Hs & Hr).
        exists s. destruct (Hdom j) as [_ Hne]; [by exists s|]. rewrite lookup_insert_ne by done. split; [|by destruct Hr].
        unfold heap. destruct (di_subs d !! session) as [p|] eqn:Hp; [|done]. rewrite lookup_alter_ne; [done|].
        intros ->. apply Hk. by eapply registered_inj.
    + intros x Hx%(do_pending d H). destruct (Hdom _ Hx) as [? ?]. by rewrite lookup_insert_ne.
    + by rewrite Hc.
Qed.

Lemma dispatcher_unsubscribe_ok d session : dispatcher_ok d → dispatcher_ok (Unsubscribe d session).
Proof.
  intros H. unfold Unsubscribe. destruct (di_subs d !! session) as [id|] eqn:Hid; [|done].
  split; cbn [di_heap di_subs di_pending di_closed with_heap with_subs].
  - intros j s Hj. apply (sub_ok_view d); [done|done|]. by apply (alter_stop_ok d id); [apply (do_subs d H)|].
  - intros k j Hj. destruct (decide (k = session)) as [-> |Hk]; [by rewrite lookup_delete_eq in Hj|].
    rewrite lookup_delete_ne in Hj by done. destruct (do_registered d H k j Hj) as (s & Hs & Hr). exists s.
    rewrite lookup_alter_ne; [split; [done|by destruct Hr]|]. intros ->. apply Hk. by eapply registered_inj.
  - intros x Hx%(do_pending d H). by apply lookup_alter_is_Some.
  - intros Hc. rewrite (do_closed d H Hc). apply delete_empty.
Qed.

Lemma dispatcher_close_ok d : dispatcher_ok d → dispatcher_ok (CloseDispatcher d).
Proof.
  intros H. unfold CloseDispatcher. destruct (di_closed d); [done|]. split; cbn [di_heap di_subs di_pending di_closed].
  - intros id s (s' & Hs'%(do_subs d H) & [-> | ->])%foldr_stop_ok; apply (sub_ok_view d); try done. by apply stop_ok.
  - by intros ? ? ?%lookup_empty_Some.
  - intros x Hx%(do_pending d H). by apply foldr_stop_dom.
  - done.
Qed.
Lemma pending_for_order id doc order : NoDup order →
  pending_for id ((λ j, (j, doc)) <$> order) = if bool_decide (id ∈ order) then [doc] else [].
Proof.
  unfold pending_for. induction 1 as [|j order Hj _ IH]; [done|]. rewrite fmap_cons, filter_cons. cbn [fst].
  destruct (decide (j = id)) as [-> |Hne].
  - rewrite fmap_cons, IH. rewrite bool_decide_eq_false_2 by done. by rewrite bool_decide_eq_true_2 by by left.
  - rewrite IH. rewrite (bool_decide_ext (id ∈ j :: order) (id ∈ order)); [done|]. rewrite elem_of_cons. naive_solver.
Qed.

Lemma receive_ok d e order : dispatcher_ok d → di_pending d = [] → order ≡ₚ subscriptions d →
  dispatcher_ok (collect_subs d e order).
Proof.
  intros H Hp Ho. assert (NoDup order) as Hnd by (rewrite Ho; by apply subscriptions_NoDup).
  assert (∀ id, pending_for id (di_pending (collect_subs d e order)) = if bool_decide (id ∈ order) then [Render e] else []) as Hpf
    by (intros id; by apply pending_for_order).
  assert (∀ id, pending_for id (di_pending d) = []) as Hp0 by (intros id; by rewrite Hp).
  assert (∀ session id, di_subs d !! session = Some id → ∃ s, di_heap d !! id = Some s ∧
    registered_ok (collect_subs d e order) session id s) as Hreg.
  { intros session id Hid. destruct (do_registered d H _ _ Hid) as (s & Hs & [R1 R2 R3]). exists s. split; [done|].
    split; [done|done|]. rewrite Hpf, bool_decide_eq_true_2 by (rewrite Ho; apply elem_subscriptions; eauto).
    rewrite Hp0, app_nil_r in R3. cbn [collect_subs di_dispatched]. rewrite drop_app_le by (by apply (do_subs d H id s)).
    by rewrite R3. }
  split; cbn [di_heap di_subs di_closed collect_subs].
  - intros id s Hs. destruct (do_subs d H id s Hs) as [S1 S2 S3 S4 S5]. split; [done|done|done| |].
    + rewrite Hpf. case_bool_decide as Hin.
      * rewrite Ho in Hin. apply elem_subscriptions in Hin as [session Hid].
        destruct (Hreg session id Hid) as (s' & Hs' & [_ _ R3]). assert (s' = s) as -> by congruence.
        rewrite Hpf, bool_decide_eq_true_2 in R3 by (rewrite Ho; apply elem_subscriptions; eauto). by rewrite R3.
      * rewrite Hp0 in S4. etrans; [exact S4|]. cbn [collect_subs di_dispatched]. rewrite drop_app_le by done. by eexists.
    + cbn [collect_subs di_dispatched]. rewrite length_app. lia.
  - exact Hreg.
  - intros x. cbn [di_pending]. intros (id & -> & Hin)%list_elem_of_fmap. rewrite Ho in Hin.
    apply elem_subscriptions in Hin as [session Hid]. destruct (do_registered d H _ _ Hid) as (s & Hs & _). by exists s.
  - apply (do_closed d H).
Qed.

Lemma deliver_fields doc s : sb_session (deliver doc s) = sb_session s ∧ sb_done (deliver doc s) = sb_done s ∧
  sb_since (deliver doc s) = sb_since s ∧ sb_offered (deliver doc s) = sb_offered s ++ [doc] ∧
  sb_written (deliver doc s) ++ sb_out (deliver doc s) `sublist_of` (sb_written s ++ sb_out s) ++ [doc] ∧
  (sb_lost (deliver doc s) = false → sb_lost s = false ∧
     sb_written (deliver doc s) ++ sb_out (deliver doc s) = (sb_written s ++ sb_out s) ++ [doc]) ∧
  (length (sb_out s) ≤ Z.to_nat DefaultBuffer → length (sb_out (deliver doc s)) ≤ Z.to_nat DefaultBuffer).
Proof.
  unfold deliver. destruct (Nat.ltb_spec (length (sb_out s)) (Z.to_nat DefaultBuffer)) as [Hl|Hl]; simpl; split_and!; try done.
  - by rewrite app_assoc.
  - intros. by rewrite app_assoc.
  - rewrite length_app. simpl. lia.
  - by apply sublist_inserts_r.
Qed.

Lemma deliver_next_ok d d' : dispatcher_ok d → deliver_next d = Some d' → dispatcher_ok d'.
Proof.
  intros H. unfold deliver_next. destruct (di_pending d) as [|[id doc] rest] eqn:Hp; [done|]. intros [= <-].
  set (d' := mkDispatcher _ _ _ _ _ _).
  assert (pending_for id (di_pending d) = doc :: pending_for id rest) as Hpid.
  { rewrite Hp. unfold pending_for. rewrite filter_cons, decide_True by done. done. }
  assert (∀ j, j ≠ id → pending_for j (di_pending d) = pending_for j rest) as Hpj.
  { intros j Hj. rewrite Hp. unfold pending_for. by rewrite filter_cons, decide_False by done. }
  split; cbn [d' di_heap di_subs di_pending di_closed].
  - intros j s. destruct (decide (j = id)) as [-> |Hj].
    + rewrite lookup_alter_eq. intros (s0 & Hs0 & ->)%fmap_Some. destruct (do_subs d H id s0 Hs0) as [S1 S2 S3 S4 S5].
      destruct (deliver_fields doc s0) as (F1 & F2 & F3 & F4 & F5 & F6 & F7). split; rewrite ?F3, ?F4; cbn [d' di_pending di_dispatched].
      * etrans; [exact F5|]. by apply sublist_app.
      * intros [Hl ->]%F6. by rewrite S2.
      * by apply F7.
      * rewrite <- app_assoc. cbn [app]. by rewrite <- Hpid.
      * done.
    + rewrite lookup_alter_ne by done. intros Hs. destruct (do_subs d H j s Hs) as [S1 S2 S3 S4 S5].
      split; cbn [d' di_pending di_dispatched]; try done. by rewrite <- Hpj.
  - intros session j Hid. destruct (do_registered d H _ _ Hid) as (s & Hs & [R1 R2 R3]). destruct (decide (j = id)) as [-> |Hj].
    + exists (deliver doc s). rewrite lookup_alter_eq, Hs. split; [done|].
      destruct (deliver_fields doc s) as (F1 & F2 & F3 & F4 & _). split; rewrite ?F1, ?F2, ?F3, ?F4; [done|done|].
      cbn [d' di_pending di_dispatched]. rewrite <- app_assoc. cbn [app]. by rewrite <- Hpid.
    + exists s. rewrite lookup_alter_ne by done. split; [done|]. split; [done|done|]. cbn [d' di_pending di_dispatched]. by rewrite <- Hpj.
  - intros x Hx. apply lookup_alter_is_Some, (do_pending d H). rewrite Hp. by right.
  - apply (do_closed d H).
Qed.

(** Steps of a writer keep what the dispatcher knows of the subscription. *)
Lemma writer_ok d d' id s s' : dispatcher_ok d → di_heap d !! id = Some s →
  d' = mkDispatcher (di_closed d) (di_subs d) (<[id := s']> (di_heap d)) (di_pending d) (di_dispatched d) (di_stream d') →
  sb_session s' = sb_session s → sb_done s' = sb_done s → sb_since s' = sb_since s → sb_offered s' = sb_offered s →
  sb_written s' ++ sb_out s' `sublist_of` sb_written s ++ sb_out s →
  (sb_lost s' = false → sb_lost s = false ∧ sb_written s' ++ sb_out s' = sb_written s ++ sb_out s) →
  length (sb_out s') ≤ length (sb_out s) → dispatcher_ok d'.
Proof.
  intros H Hs -> E1 E2 E3 E4 Hsub Hall Hlen. destruct (do_subs d H id s Hs) as [S1 S2 S3 S4 S5].
  split; cbn [di_heap di_subs di_pending di_closed].
  - intros j x. destruct (decide (j = id)) as [-> |Hj]; [rewrite lookup_insert_eq; intros [= <-]|rewrite lookup_insert_ne by done].
    + split; rewrite ?E3, ?E4; cbn [di_pending di_dispatched]; [by etrans| |lia|done|done]. intros [? ->]%Hall. auto.
    + intros Hx. by apply (sub_ok_view d), (do_subs d H).
  - intros session j Hid. destruct (do_registered d H _ _ Hid) as (x & Hx & [R1 R2 R3]). destruct (decide (j = id)) as [-> |Hj].
    + exists s'. rewrite lookup_insert_eq. split; [done|]. assert (x = s) as -> by congruence. split; rewrite ?E1, ?E2, ?E3, ?E4; done.
    + exists x. by rewrite lookup_insert_ne.
  - intros x Hx%(do_pending d H). destruct (decide (x.1 = id)) as [-> |]; [by rewrite lookup_insert_eq|by rewrite lookup_insert_ne].
  - apply (do_closed d H).
Qed.

Lemma notif_step_ok d d' : notif_step d d' → dispatcher_ok d → dispatcher_ok d'.
Proof.
  intros Hs H. destruct Hs as [d session stream|d session|d|d e order Hp Ho|d d' Hd|d d' id ok Hd|d d' id Hd].
  - by apply dispatcher_subscribe_ok.
  - by apply dispatcher_unsubscribe_ok.
  - by apply dispatcher_close_ok.
  - by apply receive_ok.
  - by eapply deliver_next_ok.
  - unfold write_next in Hd. destruct (di_heap d !! id) as [s|] eqn:Hid; [|done]. cbn [mbind option_bind] in Hd.
    unfold write_one in Hd. destruct (sb_running s); [|done]. destruct (sb_out s) as [|doc rest] eqn:Ho; [done|].
    destruct ok; injection Hd as <-; (eapply writer_ok; [exact H|exact Hid|reflexivity|done..| | |]); rewrite Ho; simpl.
    + by rewrite <- app_assoc.
    + intros. by rewrite <- app_assoc.
    + lia.
    + apply sublist_app; [done|]. by apply sublist_cons.
    + done.
    + lia.
  - unfold quit in Hd. destruct (di_heap d !! id) as [s|] eqn:Hid; [|done]. cbn [mbind option_bind] in Hd.
    unfold write_done in Hd. destruct (_ && _); [|done]. injection Hd as <-. by eapply writer_ok.
Qed.
Lemma dispatcher_reachable_ok d : rtc notif_step NewDispatcher d → dispatcher_ok d.
Proof.
  intros Hr. assert (dispatcher_ok NewDispatcher) as H0.
  { split; cbn; [by intros ? ? ?%lookup_empty_Some|by intros ? ? ?%lookup_empty_Some|by intros ? ?%elem_of_nil|done]. }
  induction Hr as [|x y z Hxy _ IH]; [done|]. by apply IH, (notif_step_ok x).
Qed.

(** C22: notifications arrive in order and are complete for a session that reads. Under any
    interleaving of subscribing, ending, events, deliveries and writers: what a subscription
    has written and still holds is a subsequence, in order, of the events dispatched since it
    was made, and it never holds more than the buffer; a registered subscription is not
    ended, belongs to its session and, unless its queue overflowed or its session broke, has
    written or holds exactly every event dispatched since it was made, up to the dispatch in
    progress; and a closed dispatcher has no subscriber. *)
Theorem notifications_in_order d : rtc notif_step NewDispatcher d →
  (∀ id s, di_heap d !! id = Some s →
     sb_written s ++ sb_out s `sublist_of` drop (sb_since s) (di_dispatched d) ∧
     length (sb_out s) ≤ Z.to_nat DefaultBuffer) ∧
  (∀ session id, di_subs d !! session = Some id → ∃ s, di_heap d !! id = Some s ∧
     sb_session s = session ∧ sb_done s = false ∧
     (sb_lost s = false →
      sb_written s ++ sb_out s ++ pending_for id (di_pending d) = drop (sb_since s) (di_dispatched d))) ∧
  (di_closed d = true → Subscribers d = 0).
Proof.
  intros H%dispatcher_reachable_ok. split_and!.
  - intros id s Hs. destruct (do_subs d H id s Hs) as [S1 S2 S3 [k S4] S5]. split; [|done]. rewrite S4, <- app_assoc.
    etrans; [exact S1|]. by apply sublist_inserts_r.
  - intros session id Hid. destruct (do_registered d H _ _ Hid) as (s & Hs & [R1 R2 R3]). exists s. split_and!; [done..|].
    intros Hl. rewrite app_assoc, (so_all d id s (do_subs d H id s Hs) Hl). exact R3.
  - intros Hc. unfold Subscribers. by rewrite (do_closed d H Hc), map_size_empty.
Qed.
End notifications.

(** A session subscribes and gets an event. *)
Definition clock_text (t : time) : string := Itoa t.
Definition link_event (name : string) : Event := mkEvent TypeAlarmRaised name "major" "" DomainRadio AlarmRadioLinkDown "" "" 7.
Definition one_event : Dispatcher :=
  default NewDispatcher (deliver_next (collect_subs clock_text (Subscribe NewDispatcher 1 StreamName).2 (link_event "radio0") [0])).

Lemma one_event_reached : rtc (notif_step clock_text) NewDispatcher one_event.
Proof.
  eapply rtc_l; [apply (notif_subscribe _ _ 1 StreamName)|].
  eapply rtc_l; [apply (notif_receive _ _ (link_event "radio0") [0]); [reflexivity|reflexivity]|].
  eapply rtc_l; [|apply rtc_refl]. by apply notif_deliver.
Qed.

Lemma notifications_in_order_witness :
  di_subs one_event !! 1%Z = Some 0 ∧
  ∃ s, di_heap one_event !! 0 = Some s ∧ sb_session s = 1%Z ∧ sb_done s = false ∧
    (sb_lost s = false → sb_written s ++ sb_out s ++ pending_for 0 (di_pending one_event) = [Render clock_text (link_event "radio0")]).
Proof.
  split; [reflexivity|].
  destruct (proj1 (proj2 (notifications_in_order clock_text one_event one_event_reached)) 1%Z 0 eq_refl) as (s & Hs & H1 & H2 & H3).
  exists s. split; [exact Hs|]. split; [exact H1|]. split; [exact H2|]. intros Hl. rewrite (H3 Hl).
  assert (sb_since s = 0) as -> by (vm_compute in Hs; injection Hs as <-; reflexivity). reflexivity.
Defined.

(** Replacing a subscription ends the old writer only when it next looks at [done]: what is
    still in its queue can be written after what the new writer sends, so the session can
    get its events out of order. *)
Example resubscription_reorders : ∃ d, rtc (notif_step clock_text) NewDispatcher d ∧
  di_stream d = [(1%Z, Render clock_text (link_event "radio1")); (1%Z, Render clock_text (link_event "radio0"))] ∧
  di_dispatched d = [Render clock_text (link_event "radio0"); Render clock_text (link_event "radio1")].
Proof.
  eexists. split.
  - etrans; [apply one_event_reached|].
    eapply rtc_l; [apply (notif_subscribe _ _ 1 StreamName)|].
    eapply rtc_l; [apply (notif_receive _ _ (link_event "radio1") [1]); [reflexivity|reflexivity]|].
    eapply rtc_l; [apply notif_deliver; reflexivity|].
    eapply rtc_l; [apply (notif_write _ _ _ 1 true); reflexivity|].
    eapply rtc_l; [apply (notif_write _ _ _ 0 true); reflexivity|]. apply rtc_refl.
  - split; reflexivity.
Qed.
