(* ===== verification/Datatree.v ===== *)
(** * Editing a datastore by documents ([internal/datatree/edit.go], [values.go], [node.go])

    NETCONF edit-config, RESTCONF and gNMI writes are trees of named nodes with an edit
    operation.  [Apply] reads the datastore into a proposed snapshot, walks the documents
    over it, validates the snapshot as a device and writes the difference back in one
    batch, inside the router's edit transaction. *)

From S2P Require Import Prelude GoStrings GoFloat GoParse GoValue GoNet Persist Store Path Model Reflect Reflected Hydrate Schema Oid Router Ops.

(** ** Data *)

Inductive Op : Set := OpMerge | OpReplace | OpCreate | OpDelete | OpRemove | OpNone.
Global Instance Op_eq_dec : EqDecision Op.
Proof. solve_decision. Defined.

Inductive Document : Set :=
  | Doc (name text : string) (hasText : bool) (attrs : gmap string string) (children : list Document).
Definition doc_Name (d : Document) : string := let 'Doc n _ _ _ _ := d in n.
Definition doc_Text (d : Document) : string := let 'Doc _ t _ _ _ := d in t.
Definition doc_Attrs (d : Document) : gmap string string := let 'Doc _ _ _ a _ := d in a.
Definition doc_Children (d : Document) : list Document := let 'Doc _ _ _ _ c := d in c.

(** [Document.Child] and [Document.Attr]. *)
Definition doc_Child (d : Document) (name : string) : option Document :=
  snd <$> list_find (λ c, doc_Name c = name) (doc_Children d).
Definition doc_Attr (d : Document) (name : string) : option string := doc_Attrs d !! name.

Record Request : Set := mkEdit {
  rq_BasePath : string;
  rq_Default : Op;
  rq_Documents : list Document;
}.

(** [editor]: [writable] is the set of the paths the Go map marks true. *)
Record editor : Type := mkEditor { proposed : values; writable : gset string }.

(** ** Leaf values *)

(** [ParseLeaf]. *)
Definition ParseLeaf (kind : LeafKind) (text : string) : option value :=
  match kind with
  | KBool => VBool <$> ParseBool text
  | KInt => VInt <$> ParseInt text 64
  | KUint8 => VUint8 <$> ParseUint text 8
  | KUint16 => VUint16 <$> ParseUint text 16
  | KUint32 => VUint32 <$> ParseUint text 32
  | KUint64 => VUint64 <$> ParseUint text 64
  | KFloat64 => VFloat64 <$> ParseF.ParseFloat text
  | KString => Some (VString text)
  end.

(** [ContentMatches]: the comparison of two interface values. *)
Definition ContentMatches (kind : LeafKind) (text : string) (v : value) : bool :=
  match ParseLeaf kind text with Some x => value_eqb x v | None => false end.

(** ** Paths *)

Definition join (prefix name : string) : string :=
  if String.eqb prefix "" then name else prefix +:+ "/" +:+ name.

Definition nodeNamed (nodes : list Node) (name : string) : option Node :=
  snd <$> list_find (λ n, nd_Name n = name) nodes.

(** ** The editor *)

(** The paths strictly below [path]. *)
Definition under (path p : string) : bool := HasPrefix p (path +:+ "/").

Definition contains (e : editor) (path : string) : bool :=
  bool_decide (path ∈ writable e) ||
  existsb (λ p, bool_decide (p ∈ writable e) && under path p) (map_to_list (proposed e)).*1.

Definition remove (e : editor) (path : string) : editor :=
  mkEditor (delete path (proposed e)) (writable e ∖ {[path]}).

Definition wipe (e : editor) (path : string) : editor :=
  let doomed := filter (λ p, p ∈ writable e ∧ under path p = true) (map_to_list (proposed e)).*1 in
  remove (foldl remove e doomed) path.

Definition parseOperationAttr (d : Document) : res (option Op) :=
  match doc_Attr d "operation" with
  | None => Ok None
  | Some text =>
      if String.eqb text "merge" then Ok (Some OpMerge)
      else if String.eqb text "replace" then Ok (Some OpReplace)
      else if String.eqb text "create" then Ok (Some OpCreate)
      else if String.eqb text "delete" then Ok (Some OpDelete)
      else if String.eqb text "remove" then Ok (Some OpRemove)
      else InvalidValue
  end.

(** [listKey]; [ContainsAny] of the three bytes. *)
Definition listKey (d : Document) (keyName : string) : res string :=
  match doc_Child d keyName with
  | None => MissingElement
  | Some key =>
      let value := TrimSpace (doc_Text key) in
      if String.eqb value "" then MissingElement
      else if has_byte value "/" || has_byte value "[" || has_byte value "]" then InvalidValue
      else Ok value
  end.

Definition childOperation (op : Op) : Op :=
  match op with OpReplace | OpCreate => OpMerge | _ => op end.

Definition prepareSubtree (e : editor) (path : string) (op : Op) : res editor :=
  match op with
  | OpCreate => if contains e path then DataExists path else Ok e
  | OpDelete => if contains e path then Ok (wipe e path) else DataMissing path
  | OpRemove | OpReplace => Ok (wipe e path)
  | OpMerge | OpNone => Ok e
  end.

(** [editor.leaf]. *)
Definition edit_leaf (r : Router) (e : editor) (path : string) (d : Document) (node : Node) (op : Op)
    : res editor :=
  let exists_ := bool_decide (is_Some (proposed e !! path)) in
  let config := bool_decide (path ∈ writable e) in
  match op with
  | OpNone => Ok e
  | OpDelete =>
      if negb config then (if exists_ then AccessDenied path else DataMissing path)
      else Ok (remove e path)
  | OpRemove =>
      if exists_ && negb config then AccessDenied path else Ok (remove e path)
  | _ =>
      match (kind ← nd_Leaf node; ParseLeaf kind (TrimSpace (doc_Text d))) with
      | None => InvalidValueAt path
      | Some v =>
          match Convert r path v with
          | Err err =>
              if errors_is err RouterErrReadOnly then AccessDenied path
              else if errors_is err RouterErrNotFound then UnknownElement
              else InvalidValueAt path
          | Ok x =>
              if bool_decide (op = OpCreate) && config then DataExists path
              else Ok (mkEditor (<[path := res_Value x]> (proposed e)) ({[path]} ∪ writable e))
          end
      end
  end.

(** [editor.walk] with the bodies of [container] and [list], which differ in the path. *)
Fixpoint walk (r : Router) (d : Document) (base : string) (schema : list Node) (inherited : Op)
    (e : editor) {struct d} : res editor :=
  match nodeNamed schema (doc_Name d) with
  | None => UnknownElement
  | Some node =>
      explicit ← parseOperationAttr d;
      let op := default inherited explicit in
      let subtree path :=
        e ← prepareSubtree e path op;
        match op with
        | OpDelete | OpRemove => Ok e
        | _ =>
            match Children (r_schema r) path with
            | Err _ => UnknownElement
            | Ok children =>
                (fix go (l : list Document) (e : editor) : res editor :=
                   match l with
                   | [] => Ok e
                   | c :: l => e ← walk r c path children (childOperation op) e; go l e
                   end) (doc_Children d) e
            end
        end in
      match nd_Kind node with
      | KindLeaf => edit_leaf r e (join base (doc_Name d)) d node op
      | KindContainer => subtree (join base (doc_Name d))
      | KindList =>
          key ← listKey d (nd_Key node);
          subtree (join base (doc_Name d) +:+ "[" +:+ nd_Key node +:+ "=" +:+ key +:+ "]")
      end
  end.

Fixpoint walk_all (r : Router) (l : list Document) (base : string) (schema : list Node) (op : Op)
    (e : editor) : res editor :=
  match l with
  | [] => Ok e
  | d :: l => e ← walk r d base schema op e; walk_all r l base schema op e
  end.

(** The common body of [container] and [list]. *)
Definition subtree (r : Router) (l : list Document) (path : string) (op : Op) (e : editor) : res editor :=
  e ← prepareSubtree e path op;
  match op with
  | OpDelete | OpRemove => Ok e
  | _ =>
      match Children (r_schema r) path with
      | Err _ => UnknownElement
      | Ok children => walk_all r l path children (childOperation op) e
      end
  end.

Lemma walk_eq r n t h a l base schema inherited e :
  walk r (Doc n t h a l) base schema inherited e =
  match nodeNamed schema n with
  | None => UnknownElement
  | Some node =>
      explicit ← parseOperationAttr (Doc n t h a l);
      let op := default inherited explicit in
      match nd_Kind node with
      | KindLeaf => edit_leaf r e (join base n) (Doc n t h a l) node op
      | KindContainer => subtree r l (join base n) op e
      | KindList =>
          key ← listKey (Doc n t h a l) (nd_Key node);
          subtree r l (join base n +:+ "[" +:+ nd_Key node +:+ "=" +:+ key +:+ "]") op e
      end
  end.
Proof.
  assert (∀ path children op l e,
    (fix go (l : list Document) (e : editor) : res editor :=
       match l with
       | [] => Ok e
       | c :: l => e ← walk r c path children (childOperation op) e; go l e
       end) l e = walk_all r l path children (childOperation op) e) as Hgo.
  { intros path children op l'. induction l' as [|c l' IH]; intros e'; [done|]. cbn [walk_all].
    destruct (walk r c path children (childOperation op) e'); [apply IH|done]. }
  cbn [walk doc_Name doc_Children]. destruct (nodeNamed schema n) as [node|]; [|done].
  destruct (parseOperationAttr _) as [explicit|]; [|done]. cbn [mbind res_bind].
  set (op := default inherited explicit). clearbody op. unfold subtree.
  assert (∀ path, (e1 ← prepareSubtree e path op;
    match op with
    | OpDelete | OpRemove => Ok e1
    | _ => match Children (r_schema r) path with
           | Err _ => UnknownElement
           | Ok children =>
               (fix go (l : list Document) (e : editor) : res editor :=
                  match l with
                  | [] => Ok e
                  | c :: l => e ← walk r c path children (childOperation op) e; go l e
                  end) l e1
           end
    end) = subtree r l path op e) as Hsub.
  { intros path. unfold subtree. destruct (prepareSubtree e path op) as [e1|]; [|done]. cbn [mbind res_bind].
    destruct op; try done; destruct (Children (r_schema r) path); try done; apply Hgo. }
  destruct (nd_Kind node); [apply Hsub| |done].
  destruct (listKey _ _) as [key|]; [|done]. cbn [mbind res_bind]. apply Hsub.
Qed.

(** ** Requests *)

(** [collect]. *)
Definition collect (r : Router) (m : Memory) (ctx : context) (ds : Datastore)
    : res (list (string * Result)) :=
  match Router_Values r m ctx ds with Ok l => Ok l | Err e => Failed e end.

(** The two maps [apply] fills from the results. *)
Definition editor_of (results : list (string * Result)) : editor :=
  mkEditor (list_to_map ((λ x, (x.1, res_Value x.2)) <$> results))
           (list_to_set (filter (λ x, res_Writable x.2 = true) results).*1).

(** The proposed snapshot of a request. *)
Definition propose (r : Router) (m : Memory) (ctx : context) (ds : Datastore) (req : Request)
    : res (values * values) :=
  results ← collect r m ctx ds;
  let e := editor_of results in
  schema ← match Children (r_schema r) (rq_BasePath req) with Ok l => Ok l | Err err => Failed err end;
  e' ← walk_all r (rq_Documents req) (rq_BasePath req) schema (rq_Default req) e;
  _ ← match Router_Validate (r_root r) ctx (proposed e') with Ok _ => Ok tt | Err err => ValidationError err end;
  Ok (proposed e, proposed e').

(** [applyDiff]. *)
Definition changed_values (original proposed : values) : values :=
  filter (λ kv, match original !! kv.1 with
                | Some old => negb (value_eqb old kv.2)
                | None => true
                end = true) proposed.
Definition removed_paths (original proposed : values) : list string :=
  filter (λ p, proposed !! p = None) (map_to_list original).*1.

Definition applyDiff (r : Router) (m : Memory) (now : time) (ctx : context) (ds : Datastore)
    (original proposed : values) : res unit * Memory :=
  match Router_Apply r m now ctx ds (changed_values original proposed) (removed_paths original proposed) with
  | (Ok _, m) => (Ok tt, m)
  | (Err e, m) => (Failed e, m)
  end.

(** [Apply], whose body runs in one router transaction. *)
Definition Edit (r : Router) (m : Memory) (now : time) (ctx : context) (ds : Datastore) (req : Request)
    : res unit * Memory :=
  match ctx_err ctx with
  | Err e => (Err e, m)
  | Ok _ =>
      match propose r m ctx ds req with
      | Err e => (Err e, m)
      | Ok (original, proposed) => applyDiff r m now ctx ds original proposed
      end
  end.

(** ** Lemmas *)

(** *** Wiping a subtree *)

Lemma removes_lookup l : ∀ e p,
  proposed (foldl remove e l) !! p = (if bool_decide (p ∈ l) then None else (proposed e !! p)) ∧
  ((p ∈ writable (foldl remove e l)) ↔ (p ∉ l) ∧ p ∈ writable e).
Proof.
  induction l as [|q l IH]; intros e p; simpl.
  - split; [done|]. split; [|by intros []]. intros ?. split; [apply not_elem_of_nil|done].
  - destruct (IH (remove e q) p) as [-> ->]. cbn [remove proposed writable].
    rewrite elem_of_difference, not_elem_of_singleton, not_elem_of_cons. split; [|tauto].
    destruct (decide (p = q)) as [->|Hne].
    + rewrite lookup_delete_eq, (bool_decide_eq_true_2 (q ∈ q :: l)) by (by left). by case_bool_decide.
    + rewrite lookup_delete_ne by done. rewrite (bool_decide_ext (p ∈ q :: l) (p ∈ l)); [done|].
      rewrite elem_of_cons. tauto.
Qed.

(** What [wipe] takes out: the configuration leaves below the path, and the path itself. *)
Definition wiped (e : editor) (path p : string) : bool :=
  String.eqb p path || (bool_decide (p ∈ writable e) && under path p && bool_decide (is_Some (proposed e !! p))).

Lemma wipe_lookup e path p :
  proposed (wipe e path) !! p = (if wiped e path p then None else (proposed e !! p)) ∧
  (p ∈ writable (wipe e path) ↔ wiped e path p = false ∧ p ∈ writable e).
Proof.
  unfold wipe. set (l := filter _ _). destruct (removes_lookup l e p) as [Hp Hw].
  unfold remove at 1 3. cbn [proposed writable].
  assert (p ∈ l ↔ p ∈ writable e ∧ under path p = true ∧ is_Some (proposed e !! p)) as Hl.
  { unfold l. rewrite list_elem_of_filter, list_elem_of_fmap. split.
    - intros [[Hw' Hu] ([q v] & -> & Hin)]. apply elem_of_map_to_list in Hin. simpl in *. by rewrite Hin.
    - intros (Hw' & Hu & [v Hv]). split; [done|]. exists (p, v). by rewrite elem_of_map_to_list. }
  unfold wiped. destruct (String.eqb_spec p path) as [->|Hne]; simpl.
  - rewrite lookup_delete_eq. split; [done|]. set_solver.
  - rewrite lookup_delete_ne, Hp by done.
    rewrite elem_of_difference, not_elem_of_singleton, Hw.
    destruct (bool_decide_reflect (p ∈ l)) as [Hin|Hin]; rewrite Hl in Hin.
    + destruct Hin as (H1 & H2 & H3). rewrite H2, !bool_decide_eq_true_2 by done. simpl.
      split; [done|]. rewrite Hl. set_solver.
    + destruct (bool_decide_reflect (p ∈ writable e)), (under path p) eqn:Hu,
        (bool_decide_reflect (is_Some (proposed e !! p))); simpl;
        (split; [first [done|exfalso; naive_solver]|rewrite Hl; naive_solver]).
Qed.

(** *** The changes a walk makes

    [change r p e e']: one write of a converted value at [p], or one removal at [p] that
    touches no state leaf. *)
Inductive change (r : Router) (p : string) (e : editor) : editor → Prop :=
  | change_remove : (p ∈ writable e ∨ proposed e !! p = None) → change r p e (remove e p)
  | change_set v x : Convert r p v = Ok x →
      change r p e (mkEditor (<[p := res_Value x]> (proposed e)) ({[p]} ∪ writable e)).

(** Any number of changes at paths of a region. *)
Definition changes (r : Router) (region : string → Prop) : relation editor :=
  rtc (λ e e', ∃ p, region p ∧ change r p e e').

(** The paths of the subtree of a node: the node, its entries and what is below. *)
Definition within (root p : string) : Prop :=
  p = root ∨ HasPrefix p (root +:+ "/") = true ∨ HasPrefix p (root +:+ "[") = true.

(** The editor only holds leaves of the model. *)
Definition leaves_only (r : Router) (e : editor) : Prop :=
  ∀ p, is_Some (proposed e !! p) → is_ok (resolve_leaf r p) = true.

Lemma changes_mono r (P Q : string → Prop) e e' : (∀ p, P p → Q p) → changes r P e e' → changes r Q e e'.
Proof.
  intros H. apply rtc_subrel. intros x y (p & Hp & Hc). exists p. auto.
Qed.

Lemma Convert_path r p v x : Convert r p v = Ok x → is_ok (resolve_leaf r p) = true ∧ IsState r p = false ∧ res_Path x = p.
Proof.
  unfold Convert. intros (segs & n & k & Hl & Hk & Hro & Hx & _)%convert_inv. rewrite Hl. split_and!; [done| |].
  - apply resolve_leaf_inv in Hl as (Hp & Hr & _). unfold IsState. rewrite Hp. cbn [mbind res_bind]. rewrite Hr.
    destruct (n_readOnly n); [by specialize (Hro eq_refl)|done].
  - rewrite Hx. by destruct (result_fields r p (res_Value x) true) as [-> _].
Qed.

Lemma changes_leaves r P e e' : changes r P e e' → leaves_only r e → leaves_only r e'.
Proof.
  intros H He. induction H as [|e e1 e2 (p & _ & Hc) _ IH]; [done|]. apply IH. clear IH. intros q Hq.
  destruct Hc as [_|v x Hv]; simpl in Hq.
  - apply He. destruct Hq as [y [_ Hy]%lookup_delete_Some]. eauto.
  - destruct (decide (p = q)) as [<-|]; [by apply Convert_path in Hv as [? _]|].
    rewrite lookup_insert_ne in Hq by done. by apply He.
Qed.

Lemma under_within path p : under path p = true → within path p.
Proof. unfold under. right. by left. Qed.

Lemma wipe_changes r e path :
  (path ∈ writable e ∨ proposed e !! path = None) → changes r (within path) e (wipe e path).
Proof.
  intros Hpath. unfold wipe. set (l := filter _ _).
  assert (Forall (λ p, within path p ∧ p ∈ writable e) l) as Hl.
  { apply Forall_forall. intros p [[Hw Hu] _]%list_elem_of_filter. split; [by apply under_within|done]. }
  assert (NoDup l) as Hnd by apply NoDup_filter, NoDup_fst_map_to_list.
  clearbody l. revert e Hpath Hl. induction l as [|q l IH]; intros e Hpath Hl; simpl.
  - apply rtc_once. exists path. split; [by left|by constructor].
  - apply Forall_cons in Hl as [[Hq Hw] Hl]. apply NoDup_cons in Hnd as [Hnq Hnd].
    eapply rtc_l; [exists q; split; [done|constructor; by left]|]. apply IH; [done| |].
    + unfold remove. simpl. destruct (decide (path = q)) as [->|].
      * right. by rewrite lookup_delete_eq.
      * destruct Hpath; [left; set_solver|right; by rewrite lookup_delete_ne].
    + rewrite Forall_forall in Hl |- *. intros x Hx. destruct (Hl x Hx). split; [done|]. simpl. set_solver.
Qed.

(** *** Paths of schema nodes *)

Lemma Join_snoc l x sep : l ≠ [] → Join (l ++ [x]) sep = Join l sep +:+ sep +:+ x.
Proof.
  induction l as [|y l IH]; [done|]. intros _. destruct l as [|z l]; [done|].
  change ((y :: z :: l) ++ [x]) with (y :: ((z :: l) ++ [x])).
  rewrite Join_cons by (by destruct l). rewrite IH by done. rewrite (Join_cons y (z :: l)) by done.
  by rewrite !str_app_assoc.
Qed.

Lemma join_snoc p seg : Forall wf_segment p → join (Path_String p) (seg_String seg) = Path_String (p ++ [seg]).
Proof.
  intros Hp. unfold join, Path_String. rewrite fmap_app. simpl. destruct p as [|s p]; [done|].
  rewrite Join_snoc by done. destruct (String.eqb_spec (Join (seg_String <$> s :: p) "/") "") as [He|]; [|done].
  exfalso. revert He. apply Join_not_empty; [done|]. apply Forall_fmap. eapply Forall_impl; [done|].
  intros x Hx. by apply (seg_String_ok x Hx).
Qed.

(** The names the schema puts into paths are path names. *)
Definition clean_node (n : Node) : Prop :=
  nd_Name n ≠ "" ∧ clean (nd_Name n) [slash; lbrack; rbrack] ∧
  (nd_Kind n = KindList → nd_Key n ≠ "" ∧ clean (nd_Key n) [slash; lbrack; rbrack; equals]).
Global Instance clean_node_dec n : Decision (clean_node n).
Proof. unfold clean_node. apply _. Defined.

Fixpoint clean_schema (s : schemaNode) : bool :=
  match s with SNode _ l => forallb (λ c, bool_decide (clean_node (sn_node c)) && clean_schema c) l end.

Lemma clean_child s name c : clean_schema s = true → child s name = Some c →
  clean_node (sn_node c) ∧ clean_schema c = true.
Proof.
  intros Hs [Hc _]%child_In. destruct s as [n l]. simpl in *. rewrite forallb_forall in Hs.
  specialize (Hs c). rewrite <- list_elem_of_In in Hs. apply Hs, andb_true_iff in Hc as [H1 H2].
  by apply bool_decide_eq_true in H1.
Qed.

Lemma clean_walk segs : ∀ s s', clean_schema s = true → schema_walk s segs = Ok s' → clean_schema s' = true.
Proof.
  induction segs as [|seg segs IH]; intros s s' Hs; [by intros [= <-]|].
  intros (c & Hc & _ & Hw)%schema_walk_cons. destruct (clean_child _ _ _ Hs Hc) as [_ Hcl]. by eapply IH.
Qed.

Lemma Children_inv schema base nodes : Children schema base = Ok nodes →
  ∃ segs s, Forall wf_segment segs ∧ Path_String segs = base ∧ schema_walk schema segs = Ok s ∧
    nodes = sn_node <$> sn_children s.
Proof.
  unfold Children. destruct (String.eqb_spec base "") as [->|].
  - intros [= <-]. by exists [], schema.
  - destruct (Parse base) as [segs|] eqn:Hp; [|done]. cbn [mbind res_bind].
    destruct (schema_walk schema segs) as [s|] eqn:Hw; [|done]. intros [= <-].
    apply Parse_inv in Hp as [Hs [_ Hwf]]. eauto 10.
Qed.

Lemma nodeNamed_child s name node : nodeNamed (sn_node <$> sn_children s) name = Some node →
  ∃ c, child s name = Some c ∧ sn_node c = node ∧ nd_Name node = name.
Proof.
  unfold nodeNamed, child, child_at. rewrite list_find_fmap.
  change ((λ n, nd_Name n = name) ∘ sn_node) with (λ c, nd_Name (sn_node c) = name).
  destruct (list_find (λ c, nd_Name (sn_node c) = name) (sn_children s)) as [[i c]|] eqn:E; [|done].
  intros [= <-]. exists c. by apply list_find_Some in E as (_ & ? & _).
Qed.

Lemma schema_walk_snoc segs seg : ∀ s s1 c, schema_walk s segs = Ok s1 → child s1 (seg_Name seg) = Some c →
  seg_fits c seg → schema_walk s (segs ++ [seg]) = Ok c.
Proof.
  induction segs as [|x segs IH]; intros s s1 c Hw Hc Hf.
  - injection Hw as <-. apply schema_walk_cons. by exists c.
  - apply schema_walk_cons in Hw as (c1 & Hc1 & Hf1 & Hw). simpl. apply schema_walk_cons. exists c1.
    split_and!; [done|done|]. by eapply IH.
Qed.

(** What the editor relies on of a router; every router that [New] returns provides it. *)
Class BuiltRouter (r : Router) : Prop := {
  built_schema : buildSchema device_type = Ok (r_schema r);
  built_decode : ∀ path o, r_byPath r !! path = Some o → ob_decode o = None ∨ ob_decode o = Some truthFromInt;
}.

Section edits.
Context (r : Router) `{!BuiltRouter r}.

Lemma router_schema_facts : represents false device_type (r_schema r) = true ∧
  clean_schema (r_schema r) = true ∧ nd_Kind (sn_node (r_schema r)) = KindContainer.
Proof.
  assert (match buildSchema device_type with
          | Ok s => represents false device_type s && clean_schema s && bool_decide (nd_Kind (sn_node s) = KindContainer)
          | Err _ => false end = true) as H by (vm_compute; reflexivity).
  rewrite built_schema, !andb_true_iff in H. destruct H as [[? ?] ?%bool_decide_eq_true]. done.
Qed.

(** The path of a container or of a list entry is not the path of a leaf. *)
Lemma subtree_no_leaf base nodes node seg :
  Children (r_schema r) base = Ok nodes → nodeNamed nodes (seg_Name seg) = Some node →
  nd_Kind node ≠ KindLeaf → (nd_Kind node = KindContainer → seg_Key seg = "" ∧ seg_Value seg = "") →
  (nd_Kind node = KindList → seg_Key seg = nd_Key node ∧ seg_Value seg ≠ "" ∧
     clean (seg_Value seg) [slash; lbrack; rbrack]) →
  is_ok (resolve_leaf r (join base (seg_String seg))) = false.
Proof.
  intros (segs & s & Hwf & <- & Hw & ->)%Children_inv (c & Hc & <- & Hname)%nodeNamed_child Hk HC HL.
  destruct router_schema_facts as (Hr & Hclean & Hroot).
  destruct (clean_child _ _ _ (clean_walk _ _ _ Hclean Hw) Hc) as [(N1 & N2 & N3) _].
  rewrite join_snoc by done.
  assert (wf_segment seg) as Hseg.
  { unfold wf_segment, clean in *. rewrite !Forall_cons in *. rewrite <- Hname. destruct N2 as (? & ? & ? & _).
    split_and!; try done. destruct (nd_Kind (sn_node c)) eqn:E; [left; by apply HC|right|done].
    destruct HL as (-> & ? & ?); [done|]. specialize (N3 eq_refl). destruct_and!. by split_and!. }
  assert (schema_walk (r_schema r) (segs ++ [seg]) = Ok c) as Hwalk.
  { eapply schema_walk_snoc; [done|done|]. unfold seg_fits.
    destruct (nd_Kind (sn_node c)) eqn:E; [by destruct HC| |done].
    destruct HL as (-> & _); [done|]. split; [by apply N3|done]. }
  destruct (resolve_leaf r (Path_String (segs ++ [seg]))) as [[p n]|] eqn:E; [|done].
  exfalso. apply resolve_leaf_inv in E as (Hp & Hres & Hl).
  rewrite Parse_String in Hp by (split; [by destruct segs|by apply Forall_app; split; [|constructor]]).
  injection Hp as <-. unfold resolve in Hres.
  assert (isLeaf n = false) as Hn; [|congruence].
  eapply walk_not_leaf; [exact Hr|by rewrite Hroot|exact Hwalk|exact Hres].
Qed.
(** *** Regions *)

Lemma within_trans root path p : within root path → within path p → within root p.
Proof.
  intros Hr [->|Hp]; [done|]. assert (∃ t, p = path +:+ t) as [t Ht].
  { destruct Hp as [Hp|Hp]; apply HasPrefix_spec in Hp as [t ->]; eexists; by rewrite str_app_assoc. }
  destruct Hr as [->|[H|H]].
  - by right.
  - right; left. apply HasPrefix_spec in H as [u ->]. rewrite Ht, str_app_assoc. apply HasPrefix_app.
  - right; right. apply HasPrefix_spec in H as [u ->]. rewrite Ht, str_app_assoc. apply HasPrefix_app.
Qed.

Lemma within_join path name : path ≠ "" → within path (join path name).
Proof.
  intros Hne. unfold join. destruct (String.eqb_spec path ""); [done|]. right; left.
  rewrite <- str_app_assoc. apply HasPrefix_app.
Qed.

Lemma join_ne base name : name ≠ "" → join base name ≠ "".
Proof. unfold join. intros H. destruct (String.eqb base ""); [done|]. by destruct base. Qed.

Lemma named_clean base nodes name node :
  Children (r_schema r) base = Ok nodes → nodeNamed nodes name = Some node → name ≠ "" ∧ nd_Name node = name ∧
  (nd_Kind node = KindList → nd_Key node ≠ "").
Proof.
  intros (segs & s & _ & _ & Hw & ->)%Children_inv (c & Hc & <- & Hn)%nodeNamed_child.
  destruct router_schema_facts as (_ & Hcl & _).
  destruct (clean_child _ _ _ (clean_walk _ _ _ Hcl Hw) Hc) as [(N1 & _ & N3) _]. rewrite Hn in N1.
  split_and!; [done|done|]. intros E. by destruct (N3 E).
Qed.

(** *** The walk only makes changes below its document *)

Lemma leaf_changes e path d node op e' :
  edit_leaf r e path d node op = Ok e' → changes r (within path) e e'.
Proof.
  intros H.
  assert (∀ v, match Convert r path v with
               | Ok x => if bool_decide (op = OpCreate) && bool_decide (path ∈ writable e) then DataExists path
                         else Ok (mkEditor (<[path := res_Value x]> (proposed e)) ({[path]} ∪ writable e))
               | Err err => if errors_is err RouterErrReadOnly then AccessDenied path
                            else if errors_is err RouterErrNotFound then UnknownElement else InvalidValueAt path
               end = Ok e' → changes r (within path) e e') as Hset.
  { intros v. destruct (Convert r path v) as [x|err] eqn:E; [|by repeat case_match].
    destruct (_ && _); [done|]. intros [= <-]. apply rtc_once. exists path. split; [by left|by econstructor]. }
  unfold edit_leaf in H. destruct op; try (by injection H as <-; apply rtc_refl).
  1-3: destruct (_ ≫= _) as [v|]; [|done]; by apply (Hset v).
  - destruct (bool_decide_reflect (path ∈ writable e)) as [Hw|]; simpl in H.
    + injection H as <-. apply rtc_once. exists path. split; [by left|]. constructor. by left.
    + by destruct (bool_decide _).
  - destruct (bool_decide_reflect (is_Some (proposed e !! path))) as [Hx|Hx],
      (bool_decide_reflect (path ∈ writable e)) as [Hw|Hw]; simpl in H; try done; injection H as <-;
      apply rtc_once; exists path; (split; [by left|]); constructor; [by left..|right]; by apply eq_None_not_Some.
Qed.

Lemma prepare_changes e path op e' :
  proposed e !! path = None → prepareSubtree e path op = Ok e' → changes r (within path) e e'.
Proof.
  intros Hp. pose proof (wipe_changes r e path (or_intror Hp)) as Hw. unfold prepareSubtree.
  destruct op; [| |destruct (contains e path); [discriminate 1|]|destruct (contains e path); [|discriminate 1]| |];
    intros [= <-]; (exact Hw || apply rtc_refl).
Qed.

Lemma Document_ind' (P : Document → Prop) :
  (∀ n t h a l, Forall P l → P (Doc n t h a l)) → ∀ d, P d.
Proof.
  intros H. fix IH 1. intros [n t h a l]. apply H. induction l as [|d l IHl]; constructor; [apply IH|apply IHl].
Qed.

Definition walk_confined (d : Document) : Prop := ∀ base nodes op e e',
  Children (r_schema r) base = Ok nodes → leaves_only r e → walk r d base nodes op e = Ok e' →
  changes r (within (join base (doc_Name d))) e e'.

Lemma walk_all_changes l base nodes op : Forall walk_confined l → ∀ e e',
  Children (r_schema r) base = Ok nodes → leaves_only r e → walk_all r l base nodes op e = Ok e' →
  changes r (λ p, ∃ d, d ∈ l ∧ within (join base (doc_Name d)) p) e e'.
Proof.
  induction 1 as [|d l Hd _ IH]; intros e e' Hch Hl H; simpl in H; [injection H as <-; apply rtc_refl|].
  destruct (walk r d base nodes op e) as [e1|] eqn:E; simpl in H; [|done].
  pose proof (Hd _ _ _ _ _ Hch Hl E) as H1.
  transitivity e1; [|].
  - eapply changes_mono; [|exact H1]. intros p Hp. exists d. split; [by left|done].
  - eapply changes_mono; [|apply IH; [done|by eapply changes_leaves|done]].
    intros p (d' & Hd' & Hp). exists d'. split; [by right|done].
Qed.

Lemma walk_changes d : walk_confined d.
Proof.
  induction d as [n t h a l IH] using Document_ind'. intros base nodes op0 e e' Hch Hl H.
  rewrite walk_eq in H. destruct (nodeNamed nodes n) as [node|] eqn:Hn; [|done].
  destruct (parseOperationAttr (Doc n t h a l)) as [explicit|]; [|done]. cbn [mbind res_bind] in H.
  set (op := default op0 explicit) in *. clearbody op. cbn [doc_Name].
  destruct (named_clean _ _ _ _ Hch Hn) as (Hne & Hname & Hkey).
  assert (Hsub : ∀ seg, seg_Name seg = n → nd_Kind node ≠ KindLeaf →
    (nd_Kind node = KindContainer → seg_Key seg = "" ∧ seg_Value seg = "") →
    (nd_Kind node = KindList → seg_Key seg = nd_Key node ∧ seg_Value seg ≠ "" ∧ clean (seg_Value seg) [slash; lbrack; rbrack]) →
    subtree r l (join base (seg_String seg)) op e = Ok e' → changes r (within (join base (seg_String seg))) e e').
  { intros seg Hs Hk HC HL Hrun. unfold subtree in Hrun. set (path := join base (seg_String seg)) in *.
    assert (proposed e !! path = None) as Hnone.
    { apply eq_None_not_Some. intros Hsome. apply Hl in Hsome. rewrite <- Hs in Hn.
      assert (is_ok (resolve_leaf r path) = false) as Hf by (by apply (subtree_no_leaf base nodes node seg)). congruence. }
    destruct (prepareSubtree e path op) as [e1|] eqn:E1; [|done]. cbn [mbind res_bind] in Hrun.
    apply (prepare_changes _ _ _ _ Hnone) in E1. transitivity e1; [done|].
    assert (∀ children, Children (r_schema r) path = Ok children →
      walk_all r l path children (childOperation op) e1 = Ok e' → changes r (within path) e1 e') as Hdown.
    { intros children Hc Hw. eapply changes_mono; [|eapply walk_all_changes; [exact IH|done|by eapply changes_leaves|done]].
      intros p (d & _ & Hp). eapply within_trans; [|done]. apply within_join.
      apply join_ne. unfold seg_String. rewrite Hs. destruct (String.eqb _ _); [done|]. by destruct n. }
    destruct op; try (injection Hrun as <-; apply rtc_refl);
      (destruct (Children (r_schema r) path) as [children|] eqn:Hc; [by eapply Hdown|done]). }
  destruct (nd_Kind node) eqn:Hk.
  - specialize (Hsub (mkSeg n "" "")). apply Hsub; try done.
  - destruct (listKey (Doc n t h a l) (nd_Key node)) as [key|] eqn:Hlk; [|done]. cbn [mbind res_bind] in H.
    specialize (Hsub (mkSeg n (nd_Key node) key)).
    assert (join base (seg_String (mkSeg n (nd_Key node) key)) =
            join base n +:+ "[" +:+ nd_Key node +:+ "=" +:+ key +:+ "]") as Hj.
    { unfold seg_String. cbn [seg_Key seg_Name seg_Value].
      destruct (String.eqb_spec (nd_Key node) "") as [He|_]; [by destruct (Hkey eq_refl)|].
      unfold join. destruct (String.eqb base ""); [done|]. by rewrite !str_app_assoc. }
    rewrite Hj in Hsub.
    eapply changes_mono; [|apply Hsub; try done].
    + intros p Hp. eapply within_trans; [|exact Hp]. right; right. rewrite <- str_app_assoc. apply HasPrefix_app.
    + intros _. split; [done|]. unfold listKey in Hlk. destruct (doc_Child _ _) as [kd|]; [|done].
      destruct (String.eqb_spec (TrimSpace (doc_Text kd)) ""); [done|].
      destruct (has_byte _ "/") eqn:B1; [done|]. destruct (has_byte _ "[") eqn:B2; [done|].
      destruct (has_byte _ "]") eqn:B3; [done|]. injection Hlk as <-. split; [done|]. by repeat constructor.
  - by apply leaf_changes in H.
Qed.

End edits.
