(* ===== verification/Edits.v ===== *)
(** * What an edit does to a datastore ([internal/datatree/edit.go])

    The guarantees of [Edit] for every router that [New] builds: an edit is all or
    nothing, its result is a valid device, it stays below the nodes its documents name
    and it never touches a state leaf. *)

From S2P Require Import Prelude GoStrings GoFloat GoParse GoValue GoNet Persist Store Path Model Reflect Reflected Hydrate Schema Oid Router Snmp Ops Datatree.

(** ** Conversion is idempotent *)

Lemma objects_decode root : Forall (λ o, ob_decode o = None ∨ ob_decode o = Some truthFromInt) (buildObjects root).
Proof.
  assert (Hrules : Forall (λ r, ru_decode r = None ∨ ru_decode r = Some truthFromInt) objectRules).
  { unfold objectRules. repeat (constructor; [by (left; reflexivity) || (right; reflexivity)|]). constructor. }
  rewrite Forall_forall in Hrules.
  unfold buildObjects. rewrite sort_objects_perm. unfold raw_objects.
  assert (∀ kind prefix keyed, Forall (λ o, ob_decode o = None ∨ ob_decode o = Some truthFromInt)
            (tableObjects root kind prefix keyed)) as Ht.
  { intros kind prefix keyed. apply Forall_forall. intros o (key & Ho & _)%list_elem_of_bind. simpl in Ho.
    destruct (String.eqb _ _); [by apply elem_of_nil in Ho|].
    apply list_elem_of_fmap in Ho as (x & -> & [_ Hx]%list_elem_of_filter). by apply Hrules. }
  repeat (apply Forall_app; split); try apply Ht.
  - apply Forall_fmap, Forall_forall. intros x [_ Hx]%list_elem_of_filter. by apply Hrules.
  - constructor; [by left|constructor].
  - generalize 0%Z false. induction (dev_Interfaces root) as [|iface l IH]; intros i ex; cbn [interface_objects]; [constructor|].
    apply Forall_app; split; [constructor; [by left|constructor]|apply Forall_app; split; [|apply IH]].
    apply Forall_forall. intros o (x & Ho & Hx)%list_elem_of_bind.
    destruct (ru_scope x); try by apply elem_of_nil in Ho.
    + apply list_elem_of_singleton in Ho as ->. by apply Hrules.
    + destruct (_ || _); [by apply elem_of_nil in Ho|]. apply list_elem_of_singleton in Ho as ->. by apply Hrules.
Qed.

Lemma NewRouter_built root r : NewRouter root = Ok r → r_root r = root ∧ BuiltRouter r.
Proof.
  unfold NewRouter. destruct (buildSchema device_type) as [schema|] eqn:Hs; cbn [mbind res_bind]; [|done]. intros H.
  apply (index_objects_indexed _ []) in H as ((_ & _ & Hp & _) & Hr & Hsch); [|apply indexed_nil].
  split; [done|]. split; [by rewrite Hsch|]. intros path o Ho. destruct (Hp path o Ho) as (Hin & _).
  pose proof (objects_decode root) as Hd. rewrite Forall_forall in Hd. by apply Hd.
Qed.

Lemma assignLeaf_idem k v x : assignLeaf k v = Ok x → assignLeaf k x = Ok x.
Proof.
  destruct k; cbn -[Z.pow].
  - destruct v; try done. by intros [= <-].
  - destruct (toInt64 v); [|done]. by intros [= <-].
  - destruct (toUint64 v) as [z|]; [|by repeat case_match]. destruct (_ <=? z)%Z eqn:E; [done|]. intros [= <-]. cbn -[Z.pow]. by rewrite E.
  - destruct (toUint64 v) as [z|]; [|by repeat case_match]. destruct (_ <=? z)%Z eqn:E; [done|]. intros [= <-]. cbn -[Z.pow]. by rewrite E.
  - destruct (toUint64 v) as [z|]; [|by repeat case_match]. destruct (_ <=? z)%Z eqn:E; [done|]. intros [= <-]. cbn -[Z.pow]. by rewrite E.
  - destruct (toUint64 v) as [z|]; [|by repeat case_match]. destruct (_ <=? z)%Z eqn:E; [done|]. intros [= <-]. cbn -[Z.pow]. by rewrite E.
  - destruct (toFloat64 v); [|done]. by intros [= <-].
  - destruct v; try done. by intros [= <-].
Qed.

Lemma truth_bool v w : truthFromInt v = Ok w → ∃ b, w = VBool b.
Proof.
  assert (∀ z, (if (z =? 1)%Z then Ok (VBool true) else if (z =? 2)%Z then Ok (VBool false)
                else Err [Anon "TruthValue"]) = Ok w → ∃ b, w = VBool b) as Hz.
  { intros z. destruct (z =? 1)%Z; [by intros [= <-]; eauto|]. destruct (z =? 2)%Z; [by intros [= <-]; eauto|done]. }
  destruct v; simpl; try done; try apply Hz. intros [= <-]; eauto.
Qed.

Section router.
Context (r : Router) `{!BuiltRouter r}.

(** The value part of a conversion. *)
Lemma Convert_value p v x : Convert r p v = Ok x →
  ∃ segs n k v', resolve_leaf r p = Ok (segs, n) ∧ n_type n = TLeaf k ∧ assignLeaf k v' = Ok (res_Value x) ∧
    (v' = v ∨ ∃ b, v' = VBool b ∧ truthFromInt v = Ok v' ∧ is_Some (r_byPath r !! p ≫= ob_decode)).
Proof.
  unfold Convert, convert. destruct (resolve_leaf r p) as [[segs n]|] eqn:E; simpl; [|done].
  destruct (negb _); simpl; [|done].
  rewrite (resolve_leaf_path _ _ _ _ E).
  destruct (match r_byPath r !! p with
    | Some o => match ob_decode o with
                | Some decode => match decode v with Ok v => Ok v | Err _ => Err [RouterErrBadValue] end
                | None => Ok v end
    | None => Ok v end) as [v'|] eqn:Ev; simpl; [|done].
  unfold coerce. destruct (n_type n) as [k| | |] eqn:Ht; try done.
  destruct (assignLeaf k v') as [y|] eqn:Ea; cbn [mbind res_bind leafValue]; [|done].
  destruct (is_leaf y); simpl; [|done]. intros [= <-].
  exists segs, n, k, v'. rewrite (proj2 (result_fields r p y true)). split_and!; try done.
  destruct (r_byPath r !! p) as [o|] eqn:Ho; [|left; congruence].
  destruct (built_decode _ _ Ho) as [Hd'|Hd']; rewrite Hd' in Ev; [left; congruence|].
  right. destruct (truthFromInt v) as [w|] eqn:Et; [|done]. injection Ev as <-.
  destruct (truth_bool _ _ Et) as [b ->].
  exists b. split_and!; [done|done|]. cbn [mbind option_bind]. rewrite Hd'. eauto.
Qed.

Lemma Convert_idem p v x : Convert r p v = Ok x → Convert r p (res_Value x) = Ok x.
Proof.
  intros H. destruct (Convert_value _ _ _ H) as (segs & n & k & v' & Hl & Ht & Ha & Hv).
  revert H. unfold Convert, convert. rewrite Hl. cbn [mbind res_bind]. rewrite (resolve_leaf_path _ _ _ _ Hl).
  destruct (negb _); simpl; [|done]. rewrite Ht.
  pose proof (assignLeaf_idem _ _ _ Ha) as Hi. pose proof (assignLeaf_kind _ _ _ Ha) as Hk.
  assert (∀ w, coerce w (TLeaf k) = (y ← assignLeaf k w; leafValue (GLeaf y))) as Hco by done.
  destruct (r_byPath r !! p) as [o|] eqn:Ho.
  - destruct (built_decode _ _ Ho) as [Ed|Ed]; rewrite Ed.
    + cbn [mbind res_bind]. rewrite !Hco, Hi. destruct (assignLeaf k v) as [y|] eqn:Ey; [|done].
      cbn [mbind res_bind]. unfold leafValue. destruct (is_leaf y) eqn:Ely; [|done]. cbn [mbind res_bind].
      intros [= <-]. rewrite (proj2 (result_fields r p y true)). rewrite Ely. done.
    + destruct (truthFromInt v) as [w|] eqn:Et; [|done]. cbn [mbind res_bind]. rewrite !Hco.
      destruct (assignLeaf k w) as [y|] eqn:Ey; [|done]. cbn [mbind res_bind]. unfold leafValue.
      destruct (is_leaf y) eqn:Ely; [|done]. cbn [mbind res_bind]. intros [= <-].
      rewrite (proj2 (result_fields r p y true)) in *.
      destruct (truth_bool _ _ Et) as [b ->].
      assert (y = VBool b) as ->.
      { destruct k; cbn -[Z.pow] in Ey; try done; congruence. }
      cbn [truthFromInt mbind res_bind]. rewrite Hco, Hi. done.
  - cbn [mbind res_bind]. rewrite !Hco, Hi. destruct (assignLeaf k v) as [y|] eqn:Ey; [|done].
    cbn [mbind res_bind]. unfold leafValue. destruct (is_leaf y) eqn:Ely; [|done]. cbn [mbind res_bind].
    intros [= <-]. rewrite (proj2 (result_fields r p y true)). rewrite Ely. done.
Qed.
(** A value that differs from itself (a NaN) only converts to itself. *)
Lemma Convert_nan p v x : value_eqb v v = false → Convert r p v = Ok x → res_Value x = v.
Proof.
  intros Hn H. destruct (Convert_value _ _ _ H) as (segs & n & k & v' & _ & _ & Ha & Hv).
  destruct v; simpl in Hn; rewrite ?Z.eqb_refl, ?String.eqb_refl, ?eqb_reflx in Hn; try done.
  destruct Hv as [->|(b & -> & Ht & _)]; [|done].
  assert (f = S754_nan) as ->.
  { destruct f as [[]|[]| |[] m e]; try done; unfold F64.eqb, SFeqb in Hn; simpl in Hn;
      rewrite Z.compare_refl in Hn; change (Pos.compare_cont Eq m m) with (Pos.compare m m) in Hn;
      by rewrite Pos.compare_refl in Hn. }
  destruct k; cbn in Ha; congruence.
Qed.

(** ** What the walk preserves *)

Lemma changes_frame region e e' p : changes r region e e' → ¬ region p →
  proposed e' !! p = proposed e !! p.
Proof.
  intros H Hp. induction H as [|e e1 e2 (q & Hq & Hc) _ IH]; [done|]. rewrite IH.
  assert (p ≠ q) by (by intros ->). destruct Hc; simpl; [by rewrite lookup_delete_ne|by rewrite lookup_insert_ne].
Qed.

(** State leaves: outside the writable set, and kept. *)
Lemma changes_state region e e' p : changes r region e e' → IsState r p = true → p ∉ writable e →
  (p ∉ writable e') ∧ proposed e' !! p = proposed e !! p.
Proof.
  intros H Hs Hw. induction H as [|e e1 e2 (q & _ & Hc) _ IH]; [done|].
  assert ((p ∉ writable e1) ∧ proposed e1 !! p = proposed e !! p) as [H1 H2].
  { destruct Hc as [Hq|v x Hv]; simpl.
    - split; [set_solver|]. destruct (decide (p = q)) as [->|]; [|by rewrite lookup_delete_ne].
      destruct Hq as [?|Hq]; [done|]. by rewrite lookup_delete_eq, Hq.
    - apply Convert_path in Hv as (_ & Hst & _). assert (p ≠ q) by congruence.
      split; [set_solver|by rewrite lookup_insert_ne]. }
  destruct (IH H1) as [? ->]. done.
Qed.

(** A leaf of the result was there before or is a converted value. *)
Lemma changes_values region e e' p v : changes r region e e' → proposed e' !! p = Some v →
  proposed e !! p = Some v ∨ ∃ w x, Convert r p w = Ok x ∧ res_Value x = v.
Proof.
  intros H. induction H as [|e e1 e2 (q & _ & Hc) _ IH]; [by left|]. intros Hv.
  destruct (IH Hv) as [H1|H1]; [|by right]. destruct Hc as [_|w x Hw]; simpl in H1.
  - left. by apply lookup_delete_Some in H1 as [_ ?].
  - apply lookup_insert_Some in H1 as [[<- <-]|[_ ?]]; [right; eauto|by left].
Qed.

(** ** The snapshot an edit starts from *)

Lemma describe_all_spec vs paths l : describe_all r vs paths = Ok l →
  Forall2 (λ p x, ∃ v, vs !! p = Some v ∧ describe r p v = Ok x) paths l.
Proof.
  revert l. induction paths as [|p paths IH]; intros l; simpl; [by intros [= <-]|].
  destruct (vs !! p) as [v|] eqn:Hv; [|done]. destruct (describe r p v) as [x|] eqn:Hd; simpl; [|done].
  destruct (describe_all r vs paths) as [rest|]; simpl; [|done]. intros [= <-]. constructor; eauto.
Qed.

Lemma describe_fields p v x : describe r p v = Ok x →
  res_Value x = v ∧ is_ok (resolve_leaf r p) = true ∧ (res_Writable x = true → IsState r p = false).
Proof.
  unfold describe. destruct (resolve_leaf r p) as [[segs n]|] eqn:E; simpl; [|done]. intros [= <-].
  rewrite (resolve_leaf_path _ _ _ _ E). rewrite (proj2 (result_fields r p v (negb (n_readOnly n)))).
  split_and!; [done|done|]. apply resolve_leaf_inv in E as (Hp & Hres & _). unfold IsState. rewrite Hp.
  cbn [mbind res_bind]. rewrite Hres. unfold result. by destruct (r_byPath r !! p), (n_readOnly n).
Qed.

Lemma collect_editor m ctx ds results : collect r m ctx ds = Ok results →
  datastore m ds = Ok (proposed (editor_of results)) ∧ leaves_only r (editor_of results) ∧
  ∀ p, p ∈ writable (editor_of results) → IsState r p = false.
Proof.
  unfold collect, Router_Values, Values. destruct ctx; [|done]. cbn [ctx_err check mbind res_bind].
  destruct (datastore m ds) as [vs|]; [|done]. cbn [mbind res_bind]. rewrite copyValues_id.
  destruct (describe_all r vs (map_to_list vs).*1) as [l|] eqn:Hd; [|done]. cbn [mbind res_bind].
  intros [= <-]. apply describe_all_spec in Hd.
  assert (((λ x, (x.1, res_Value x.2)) <$> zip (map_to_list vs).*1 l) = map_to_list vs) as Hzip.
  { assert (Forall (λ kv, vs !! kv.1 = Some kv.2) (map_to_list vs)) as Hin.
    { apply Forall_forall. intros [k v] H. by apply elem_of_map_to_list in H. }
    revert l Hd. induction Hin as [|[k v] kvs Hk _ IH]; intros l Hd; apply Forall2_cons_inv_l in Hd || apply Forall2_nil_inv_l in Hd.
    - by subst.
    - destruct Hd as (x & l' & (w & Hw & Hx) & Hrest & ->). simpl in *. rewrite Hk in Hw. injection Hw as <-.
      f_equal; [|by apply IH]. by apply describe_fields in Hx as [-> _]. }
  assert (∀ p x, (p, x) ∈ zip (map_to_list vs).*1 l → ∃ v, vs !! p = Some v ∧ describe r p v = Ok x) as Hz.
  { intros p x Hin. apply list_elem_of_lookup in Hin as [i Hi].
    apply lookup_zip_with_Some in Hi as (a & b & [= -> ->] & Ha & Hb). by eapply (Forall2_lookup_lr _ _ _ _ _ _ Hd). }
  unfold editor_of. simpl. rewrite Hzip, list_to_map_to_list. split_and!; [done| |].
  - intros p [v Hv]. simpl in Hv.
    assert (p ∈ (map_to_list vs).*1) as [i Hi]%list_elem_of_lookup.
    { apply list_elem_of_fmap. exists (p, v). by rewrite elem_of_map_to_list. }
    destruct (Forall2_lookup_l _ _ _ _ _ Hd Hi) as (x & _ & w & _ & Hx). by apply describe_fields in Hx as (_ & ? & _).
  - intros p Hp. apply elem_of_list_to_set, list_elem_of_fmap in Hp as ([q x] & -> & Hin).
    apply list_elem_of_filter in Hin as [Hw Hin]. destruct (Hz _ _ Hin) as (v & _ & Hx).
    apply describe_fields in Hx as (_ & _ & H). by apply H.
Qed.

(** ** The batch *)

Lemma convert_all_lookup l : ∀ out conv, NoDup l.*1 → convert_all r l out = Ok conv →
  ∀ p, match (list_to_map l : values) !! p with
       | Some v => ∃ x, Convert r p v = Ok x ∧ conv !! p = Some (res_Value x)
       | None => conv !! p = out !! p
       end.
Proof.
  induction l as [|[q v] l IH]; intros out conv Hnd H p; simpl in *; [by injection H as <-|].
  apply NoDup_cons in Hnd as [Hq Hnd].
  destruct (Convert r q v) as [x|] eqn:Hx; simpl in H; [|done].
  specialize (IH _ _ Hnd H p). pose proof (Convert_path _ _ _ _ Hx) as (_ & _ & Hp). rewrite Hp in IH.
  destruct (decide (p = q)) as [->|Hne].
  - rewrite lookup_insert_eq. rewrite not_elem_of_list_to_map_1 in IH by done.
    exists x. split; [done|]. by rewrite IH, lookup_insert_eq.
  - rewrite lookup_insert_ne by done. destruct ((list_to_map l : values) !! p); [done|]. by rewrite IH, lookup_insert_ne.
Qed.

(** Equal as the Go map reads: the comparison of the source treats the two zeros alike. *)
Definition same_value (a b : option value) : Prop :=
  a = b ∨ ∃ x y, a = Some x ∧ b = Some y ∧ value_eqb x y = true.

Lemma applyDiff_result m now ctx ds region e e' m' :
  datastore m ds = Ok (proposed e) → changes r region e e' →
  applyDiff r m now ctx ds (proposed e) (proposed e') = (Ok tt, m') →
  (∃ final, datastore m' ds = Ok final ∧ ∀ p, same_value (final !! p) (proposed e' !! p) ∧
     (proposed e' !! p = proposed e !! p → final !! p = proposed e !! p)) ∧
  ∀ d, d ∈ [Running; Candidate; Startup] → target ds d = false → datastore m' d = datastore m d.
Proof.
  intros Hds Hc. unfold applyDiff, Router_Apply. destruct ctx; [|done]. cbn [ctx_err check mbind res_bind].
  set (sets := changed_values _ _). set (dels := removed_paths _ _).
  destruct (convert_all r (map_to_list sets) ∅) as [conv|] eqn:Hconv; [|done].
  destruct (Apply m now true ds conv dels) as [[[]|] m1] eqn:HA; [|done]. intros [= <-].
  pose proof (convert_all_lookup _ _ _ (NoDup_fst_map_to_list sets) Hconv) as Hl. rewrite list_to_map_to_list in Hl.
  apply Apply_effect in HA as (Heff & _ & _).
  split; [|intros d Hd Ht; by eapply effect_untouched].
  assert (Hdels : ∀ p, p ∈ dels ↔ is_Some (proposed e !! p) ∧ proposed e' !! p = None).
  { intros p. unfold dels, removed_paths. rewrite list_elem_of_filter, list_elem_of_fmap. split.
    - intros [Hn ([q v] & -> & Hq%elem_of_map_to_list)]. split; [eauto|done].
    - intros [[v Hv] Hn]. split; [done|]. exists (p, v). by rewrite elem_of_map_to_list. }
  assert (Hfinal : ∀ p, overlay (map_to_list conv) dels (proposed e) !! p =
    match proposed e' !! p with
    | None => None
    | Some v => match sets !! p with Some _ => conv !! p | None => proposed e !! p end
    end).
  { intros p. rewrite overlay_lookup. specialize (Hl p).
    destruct (proposed e' !! p) as [v|] eqn:Hv.
    - rewrite bool_decide_eq_false_2 by (rewrite Hdels, Hv; by intros []).
      destruct (sets !! p); [by destruct Hl as (x & _ & ->)|]. by rewrite Hl, lookup_empty.
    - destruct (proposed e !! p) eqn:Ho.
      + rewrite bool_decide_eq_true_2 by (rewrite Hdels, Ho; eauto). done.
      + rewrite bool_decide_eq_false_2 by (rewrite Hdels, Ho; by intros [[? ?] _]).
        assert (sets !! p = None) as Hs.
        { unfold sets, changed_values. apply map_lookup_filter_None_2. by left. }
        rewrite Hs in Hl. by rewrite Hl, lookup_empty. }
  exists (overlay (map_to_list conv) dels (proposed e)). split.
  { destruct Heff as [Er Ec Es _ _ _].
    apply datastore_ok in Hds as [[-> Hv]|[[-> Hv]|[-> Hv]]]; unfold datastore; simpl in *; by rewrite ?Er, ?Ec, ?Es, <- Hv. }
  intros p. rewrite Hfinal. specialize (Hl p).
  destruct (proposed e' !! p) as [v|] eqn:Hv; [|split; [by left|by intros <-]].
  destruct (sets !! p) as [w|] eqn:Hs.
  - unfold sets, changed_values in Hs. apply map_lookup_filter_Some in Hs as [Hs Hne]. rewrite Hv in Hs. injection Hs as ->.
    simpl in Hne. destruct Hl as (x & Hx & ->).
    assert (res_Value x = w) as Hxw.
    { destruct (changes_values _ _ _ _ _ Hc Hv) as [Hold|(u & y & Hu & <-)].
      - rewrite Hold in Hne. apply negb_true_iff in Hne. by eapply Convert_nan.
      - apply Convert_idem in Hu. rewrite Hx in Hu. by injection Hu as ->. }
    rewrite Hxw. split; [by left|by intros <-].
  - unfold sets, changed_values in Hs. apply map_lookup_filter_None in Hs as [Hs|Hs]; [congruence|].
    specialize (Hs v Hv). simpl in Hs. destruct (proposed e !! p) as [old|]; [|done].
    split; [|done]. right. exists old, v. split_and!; try done.
    destruct (value_eqb old v); [done|]. by destruct Hs.
Qed.

End router.

(** A successful request: the proposed snapshot and how it came about. *)
Lemma propose_inv r `{!BuiltRouter r} m ctx ds req original next :
  propose r m ctx ds req = Ok (original, next) →
  ∃ e e', original = proposed e ∧ next = proposed e' ∧ datastore m ds = Ok (proposed e) ∧
    (∀ p, p ∈ writable e → IsState r p = false) ∧
    changes r (λ p, ∃ d, d ∈ rq_Documents req ∧ within (join (rq_BasePath req) (doc_Name d)) p) e e' ∧
    Router_Validate (r_root r) ctx (proposed e') = Ok tt.
Proof.
  unfold propose. destruct (collect r m ctx ds) as [results|] eqn:Hc; [|done]. cbn [mbind res_bind].
  apply collect_editor in Hc as (Hds & Hleaves & Hstate).
  destruct (Children (r_schema r) (rq_BasePath req)) as [schema|] eqn:Hch; [|done]. cbn [mbind res_bind].
  destruct (walk_all r (rq_Documents req) (rq_BasePath req) schema (rq_Default req) (editor_of results)) as [e'|] eqn:Hw;
    [|done]. cbn [mbind res_bind].
  destruct (Router_Validate (r_root r) ctx (proposed e')) as [[]|] eqn:HV; [|done]. cbn [mbind res_bind].
  intros [= <- <-]. exists (editor_of results), e'. split_and!; try done.
  eapply walk_all_changes; try done. apply Forall_forall. intros d _. by apply walk_changes.
Qed.

(** The two ends of an edit: nothing, or the proposed snapshot in place. *)
Lemma Edit_outcome root r m now ctx ds req x m' :
  NewRouter root = Ok r → Edit r m now ctx ds req = (x, m') →
  match x with
  | Err _ => m' = m
  | Ok _ => ∃ original next final d,
      propose r m ctx ds req = Ok (original, next) ∧ datastore m ds = Ok original ∧
      deviceFromValues root next = Ok d ∧ Device_ok d ∧
      datastore m' ds = Ok final ∧ ∀ p, same_value (final !! p) (next !! p)
  end.
Proof.
  intros [Hroot Hbuilt]%NewRouter_built. unfold Edit. destruct ctx; [|by intros [= <- <-]]. cbn [ctx_err check].
  destruct (propose r m true ds req) as [[original next]|err] eqn:Hp; [|by intros [= <- <-]]. intros H.
  destruct x as [[]|err].
  - apply propose_inv in Hp as (e & e' & -> & -> & Hds & _ & Hc & HV); [|done].
    destruct (applyDiff_result _ _ _ _ _ _ _ _ _ Hds Hc H) as [(final & Hf & Hsame) _].
    unfold Router_Validate in HV. cbn [ctx_err check mbind res_bind] in HV. rewrite Hroot in HV.
    destruct (deviceFromValues root (proposed e')) as [d|] eqn:Hd; [|done]. cbn [mbind res_bind] in HV.
    eexists _, _, final, d. split_and!; try done; [by apply Device_Validate_ok|]. intros p. by destruct (Hsame p).
  - revert H. unfold applyDiff, Router_Apply. destruct (_ ≫= _) as [conv|]; [|by intros [= _ <-]].
    destruct (Apply m now true ds conv _) as [[u|e'] m1] eqn:HA; [done|]. intros [= _ <-].
    revert HA. unfold Apply. repeat case_match; congruence.
Qed.

(** ** Properties *)

(** C23: an edit is all or nothing, and what it leaves is a valid device. When Edit reports
    an error the store is exactly as before. When it succeeds, the documents describe a
    proposed snapshot of the target datastore which rebuilds into a device that satisfies
    every rule of the model, and the datastore then holds exactly that snapshot. *)
Theorem edit_atomic root r m now ctx ds req x m' :
  NewRouter root = Ok r → Edit r m now ctx ds req = (x, m') →
  match x with
  | Err _ => m' = m
  | Ok _ => ∃ original next final d,
      propose r m ctx ds req = Ok (original, next) ∧ datastore m ds = Ok original ∧
      deviceFromValues root next = Ok d ∧ Device_ok d ∧
      datastore m' ds = Ok final ∧ ∀ p, same_value (final !! p) (next !! p)
  end.
Proof. apply Edit_outcome. Qed.

Lemma default_router_built : NewRouter DefaultDevice = Ok default_router.
Proof.
  destruct (is_ok_inv (NewRouter DefaultDevice) ltac:(vm_compute; reflexivity)) as [r E].
  unfold default_router. rewrite E. reflexivity.
Qed.

(** Renaming the device in a running datastore that holds its name and no list entries. *)
Abbreviation named_store :=
  (Set_ (Set_ (NewMemory "" None None) 1 true Running "synce/selected-source" (VString "")).2
     2 true Running "system-info/name" (VString "old")).2.
Abbreviation rename_request :=
  (mkEdit "" OpMerge [Doc "system-info" "" false ∅ [Doc "name" " renamed " true ∅ []]]).
Abbreviation rename_edit := (Edit default_router named_store 5 true Running rename_request).

Lemma edit_atomic_witness : rename_edit.1 = Ok tt ∧
  ∃ original next final d,
    propose default_router named_store true Running rename_request = Ok (original, next) ∧
    datastore named_store Running = Ok original ∧ deviceFromValues DefaultDevice next = Ok d ∧ Device_ok d ∧
    datastore rename_edit.2 Running = Ok final ∧ ∀ p, same_value (final !! p) (next !! p).
Proof.
  assert (H : rename_edit.1 = Ok tt) by (vm_compute; reflexivity).
  split; [exact H|].
  exact (edit_atomic DefaultDevice default_router named_store 5 true Running rename_request (Ok tt) rename_edit.2
    default_router_built (pair_eq _ _ H)).
Defined.

(** C24: an edit stays where its documents point. Whatever the operations, a successful
    Edit changes only leaves of the subtrees its documents name, never changes a state
    leaf, not even one inside a deleted or replaced subtree, and leaves the datastores it
    does not write alone. *)
Theorem edit_confined root r m now ctx ds req m' :
  NewRouter root = Ok r → Edit r m now ctx ds req = (Ok tt, m') →
  (∃ before final, datastore m ds = Ok before ∧ datastore m' ds = Ok final ∧
     ∀ p, ((∀ d, d ∈ rq_Documents req → ¬ within (join (rq_BasePath req) (doc_Name d)) p) ∨
           IsState r p = true) → final !! p = before !! p) ∧
  ∀ d, d ∈ [Running; Candidate; Startup] → target ds d = false → datastore m' d = datastore m d.
Proof.
  intros [Hroot Hbuilt]%NewRouter_built. unfold Edit. destruct ctx; [|done]. cbn [ctx_err check].
  destruct (propose r m true ds req) as [[original next]|err] eqn:Hp; [|done]. intros H.
  apply propose_inv in Hp as (e & e' & -> & -> & Hds & Hstate & Hc & _); [|done].
  destruct (applyDiff_result _ _ _ _ _ _ _ _ _ Hds Hc H) as [(final & Hf & Hsame) Hothers].
  split; [|done]. exists (proposed e), final. split_and!; [done|done|].
  intros p Hp. apply Hsame. destruct Hp as [Hp|Hp].
  - eapply (changes_frame r); [exact Hc|]. intros (d & Hd & Hin). by apply (Hp d).
  - eapply (changes_state r); [exact Hc|done|]. intros Hw. by rewrite (Hstate p Hw) in Hp.
Qed.

Lemma edit_confined_witness : rename_edit.1 = Ok tt ∧
  (∀ d, d ∈ [Running; Candidate; Startup] → target Running d = false →
     datastore rename_edit.2 d = datastore named_store d).
Proof.
  assert (H : rename_edit.1 = Ok tt) by (vm_compute; reflexivity).
  split; [exact H|].
  exact (proj2 (edit_confined DefaultDevice default_router named_store 5 true Running rename_request rename_edit.2
    default_router_built (pair_eq _ _ H))).
Defined.

(** The edit operations on a subtree. Create refuses a node that already holds
    configuration and delete one that holds none; delete, remove and replace take out
    exactly the configuration leaves below the node, and merge and none take out nothing.
    A node holds configuration exactly when one of its leaves is writable. *)
Theorem subtree_operations e path op :
  (∀ p, p ∈ writable e → is_Some (proposed e !! p)) → proposed e !! path = None →
  (contains e path = true ↔ ∃ p, p ∈ writable e ∧ under path p = true) ∧
  match prepareSubtree e path op with
  | Err err => op = OpCreate ∧ contains e path = true ∧ err = [OpError TagDataExists path false] ∨
               op = OpDelete ∧ contains e path = false ∧ err = [OpError TagDataMissing path false]
  | Ok e' => ∀ p, proposed e' !! p =
      if bool_decide (op ∈ [OpDelete; OpRemove; OpReplace] ∧ p ∈ writable e ∧ under path p = true)
      then None else (proposed e !! p)
  end.
Proof.
  intros Hdom Hpath.
  assert (path ∉ writable e) as Hnw by (intros H; apply Hdom in H as [v Hv]; congruence).
  assert (Hwipe : ∀ p, proposed (wipe e path) !! p =
    if bool_decide (p ∈ writable e ∧ under path p = true) then None else (proposed e !! p)).
  { intros p. rewrite (proj1 (wipe_lookup e path p)). unfold wiped.
    destruct (String.eqb_spec p path) as [->|Hne]; simpl.
    - rewrite bool_decide_eq_false_2 by tauto. done.
    - destruct (bool_decide_reflect (p ∈ writable e)) as [Hw|Hw]; simpl.
      + rewrite (bool_decide_eq_true_2 (is_Some _)) by auto. rewrite andb_true_r.
        destruct (under path p) eqn:Hu; [by rewrite bool_decide_eq_true_2|by rewrite bool_decide_eq_false_2 by naive_solver].
      + by rewrite bool_decide_eq_false_2 by tauto. }
  assert (Hsame : ∀ p, op ∉ [OpDelete; OpRemove; OpReplace] → (proposed e !! p) =
    if bool_decide (op ∈ [OpDelete; OpRemove; OpReplace] ∧ p ∈ writable e ∧ under path p = true)
    then None else (proposed e !! p)).
  { intros p Hop. by rewrite bool_decide_eq_false_2 by tauto. }
  assert (Hgone : ∀ p, op ∈ [OpDelete; OpRemove; OpReplace] → proposed (wipe e path) !! p =
    if bool_decide (op ∈ [OpDelete; OpRemove; OpReplace] ∧ p ∈ writable e ∧ under path p = true)
    then None else (proposed e !! p)).
  { intros p Hop. rewrite Hwipe. by rewrite (bool_decide_ext _ (op ∈ [OpDelete; OpRemove; OpReplace] ∧ p ∈ writable e ∧ under path p = true)) by tauto. }
  split.
  - unfold contains. rewrite bool_decide_eq_false_2 by done. simpl. rewrite existsb_exists. split.
    + intros (p & _ & Hp). apply andb_true_iff in Hp as [Hw%bool_decide_eq_true Hu]. eauto.
    + intros (p & Hw & Hu). exists p. destruct (Hdom p Hw) as [v Hv]. split.
      * apply list_elem_of_In, list_elem_of_fmap. exists (p, v). by rewrite elem_of_map_to_list.
      * by rewrite bool_decide_eq_true_2, Hu.
  - unfold prepareSubtree. destruct op; [|..];
      [intros p; apply Hsame; by_decide|intros p; apply Hgone; by_decide|..|intros p; apply Hsame; by_decide].
    + destruct (contains e path); [by left|]. intros p. apply Hsame. by_decide.
    + destruct (contains e path); [|by right]. intros p. apply Hgone. by_decide.
    + intros p. apply Hgone. by_decide.
Qed.

Lemma subtree_operations_witness :
  contains (mkEditor {[ "a/b" := VInt 1; "a/c" := VInt 2 ]} {["a/b"]}) "a" = true ∧
  match prepareSubtree (mkEditor {[ "a/b" := VInt 1; "a/c" := VInt 2 ]} {["a/b"]}) "a" OpDelete with
  | Ok e' => proposed e' !! "a/b" = None ∧ proposed e' !! "a/c" = Some (VInt 2)
  | Err _ => False
  end.
Proof.
  destruct (subtree_operations (mkEditor {[ "a/b" := VInt 1; "a/c" := VInt 2 ]} {["a/b"]}) "a" OpDelete) as [H1 H2].
  - intros p Hp. cbn [writable] in Hp. apply elem_of_singleton in Hp as ->. vm_compute. eauto.
  - vm_compute. reflexivity.
  - split; [apply H1; exists "a/b"; split; [by_decide|vm_compute; reflexivity]|].
    destruct (prepareSubtree _ "a" OpDelete) as [e'|err] eqn:E; [|exfalso; vm_compute in E; discriminate E].
    split; rewrite H2; vm_compute; reflexivity.
Defined.
