(* ===== verification/Read.v ===== *)
(** * Reading a datastore as a tree ([internal/datatree/read.go], [node.go], [values.go])

    [Read] joins the stored leaves with the schema: containers are nested, a list is one
    node whose children are its entries in key order, and a content selection keeps
    configuration leaves, state leaves or both.  The recursion follows the schema; its
    depth is the fuel, which the height of the schema bounds. *)

From S2P Require Import Prelude GoStrings GoFloat GoParse GoFormat GoValue GoNet Persist Store Path Model Reflect Reflected Hydrate Schema Oid Router Ops Datatree.

(** ** Data *)

Inductive Content : Set := ContentAll | ContentConfig | ContentNonConfig.
Global Instance Content_eq_dec : EqDecision Content.
Proof. solve_decision. Defined.

Record ReadOptions : Set := mkReadOptions { ro_Prefix : string; ro_Content : Content }.

Definition includeConfig (o : ReadOptions) : bool := negb (bool_decide (ro_Content o = ContentNonConfig)).
Definition includeState (o : ReadOptions) : bool :=
  bool_decide (ro_Content o = ContentAll) || bool_decide (ro_Content o = ContentNonConfig).

(** [Node] of a data tree; [dn_Value] is [None] for the [nil] of an inner node. *)
Inductive DataNode : Set :=
  | DNode (path name : string) (kind : Kind) (key keyValue : string) (leaf : option LeafKind)
          (v : option value) (children : list DataNode).
Definition dn_Path (n : DataNode) : string := let 'DNode p _ _ _ _ _ _ _ := n in p.
Definition dn_Name (n : DataNode) : string := let 'DNode _ x _ _ _ _ _ _ := n in x.
Definition dn_Kind (n : DataNode) : Kind := let 'DNode _ _ k _ _ _ _ _ := n in k.
Definition dn_Key (n : DataNode) : string := let 'DNode _ _ _ k _ _ _ _ := n in k.
Definition dn_KeyValue (n : DataNode) : string := let 'DNode _ _ _ _ k _ _ _ := n in k.
Definition dn_Leaf (n : DataNode) : option LeafKind := let 'DNode _ _ _ _ _ l _ _ := n in l.
Definition dn_Value (n : DataNode) : option value := let 'DNode _ _ _ _ _ _ v _ := n in v.
Definition dn_Children (n : DataNode) : list DataNode := let 'DNode _ _ _ _ _ _ _ c := n in c.

(** [Node.Child]. *)
Definition dn_Child (n : DataNode) (name : string) : option DataNode :=
  snd <$> list_find (λ c, dn_Name c = name) (dn_Children n).

(** [FormatLeaf]; the values of a store have no other types. *)
Definition FormatLeaf (v : value) : string :=
  match v with
  | VBool b => if b then "true" else "false"
  | VInt z => Itoa z
  | VUint8 z | VUint16 z | VUint32 z | VUint64 z => FormatUint z
  | VFloat64 f => FormatFloat f
  | VString s => s
  | VOther t => t
  end.

(** ** Building the tree *)

Definition selected (x : Result) (o : ReadOptions) : bool :=
  if res_Writable x then includeConfig o else includeState o.

Record listEntry : Set := mkEntry { le_path : string; le_key : string }.

(** The instance a stored path names at [depth], as the loop body of [instancesOf]. *)
Definition instance_at (prefix name : string) (depth : nat) (path : string) : option listEntry :=
  if negb (HasPrefix path (if String.eqb prefix "" then "" else prefix +:+ "/")) then None
  else
    match Parse path with
    | Err _ => None
    | Ok segs =>
        seg ← segs !! depth;
        if negb (String.eqb (seg_Name seg) name) || String.eqb (seg_Key seg) "" then None
        else
          let text := seg_Name seg +:+ "[" +:+ seg_Key seg +:+ "=" +:+ seg_Value seg +:+ "]" in
          Some (mkEntry (if String.eqb prefix "" then text else prefix +:+ "/" +:+ text) (seg_Value seg))
    end.

Global Instance listEntry_eq_dec : EqDecision listEntry.
Proof. solve_decision. Defined.

(** [instancesOf]: each instance once; the order is that of the map iteration. *)
Definition instancesOf (vs : gmap string Result) (prefix name : string) : list listEntry :=
  match (if String.eqb prefix "" then Ok [] else Parse prefix) with
  | Err _ => []
  | Ok parsed => remove_dups (omap (instance_at prefix name (length parsed)) (map_to_list vs).*1)
  end.

(** [sortEntries]: the comparison, and an insertion of every entry by it. *)
Definition entry_less (numeric : bool) (a b : listEntry) : bool :=
  match (if numeric then (l ← ParseF.ParseFloat (le_key a); r ← ParseF.ParseFloat (le_key b); Some (l, r)) else None) with
  | Some (x, y) => F64.ltb x y
  | None => String.ltb (le_key a) (le_key b)
  end.
Fixpoint insert_entry (numeric : bool) (a : listEntry) (l : list listEntry) : list listEntry :=
  match l with
  | [] => [a]
  | b :: l => if entry_less numeric b a then b :: insert_entry numeric a l else a :: b :: l
  end.
Definition sortEntries (entries : list listEntry) (kind : option LeafKind) : list listEntry :=
  let numeric := negb (bool_decide (kind = Some KString)) && negb (bool_decide (kind = Some KBool)) in
  foldr (insert_entry numeric) [] entries.

Definition leaf_node (path name : string) (leaf : option LeafKind) (v : value) : DataNode :=
  DNode path name KindLeaf "" "" leaf (Some v) [].

(** The entry nodes of [buildEntries], from the children of each instance. *)
Definition entry_node (vs : gmap string Result) (list_ : Node) (keyLeaf : option LeafKind) (o : ReadOptions)
    (instance : listEntry) (inner : list DataNode) : DataNode :=
  let keyPath := join (le_path instance) (nd_Key list_) in
  let keyChild :=
    match vs !! keyPath with
    | Some x => if selected x o then [leaf_node keyPath (nd_Key list_) keyLeaf (res_Value x)] else []
    | None => []
    end in
  DNode (le_path instance) (nd_Name list_) KindContainer (nd_Key list_) (le_key instance) None None
    (keyChild ++ filter (λ c, dn_Name c ≠ nd_Key list_) inner).

Fixpoint res_map {A B} (f : A → res B) (l : list A) : res (list B) :=
  match l with
  | [] => Ok []
  | a :: l => b ← f a; rest ← res_map f l; Ok (b :: rest)
  end.

Section build.
Context (r : Router) (vs : gmap string Result) (o : ReadOptions).

(** [buildEntries], with [buildChildren] as argument. *)
Definition buildEntries (rec : string → res (list DataNode)) (prefix : string) (list_ : Node) : res (list DataNode) :=
  match instancesOf vs prefix (nd_Name list_) with
  | [] => Ok []
  | first :: rest =>
      entryChildren ← Children (r_schema r) (le_path first);
      match nodeNamed entryChildren (nd_Key list_) with
      | None => Err [Anon "list has no key node"]
      | Some keyNode =>
          res_map (λ i, inner ← rec (le_path i); Ok (entry_node vs list_ (nd_Leaf keyNode) o i inner))
            (sortEntries (first :: rest) (nd_Leaf keyNode))
      end
  end.

(** The loop body of [buildChildren]. *)
Definition build_child (rec : string → res (list DataNode)) (prefix : string) (c : Node) : res (list DataNode) :=
  let path := join prefix (nd_Name c) in
  match nd_Kind c with
  | KindLeaf =>
      match vs !! path with
      | Some x => Ok (if selected x o then [leaf_node path (nd_Name c) (nd_Leaf c) (res_Value x)] else [])
      | None => Ok []
      end
  | KindContainer =>
      inner ← rec path;
      Ok [DNode path (nd_Name c) KindContainer "" "" None None inner]
  | KindList =>
      entries ← buildEntries rec prefix c;
      Ok [DNode path (nd_Name c) KindList (nd_Key c) "" None None entries]
  end.

Fixpoint buildChildren (fuel : nat) (prefix : string) : res (list DataNode) :=
  match fuel with
  | O => Err [Anon "out of fuel"]
  | S fuel =>
      children ← Children (r_schema r) prefix;
      nodes ← res_map (build_child (buildChildren fuel) prefix) children;
      Ok (concat nodes)
  end.
End build.

(** [listEntryNode]. *)
Definition listEntryNode (list_ : DataNode) (seg : Segment) : option DataNode :=
  (λ x, DNode (dn_Path list_) (dn_Name list_) KindList (dn_Key list_) "" None None [x.2]) <$>
  list_find (λ e, dn_KeyValue e = seg_Value seg) (dn_Children list_).

(** [splitPrefix]. *)
Definition splitPrefix (path : string) : res (string * Segment) :=
  segs ← Parse path;
  match last segs with
  | None => Err [RouterErrInvalidPath]
  | Some l => Ok (Path_String (take (length segs - 1) segs), l)
  end.

(** The height of the schema: more levels than any path has. *)
Fixpoint height (s : schemaNode) : nat :=
  let 'SNode _ l := s in S (foldr (λ c h, Nat.max (height c) h) 0 l).

(** [Read]; [None] is the nil node. *)
Definition Read (r : Router) (m : Memory) (ctx : context) (ds : Datastore) (o : ReadOptions) : res (option DataNode) :=
  _ ← ctx_err ctx;
  results ← collect r m ctx ds;
  let build := buildChildren r (list_to_map results) o (height (r_schema r)) in
  if String.eqb (ro_Prefix o) "" then
    children ← build "";
    Ok (Some (DNode "" "" KindContainer "" "" None None children))
  else
    '(parent, l) ← splitPrefix (ro_Prefix o);
    children ← build parent;
    Ok (match list_find (λ n, dn_Name n = seg_Name l) children with
        | None => None
        | Some (_, node) =>
            if bool_decide (dn_Kind node = KindList) && negb (String.eqb (seg_Key l) "")
            then listEntryNode node l else Some node
        end).
