(* ===== verification/Trees.v ===== *)
(** * What a read returns

    Reading a datastore whose paths follow the schema gives a tree with exactly the selected
    leaves of the datastore, each once, at its path.  The proof follows the recursion of
    [buildChildren] over the schema. *)

From S2P Require Import Prelude GoStrings GoFloat GoParse GoFormat GoValue GoNet Persist Store Path Model Reflect Reflected Hydrate Schema Oid Router Snmp Ops Datatree Edits Read.

(** The leaves of a data tree. *)
Fixpoint leaves (n : DataNode) : list (string * value) :=
  match n with
  | DNode p _ KindLeaf _ _ _ (Some v) _ => [(p, v)]
  | DNode _ _ _ _ _ _ _ l => flat_map leaves l
  end.

(** A path that follows the schema to a leaf, with a key on the lists and only there. *)
Fixpoint follows (s : schemaNode) (segs : list Segment) : bool :=
  match segs with
  | [] => false
  | seg :: rest =>
      match child s (seg_Name seg) with
      | None => false
      | Some c =>
          match nd_Kind (sn_node c) with
          | KindLeaf => String.eqb (seg_Key seg) "" && bool_decide (rest = [])
          | KindContainer => String.eqb (seg_Key seg) "" && follows c rest
          | KindList => negb (String.eqb (seg_Key seg) "") && String.eqb (seg_Key seg) (nd_Key (sn_node c)) && follows c rest
          end
      end
  end.

(** The schema names the children of a node differently, and a list has its key as a leaf. *)
Fixpoint keyed_schema (s : schemaNode) : bool :=
  match s with
  | SNode n l =>
      bool_decide (NoDup ((λ c, nd_Name (sn_node c)) <$> l)) &&
      match nd_Kind n with
      | KindList => match child s (nd_Key n) with
                    | Some c => bool_decide (nd_Kind (sn_node c) = KindLeaf)
                    | None => false
                    end
      | _ => true
      end && forallb keyed_schema l
  end.

(** ** Paths *)

Lemma seg_String_inj a b : wf_segment a → wf_segment b → seg_String a = seg_String b → a = b.
Proof. intros [Ha _]%seg_String_ok [Hb _]%seg_String_ok Heq. rewrite Heq in Ha. congruence. Qed.

Lemma Path_String_inj p q : wf_path p → wf_path q → Path_String p = Path_String q → p = q.
Proof. intros Hp%Parse_String Hq%Parse_String Heq. rewrite Heq in Hp. congruence. Qed.

Lemma Split_Path p : wf_path p → SplitByte (Path_String p) slash = seg_String <$> p.
Proof.
  intros [Hne Hp]. unfold Path_String. apply Split_Join; [by destruct p|]. apply Forall_fmap.
  eapply Forall_impl; [done|]. intros x Hx. by apply (seg_String_ok x Hx).
Qed.

(** A path below a prefix, in text, is below it in segments. *)
Lemma prefix_segments pre segs t : Forall wf_segment pre → pre ≠ [] → wf_path segs →
  Path_String segs = Path_String pre +:+ "/" +:+ t → ∃ rest, segs = pre ++ rest.
Proof.
  intros Hpre Hne Hs Heq. pose proof (Split_Path segs Hs) as H1. rewrite Heq in H1.
  change (Path_String pre +:+ "/" +:+ t) with (Path_String pre +:+ String slash t) in H1.
  rewrite SplitByte_cut, Split_Path in H1 by done.
  exists (drop (length pre) segs). destruct Hs as [_ Hs].
  assert (pre = take (length pre) segs) as Hp; [|rewrite Hp at 1; by rewrite take_drop].
  apply (f_equal (take (length pre))) in H1. rewrite take_app_length' in H1 by (by rewrite length_fmap).
  rewrite <- fmap_take in H1. apply (Forall_take _ (length pre)) in Hs. revert H1 Hs.
  generalize (take (length pre) segs) as l. clear -Hpre. induction Hpre as [|x pre Hx _ IH]; intros [|y l] H Hl; try done.
  rewrite !fmap_cons in H. injection H as H1 H2. apply Forall_cons in Hl as [Hy Hl].
  f_equal; [by apply seg_String_inj|by apply IH].
Qed.

(** ** Assembling trees *)

Abbreviation flat := (flat_map leaves).

(** The nodes have exactly the leaves of [Q], each path once. *)
Definition gives (nodes : list DataNode) (Q : string → value → Prop) : Prop :=
  (∀ p v, (p, v) ∈ flat nodes ↔ Q p v) ∧ NoDup (flat nodes).*1.

Lemma flat_app l1 l2 : flat (l1 ++ l2) = flat l1 ++ flat l2.
Proof. apply flat_map_app. Qed.

Lemma gives_nil (Q : string → value → Prop) : (∀ p v, ¬ Q p v) → gives [] Q.
Proof. intros H. split; [|constructor]. intros p v. split; [by intros ?%not_elem_of_nil|by intros ?%H]. Qed.

Lemma gives_iff nodes (Q Q' : string → value → Prop) : (∀ p v, Q p v ↔ Q' p v) → gives nodes Q → gives nodes Q'.
Proof. intros H [H1 H2]. split; [|done]. intros p v. by rewrite H1. Qed.

Lemma gives_app l1 l2 Q1 Q2 : gives l1 Q1 → gives l2 Q2 → (∀ p v w, Q1 p v → Q2 p w → False) →
  gives (l1 ++ l2) (λ p v, Q1 p v ∨ Q2 p v).
Proof.
  intros [H1 N1] [H2 N2] Hd. split.
  - intros p v. by rewrite flat_app, elem_of_app, H1, H2.
  - rewrite flat_app, fmap_app. apply NoDup_app. split_and!; [done| |done].
    intros p ([q v] & -> & Hv)%list_elem_of_fmap ([q' w] & Heq & Hw)%list_elem_of_fmap. simpl in Heq. subst q'.
    by apply (Hd q v w); [apply H1|apply H2].
Qed.

Lemma gives_concat {A} (l : list A) (Q : A → string → value → Prop) lss :
  NoDup l → Forall2 (λ a nodes, gives nodes (Q a)) l lss →
  (∀ a b p v w, a ∈ l → b ∈ l → Q a p v → Q b p w → a = b) →
  gives (concat lss) (λ p v, ∃ a, a ∈ l ∧ Q a p v).
Proof.
  intros Hnd H. induction H as [|a nodes l lss Ha _ IH]; intros Hdis.
  - apply gives_nil. by intros p v (a & ?%not_elem_of_nil & _).
  - apply NoDup_cons in Hnd as [Hn Hnd]. simpl.
    apply (gives_iff _ (λ p v, Q a p v ∨ ∃ b, b ∈ l ∧ Q b p v)).
    { intros p v. setoid_rewrite elem_of_cons. naive_solver. }
    apply gives_app; [done|apply IH; [done|]|].
    + intros x y p v w Hx Hy. apply Hdis; by right.
    + intros p v w HQ (b & Hb & HQ'). rewrite (Hdis a b p v w) in Hn; [done|by left|by right|done|done].
Qed.

(** A wrapped subtree has the leaves of its children. *)
Lemma gives_wrap p n k key kv l nodes Q : k ≠ KindLeaf → gives nodes Q → gives [DNode p n k key kv l None nodes] Q.
Proof. intros Hk H. unfold gives. simpl. destruct k; [|..|done]; by rewrite app_nil_r. Qed.

Lemma res_map_ok {A B} (f : A → res B) (R : A → B → Prop) l :
  (∀ a, a ∈ l → ∃ b, f a = Ok b ∧ R a b) → ∃ bs, res_map f l = Ok bs ∧ Forall2 R l bs.
Proof.
  induction l as [|a l IH]; intros H; [by exists []|].
  destruct (H a) as (b & Hb & HR); [by left|]. destruct IH as (bs & Hbs & HF); [intros x Hx; apply H; by right|].
  exists (b :: bs). simpl. rewrite Hb. cbn [mbind res_bind]. rewrite Hbs. split; [done|by constructor].
Qed.

Lemma insert_entry_perm num a l : insert_entry num a l ≡ₚ a :: l.
Proof. induction l as [|b l IH]; simpl; [done|]. destruct (entry_less num b a); [|done]. rewrite IH. constructor. Qed.

Lemma sortEntries_perm l k : sortEntries l k ≡ₚ l.
Proof. unfold sortEntries. induction l as [|a l IH]; simpl; [done|]. by rewrite insert_entry_perm, IH. Qed.

Lemma nodeNamed_of_child s name c : child s name = Some c →
  nodeNamed (sn_node <$> sn_children s) name = Some (sn_node c).
Proof.
  unfold nodeNamed, child, child_at. rewrite list_find_fmap.
  change ((λ n, nd_Name n = name) ∘ sn_node) with (λ k, nd_Name (sn_node k) = name).
  destruct (list_find (λ k, nd_Name (sn_node k) = name) (sn_children s)) as [[i kc]|]; [|done]. by intros [= ->].
Qed.

(** ** Reading below a prefix *)

Section read.
Context (r : Router) (vs : gmap string Result) (o : ReadOptions).
Context (Hclean : clean_schema (r_schema r) = true).
Context (Hvs : ∀ p x, vs !! p = Some x → ∃ segs, Parse p = Ok segs ∧ follows (r_schema r) segs = true).

(** The value [v] is stored at [p], is selected, and [p] continues [pre] with [segs]. *)
Definition stored (pre segs : list Segment) (p : string) (v : value) : Prop :=
  ∃ x, vs !! p = Some x ∧ selected x o = true ∧ res_Value x = v ∧ Parse p = Ok (pre ++ segs).

(** The leaves below the child [name] of [pre]. *)
Definition below_child (pre : list Segment) (name : string) (p : string) (v : value) : Prop :=
  ∃ seg rest, stored pre (seg :: rest) p v ∧ seg_Name seg = name.

Lemma follows_walk pre : ∀ s s' segs, schema_walk s pre = Ok s' → segs ≠ [] →
  follows s (pre ++ segs) = follows s' segs.
Proof.
  induction pre as [|seg pre IH]; intros s s' segs Hw Hne; [by injection Hw as <-|].
  apply schema_walk_cons in Hw as (c & Hc & Hf & Hw). simpl. rewrite Hc. unfold seg_fits in Hf.
  destruct (nd_Kind (sn_node c)); [rewrite Hf|destruct Hf as [H1 H2]|done]; simpl.
  - by apply IH.
  - rewrite <- H2. destruct (String.eqb_spec (seg_Key seg) ""); [done|]. rewrite String.eqb_refl. simpl. by apply IH.
Qed.

Lemma stored_follows pre s segs p v : schema_walk (r_schema r) pre = Ok s → segs ≠ [] →
  stored pre segs p v → follows s segs = true.
Proof.
  intros Hw Hne (x & Hx & _ & _ & Hp). destruct (Hvs p x Hx) as (segs' & Hp' & Hf).
  rewrite Hp in Hp'. injection Hp' as <-. by rewrite <- (follows_walk pre (r_schema r) s segs Hw Hne).
Qed.

Lemma stored_unique pre segs segs' p v w : stored pre segs p v → stored pre segs' p w → segs = segs' ∧ v = w.
Proof.
  intros (x & Hx & _ & <- & Hp) (y & Hy & _ & <- & Hp'). rewrite Hp in Hp'. injection Hp' as Hq.
  apply app_inv_head in Hq. split; [done|]. congruence.
Qed.

Lemma stored_wf pre segs p v : stored pre segs p v → Forall wf_segment (pre ++ segs) ∧ Path_String (pre ++ segs) = p.
Proof. by intros (x & _ & _ & _ & [? [_ ?]]%Parse_inv). Qed.

(** A stored leaf directly below [pre]. *)
Lemma stored_leaf pre s c p v : Forall wf_segment pre → schema_walk (r_schema r) pre = Ok s →
  c ∈ sn_children s → child s (nd_Name (sn_node c)) = Some c → nd_Kind (sn_node c) = KindLeaf →
  below_child pre (nd_Name (sn_node c)) p v ↔
  p = join (Path_String pre) (nd_Name (sn_node c)) ∧ ∃ x, vs !! p = Some x ∧ selected x o = true ∧ res_Value x = v.
Proof.
  intros Hpre Hw Hc Hch Hk. set (name := nd_Name (sn_node c)) in *.
  destruct (clean_child _ _ _ (clean_walk _ _ _ Hclean Hw) Hch) as [(N1 & N2 & _) _].
  assert (join (Path_String pre) name = Path_String (pre ++ [mkSeg name "" ""])) as Hj by (by rewrite <- join_snoc).
  assert (wf_segment (mkSeg name "" "")) as Hseg.
  { unfold wf_segment, clean in *. rewrite !Forall_cons in *. simpl. naive_solver. }
  split.
  - intros (seg & rest & Hst & Hn). pose proof (stored_follows pre s (seg :: rest) p v Hw ltac:(done) Hst) as Hf.
    simpl in Hf. rewrite Hn, Hch, Hk in Hf. apply andb_true_iff in Hf as [Hf1%String.eqb_eq Hf2%bool_decide_eq_true].
    destruct (stored_wf _ _ _ _ Hst) as [Hwf <-]. subst rest. apply Forall_app in Hwf as [_ Hwf].
    apply Forall_cons in Hwf as [Hwf _]. destruct seg as [n k w]. simpl in *. subst n k.
    destruct Hwf as (_ & _ & Hkv). simpl in Hkv. destruct Hkv as [[_ ->]|[? _]]; [|done]. split; [done|].
    by destruct Hst as (x & ? & ? & ? & _); exists x.
  - intros [-> (x & Hx & Hs & Hv)]. destruct (Hvs _ x Hx) as (segs & Hp & _).
    assert (segs = pre ++ [mkSeg name "" ""]) as ->.
    { pose proof (Parse_inv _ _ Hp) as [Heq Hwf]. apply Path_String_inj; [done| |by rewrite Heq].
      split; [by destruct pre|]. apply Forall_app. by split; [|constructor]. }
    exists (mkSeg name "" ""), []. split; [|done]. by exists x.
Qed.

(** *** Instances *)

Definition entry_of (pre : list Segment) (seg : Segment) : listEntry :=
  mkEntry (Path_String (pre ++ [seg])) (seg_Value seg).

Lemma instance_at_spec pre name p x e : Forall wf_segment pre → vs !! p = Some x →
  instance_at (Path_String pre) name (length pre) p = Some e ↔
  ∃ seg rest, Parse p = Ok (pre ++ seg :: rest) ∧ seg_Name seg = name ∧ seg_Key seg ≠ "" ∧ e = entry_of pre seg.
Proof.
  intros Hpre Hx. destruct (Hvs p x Hx) as (segs & Hp & _). pose proof (Parse_inv _ _ Hp) as [Hps Hwf].
  assert (Path_String pre = "" ↔ pre = []) as Hempty.
  { split; [|by intros ->]. destruct pre as [|a pre]; [done|]. intros He.
    pose proof (Parse_String (a :: pre) ltac:(done)) as HP. by rewrite He in HP. }
  unfold instance_at. rewrite Hp. split.
  - destruct (HasPrefix p _) eqn:Hh; [|done]. simpl negb. cbv iota.
    destruct (segs !! length pre) as [seg|] eqn:Hseg; [|done]. cbn [mbind option_bind].
    destruct (String.eqb_spec (seg_Name seg) name) as [Hn|]; [|done].
    destruct (String.eqb_spec (seg_Key seg) "") as [|Hk]; [done|]. intros [= <-].
    assert (∃ rest, segs = pre ++ rest) as [rest ->].
    { destruct pre as [|a pre']; [by exists segs|]. destruct (String.eqb_spec (Path_String (a :: pre')) "") as [He|].
      { by apply Hempty in He. }
      apply HasPrefix_spec in Hh as [t ->]. rewrite str_app_assoc in Hps.
      by eapply prefix_segments. }
    rewrite lookup_app_r, Nat.sub_diag in Hseg by done. destruct rest as [|seg' rest]; [done|]. injection Hseg as ->.
    exists seg, rest. split_and!; [done|done|done|]. unfold entry_of. f_equal.
    rewrite <- join_snoc by done. unfold join, seg_String. by destruct (String.eqb_spec (seg_Key seg) "").
  - intros (seg & rest & [= ->] & Hn & Hk & ->).
    assert (HasPrefix p (if String.eqb (Path_String pre) "" then "" else Path_String pre +:+ "/") = true) as ->.
    { destruct (String.eqb_spec (Path_String pre) "") as [|He]; [by destruct p|]. rewrite <- Hps.
      assert (pre ≠ []) by (by intros ->). unfold Path_String. rewrite fmap_app, Join_app by (by destruct pre).
      rewrite <- str_app_assoc. apply HasPrefix_app. }
    simpl negb. cbv iota. rewrite lookup_app_r, Nat.sub_diag by done. cbn [lookup list_lookup mbind option_bind].
    rewrite Hn, String.eqb_refl. destruct (String.eqb_spec (seg_Key seg) ""); [done|]. simpl. f_equal. unfold entry_of. f_equal.
    rewrite <- join_snoc by done. unfold join, seg_String. rewrite <- Hn. by destruct (String.eqb_spec (seg_Key seg) "").
Qed.

Lemma instancesOf_spec pre name : Forall wf_segment pre →
  NoDup (instancesOf vs (Path_String pre) name) ∧
  ∀ e, e ∈ instancesOf vs (Path_String pre) name ↔ ∃ p x seg rest,
    vs !! p = Some x ∧ Parse p = Ok (pre ++ seg :: rest) ∧ seg_Name seg = name ∧ seg_Key seg ≠ "" ∧ e = entry_of pre seg.
Proof.
  intros Hpre. unfold instancesOf.
  assert ((if String.eqb (Path_String pre) "" then Ok [] else Parse (Path_String pre)) = Ok pre) as ->.
  { destruct pre as [|a pre]; [done|]. pose proof (Parse_String (a :: pre) ltac:(done)) as HP. rewrite HP.
    destruct (String.eqb_spec (Path_String (a :: pre)) "") as [He|]; [|done]. by rewrite He in HP. }
  split; [apply NoDup_remove_dups|]. intros e. rewrite elem_of_remove_dups, list_elem_of_omap. split.
  - intros (p & ([q x] & -> & Hq%elem_of_map_to_list)%list_elem_of_fmap & He).
    apply (instance_at_spec pre name _ x) in He as (seg & rest & ? & ? & ? & ?); [|done|done]. by exists q, x, seg, rest.
  - intros (p & x & seg & rest & Hx & Hp & Hn & Hk & ->). exists p. split.
    + apply list_elem_of_fmap. exists (p, x). by rewrite elem_of_map_to_list.
    + apply (instance_at_spec pre name p x); [done|done|]. by exists seg, rest.
Qed.

Lemma entry_of_inj pre a b : Forall wf_segment pre → wf_segment a → wf_segment b → entry_of pre a = entry_of pre b → a = b.
Proof.
  intros Hpre Ha Hb [= Heq _]. apply Path_String_inj in Heq; [by apply app_inj_tail in Heq as []| |];
    (split; [by destruct pre|]); apply Forall_app; (split; [done|by constructor]).
Qed.

(** *** Entries *)

(** The nodes below [pre]: all leaves below it, each below the child of its name. *)
Definition tree_at (pre : list Segment) (nodes : list DataNode) : Prop :=
  gives nodes (λ p v, ∃ name, below_child pre name p v) ∧
  ∀ n p v, n ∈ nodes → (p, v) ∈ leaves n → below_child pre (dn_Name n) p v.

Lemma below_child_name pre name name' p v w : below_child pre name p v → below_child pre name' p w → name = name'.
Proof. intros (seg & rest & H & <-) (seg' & rest' & H' & <-). by destruct (stored_unique _ _ _ _ _ _ H H') as [[= -> _] _]. Qed.

Lemma flat_filter (P : DataNode → Prop) `{!∀ x, Decision (P x)} l : flat (filter P l) `sublist_of` flat l.
Proof.
  induction l as [|n l IH]; [done|]. rewrite filter_cons. simpl. destruct (decide (P n)); simpl.
  - by apply sublist_app.
  - by apply sublist_inserts_l.
Qed.

Lemma fst_sublist {A B} (l k : list (A * B)) : l `sublist_of` k → l.*1 `sublist_of` k.*1.
Proof. induction 1; rewrite ?fmap_cons; by constructor. Qed.

Lemma tree_filter pre key nodes : tree_at pre nodes →
  gives (filter (λ c, dn_Name c ≠ key) nodes) (λ p v, ∃ name, name ≠ key ∧ below_child pre name p v).
Proof.
  intros [[H1 H2] H3]. split.
  - intros p v. rewrite list_elem_of_In, in_flat_map. setoid_rewrite <- list_elem_of_In. split.
    + intros (n & [Hn Hin]%list_elem_of_filter & Hp). exists (dn_Name n). split; [done|by apply H3].
    + intros (name & Hne & Hb). assert ((p, v) ∈ flat nodes) as Hf by (apply H1; by exists name).
      apply list_elem_of_In, in_flat_map in Hf as (n & Hn & Hp). apply list_elem_of_In in Hn, Hp.
      exists n. split; [|done]. apply list_elem_of_filter. split; [|done].
      by rewrite (below_child_name _ _ _ _ _ _ (H3 n p v Hn Hp) Hb).
  - eapply sublist_NoDup; [exact H2|]. apply fst_sublist, flat_filter.
Qed.

Lemma key_gives pre s c keyLeaf : Forall wf_segment pre → schema_walk (r_schema r) pre = Ok s →
  child s (nd_Name (sn_node c)) = Some c → nd_Kind (sn_node c) = KindLeaf →
  let keyPath := join (Path_String pre) (nd_Name (sn_node c)) in
  gives (match vs !! keyPath with
         | Some x => if selected x o then [leaf_node keyPath (nd_Name (sn_node c)) keyLeaf (res_Value x)] else []
         | None => []
         end) (below_child pre (nd_Name (sn_node c))).
Proof.
  intros Hpre Hw Hch Hk keyPath. destruct (child_In _ _ _ Hch) as [Hin _].
  eapply gives_iff; [intros p v; symmetry; by apply (stored_leaf pre s c)|]. fold keyPath.
  destruct (vs !! keyPath) as [x|] eqn:E; [destruct (selected x o) eqn:Es|].
  - split; [|apply NoDup_singleton]. intros p v. simpl. rewrite list_elem_of_singleton. split.
    + intros [= -> ->]. split; [done|by exists x].
    + intros [-> (y & Hy & _ & <-)]. congruence.
  - apply gives_nil. intros p v [-> (y & Hy & Hs & _)]. congruence.
  - apply gives_nil. intros p v [-> (y & Hy & Hs & _)]. congruence.
Qed.

Lemma entry_gives pre seg c kc keyLeaf list_ inner : Forall wf_segment (pre ++ [seg]) →
  schema_walk (r_schema r) (pre ++ [seg]) = Ok c → child c (nd_Key list_) = Some kc → nd_Kind (sn_node kc) = KindLeaf →
  tree_at (pre ++ [seg]) inner →
  gives [entry_node vs list_ keyLeaf o (entry_of pre seg) inner] (λ p v, ∃ name, below_child (pre ++ [seg]) name p v).
Proof.
  intros Hpre Hw Hch Hk Ht. destruct (child_In _ _ _ Hch) as [_ Hname]. rewrite <- Hname in Hch.
  unfold entry_node. apply gives_wrap; [done|].
  apply (gives_iff _ (λ p v, below_child (pre ++ [seg]) (nd_Key list_) p v ∨
           ∃ name, name ≠ nd_Key list_ ∧ below_child (pre ++ [seg]) name p v)).
  { intros p v. split; [naive_solver|]. intros [name H]. destruct (decide (name = nd_Key list_)) as [->|]; naive_solver. }
  apply gives_app; [|by apply tree_filter|].
  - rewrite <- Hname. by apply (key_gives _ c).
  - intros p v w H1 (name & Hne & H2). by destruct Hne; eapply below_child_name.
Qed.

(** *** Children *)

(** What the recursive call gives for the children of the node [c] below [pre]. *)
Definition rec_ok (rec : string → res (list DataNode)) (pre : list Segment) (c : schemaNode) : Prop :=
  ∀ seg, wf_segment seg → seg_Name seg = nd_Name (sn_node c) → seg_fits c seg →
  ∃ nodes, rec (Path_String (pre ++ [seg])) = Ok nodes ∧ tree_at (pre ++ [seg]) nodes.

Lemma below_child_down pre s c name p v : schema_walk (r_schema r) pre = Ok s → child s name = Some c →
  nd_Kind (sn_node c) ≠ KindLeaf →
  below_child pre name p v ↔
  ∃ seg, wf_segment seg ∧ seg_Name seg = name ∧ seg_fits c seg ∧ ∃ name', below_child (pre ++ [seg]) name' p v.
Proof.
  intros Hw Hc Hk. split.
  - intros (seg & rest & Hst & Hn). pose proof (stored_follows pre s (seg :: rest) p v Hw ltac:(done) Hst) as Hf.
    destruct (stored_wf _ _ _ _ Hst) as [Hwf _]. apply Forall_app in Hwf as [_ [Hseg _]%Forall_cons].
    exists seg. simpl in Hf. rewrite Hn, Hc in Hf.
    assert (seg_fits c seg ∧ follows c rest = true) as [Hfit Hrest].
    { unfold seg_fits. destruct (nd_Kind (sn_node c)); [| |done].
      - by apply andb_true_iff in Hf as [?%String.eqb_eq ?].
      - apply andb_true_iff in Hf as [[Hne ?%String.eqb_eq]%andb_true_iff ?].
        destruct (String.eqb_spec (seg_Key seg) ""); done. }
    split_and!; [done|done|done|]. destruct rest as [|seg' rest]; [done|]. exists (seg_Name seg'), seg', rest.
    split; [|done]. unfold stored in *. by rewrite <- app_assoc.
  - intros (seg & Hseg & Hn & Hfit & name' & seg' & rest & Hst & _). exists seg, (seg' :: rest). split; [|done].
    unfold stored in *. by rewrite <- app_assoc in Hst.
Qed.

(** The entry of a list a stored path goes through. *)
Lemma instance_seg pre s c p x seg rest : schema_walk (r_schema r) pre = Ok s →
  child s (nd_Name (sn_node c)) = Some c → nd_Kind (sn_node c) = KindList →
  vs !! p = Some x → Parse p = Ok (pre ++ seg :: rest) → seg_Name seg = nd_Name (sn_node c) →
  wf_segment seg ∧ seg_fits c seg ∧ seg_Key seg ≠ "" ∧ rest ≠ [] ∧ schema_walk (r_schema r) (pre ++ [seg]) = Ok c.
Proof.
  intros Hw Hch Hk Hx Hp Hn. destruct (Hvs p x Hx) as (segs & Hp' & Hf). rewrite Hp in Hp'. injection Hp' as <-.
  rewrite (follows_walk pre (r_schema r) s (seg :: rest) Hw) in Hf by done. simpl in Hf. rewrite Hn, Hch, Hk in Hf.
  apply andb_true_iff in Hf as [[Hne Hkey%String.eqb_eq]%andb_true_iff Hrest].
  apply Parse_inv in Hp as [_ [_ Hwf]]. apply Forall_app in Hwf as [_ [? _]%Forall_cons].
  assert (seg_Key seg ≠ "") by (by destruct (String.eqb_spec (seg_Key seg) "")).
  assert (seg_fits c seg) by (unfold seg_fits; by rewrite Hk).
  split_and!; [done..|by destruct rest|]. eapply schema_walk_snoc; [done|by rewrite Hn|done].
Qed.

(** The leaves below one entry of the list [name]. *)
Definition below_entry (pre : list Segment) (name : string) (e : listEntry) (p : string) (v : value) : Prop :=
  ∃ seg rest, e = entry_of pre seg ∧ seg_Name seg = name ∧ stored pre (seg :: rest) p v.

Lemma below_child_entry pre s c p v : Forall wf_segment pre → schema_walk (r_schema r) pre = Ok s →
  child s (nd_Name (sn_node c)) = Some c → nd_Kind (sn_node c) = KindList →
  below_child pre (nd_Name (sn_node c)) p v ↔
  ∃ e, e ∈ instancesOf vs (Path_String pre) (nd_Name (sn_node c)) ∧ below_entry pre (nd_Name (sn_node c)) e p v.
Proof.
  intros Hpre Hw Hch Hk. destruct (instancesOf_spec pre (nd_Name (sn_node c)) Hpre) as [_ Hinst]. split.
  - intros (seg & rest & Hst & Hn). exists (entry_of pre seg). split; [|by exists seg, rest].
    apply Hinst. destruct Hst as (x & Hx & _ & _ & Hp). exists p, x, seg, rest.
    destruct (instance_seg pre s c p x seg rest) as (_ & _ & ? & _); done.
  - intros (e & _ & seg & rest & -> & Hn & Hst). by exists seg, rest.
Qed.

Lemma below_entry_down pre s c seg p v : Forall wf_segment pre → schema_walk (r_schema r) pre = Ok s →
  child s (nd_Name (sn_node c)) = Some c → nd_Kind (sn_node c) = KindList →
  wf_segment seg → seg_Name seg = nd_Name (sn_node c) →
  below_entry pre (nd_Name (sn_node c)) (entry_of pre seg) p v ↔ ∃ name', below_child (pre ++ [seg]) name' p v.
Proof.
  intros Hpre Hw Hch Hk Hsw Hn. split.
  - intros (seg' & rest & Heq & Hn' & Hst). pose proof (stored_wf _ _ _ _ Hst) as [Hwf _].
    apply Forall_app in Hwf as [_ [Hseg' _]%Forall_cons]. apply entry_of_inj in Heq; [|done..]. subst seg'.
    pose proof Hst as (x & Hx & _ & _ & Hp).
    destruct (instance_seg pre s c p x seg rest) as (_ & _ & _ & Hne & _); try done.
    destruct rest as [|seg' rest]; [done|].
    exists (seg_Name seg'), seg', rest. split; [|done]. unfold stored in *. by rewrite <- app_assoc.
  - intros (name' & seg' & rest & Hst & _). exists seg, (seg' :: rest). split_and!; [done|done|].
    unfold stored in *. by rewrite <- app_assoc in Hst.
Qed.

Lemma keyed_list c : keyed_schema c = true → nd_Kind (sn_node c) = KindList →
  ∃ kc, child c (nd_Key (sn_node c)) = Some kc ∧ nd_Kind (sn_node kc) = KindLeaf.
Proof.
  destruct c as [n l]. cbn [keyed_schema]. simpl sn_node. intros Hkeyed Hk. rewrite Hk in Hkeyed.
  destruct (child (SNode n l) (nd_Key n)) as [kc|]; [|by rewrite andb_false_r in Hkeyed].
  exists kc. split; [done|]. by apply andb_true_iff in Hkeyed as [[_ ?%bool_decide_eq_true]%andb_true_iff _].
Qed.

Lemma list_gives rec pre s c : Forall wf_segment pre → schema_walk (r_schema r) pre = Ok s →
  child s (nd_Name (sn_node c)) = Some c → nd_Kind (sn_node c) = KindList → keyed_schema c = true →
  rec_ok rec pre c →
  ∃ entries, buildEntries r vs o rec (Path_String pre) (sn_node c) = Ok entries ∧
    gives entries (below_child pre (nd_Name (sn_node c))).
Proof.
  intros Hpre Hw Hch Hk Hkeyed Hrec. pose proof (λ p v, below_child_entry pre s c p v Hpre Hw Hch Hk) as HQ.
  destruct (instancesOf_spec pre (nd_Name (sn_node c)) Hpre) as [Hnd Hinst].
  destruct (keyed_list c Hkeyed Hk) as (kc & Hkc & Hkl). unfold buildEntries.
  destruct (instancesOf vs (Path_String pre) (nd_Name (sn_node c))) as [|first rest] eqn:Einst.
  { exists []. split; [done|]. eapply gives_iff; [intros p v; symmetry; apply HQ|].
    apply gives_nil. by intros p v (e & ?%not_elem_of_nil & _). }
  assert (first ∈ first :: rest) as Hfirst by by left.
  apply Hinst in Hfirst as (p0 & x0 & seg0 & rest0 & Hx0 & Hp0 & Hn0 & _ & ->).
  destruct (instance_seg pre s c _ _ _ _ Hw Hch Hk Hx0 Hp0 Hn0) as (Hwf0 & _ & _ & _ & Hw0).
  simpl le_path. rewrite (schema_walk_parse _ _ c) by (done || (apply Forall_app; by split; [|constructor])).
  cbn [mbind res_bind]. rewrite (nodeNamed_of_child _ _ _ Hkc).
  set (l := sortEntries (entry_of pre seg0 :: rest) (nd_Leaf (sn_node kc))).
  assert (l ≡ₚ entry_of pre seg0 :: rest) as Hperm by apply sortEntries_perm.
  destruct (res_map_ok (λ i0, inner ← rec (le_path i0); Ok (entry_node vs (sn_node c) (nd_Leaf (sn_node kc)) o i0 inner))
    (λ e n, gives [n] (below_entry pre (nd_Name (sn_node c)) e)) l) as (entries & -> & HF).
  { intros e He. rewrite Hperm in He. apply Hinst in He as (p & x & seg & rest1 & Hx & Hp & Hn & Hk1 & ->).
    destruct (instance_seg pre s c _ _ _ _ Hw Hch Hk Hx Hp Hn) as (Hsw & Hfit & _ & _ & Hw1).
    destruct (Hrec seg Hsw Hn Hfit) as (inner & Hi & Ht).
    simpl le_path. rewrite Hi. cbn [mbind res_bind]. eexists. split; [done|].
    eapply gives_iff; [intros; symmetry; by apply (below_entry_down pre s c)|]. eapply entry_gives; try done.
    apply Forall_app; by split; [|constructor]. }
  exists entries. split; [done|].
  apply (gives_iff _ (λ p v, ∃ e, e ∈ l ∧ below_entry pre (nd_Name (sn_node c)) e p v));
    [intros p v; rewrite HQ; by setoid_rewrite Hperm|].
  replace entries with (concat ((λ n, [n]) <$> entries)) by (clear; induction entries; [done|]; rewrite fmap_cons; simpl; congruence).
  apply gives_concat; [by rewrite Hperm|by apply Forall2_fmap_r|].
  intros a b p v w Ha Hb (sa & ra & -> & Hna & Hsa) (sb & rb & -> & Hnb & Hsb).
  by destruct (stored_unique _ _ _ _ _ _ Hsa Hsb) as [[= -> _] _].
Qed.

Lemma child_gives rec pre s c : Forall wf_segment pre → schema_walk (r_schema r) pre = Ok s →
  c ∈ sn_children s → child s (nd_Name (sn_node c)) = Some c → keyed_schema c = true → rec_ok rec pre c →
  ∃ nodes, build_child r vs o rec (Path_String pre) (sn_node c) = Ok nodes ∧
    gives nodes (below_child pre (nd_Name (sn_node c))) ∧ Forall (λ n, dn_Name n = nd_Name (sn_node c)) nodes.
Proof.
  intros Hpre Hw Hin Hch Hkeyed Hrec. unfold build_child. destruct (nd_Kind (sn_node c)) eqn:Hk.
  - destruct (clean_child _ _ _ (clean_walk _ _ _ Hclean Hw) Hch) as [(N1 & N2 & _) _].
    set (seg := mkSeg (nd_Name (sn_node c)) "" "").
    assert (wf_segment seg) as Hseg.
    { unfold wf_segment, clean in *. rewrite !Forall_cons in *. simpl. naive_solver. }
    assert (seg_fits c seg) as Hfit by (unfold seg_fits; by rewrite Hk).
    destruct (Hrec seg Hseg eq_refl Hfit) as (inner & Hi & Ht & _).
    assert (join (Path_String pre) (nd_Name (sn_node c)) = Path_String (pre ++ [seg])) as -> by (by rewrite <- join_snoc).
    rewrite Hi. cbn [mbind res_bind].
    eexists. split; [done|]. split; [|by constructor]. apply gives_wrap; [done|].
    eapply gives_iff; [|exact Ht]. intros p v.
    rewrite (below_child_down pre s c) by (done || by rewrite Hk). split.
    + intros H. by exists seg.
    + intros (seg' & Hw' & Hn' & Hf' & H). unfold seg_fits in Hf'. rewrite Hk in Hf'. destruct seg' as [n k w]. simpl in *.
      subst n k. destruct Hw' as (_ & _ & Hkv). simpl in Hkv. destruct Hkv as [[_ ->]|[? _]]; done.
  - destruct (list_gives rec pre s c) as (entries & -> & Hg); [done..|]. cbn [mbind res_bind].
    eexists. split; [done|]. split; [by apply gives_wrap|by constructor].
  - pose proof (key_gives pre s c (nd_Leaf (sn_node c)) Hpre Hw Hch Hk) as Hg. cbv zeta in Hg.
    destruct (vs !! join (Path_String pre) (nd_Name (sn_node c))) as [x|]; [destruct (selected x o)|];
      (eexists; split; [done|]; split; [exact Hg|by repeat constructor]).
Qed.

Lemma keyed_children s : keyed_schema s = true →
  NoDup ((λ c, nd_Name (sn_node c)) <$> sn_children s) ∧
  ∀ c, c ∈ sn_children s → child s (nd_Name (sn_node c)) = Some c ∧ keyed_schema c = true.
Proof.
  destruct s as [n l]. cbn [keyed_schema]. intros [[Hnd%bool_decide_eq_true _]%andb_true_iff Hl]%andb_true_iff.
  split; [done|]. simpl. intros c Hc. split.
  - unfold child, child_at. simpl. destruct (list_find _ l) as [[i c']|] eqn:E.
    + simpl. f_equal. apply list_find_Some in E as (Hi & Heq & _). apply list_elem_of_lookup in Hc as [j Hj].
      assert (i = j) as ->; [|congruence]. eapply (NoDup_lookup _ i j (nd_Name (sn_node c)) Hnd);
        rewrite list_lookup_fmap; [rewrite Hi|rewrite Hj]; simpl; congruence.
    + apply list_find_None in E. rewrite Forall_forall in E. by destruct (E c Hc).
  - rewrite forallb_forall in Hl. apply Hl. by apply list_elem_of_In.
Qed.

Lemma height_child s c : c ∈ sn_children s → height c < height s.
Proof.
  destruct s as [n l]. simpl. induction l as [|d l IH]; [by intros ?%not_elem_of_nil|].
  intros [->|Hc]%elem_of_cons; simpl; [lia|]. specialize (IH Hc). lia.
Qed.

(** With the height of the node as fuel, the tree below it is complete. *)
Lemma build_spec fuel : ∀ pre s, Forall wf_segment pre → schema_walk (r_schema r) pre = Ok s →
  keyed_schema s = true → height s ≤ fuel →
  ∃ nodes, buildChildren r vs o fuel (Path_String pre) = Ok nodes ∧ tree_at pre nodes.
Proof.
  induction fuel as [|fuel IH]; intros pre s Hpre Hw Hkeyed Hfuel; [destruct s; simpl in *; lia|].
  cbn [buildChildren]. rewrite (schema_walk_parse _ _ s) by done. cbn [mbind res_bind].
  destruct (keyed_children s Hkeyed) as [Hnd Hch].
  destruct (res_map_ok (build_child r vs o (buildChildren r vs o fuel) (Path_String pre))
    (λ n nodes, gives nodes (below_child pre (nd_Name n)) ∧ Forall (λ d, dn_Name d = nd_Name n) nodes)
    (sn_node <$> sn_children s)) as (lss & -> & HF).
  { intros n (c & -> & Hc)%list_elem_of_fmap. destruct (Hch c Hc) as [Hself Hkc].
    apply (child_gives _ pre s c); try done. intros seg Hseg Hn Hfit.
    apply (IH _ c); [apply Forall_app; by split; [|constructor]| |done|pose proof (height_child s c Hc); lia].
    eapply schema_walk_snoc; [done|by rewrite Hn|done]. }
  cbn [mbind res_bind]. eexists. split; [done|]. split.
  - apply (gives_iff _ (λ p v, ∃ n, n ∈ sn_node <$> sn_children s ∧ below_child pre (nd_Name n) p v)).
    { intros p v. split; [naive_solver|]. intros (name & seg & rest & Hst & <-).
      pose proof (stored_follows pre s (seg :: rest) p v Hw ltac:(done) Hst) as Hf. simpl in Hf.
      destruct (child s (seg_Name seg)) as [c|] eqn:Hc; [|done]. destruct (child_In _ _ _ Hc) as [Hin Hn].
      exists (sn_node c). split; [by apply list_elem_of_fmap_2|]. by exists seg, rest. }
    apply gives_concat.
    + apply (NoDup_fmap_1 nd_Name). by rewrite <- list_fmap_compose.
    + eapply Forall2_impl; [exact HF|]. by intros ?? [? _].
    + intros a b p v w (ca & -> & Ha)%list_elem_of_fmap (cb & -> & Hb)%list_elem_of_fmap H1 H2.
      pose proof (below_child_name _ _ _ _ _ _ H1 H2) as Heq.
      destruct (Hch ca Ha) as [Hsa _], (Hch cb Hb) as [Hsb _]. rewrite Heq in Hsa. congruence.
  - intros n p v Hn Hp. apply list_elem_of_In, in_concat in Hn as (nodes & Hnodes%list_elem_of_In & Hin%list_elem_of_In).
    apply list_elem_of_lookup in Hnodes as [i Hi]. destruct (Forall2_lookup_r _ _ _ _ _ HF Hi) as (m & Hm & [Hg _] & Hnames).
    rewrite Forall_forall in Hnames. rewrite (Hnames n Hin). apply Hg. apply list_elem_of_In, in_flat_map.
    exists n. by rewrite <- !list_elem_of_In.
Qed.
End read.

(** ** Whole datastores *)

Lemma collect_lookup r m ds vs results : datastore m ds = Ok vs → collect r m true ds = Ok results →
  ∀ p x, (list_to_map results : gmap string Result) !! p = Some x ↔ ∃ v, vs !! p = Some v ∧ describe r p v = Ok x.
Proof.
  intros Hds. unfold collect, Router_Values, Values. cbn [ctx_err check mbind res_bind]. rewrite Hds. cbn [mbind res_bind].
  rewrite copyValues_id. destruct (describe_all r vs (map_to_list vs).*1) as [l|] eqn:E; [|done]. cbn [mbind res_bind].
  intros [= <-]. apply describe_all_spec in E. pose proof (NoDup_fst_map_to_list vs) as Hnd.
  assert (length (map_to_list vs).*1 = length l) as Hlen by (by eapply Forall2_length).
  intros p x. rewrite <- elem_of_list_to_map by (rewrite fst_zip; [done|lia]). split.
  - intros (i & (y & z & [= -> ->] & Hy & Hz)%lookup_zip_with_Some)%list_elem_of_lookup.
    destruct (Forall2_lookup_lr _ _ _ _ _ _ E Hy Hz) as (v & Hv & Hd). by exists v.
  - intros (v & Hv & Hd). assert (p ∈ (map_to_list vs).*1) as [i Hi]%list_elem_of_lookup.
    { apply list_elem_of_fmap. exists (p, v). by rewrite elem_of_map_to_list. }
    destruct (Forall2_lookup_l _ _ _ _ _ E Hi) as (y & Hy & v' & Hv' & Hd').
    assert (v' = v) as -> by congruence. assert (y = x) as -> by congruence.
    apply (list_elem_of_lookup_2 _ i). apply lookup_zip_with_Some. eauto.
Qed.

Lemma collect_described r m ds vs results p v : datastore m ds = Ok vs → collect r m true ds = Ok results →
  vs !! p = Some v → ∃ x, describe r p v = Ok x.
Proof.
  intros Hds. unfold collect, Router_Values, Values. cbn [ctx_err check mbind res_bind]. rewrite Hds. cbn [mbind res_bind].
  rewrite copyValues_id. destruct (describe_all r vs (map_to_list vs).*1) as [l|] eqn:E; [|done]. intros _ Hv.
  apply describe_all_spec in E. assert (p ∈ (map_to_list vs).*1) as [i Hi]%list_elem_of_lookup.
  { apply list_elem_of_fmap. exists (p, v). by rewrite elem_of_map_to_list. }
  destruct (Forall2_lookup_l _ _ _ _ _ E Hi) as (y & _ & v' & Hv' & Hd). exists y. by simplify_eq.
Qed.

Lemma describe_result r p v x : describe r p v = Ok x → res_Value x = v ∧ res_Writable x = negb (IsState r p).
Proof.
  unfold describe, IsState, resolve_leaf. destruct (Parse p) as [segs|]; [|done]. cbn [mbind res_bind].
  destruct (resolve _ _ segs) as [n|]; [|done]. cbn [mbind res_bind]. destruct (check _ _); [|done]. cbn [mbind res_bind].
  intros [= <-]. unfold result. by destruct (r_byPath r !! _).
Qed.

Lemma schema_keyed r `{!BuiltRouter r} : keyed_schema (r_schema r) = true.
Proof.
  assert (match buildSchema device_type with Ok s => keyed_schema s | Err _ => false end = true) as H
    by (vm_compute; reflexivity).
  by rewrite built_schema in H.
Qed.

(** Which leaves a content selection asks for. *)
Definition wanted (r : Router) (content : Content) (p : string) : Prop :=
  match content with
  | ContentAll => True
  | ContentConfig => IsState r p = false
  | ContentNonConfig => IsState r p = true
  end.

Lemma selected_wanted r p v x prefix content : describe r p v = Ok x →
  selected x (mkReadOptions prefix content) = true ↔ wanted r content p.
Proof.
  intros [_ Hw]%describe_result. unfold selected. rewrite Hw.
  destruct content; simpl; destruct (IsState r p); simpl; done.
Qed.

Lemma read_tree root r m ds vs results content :
  NewRouter root = Ok r → datastore m ds = Ok vs → collect r m true ds = Ok results →
  map_Forall (λ p _, match Parse p with Ok segs => follows (r_schema r) segs | Err _ => false end = true) vs →
  ∃ nodes, Read r m true ds (mkReadOptions "" content) = Ok (Some (DNode "" "" KindContainer "" "" None None nodes)) ∧
    NoDup (flat nodes).*1 ∧ ∀ p v, (p, v) ∈ flat nodes ↔ vs !! p = Some v ∧ wanted r content p.
Proof.
  intros Hr Hds Hc Hf. apply NewRouter_built in Hr as [_ Hb]. clear root.
  set (o := mkReadOptions "" content). pose proof (collect_lookup r m ds vs results Hds Hc) as Hl.
  destruct (build_spec r (list_to_map results) o) with (fuel := height (r_schema r)) (pre := @nil Segment) (s := r_schema r)
    as (nodes & Hn & [[Hg Hnd] _]); [by apply router_schema_facts| |done|done|by apply schema_keyed|done|].
  { intros p x (v & Hv & _)%Hl. specialize (Hf p v Hv). simpl in Hf.
    destruct (Parse p) as [segs|]; [by exists segs|done]. }
  exists nodes. split; [|split; [exact Hnd|]].
  - unfold Read. cbn [ctx_err check mbind res_bind]. rewrite Hc. cbn [mbind res_bind].
    change (Path_String []) with "" in Hn. fold o. simpl. by rewrite Hn.
  - intros p v. rewrite Hg. split.
    + intros (name & seg & rest & (x & Hx & Hs & <- & _) & _). apply Hl in Hx as (v & Hv & Hd).
      destruct (describe_result _ _ _ _ Hd) as [-> _]. split; [done|]. by eapply selected_wanted.
    + intros [Hv Hw]. pose proof (Hf p v Hv) as Hp. simpl in Hp. destruct (Parse p) as [segs|] eqn:Ep; [|done].
      destruct segs as [|seg rest]; [done|]. exists (seg_Name seg), seg, rest. split; [|done].
      destruct (collect_described r m ds vs results p v Hds Hc Hv) as [x Hd].
      exists x. split_and!; [apply Hl; by exists v|by eapply selected_wanted|by apply describe_result in Hd as [? _]|done].
Qed.

(** C25: a read is complete and exact. When the leaves of a datastore resolve and follow the
    schema, Read of the whole datastore succeeds for every content selection, within the
    depth of the schema, and the tree it returns has exactly the selected leaves of the
    datastore, each once, with its path and its value. *)
Theorem read_complete root r m ds vs results content :
  NewRouter root = Ok r → datastore m ds = Ok vs → collect r m true ds = Ok results →
  map_Forall (λ p _, match Parse p with Ok segs => follows (r_schema r) segs | Err _ => false end = true) vs →
  ∃ n, Read r m true ds (mkReadOptions "" content) = Ok (Some n) ∧ NoDup (leaves n).*1 ∧
    ∀ p v, (p, v) ∈ leaves n ↔ vs !! p = Some v ∧ wanted r content p.
Proof.
  intros Hr Hds Hc Hf. destruct (read_tree root r m ds vs results content Hr Hds Hc Hf) as (nodes & Hn & Hnd & Hl).
  exists (DNode "" "" KindContainer "" "" None None nodes). split; [exact Hn|split; [exact Hnd|exact Hl]].
Qed.

Lemma read_complete_witness :
  collect default_router named_store true Running = Ok (match collect default_router named_store true Running with Ok l => l | Err _ => [] end) ∧
  ∃ n, Read default_router named_store true Running (mkReadOptions "" ContentConfig) = Ok (Some n) ∧ NoDup (leaves n).*1 ∧
    ∀ p v, (p, v) ∈ leaves n ↔ running named_store !! p = Some v ∧ wanted default_router ContentConfig p.
Proof.
  assert (H : collect default_router named_store true Running =
    Ok (match collect default_router named_store true Running with Ok l => l | Err _ => [] end)) by (vm_compute; reflexivity).
  split; [exact H|].
  apply (read_complete DefaultDevice default_router named_store Running (running named_store) _ ContentConfig
    default_router_built eq_refl H). by_decide.
Defined.
