(* ===== verification/GetConfig.v ===== *)
(** * get-config and edit-config ([internal/netconf/ops]: [getconfig.go], [editconfig.go], [document.go], [namespaces.go]; [internal/router/modules.go])

    <get-config> reads the configuration of a datastore as a tree, narrows it by a subtree
    filter and renders it as XML; <edit-config> turns the elements of <config> into the
    documents of the data-tree editor. *)

From S2P Require Import Prelude GoStrings GoFloat GoParse GoFormat GoValue GoNet Persist Store Path Model Reflect Reflected Hydrate Schema Oid Router Ops Datatree Read.

(** ** Modules *)

Record Module_ : Set := mkModule { mod_Name : string; mod_Namespace : string }.
Definition ModuleDevice : Module_ := mkModule "sim-device" "urn:sim:device".
Definition ModuleRadioLink : Module_ := mkModule "sim-radio-link" "urn:sim:radio-link".
Definition ModuleL2 : Module_ := mkModule "sim-l2-switching" "urn:sim:l2-switching".
Definition ModuleSync : Module_ := mkModule "sim-sync" "urn:sim:sync".

Definition before_predicate (segment : string) : string :=
  match IndexByte segment lbrack with Some i => str_take i segment | None => segment end.
Fixpoint module_of (segments : list string) : Module_ :=
  match segments with
  | [] => ModuleDevice
  | segment :: segments =>
      let segment := before_predicate segment in
      if bool_decide (segment ∈ ["radio-link"; "modulation-profile"]) then ModuleRadioLink
      else if bool_decide (segment ∈ ["vlans"; "mac-table"; "stp"; "lldp"]) then ModuleL2
      else if bool_decide (segment ∈ ["ptp"; "synce"]) then ModuleSync
      else module_of segments
  end.
Definition ModuleFor (path : string) : Module_ := module_of (SplitByte path slash).
Definition namespaceFor (path : string) : string := mod_Namespace (ModuleFor path).

(** ** Filters *)

Inductive filterNode : Set :=
  | FilterNode (name text : string) (hasText : bool) (children : list filterNode).
Definition fn_name (f : filterNode) : string := let 'FilterNode n _ _ _ := f in n.
Definition fn_text (f : filterNode) : string := let 'FilterNode _ t _ _ := f in t.
Definition fn_hasText (f : filterNode) : bool := let 'FilterNode _ _ h _ := f in h.
Definition fn_children (f : filterNode) : list filterNode := let 'FilterNode _ _ _ c := f in c.

Fixpoint filterNodeOf (e : Element) : filterNode :=
  let text := TrimmedText e in
  let has := negb (String.eqb text "") in
  FilterNode (el_name e) (if has then text else "") has
    (match e with Elem _ _ _ _ children => map filterNodeOf children end).

(** [parseFilter]: [None] is the nil filter. *)
Definition parseFilter (element : option Element) : res (option (list filterNode)) :=
  match element with
  | None => Ok None
  | Some e =>
      match Attr e "type" with
      | Some kind => if String.eqb kind "subtree" then Ok (Some (map filterNodeOf (el_children e))) else NotSupported
      | None => Ok (Some (map filterNodeOf (el_children e)))
      end
  end.

Record filterLevel : Set := mkLevel { fl_active : bool; fl_nodes : list filterNode }.

(** [level]. *)
Definition level (f : option (list filterNode)) : filterLevel :=
  match f with None => mkLevel false [] | Some nodes => mkLevel true nodes end.
Definition selectsAll (l : filterLevel) : bool := negb (fl_active l) || bool_decide (fl_nodes l = []).

(** [filterLevel.child]; the outer [None] drops the node. *)
Definition level_child (l : filterLevel) (name : string) : option (option filterNode * filterLevel) :=
  if selectsAll l then Some (None, mkLevel false [])
  else
    match list_find (λ n, fn_name n = name) (fl_nodes l) with
    | Some (_, node) => Some (Some node, mkLevel true (fn_children node))
    | None => None
    end.

(** [ContentMatches] of a leaf node. *)
Definition node_matches (n : DataNode) (text : string) : bool :=
  match dn_Leaf n, dn_Value n with
  | Some kind, Some v => ContentMatches kind text v
  | _, _ => false
  end.

(** [entrySelected]: the first filter child with a text for the key decides. *)
Definition entrySelected (node : option filterNode) (entry : DataNode) (keyName : string) : bool :=
  match node with
  | None => true
  | Some f =>
      match list_find (λ c, fn_name c = keyName ∧ fn_hasText c = true) (fn_children f) with
      | None => true
      | Some (_, c) =>
          match dn_Child entry keyName with
          | None => false
          | Some key => node_matches key (fn_text c)
          end
      end
  end.

(** [pruneNodes] and [pruneEntries], node by node. *)
Fixpoint prune_node (n : DataNode) (l : filterLevel) : option DataNode :=
  match level_child l (dn_Name n) with
  | None => None
  | Some (matched, childLevel) =>
      match n with
      | DNode path name kind key keyValue leaf v children =>
          match kind with
          | KindLeaf =>
              match matched with
              | Some f => if fn_hasText f && negb (node_matches n (fn_text f)) then None else Some n
              | None => Some n
              end
          | KindContainer =>
              match omap (λ c, prune_node c childLevel) children with
              | [] => None
              | inner => Some (DNode path name kind key keyValue leaf v inner)
              end
          | KindList =>
              match omap (λ entry,
                      if negb (entrySelected matched entry key) then None
                      else
                        match entry with
                        | DNode ep en ek ekey ekv el ev ec =>
                            match filter (λ c, dn_Name c = key) ec ++
                                  omap (λ c, if bool_decide (dn_Name c = key) then None else prune_node c childLevel) ec with
                            | [] => None
                            | kept => Some (DNode ep en ek ekey ekv el ev kept)
                            end
                        end) children with
              | [] => None
              | entries => Some (DNode path name kind key keyValue leaf v entries)
              end
          end
      end
  end.
Definition pruneNodes (nodes : list DataNode) (l : filterLevel) : list DataNode := omap (λ n, prune_node n l) nodes.

(** ** Rendering *)

(** [elementFor]: the namespace to declare, and the one the children inherit. *)
Definition elementFor (path currentNS : string) : string * string :=
  let ns := namespaceFor path in
  if String.eqb ns currentNS then ("", currentNS) else (ns, ns).

(** [renderNodes]: the elements a node appends to its parent. *)
Fixpoint render (currentNS : string) (n : DataNode) : list Element :=
  match n with
  | DNode path name kind _ _ _ v children =>
      match kind with
      | KindLeaf =>
          [Elem (elementFor path currentNS).1 name [] (match v with Some v => FormatLeaf v | None => "<nil>" end) []]
      | KindContainer =>
          let '(space, childNS) := elementFor path currentNS in
          match flat_map (render childNS) children with
          | [] => []
          | inner => [Elem space name [] "" inner]
          end
      | KindList =>
          flat_map (λ entry,
            match entry with
            | DNode epath _ _ _ _ _ _ echildren =>
                let '(space, entryNS) := elementFor epath currentNS in
                match flat_map (render entryNS) echildren with
                | [] => []
                | inner => [Elem space name [] "" inner]
                end
            end) children
      end
  end.
Definition renderNodes (parent : Element) (nodes : list DataNode) (currentNS : string) : Element :=
  Append parent (flat_map (render currentNS) nodes).

(** [GetConfig]. *)
Definition GetConfig (r : Router) (m : Memory) (ctx : context) (operation : Element) : res Element :=
  ds ← sourceDatastore operation;
  f ← parseFilter (Child operation "filter");
  root ← match Read r m ctx ds (mkReadOptions "" ContentConfig) with Ok n => Ok n | Err e => fromDataTree e end;
  let nodes := match root with Some n => dn_Children n | None => [] end in
  let nodes := match f with Some _ => pruneNodes nodes (level f) | None => nodes end in
  Ok (renderNodes (NewElement "data") nodes "").

(** ** Editing *)

(** [documentOf]; a later attribute with the same local name overrides an earlier one. *)
Fixpoint documentOf (e : Element) : Document :=
  match e with
  | Elem _ name attrs text children =>
      Doc name text (negb (String.eqb (TrimSpace text) "")) (list_to_map (reverse attrs)) (map documentOf children)
  end.

(** [parseDefaultOperation]. *)
Definition parseDefaultOperation (operation : Element) : res Op :=
  match Child operation "default-operation" with
  | None => Ok OpMerge
  | Some e =>
      let text := TrimmedText e in
      if String.eqb text "merge" then Ok OpMerge
      else if String.eqb text "replace" then Ok OpReplace
      else if String.eqb text "none" then Ok OpNone
      else InvalidValue
  end.

(** [EditConfig]. *)
Definition EditConfig (r : Router) (m : Memory) (now : time) (ctx : context) (operation : Element) : res unit * Memory :=
  match (target ← targetDatastore operation;
         _ ← checkEditOptions operation;
         op ← parseDefaultOperation operation;
         match Child operation "config" with
         | None => MissingElement
         | Some config => Ok (target, mkEdit "" op (map documentOf (el_children config)))
         end) with
  | Err e => (Err e, m)
  | Ok (target, req) =>
      match Edit r m now ctx target req with
      | (Ok _, m) => (Ok tt, m)
      | (Err e, m) => (fromDataTree e, m)
      end
  end.
