(* ===== verification/Rendering.v ===== *)
(** * What NETCONF clients see of a datastore

    Elements survive encoding and decoding; a get-config reply has the leaves the read
    returned, filtered or not. *)

From S2P Require Import Prelude GoStrings GoFloat GoParse GoFormat GoValue GoNet Persist Store Path Model Reflect Reflected Hydrate Schema Oid Router Ops Datatree Edits Read Trees GetConfig.

(** ** Elements *)

Lemma Element_ind' (P : Element → Prop) :
  (∀ sp n a t l, Forall P l → P (Elem sp n a t l)) → ∀ e, P e.
Proof.
  intros H. fix IH 1. intros [sp n a t l]. apply H. induction l as [|e l IHl]; constructor; [apply IH|apply IHl].
Qed.

Lemma Append_Append e l k : Append (Append e l) k = Append e (l ++ k).
Proof. destruct e. simpl. by rewrite app_assoc. Qed.

(** Reading the tokens of an element inside an open one closes it into that one. *)
Definition reads_inside (e : Element) : Prop := ∀ rest fail root top st,
  parse_tokens (MarshalXML e ++ rest) fail root (top :: st) = parse_tokens rest fail root (Append top [e] :: st).

Lemma reads_children l : Forall reads_inside l → ∀ rest fail root top st,
  parse_tokens (flat_map MarshalXML l ++ rest) fail root (top :: st) = parse_tokens rest fail root (Append top l :: st).
Proof.
  induction 1 as [|e l He _ IH]; intros rest fail root top st; simpl.
  - destruct top. simpl. by rewrite app_nil_r.
  - rewrite <- app_assoc, He, IH. by rewrite Append_Append.
Qed.

(** The tokens of an element after its start tag, up to its end tag. *)
Lemma reads_body sp n a t l rest fail root st : Forall reads_inside l →
  parse_tokens ((if String.eqb t "" then [] else [CharData t]) ++ flat_map MarshalXML l ++ EndElement n :: rest)
    fail root (Elem sp n a "" [] :: st) =
  parse_tokens (EndElement n :: rest) fail root (Elem sp n a t l :: st).
Proof.
  intros Hl. destruct (String.eqb_spec t "") as [->|]; cbn [app parse_tokens]; by rewrite reads_children.
Qed.

Lemma marshal_inside e : reads_inside e.
Proof.
  induction e as [sp n a t l IH] using Element_ind'. intros rest fail root top st.
  cbn [MarshalXML app parse_tokens]. rewrite <- !app_assoc. cbn [app].
  destruct root; rewrite reads_body by done; done.
Qed.

(** NETCONF elements survive the wire. The element tree the parser builds from the
    tokens the encoder emits is the encoded tree, with every namespace, attribute, text
    and child in place. *)
Theorem element_roundtrip e : ParseElement (MarshalXML e) None = Ok e.
Proof.
  destruct e as [sp n a t l]. unfold ParseElement. cbn [MarshalXML app parse_tokens].
  rewrite reads_body; [done|]. apply Forall_forall. intros e _. apply marshal_inside.
Qed.

(** ** Data trees *)

Lemma DataNode_ind' (P : DataNode → Prop) :
  (∀ p n k key kv l v c, Forall P c → P (DNode p n k key kv l v c)) → ∀ d, P d.
Proof.
  intros H. fix IH 1. intros [p n k key kv l v c]. apply H. induction c as [|d c IHc]; constructor; [apply IH|apply IHc].
Qed.

(** The name of the leaf a path addresses. *)
Definition leaf_name (p : string) : string := default "" (last (SplitByte p slash)).

Lemma leaf_name_join prefix name : has_byte name slash = false → leaf_name (join prefix name) = name.
Proof.
  intros Hn. unfold leaf_name, join. destruct (String.eqb prefix ""); [by rewrite SplitByte_none|].
  change (prefix +:+ "/" +:+ name) with (prefix +:+ String slash name). rewrite SplitByte_cut, (SplitByte_none name) by done.
  by rewrite last_snoc.
Qed.

(** Leaves have their value and are named by their path; entries are no leaves. *)
Fixpoint well_named (n : DataNode) : Prop :=
  match n with
  | DNode p name kind _ _ _ v children =>
      match kind with
      | KindLeaf => leaf_name p = name ∧ is_Some v
      | KindContainer => foldr (λ c, and (well_named c)) True children
      | KindList => foldr (λ c, and (dn_Kind c = KindContainer ∧ well_named c)) True children
      end
  end.

Lemma foldr_and {A} (P : A → Prop) l : foldr (λ c, and (P c)) True l ↔ Forall P l.
Proof. induction l as [|a l IH]; simpl; [by split|]. by rewrite Forall_cons, IH. Qed.

(** ** Pruning *)

Lemma flat_submseteq {A} (f : A → list (string * value)) l k : l ⊆+ k → flat_map f l ⊆+ flat_map f k.
Proof.
  induction 1 as [|x l k _ IH|x y l|x l k _ IH|l1 l2 l3 _ IH1 _ IH2]; simpl; [done|by apply submseteq_app| | |by etrans].
  - rewrite !app_assoc. apply submseteq_app; [|done]. rewrite (comm (++)). done.
  - by apply submseteq_inserts_l.
Qed.

Lemma omap_leaves (g : DataNode → option DataNode) l :
  Forall (λ c, ∀ c', g c = Some c' → leaves c' ⊆+ leaves c) l → flat_map leaves (omap g l) ⊆+ flat_map leaves l.
Proof.
  induction 1 as [|c l Hc _ IH]; simpl; [done|]. destruct (g c) as [c'|] eqn:E; simpl.
  - apply submseteq_app; [by apply Hc|done].
  - by apply submseteq_inserts_l.
Qed.

(** The two passes over an entry take its children apart. *)
Lemma split_leaves key (g : DataNode → option DataNode) l :
  Forall (λ c, ∀ c', g c = Some c' → leaves c' ⊆+ leaves c) l →
  flat_map leaves (filter (λ c, dn_Name c = key) l ++
                   omap (λ c, if bool_decide (dn_Name c = key) then None else g c) l) ⊆+ flat_map leaves l.
Proof.
  intros H. rewrite flat_map_app. induction H as [|c l Hc _ IH]; [done|]. rewrite filter_cons. simpl.
  destruct (decide (dn_Name c = key)) as [Heq|Hne].
  - rewrite bool_decide_true by done. simpl. rewrite <- app_assoc. by apply submseteq_app.
  - rewrite bool_decide_false by done. destruct (g c) as [c'|] eqn:E; simpl.
    + rewrite (comm (++)), <- app_assoc. apply submseteq_app; [by apply Hc|]. rewrite (comm (++)). done.
    + by apply submseteq_inserts_l.
Qed.

Lemma leaves_inner p n k key kv l v c : k ≠ KindLeaf ∨ v = None → leaves (DNode p n k key kv l v c) = flat_map leaves c.
Proof. destruct k, v; simpl; try done. by intros [?|?]. Qed.

(** An induction that reaches the children of the entries of a list. *)
Lemma DataNode_ind2 (Q : DataNode → Prop) :
  (∀ p n k key kv l v c, Forall Q c → Forall (λ e, Forall Q (dn_Children e)) c → Q (DNode p n k key kv l v c)) → ∀ d, Q d.
Proof.
  intros H d. assert (Q d ∧ Forall Q (dn_Children d)) as [? _]; [|done].
  induction d as [p n k key kv l v c IH] using DataNode_ind'. apply Forall_and in IH as [IH1 IH2].
  split; [by apply H|done].
Qed.

Lemma prune_leaves n : ∀ l n', prune_node n l = Some n' → leaves n' ⊆+ leaves n.
Proof.
  induction n as [p n k key kv lf v c IH IH2] using DataNode_ind2. intros l n' H. cbn [prune_node] in H.
  destruct (level_child l _) as [[matched lvl]|]; [|done]. destruct k.
  - destruct (omap _ c) as [|i inner] eqn:E; [done|]. injection H as <-. rewrite !leaves_inner by (by left).
    rewrite <- E. apply omap_leaves. eapply Forall_impl; [exact IH|]. naive_solver.
  - destruct (omap _ c) as [|i inner] eqn:E; [done|]. injection H as <-. rewrite !leaves_inner by (by left).
    rewrite <- E. apply omap_leaves. clear E. eapply Forall_impl; [exact IH2|]. intros entry Hentry c' Hc'.
    destruct (entrySelected _ _ _); [|done]. destruct entry as [ep en ek ekey ekv el ev ec]. simpl in Hc', Hentry.
    pose proof (split_leaves key (λ c, prune_node c lvl) ec) as Hs.
    destruct (_ ++ _) as [|j kept] eqn:E; [done|]. injection Hc' as <-.
    assert (flat_map leaves (j :: kept) ⊆+ flat_map leaves ec) as Hsub.
    { apply Hs. eapply Forall_impl; [exact Hentry|]. naive_solver. }
    destruct (decide (ek ≠ KindLeaf ∨ ev = None)) as [Hi|Hl]; [by rewrite !leaves_inner by done|].
    destruct ek; [destruct Hl; by left..|]. destruct ev; [done|]. destruct Hl. by right.
  - destruct matched as [f|]; [destruct (_ && _); [done|]|]; by injection H as <-.
Qed.

Lemma pruneNodes_leaves nodes l : flat_map leaves (pruneNodes nodes l) ⊆+ flat_map leaves nodes.
Proof. apply omap_leaves, Forall_forall. intros c _ c'. apply prune_leaves. Qed.

Lemma prune_named n : ∀ l n', well_named n → prune_node n l = Some n' → well_named n' ∧ dn_Kind n' = dn_Kind n.
Proof.
  induction n as [p n k key kv lf v c IH IH2] using DataNode_ind2. intros l n' Hw H. cbn [prune_node] in H.
  destruct (level_child l _) as [[matched lvl]|]; [|done]. destruct k; cbn [well_named] in Hw.
  - destruct (omap _ c) as [|i inner] eqn:E; [done|]. injection H as <-. split; [|done]. cbn [well_named].
    rewrite foldr_and in *. rewrite <- E. apply Forall_forall. intros c' (d & Hd & Hc')%list_elem_of_omap.
    rewrite Forall_forall in IH, Hw. by apply (IH d Hd lvl c' (Hw d Hd)).
  - destruct (omap _ c) as [|i inner] eqn:E; [done|]. injection H as <-. split; [|done]. cbn [well_named].
    rewrite foldr_and in *. rewrite <- E. clear E. apply Forall_forall. intros c' (entry & He & Hc')%list_elem_of_omap.
    rewrite Forall_forall in IH2, Hw. destruct (Hw entry He) as [Hkind Hwe]. specialize (IH2 entry He).
    destruct (entrySelected _ _ _); [|done]. destruct entry as [ep en ek ekey ekv el ev ec]. simpl in Hkind. subst ek.
    cbn [well_named dn_Children] in Hwe, IH2. simpl in Hc'. rewrite foldr_and, Forall_forall in Hwe.
    destruct (_ ++ _) as [|j kept] eqn:E; [done|]. injection Hc' as <-. split; [done|]. cbn [well_named].
    rewrite foldr_and, <- E. apply Forall_app. split; apply Forall_forall.
    + intros d [_ Hd]%list_elem_of_filter. by apply Hwe.
    + intros d' (d & Hd & Hd')%list_elem_of_omap. destruct (bool_decide _); [done|].
      rewrite Forall_forall in IH2. by apply (IH2 d Hd lvl d' (Hwe d Hd)).
  - destruct matched as [f|]; [destruct (_ && _); [done|]|]; by injection H as <-.
Qed.

(** ** Rendering *)

(** The leaf elements of a document, in document order. *)
Fixpoint xml_leaves (e : Element) : list (string * string) :=
  match e with
  | Elem _ n _ t [] => [(n, t)]
  | Elem _ _ _ _ c => flat_map xml_leaves c
  end.

Definition shown (x : string * value) : string * string := (leaf_name x.1, FormatLeaf x.2).

Lemma flat_map_shown (f : DataNode → list Element) l :
  Forall (λ c, flat_map xml_leaves (f c) = shown <$> leaves c) l →
  flat_map xml_leaves (flat_map f l) = shown <$> flat_map leaves l.
Proof. induction 1 as [|c l Hc _ IH]; simpl; [done|]. by rewrite flat_map_app, fmap_app, Hc, IH. Qed.

(** An element that is appended only when it has content. *)
Lemma wrap_leaves space name l inner :
  flat_map xml_leaves inner = shown <$> l →
  flat_map xml_leaves (match inner with [] => [] | e :: i => [Elem space name [] "" (e :: i)] end) = shown <$> l.
Proof. destruct inner as [|e inner]; [done|]. intros <-. simpl. by rewrite app_nil_r. Qed.

Lemma render_leaves n : ∀ ns, well_named n → flat_map xml_leaves (render ns n) = shown <$> leaves n.
Proof.
  induction n as [p n k key kv lf v c IH IH2] using DataNode_ind2. intros ns Hw. destruct k; cbn [well_named] in Hw; cbn [render].
  - rewrite leaves_inner by (by left). destruct (elementFor p ns) as [space childNS]. apply wrap_leaves. rewrite foldr_and in Hw.
    apply flat_map_shown. rewrite Forall_forall in *. intros d Hd. by apply IH; [|apply Hw].
  - rewrite leaves_inner by (by left). rewrite foldr_and in Hw. apply flat_map_shown. rewrite Forall_forall in *.
    intros entry He. destruct (Hw entry He) as [Hk Hwe]. specialize (IH2 entry He).
    destruct entry as [ep en ek ekey ekv el ev ec]. simpl in Hk. subst ek. cbn [well_named dn_Children] in Hwe, IH2.
    rewrite leaves_inner by (by left). destruct (elementFor ep ns) as [space entryNS]. apply wrap_leaves. rewrite foldr_and in Hwe.
    apply flat_map_shown. rewrite Forall_forall in *. intros d Hd. by apply IH2; [|apply Hwe].
  - destruct Hw as [<- [x ->]]. done.
Qed.

(** ** The trees of a read *)

Lemma res_map_inv {A B} (f : A → res B) l bs : res_map f l = Ok bs → Forall2 (λ a b, f a = Ok b) l bs.
Proof.
  revert bs. induction l as [|a l IH]; intros bs; simpl; [by intros [= <-]|].
  destruct (f a) as [b|] eqn:E; [|done]. cbn [mbind res_bind]. destruct (res_map f l) as [bs'|]; [|done].
  intros [= <-]. constructor; [done|by apply IH].
Qed.

Lemma Children_clean schema prefix nodes : clean_schema schema = true → Children schema prefix = Ok nodes →
  Forall clean_node nodes.
Proof.
  intros Hc (segs & s & _ & _ & Hw & ->)%Children_inv. pose proof (clean_walk _ _ _ Hc Hw) as Hs.
  destruct s as [n l]. simpl in *. rewrite forallb_forall in Hs. apply Forall_fmap, Forall_forall. intros c Hin.
  apply list_elem_of_In, Hs, andb_true_iff in Hin as [?%bool_decide_eq_true _]. done.
Qed.

Lemma leaf_named prefix name leaf v : clean name [slash; lbrack; rbrack] →
  well_named (leaf_node (join prefix name) name leaf v).
Proof. intros [? _]%Forall_cons. simpl. by rewrite leaf_name_join. Qed.

Lemma build_named r vs o fuel : clean_schema (r_schema r) = true →
  ∀ prefix nodes, buildChildren r vs o fuel prefix = Ok nodes → Forall well_named nodes.
Proof.
  intros Hclean. induction fuel as [|fuel IH]; intros prefix nodes; [done|]. cbn [buildChildren].
  destruct (Children (r_schema r) prefix) as [children|] eqn:Hch; [|done]. cbn [mbind res_bind].
  destruct (res_map _ children) as [lss|] eqn:Hm; [|done]. intros [= <-]. apply res_map_inv in Hm.
  pose proof (Children_clean _ _ _ Hclean Hch) as Hcl. clear Hch.
  induction Hm as [|c nodes children lss Hc _ IHm]; [constructor|]. apply Forall_cons in Hcl as [(N1 & N2 & N3) Hcl].
  simpl. apply Forall_app. split; [|by apply IHm]. clear IHm Hcl. unfold build_child in Hc.
  destruct (nd_Kind c) eqn:Hk.
  - destruct (buildChildren r vs o fuel _) as [inner|] eqn:Hi; [|done]. injection Hc as <-. constructor; [|done].
    cbn [well_named]. rewrite foldr_and. by apply (IH _ _ Hi).
  - destruct (buildEntries r vs o _ prefix c) as [entries|] eqn:He; [|done]. injection Hc as <-. constructor; [|done].
    cbn [well_named]. rewrite foldr_and. unfold buildEntries in He.
    destruct (instancesOf _ _ _) as [|first rest]; [injection He as <-; constructor|].
    destruct (Children _ _) as [ec|]; [|done]. cbn [mbind res_bind] in He.
    destruct (nodeNamed ec _) as [keyNode|]; [|done]. apply res_map_inv in He. generalize dependent entries.
    induction (sortEntries _ _) as [|e l IHl]; intros entries He; inversion He as [|?? n ns Hn Hrest]; subst; constructor;
      [|by apply IHl]. destruct (buildChildren r vs o fuel (le_path e)) as [inner|] eqn:Hi; [|done]. injection Hn as <-.
    split; [done|]. unfold entry_node. cbn [well_named]. rewrite foldr_and. apply Forall_app. split.
    + destruct (vs !! _) as [x|]; [|done]. destruct (selected x o); [|done]. constructor; [|done].
      apply leaf_named. destruct (N3 eq_refl) as [_ Hkey]. unfold clean in *. rewrite !Forall_cons in *. naive_solver.
    + apply Forall_forall. intros d [_ Hd]%list_elem_of_filter. pose proof (IH _ _ Hi) as H. rewrite Forall_forall in H. by apply H.
  - destruct (vs !! _) as [x|]; [|by injection Hc as <-]. destruct (selected x o); injection Hc as <-; [|done].
    constructor; [by apply leaf_named|done].
Qed.

Lemma read_named r `{!BuiltRouter r} m ctx ds o nodes : ro_Prefix o = "" →
  Read r m ctx ds o = Ok (Some (DNode "" "" KindContainer "" "" None None nodes)) → Forall well_named nodes.
Proof.
  intros Ho. unfold Read. destruct (ctx_err ctx); [|done]. cbn [mbind res_bind].
  destruct (collect _ _ _ _) as [results|]; [|done]. cbn [mbind res_bind]. rewrite Ho.
  destruct (String.eqb_spec "" ""); [|done]. destruct (buildChildren _ _ _ _ _) as [ns|] eqn:E; [|done]. intros [= ->].
  eapply build_named; [by apply router_schema_facts|exact E].
Qed.


Abbreviation demo_get :=
  (Elem "" "get-config" [] "" [Elem "" "source" [] "" [NewElement "running"];
     Elem "" "filter" [("type", "subtree")] "" [NewElement "system-info"]]).
