(* ===== verification/Session.v ===== *)
(** * NETCONF sessions ([internal/netconf/hello.go], [rpc.go], [session.go])

    A session is a function of the bytes the client sends: the hello exchange, the framing
    both peers then use, and the loop that reads, runs and answers one RPC after the other.
    The server it works on (router, store, confirmed commit, notification dispatcher) is
    shared: between two messages other sessions may have changed it.  Documents are decoded
    and encoded by package [encoding/xml]: what it makes of a text is a parameter. *)

From S2P Require Import Prelude GoStrings GoFloat GoParse GoFormat GoValue Persist Store Clock Event Framing Path Model Reflect Reflected Hydrate Schema Oid Router Ops Confirmed Notif Datatree Edits Read Trees GetConfig.

(** ** Hello *)

Definition BaseNamespace : string := "urn:ietf:params:xml:ns:netconf:base:1.0".
Definition CapabilityBase10 : string := "urn:ietf:params:netconf:base:1.0".
Definition CapabilityBase11 : string := "urn:ietf:params:netconf:base:1.1".
Definition CapabilityCandidate : string := "urn:ietf:params:netconf:capability:candidate:1.0".
Definition CapabilityWritableRunning : string := "urn:ietf:params:netconf:capability:writable-running:1.0".
Definition CapabilityConfirmedCommit : string := "urn:ietf:params:netconf:capability:confirmed-commit:1.0".
Definition CapabilityNotification : string := "urn:ietf:params:netconf:capability:notification:1.0".

Definition Capabilities : list string :=
  [CapabilityBase11; CapabilityBase10; CapabilityCandidate; CapabilityWritableRunning; CapabilityConfirmedCommit;
   CapabilityNotification].

Record hello : Set := mkHello { he_Space : string; he_Local : string; he_Capabilities : list string; he_SessionID : Z }.
Record helloMessage : Set := mkHelloMessage { hm_Local : string; hm_Capabilities : list string; hm_SessionID : Z }.

Definition serverHello (sessionID : Z) : hello := mkHello BaseNamespace "hello" Capabilities sessionID.

Definition hasCapability (h : helloMessage) (urn : string) : bool :=
  existsb (λ capability, String.eqb capability urn) (hm_Capabilities h).
Definition chunked (h : helloMessage) : bool := hasCapability h CapabilityBase11.

(** [parseHello] of a document that decodes to [message]; [None] is a decoding error. *)
Definition parseHello (message : option helloMessage) : res helloMessage :=
  match message with
  | None => Err [Anon "netconf: parse hello"]
  | Some message =>
      if negb (String.eqb (hm_Local message) "hello") then Err [Anon "netconf: expected hello"]
      else if negb (hasCapability message CapabilityBase10) && negb (hasCapability message CapabilityBase11)
      then Err [Anon "netconf: hello does not advertise a base capability"]
      else Ok message
  end.

(** ** RPCs *)

(** [incomingRPC]; the inner XML is the tokens read from it. *)
Record incomingRPC : Set := mkRPC { ir_Local : string; ir_MessageID : string; ir_Body : list token * option error }.

Record rpcError : Set := mkRPCError { re_Type : errorType; re_Tag : errorTag; re_Severity : string; re_Path : string }.
Record rpcReply : Set := mkReply {
  rp_MessageID : string;
  rp_Ok : bool;
  rp_Data : option Element;
  rp_Errors : list rpcError;
}.

Definition severityError : string := "error".
Definition newReply (messageID : string) : rpcReply := mkReply messageID false None [].
Definition okReply (messageID : string) : rpcReply := mkReply messageID true None [].
Definition errorReply (messageID : string) (tag : errorTag) (path : string) : rpcReply :=
  mkReply messageID false None [mkRPCError (type_of_tag tag) tag severityError path].
Definition errorReplyFrom (messageID : string) (e : error) : rpcReply :=
  match AsError e with
  | Some (OpError tag path _) => errorReply messageID tag path
  | _ => errorReply messageID TagOperationFailed ""
  end.

(** [parseRPC]: the tag of the error, or the RPC. *)
Definition parseRPC (message : option incomingRPC) : errorTag + incomingRPC :=
  match message with
  | None => inl TagMalformedMessage
  | Some rpc =>
      if negb (String.eqb (ir_Local rpc) "rpc") then inl TagMalformedMessage
      else if String.eqb (TrimSpace (ir_MessageID rpc)) "" then inl TagMissingAttribute
      else inr rpc
  end.

(** ** The server of a session *)

(** [Server]: without a bus there is no dispatcher. *)
Record Server : Type := mkNetconf {
  nc_router : Router;
  nc_state : server;
  nc_dispatcher : option Dispatcher;
}.

Definition with_state (n : Server) (s : server) : Server := mkNetconf (nc_router n) s (nc_dispatcher n).
Definition with_dispatcher (n : Server) (d : Dispatcher) : Server := mkNetconf (nc_router n) (nc_state n) (Some d).

(** The circumstances of one turn of the loop: the context when it is checked and when the
    operation runs, the time, the fault of a save, and what others did before. *)
Record turn : Type := mkTurn {
  tn_alive : context;
  tn_ctx : context;
  tn_now : time;
  tn_fault : option io_fault;
  tn_others : Server → Server;
}.

(** [session.subscribe]; the sender is the session's own. *)
Definition subscribe (n : Server) (session : Z) (operation : Element) : res unit * Server :=
  match nc_dispatcher n with
  | None => (NotSupported, n)
  | Some d =>
      match ParseRequest operation with
      | Err e => (Err e, n)
      | Ok request =>
          match Notif.Subscribe d session (rq_Stream request) with
          | (Ok _, d) => (Ok tt, with_dispatcher n d)
          | (Err e, d) =>
              (if bool_decide (e = ErrUnknownStream) then InvalidValue else Failed e, with_dispatcher n d)
          end
      end
  end.

(** An operation without data: its reply. *)
Definition ok_or_error (messageID : string) (x : res unit) : rpcReply :=
  match x with Ok _ => okReply messageID | Err e => errorReplyFrom messageID e end.

(** [dispatch]; the boolean ends the session. *)
Definition dispatch (t : turn) (session : Z) (n : Server) (rpc : incomingRPC) : rpcReply * bool * Server :=
  let id := ir_MessageID rpc in
  let s := nc_state n in
  match ParseElement (ir_Body rpc).1 (ir_Body rpc).2 with
  | Err _ => (errorReply id TagMalformedMessage "", true, n)
  | Ok operation =>
      let name := el_name operation in
      if String.eqb name "get-config" then
        match GetConfig (nc_router n) (sv_mem s) (tn_ctx t) operation with
        | Err e => (errorReplyFrom id e, false, n)
        | Ok data => (mkReply id false (Some data) [], false, n)
        end
      else if String.eqb name "edit-config" then
        let '(x, m) := EditConfig (nc_router n) (sv_mem s) (tn_now t) (tn_ctx t) operation in
        (ok_or_error id x, false, with_state n (set_store s m (sv_fs s)))
      else if String.eqb name "commit" then
        let '(x, s) := Commit_rpc s (tn_now t) (tn_ctx t) (tn_fault t) session operation in
        (ok_or_error id x, false, with_state n s)
      else if String.eqb name "discard-changes" then
        let '(x, s) := DiscardChanges s (tn_now t) (tn_ctx t) in
        (ok_or_error id x, false, with_state n s)
      else if String.eqb name "create-subscription" then
        let '(x, n) := subscribe n session operation in
        (ok_or_error id x, false, n)
      else if String.eqb name "close-session" then (okReply id, true, n)
      else (errorReply id TagOperationNotSupported "", false, n)
  end.

Section session.
(** The documents [encoding/xml] decodes and encodes. *)
Context (decode_hello : string → option helloMessage) (decode_rpc : string → option incomingRPC).
Context (encode_hello : hello → option string) (encode_reply : rpcReply → option string).

(** [handleMessage]: the reply, and whether the session continues. *)
Definition handleMessage (t : turn) (session : Z) (n : Server) (message : string) : rpcReply * bool * Server :=
  match parseRPC (decode_rpc message) with
  | inl tag => (errorReply "" tag "", false, n)
  | inr rpc => let '(reply, closeSession, n) := dispatch t session n rpc in (reply, negb closeSession, n)
  end.

(** [writeReply]: the bytes written; a reply that cannot be encoded is logged. *)
Definition writeReply (mode : framingMode) (reply : rpcReply) : string :=
  match encode_reply reply with Some data => WriteMessage mode data | None => "" end.

(** [reportReadError]. *)
Definition reportReadError (mode : framingMode) (e : error) : string :=
  if errors_is e NetconfErrMessageTooBig then writeReply mode (errorReply "" TagTooBig "")
  else if errors_is e NetconfErrMalformedFrame then writeReply mode (errorReply "" TagMalformedMessage "")
  else "".

(** The loop of [run] from its [i]-th turn: the server afterwards and the bytes written.
    [None] is not an outcome of the code. *)
Fixpoint rpc_loop (fuel : nat) (turns : nat → turn) (i : nat) (mode : framingMode) (session : Z) (n : Server) (input : string)
    : option (Server * string) :=
  match fuel with
  | 0 => None
  | S fuel =>
      let t := turns i in
      if negb (tn_alive t) then Some (n, "")
      else match ReadMessage mode input with
      | Err e => Some (n, reportReadError mode e)
      | Ok (message, rest) =>
          let '(reply, continue, n) := handleMessage t session (tn_others t n) (TrimSpace message) in
          if continue then
            '(n, out) ← rpc_loop fuel turns (S i) mode session n rest;
            Some (n, writeReply mode reply +:+ out)
          else Some (n, writeReply mode reply)
      end
  end.

(** [run] on the bytes of the client. *)
Definition run (turns : nat → turn) (session : Z) (n : Server) (input : string) : option (Server * string) :=
  match encode_hello (serverHello session) with
  | None => Some (n, "")
  | Some hello =>
      let out := WriteMessage framingEOM hello in
      match (mode ← detectFraming input;
             '(data, rest) ← ReadMessage mode input;
             client ← parseHello (decode_hello (TrimSpace data));
             Ok (client, rest)) with
      | Err _ => Some (n, out)
      | Ok (client, rest) =>
          let negotiated := if chunked client then framingChunked else framingEOM in
          '(n, more) ← rpc_loop (S (String.length rest)) turns 0 negotiated session n rest;
          Some (n, out +:+ more)
      end
  end.
End session.

(** [sessionEnded]: the subscription ends, and a confirmed commit of the session that is
    still pending is rolled back. *)
Definition sessionEnded (now : time) (fault : option io_fault) (session : Z) (n : Server) : Server :=
  let n := match nc_dispatcher n with Some d => with_dispatcher n (Notif.Unsubscribe d session) | None => n end in
  let s := nc_state n in
  match sv_pend s with
  | Some p =>
      if (pc_session p =? session)%Z
      then with_state n (runRollback (set_rollbacks (SessionEnded s session) (sv_rollbacks s)) now fault (pc_rollback p)).2
      else n
  | None => n
  end.

(** [nextSessionID]: the counter is 32 bits wide and skips zero. *)
Definition nextSessionID (counter : Z) : Z :=
  let id := u32 (counter + 1) in if (id =? 0)%Z then 1%Z else id.

(** ** Properties *)

Lemma chunks_not_empty m text : chunks m text → text ≠ "".
Proof. intros H. inversion H as [o Ho|o digits k data m' s' Ho]; subst; destruct Ho as [-> | ->]; done. Qed.

Lemma readEOM_consumes s : ∀ message m rest, readEOM_from message s = Ok (m, rest) → String.length rest < String.length s.
Proof.
  induction s as [|b s IH]; intros message m rest; [done|]. cbn [readEOM_from].
  destruct (_ <? _)%Z; [done|]. destruct (HasSuffix _ _).
  - intros [= _ <-]. simpl. lia.
  - intros H%IH. simpl. lia.
Qed.

Lemma ReadMessage_consumes mode s m rest : ReadMessage mode s = Ok (m, rest) → String.length rest < String.length s.
Proof.
  unfold ReadMessage. case_decide; [|apply readEOM_consumes]. unfold readChunked.
  destruct (readChunked_from _ "" s) as [[[m' rest']|]|] eqn:E; [|done|done]. simpl. intros [= -> ->].
  apply readChunked_sound in E as (body & text & _ & -> & Hc & _); [|done]. apply chunks_not_empty in Hc.
  rewrite str_length_app. destruct text; [done|]. simpl. lia.
Qed.

(** What a session does with the messages it receives, one after the other: the replies and
    the server afterwards. *)
Section properties.
Context (decode_hello : string → option helloMessage) (decode_rpc : string → option incomingRPC).
Context (encode_hello : hello → option string) (encode_reply : rpcReply → option string).
Context (turns : nat → turn) (session : Z).

Fixpoint served (i : nat) (n : Server) (ms : list string) : list rpcReply * Server :=
  match ms with
  | [] => ([], n)
  | m :: ms =>
      let t := turns i in
      if negb (tn_alive t) then ([], n)
      else
        let '(reply, continue, n) := handleMessage decode_rpc t session (tn_others t n) (TrimSpace m) in
        if continue then let '(replies, n) := served (S i) n ms in (reply :: replies, n) else ([reply], n)
  end.

Definition framed (mode : framingMode) (replies : list rpcReply) : string :=
  foldr (λ r s, writeReply encode_reply mode r +:+ s) "" replies.

Lemma loop_total fuel : ∀ i mode n input, String.length input < fuel →
  ∃ n' out, rpc_loop decode_rpc encode_reply fuel turns i mode session n input = Some (n', out).
Proof.
  induction fuel as [|fuel IH]; intros i mode n input Hf; [lia|]. cbn [rpc_loop].
  destruct (negb _); [by eauto|]. destruct (ReadMessage mode input) as [[m rest]|e] eqn:E; [|by eauto].
  apply ReadMessage_consumes in E. destruct (handleMessage _ _ _ _ _) as [[reply []] n1]; [|by eauto].
  destruct (IH (S i) mode n1 rest) as (n' & out & ->); [lia|]. cbn [mbind option_bind]. by eauto.
Qed.

Lemma ReadMessage_eof mode : ReadMessage mode "" = Err [IoEOF].
Proof. by destruct mode. Qed.

Lemma loop_served fuel mode : ∀ i n ms, Forall (sendable mode) ms →
  String.length (foldr (λ m s, WriteMessage mode m +:+ s) "" ms) < fuel →
  let '(replies, n') := served i n ms in
  rpc_loop decode_rpc encode_reply fuel turns i mode session n (foldr (λ m s, WriteMessage mode m +:+ s) "" ms)
  = Some (n', framed mode replies).
Proof.
  induction fuel as [|fuel IH]; intros i n ms Hs Hf; [lia|]. destruct Hs as [|m ms Hm Hs].
  - cbn [served foldr rpc_loop]. destruct (negb _); [done|]. by rewrite ReadMessage_eof.
  - cbn [served foldr rpc_loop]. destruct (negb _); [done|]. cbn [foldr] in Hf.
    pose proof (ReadMessage_WriteMessage mode m (foldr (λ m s, WriteMessage mode m +:+ s) "" ms) Hm) as Hr.
    rewrite Hr. apply ReadMessage_consumes in Hr. destruct (handleMessage _ _ _ _ _) as [[reply []] n1].
    + specialize (IH (S i) n1 ms Hs). destruct (served (S i) n1 ms) as [replies n']. rewrite IH by lia. done.
    + cbn [framed foldr]. by rewrite str_app_nil_r.
Qed.
(** Exactly one of ok, data and one error. *)
Definition one_answer (r : rpcReply) : Prop :=
  (rp_Ok r = true ∧ rp_Data r = None ∧ rp_Errors r = []) ∨
  (rp_Ok r = false ∧ is_Some (rp_Data r) ∧ rp_Errors r = []) ∨
  (rp_Ok r = false ∧ rp_Data r = None ∧ ∃ e, rp_Errors r = [e]).

Lemma error_answer id tag path : one_answer (errorReply id tag path).
Proof. right. right. by eauto. Qed.
#[local] Hint Resolve error_answer : go.

Lemma error_from_answer id e : one_answer (errorReplyFrom id e) ∧ rp_MessageID (errorReplyFrom id e) = id.
Proof. unfold errorReplyFrom. destruct (AsError e) as [[]|]; (split; [auto with go|done]). Qed.

Lemma ok_or_error_answer id x : one_answer (ok_or_error id x) ∧ rp_MessageID (ok_or_error id x) = id.
Proof. destruct x; [|apply error_from_answer]. split; [by left|done]. Qed.

(** The messages after which a session ends. *)
Definition ends (rpc : incomingRPC) : Prop :=
  match ParseElement (ir_Body rpc).1 (ir_Body rpc).2 with Ok e => el_name e = "close-session" | Err _ => True end.

Lemma dispatch_answer t n rpc : let '(reply, close, _) := dispatch t session n rpc in
  one_answer reply ∧ rp_MessageID reply = ir_MessageID rpc ∧ (close = true ↔ ends rpc).
Proof.
  unfold dispatch, ends. destruct (ParseElement _ _) as [operation|]; [|split; [auto with go|done]].
  destruct (String.eqb_spec (el_name operation) "get-config") as [-> |].
  { destruct (GetConfig _ _ _ _) as [data|e]; [|pose proof (error_from_answer (ir_MessageID rpc) e); naive_solver].
    split; [right; left; cbn; by eauto|done]. }
  destruct (String.eqb_spec (el_name operation) "edit-config") as [-> |].
  { destruct (EditConfig _ _ _ _ _) as [x m]. pose proof (ok_or_error_answer (ir_MessageID rpc) x). naive_solver. }
  destruct (String.eqb_spec (el_name operation) "commit") as [-> |].
  { destruct (Commit_rpc _ _ _ _ _ _) as [x s]. pose proof (ok_or_error_answer (ir_MessageID rpc) x). naive_solver. }
  destruct (String.eqb_spec (el_name operation) "discard-changes") as [-> |].
  { destruct (DiscardChanges _ _ _) as [x s]. pose proof (ok_or_error_answer (ir_MessageID rpc) x). naive_solver. }
  destruct (String.eqb_spec (el_name operation) "create-subscription") as [-> |].
  { destruct (subscribe _ _ _) as [x s]. pose proof (ok_or_error_answer (ir_MessageID rpc) x). naive_solver. }
  destruct (String.eqb_spec (el_name operation) "close-session") as [-> |].
  { split; [by left|done]. }
  split; [auto with go|]. split; [done|]. naive_solver.
Qed.

(** A message and its reply; the session ends after it. *)
Definition answered (m : string) (r : rpcReply) : Prop :=
  one_answer r ∧ rp_MessageID r = match parseRPC (decode_rpc (TrimSpace m)) with inr rpc => ir_MessageID rpc | inl _ => "" end.
Definition final (m : string) : Prop :=
  match parseRPC (decode_rpc (TrimSpace m)) with inr rpc => ends rpc | inl _ => True end.

Lemma handle_answer t n m : let '(reply, continue, _) := handleMessage decode_rpc t session n (TrimSpace m) in
  answered m reply ∧ (continue = false ↔ final m).
Proof.
  unfold handleMessage, answered, final. destruct (parseRPC _) as [tag|rpc]; [split; [split; [auto with go|done]|done]|].
  pose proof (dispatch_answer t n rpc) as H. destruct (dispatch t session n rpc) as [[reply close] n'].
  destruct H as (H1 & H2 & H3). split; [done|]. rewrite <- H3. by destruct close.
Qed.

Lemma served_answers ms : (∀ i, tn_alive (turns i) = true) → ∀ i n, let replies := (served i n ms).1 in
  Forall2 answered (take (length replies) ms) replies ∧
  (length replies = length ms ∨ ∃ k m, length replies = S k ∧ ms !! k = Some m ∧ final m) ∧
  ∀ k m, S k < length replies → ms !! k = Some m → ¬ final m.
Proof.
  intros Halive. induction ms as [|m ms IH]; intros i n; cbv zeta; cbn [served].
  { split; [constructor|]. split; [by left|]. intros k m H. simpl in H. lia. }
  rewrite Halive. cbn [negb]. pose proof (handle_answer (turns i) (tn_others (turns i) n) m) as Ha.
  destruct (handleMessage _ _ _ _ _) as [[reply []] n1]; destruct Ha as [Ha Hf].
  - specialize (IH (S i) n1). destruct (served (S i) n1 ms) as [replies n']. cbn [fst] in *. destruct IH as (I1 & I2 & I3).
    split; [by constructor|]. split.
    + destruct I2 as [I2|(k & x & Hk & Hx & Hfx)]; [left; simpl; lia|]. right. exists (S k), x. simpl. rewrite Hk. done.
    + intros [|k] x Hk Hx; [|apply (I3 k x); [simpl in Hk; lia|done]]. injection Hx as <-. by rewrite <- Hf.
  - split; [constructor; [done|constructor]|]. split; [right; exists 0, m; split_and!; [done|done|by apply Hf]|].
    intros k x Hk. simpl in Hk. lia.
Qed.

(** C5: a session answers every message once, in order, in the negotiated framing. Whatever
    framing the client uses for its hello and whatever messages follow in the framing the
    hellos negotiate: the server writes its own hello in end-of-message framing and then,
    in the negotiated framing, the replies of the messages handled one after the other
    (with whatever other sessions do in between); each reply is exactly one of ok, data and
    one error and echoes the message-id; and the session goes on until a message that cannot
    be read or a close-session, which it answers before it ends. *)
Theorem session_answers n h0 fm client_hello client ms :
  encode_hello (serverHello session) = Some h0 →
  sendable fm client_hello → (fm = framingEOM → HasPrefix client_hello "<" = true) →
  parseHello (decode_hello (TrimSpace client_hello)) = Ok client →
  Forall (sendable (if chunked client then framingChunked else framingEOM)) ms →
  (∀ i, tn_alive (turns i) = true) →
  let mode := if chunked client then framingChunked else framingEOM in
  let replies := (served 0 n ms).1 in
  run decode_hello decode_rpc encode_hello encode_reply turns session n
    (WriteMessage fm client_hello +:+ foldr (λ m s, WriteMessage mode m +:+ s) "" ms)
  = Some ((served 0 n ms).2, WriteMessage framingEOM h0 +:+ framed mode replies) ∧
  Forall2 answered (take (length replies) ms) replies ∧
  (length replies = length ms ∨ ∃ k m, length replies = S k ∧ ms !! k = Some m ∧ final m) ∧
  ∀ k m, S k < length replies → ms !! k = Some m → ¬ final m.
Proof.
  intros Hh Hs Hp Hc Hms Halive. cbv zeta. split; [|by apply served_answers]. unfold run. rewrite Hh.
  rewrite (detect_framing fm client_hello _ Hp). cbn [mbind res_bind]. rewrite (ReadMessage_WriteMessage fm client_hello _ Hs).
  cbn [mbind res_bind]. rewrite Hc. cbn [mbind res_bind].
  pose proof (loop_served (S (String.length (foldr (λ m s, WriteMessage (if chunked client then framingChunked else framingEOM) m +:+ s) "" ms)))
    (if chunked client then framingChunked else framingEOM) 0 n ms Hms (le_n _)) as Hl.
  destruct (served 0 n ms) as [replies n']. rewrite Hl. done.
Qed.

(** A session terminates on every input: whatever bytes arrive and whatever they decode
    to, the hello exchange and the loop end with the input, and what was written starts with
    the hello of the server. *)
Theorem session_terminates n input h0 : encode_hello (serverHello session) = Some h0 →
  ∃ n' out, run decode_hello decode_rpc encode_hello encode_reply turns session n input = Some (n', WriteMessage framingEOM h0 +:+ out).
Proof.
  intros Hh. unfold run. rewrite Hh. destruct (_ ≫= _) as [[client rest]|e].
  - destruct (loop_total (S (String.length rest)) 0 (if chunked client then framingChunked else framingEOM) n rest) as (n' & out & ->); [lia|].
    cbn [mbind option_bind]. by eauto.
  - exists n, "". by rewrite str_app_nil_r.
Qed.
End properties.

(** A session that discards its changes and closes; the message after that is not read. *)
Definition demo_hello (text : string) : option helloMessage :=
  if String.eqb text "<hello/>" then Some (mkHelloMessage "hello" [CapabilityBase11] 0) else None.
Definition demo_rpc (text : string) : option incomingRPC :=
  if String.eqb text "<discard/>" then Some (mkRPC "rpc" "1" ([StartElement "" "discard-changes" []; EndElement "discard-changes"], None))
  else if String.eqb text "<close/>" then Some (mkRPC "rpc" "2" ([StartElement "" "close-session" []; EndElement "close-session"], None))
  else None.
Definition demo_reply (r : rpcReply) : option string := Some ("<reply " +:+ rp_MessageID r +:+ "/>").
Definition demo_turns (i : nat) : turn := mkTurn true true (Z.of_nat i) None id.
Definition demo_server : Server := mkNetconf default_router (new_server named_store (mkFS ∅ ∅)) (Some NewDispatcher).
Definition demo_messages : list string := ["<discard/>"; "<close/>"; "<discard/>"].

Lemma session_answers_witness :
  rp_MessageID <$> (served demo_rpc demo_turns 1 0 demo_server demo_messages).1 = ["1"; "2"] ∧
  run demo_hello demo_rpc (λ _, Some "<server/>") demo_reply demo_turns 1 demo_server
    (WriteMessage framingEOM "<hello/>" +:+ foldr (λ m s, WriteMessage framingChunked m +:+ s) "" demo_messages)
  = Some ((served demo_rpc demo_turns 1 0 demo_server demo_messages).2,
          WriteMessage framingEOM "<server/>" +:+ framed demo_reply framingChunked (served demo_rpc demo_turns 1 0 demo_server demo_messages).1).
Proof.
  split; [vm_compute; reflexivity|].
  refine (proj1 (session_answers demo_hello demo_rpc (λ _, Some "<server/>") demo_reply demo_turns 1 demo_server "<server/>"
    framingEOM "<hello/>" (mkHelloMessage "hello" [CapabilityBase11] 0) demo_messages eq_refl _ _ eq_refl _ _)).
  - by_decide.
  - reflexivity.
  - by_decide.
  - reflexivity.
Defined.

Lemma session_terminates_witness :
  ∃ n' out, run demo_hello demo_rpc (λ _, Some "<server/>") demo_reply demo_turns 1 demo_server "<hello/>]]>]]>#x"
            = Some (n', WriteMessage framingEOM "<server/>" +:+ out).
Proof.
  exact (session_terminates demo_hello demo_rpc (λ _, Some "<server/>") demo_reply demo_turns 1 demo_server "<hello/>]]>]]>#x" "<server/>" eq_refl).
Defined.

(** ** Errors *)

Lemma set_store_same s : set_store s (sv_mem s) (sv_fs s) = s.
Proof. by destruct s. Qed.

(** The configuration and what is known of the confirmed commit. *)
Definition same_config (s s' : server) : Prop :=
  sv_mem s' = sv_mem s ∧ sv_events s' = sv_events s ∧ same_core s s'.

Lemma same_config_refl s : same_config s s.
Proof. by repeat split. Qed.
#[local] Hint Resolve same_config_refl : go.

Lemma applyCommit_error s now ctx fault reason e s' : applyCommit s now ctx fault reason = (Err e, s') → same_config s s'.
Proof.
  unfold applyCommit. destruct (Commit _ _ _ _ _) as [[x m] fs] eqn:E.
  apply Commit_cases in E as [(e' & -> & -> & _)|(-> & _)]; [|done]. intros [= _ <-]. by repeat split.
Qed.

Lemma commit_error s now ctx fault session operation e s' :
  Commit_rpc s now ctx fault session operation = (Err e, s') → same_config s s'.
Proof.
  unfold Commit_rpc. destruct (parseCommit operation) as [params|e0]; [|intros [= _ <-]; auto with go].
  destruct (cp_confirmed params).
  - unfold commitConfirmed. destruct (Snapshot _ _) as [vs|]; [|intros [= _ <-]; auto with go].
    unfold Apply. destruct (match sv_pend s with Some _ => _ | None => _ end); [intros [= _ <-]; auto with go|].
    destruct (applyCommit _ _ _ _ _) as [x s1] eqn:E. destruct x as [|e1].
    + destruct (sv_pend s1); done.
    + intros [= _ <-]. by eapply applyCommit_error.
  - destruct (applyCommit _ _ _ _ _) as [x s1] eqn:E. destruct x as [|e1]; [done|]. intros [= _ <-]. by eapply applyCommit_error.
Qed.

Lemma discard_error s now ctx e s' : DiscardChanges s now ctx = (Err e, s') → same_config s s'.
Proof.
  unfold DiscardChanges, Rollback. destruct (ctx_err ctx); [done|]. intros [= _ <-]. by repeat split.
Qed.

Lemma edit_error root r m now ctx operation e m' : NewRouter root = Ok r →
  EditConfig r m now ctx operation = (Err e, m') → m' = m.
Proof.
  intros Hr. unfold EditConfig. destruct (_ ≫= _) as [[target req]|]; [|by intros [= _ <-]].
  destruct (Edit r m now ctx target req) as [x m1] eqn:E. pose proof (Edit_outcome _ _ _ _ _ _ _ _ _ Hr E) as H. clear Hr E.
  destruct x; [done|]. unfold fromDataTree. subst m1. by destruct (AsError _); intros [= _ <-].
Qed.

Lemma error_reply_inv id x : rp_Errors (ok_or_error id x) ≠ [] → ∃ e, x = Err e.
Proof. destruct x; [done|]. by eauto. Qed.

(** C14: an RPC that is answered with an error changes nothing. Whatever the operation, its
    parameters and the faults, if the reply carries an error, the three datastores, the
    published events and the state of the confirmed commit are as before. *)
Theorem rpc_error_atomic root t session n rpc reply close n' :
  NewRouter root = Ok (nc_router n) → dispatch t session n rpc = (reply, close, n') → rp_Errors reply ≠ [] →
  same_config (nc_state n) (nc_state n').
Proof.
  intros Hr. unfold dispatch. destruct (ParseElement _ _) as [operation|]; [|intros [= <- <- <-] _; auto with go].
  destruct (String.eqb _ "get-config").
  { destruct (GetConfig _ _ _ _); intros [= <- <- <-] _; auto with go. }
  destruct (String.eqb _ "edit-config").
  { destruct (EditConfig _ _ _ _ _) as [x m] eqn:E. intros [= <- <- <-] [e ->]%error_reply_inv.
    apply (edit_error root) in E; [|done]. rewrite E. cbn [with_state nc_state]. rewrite set_store_same. auto with go. }
  clear Hr. destruct (String.eqb _ "commit").
  { destruct (Commit_rpc _ _ _ _ _ _) as [x s] eqn:E. intros [= <- <- <-] [e ->]%error_reply_inv. by eapply commit_error. }
  destruct (String.eqb _ "discard-changes").
  { destruct (DiscardChanges _ _ _) as [x s] eqn:E. intros [= <- <- <-] [e ->]%error_reply_inv. by eapply discard_error. }
  destruct (String.eqb _ "create-subscription").
  { destruct (subscribe n session operation) as [x n1] eqn:E. intros [= <- <- <-] _.
    assert (nc_state n1 = nc_state n) as ->; [|auto with go]. revert E. unfold subscribe.
    destruct (nc_dispatcher n); [|by intros [= _ <-]]. destruct (ParseRequest operation); [|by intros [= _ <-]].
    destruct (Notif.Subscribe _ _ _) as [[] ?]; by intros [= _ <-]. }
  destruct (String.eqb _ "close-session"); intros [= <- <- <-] _; auto with go.
Qed.

(** An edit of an unknown node. *)
Definition bad_edit : incomingRPC :=
  mkRPC "rpc" "9" (MarshalXML (Elem "" "edit-config" [] ""
    [Elem "" "target" [] "" [NewElement "running"]; Elem "" "config" [] "" [NewElement "nowhere"]]), None).
Definition bad_result : rpcReply * bool * Server := dispatch (demo_turns 0) 1 demo_server bad_edit.

Lemma rpc_error_atomic_witness :
  re_Tag <$> rp_Errors bad_result.1.1 = [TagUnknownElement] ∧ same_config (nc_state demo_server) (nc_state bad_result.2).
Proof.
  assert (H : re_Tag <$> rp_Errors bad_result.1.1 = [TagUnknownElement]) by (vm_compute; reflexivity).
  split; [exact H|].
  refine (rpc_error_atomic DefaultDevice (demo_turns 0) 1 demo_server bad_edit bad_result.1.1 bad_result.1.2 bad_result.2
    default_router_built _ _).
  - change (dispatch (demo_turns 0) 1 demo_server bad_edit) with bad_result. destruct bad_result as [[? ?] ?]. reflexivity.
  - intros E. rewrite E in H. discriminate H.
Defined.
