(* ===== verification/Transport.v ===== *)
(** * The NETCONF server ([internal/netconf/ssh.go], [session.go])

    The server accepts connections, runs one goroutine per connection and one per session
    channel, and shuts down by closing what it has tracked and waiting for all of them.  A
    step of the machine is one critical section, one channel operation or one act of a
    client; each goroutine has a program counter, and a history is any interleaving.  A
    commit is several steps (snapshot, apply, confirm), and so is the end of a session
    (unsubscribe, release, rollback).  SSH itself is package [golang.org/x/crypto/ssh]: a
    handshake succeeds or fails, channels and requests arrive. *)

From S2P Require Import Prelude GoStrings GoFloat GoParse GoFormat GoValue Persist Store Clock Event Framing Path Model Reflect Reflected Hydrate Schema Oid Router Ops Confirmed Notif Datatree Edits Read Trees GetConfig Session.

(** ** Requests on a session channel *)

Definition SubsystemName : string := "netconf".

(** An SSH request; the payload is the subsystem name it decodes to. *)
Record sshRequest : Set := mkSSHRequest { sr_Type : string; sr_WantReply : bool; sr_Payload : option string }.

(** One turn of the loop of [handleSession]: the answer that is sent, and whether the
    session starts. *)
Definition answerRequest (req : sshRequest) : option bool * bool :=
  if negb (String.eqb (sr_Type req) "subsystem")
  then (if sr_WantReply req then Some false else None, false)
  else match sr_Payload req with
       | Some name => if String.eqb name SubsystemName then (Some true, true) else (Some false, false)
       | None => (Some false, false)
       end.

(** The requests of one channel: the answers, and whether a session was started.  After
    that every request that wants an answer is refused. *)
Fixpoint answerRequests (started : bool) (reqs : list sshRequest) : list bool * bool :=
  match reqs with
  | [] => ([], started)
  | req :: reqs =>
      let '(answer, start) :=
        if started then (if sr_WantReply req then Some false else None, true) else answerRequest req in
      let '(answers, started) := answerRequests start reqs in
      (option_list answer ++ answers, started)
  end.

(** ** State *)

Abbreviation conn_id := nat.
Abbreviation sess_key := nat.

(** Where a [handleConn] goroutine is: not yet tracked, in the handshake, in the channel
    loop, in its deferred closes, or before it untracks the connection. *)
Inductive conn_pc : Set := ConnAccepted | ConnHandshake | ConnServing | ConnClosing | ConnClosed.
Global Instance conn_pc_eq_dec : EqDecision conn_pc.
Proof. solve_decision. Defined.

(** Where a [handleSession] goroutine is: before the subsystem, between two messages, with
    the snapshot of a confirmed commit, between a plain commit and its confirmation, after
    [run], after the unsubscription, or with a rollback to run. *)
Inductive sess_pc : Set :=
  | SessWaiting
  | SessIdle (id : Z)
  | SessCommitting (id : Z) (req : commitRequest)
  | SessConfirming (id : Z)
  | SessLeaving (id : Z)
  | SessReleasing (id : Z)
  | SessReverting (snapshot : option values).

Inductive serve_phase : Set := NotServing | Accepting | Waiting | Served | ServeFailed.
Global Instance serve_phase_eq_dec : EqDecision serve_phase.
Proof. solve_decision. Defined.

(** [Server]: [tp_listener] is [None] before [Listen] and then tells whether it is open;
    [tp_conns] is the map of tracked connections, [tp_open] the connections neither side has
    closed, and [tp_ids] the history of the session ids. *)
Record Transport : Type := mkTransport {
  tp_netconf : Server;
  tp_listener : option bool;
  tp_closed : bool;
  tp_conns : gset conn_id;
  tp_counter : Z;
  tp_phase : serve_phase;
  tp_dispatching : bool;
  tp_accepted : nat;
  tp_open : gset conn_id;
  tp_handlers : gmap conn_id conn_pc;
  tp_sessions : gmap sess_key (conn_id * sess_pc);
  tp_ids : list Z;
}.

(** [New]; without a bus there is no dispatcher. *)
Definition NewTransport (n : Server) : Transport := mkTransport n None false ∅ 0 NotServing false 0 ∅ ∅ ∅ [].

Definition set_netconf (s : Transport) (n : Server) : Transport :=
  mkTransport n (tp_listener s) (tp_closed s) (tp_conns s) (tp_counter s) (tp_phase s) (tp_dispatching s)
    (tp_accepted s) (tp_open s) (tp_handlers s) (tp_sessions s) (tp_ids s).
Definition set_listener (s : Transport) (l : option bool) : Transport :=
  mkTransport (tp_netconf s) l (tp_closed s) (tp_conns s) (tp_counter s) (tp_phase s) (tp_dispatching s)
    (tp_accepted s) (tp_open s) (tp_handlers s) (tp_sessions s) (tp_ids s).
Definition set_phase (s : Transport) (p : serve_phase) (dispatching : bool) : Transport :=
  mkTransport (tp_netconf s) (tp_listener s) (tp_closed s) (tp_conns s) (tp_counter s) p dispatching
    (tp_accepted s) (tp_open s) (tp_handlers s) (tp_sessions s) (tp_ids s).
Definition set_handlers (s : Transport) (conns op : gset conn_id) (h : gmap conn_id conn_pc) : Transport :=
  mkTransport (tp_netconf s) (tp_listener s) (tp_closed s) conns (tp_counter s) (tp_phase s) (tp_dispatching s)
    (tp_accepted s) op h (tp_sessions s) (tp_ids s).
Definition set_sessions (s : Transport) (m : gmap sess_key (conn_id * sess_pc)) : Transport :=
  mkTransport (tp_netconf s) (tp_listener s) (tp_closed s) (tp_conns s) (tp_counter s) (tp_phase s) (tp_dispatching s)
    (tp_accepted s) (tp_open s) (tp_handlers s) m (tp_ids s).

(** ** Operations *)

(** [track]. *)
Definition track (s : Transport) (c : conn_id) (add : bool) : gset conn_id :=
  if add then {[c]} ∪ tp_conns s else tp_conns s ∖ {[c]}.

(** [Close]: the listener, every tracked connection, and the dispatcher; once. *)
Definition CloseServer (s : Transport) : Transport :=
  if tp_closed s then s
  else
    let n := tp_netconf s in
    let n := match nc_dispatcher n with Some d => with_dispatcher n (CloseDispatcher d) | None => n end in
    mkTransport n ((λ _, false) <$> tp_listener s) true (tp_conns s) (tp_counter s) (tp_phase s) (tp_dispatching s)
      (tp_accepted s) (tp_open s ∖ tp_conns s) (tp_handlers s) (tp_sessions s) (tp_ids s).

(** The start of [serveSubsystem]: the session gets its number. *)
Definition start_session (s : Transport) (k : sess_key) (c : conn_id) : Transport :=
  let id := nextSessionID (tp_counter s) in
  mkTransport (tp_netconf s) (tp_listener s) (tp_closed s) (tp_conns s) id (tp_phase s) (tp_dispatching s)
    (tp_accepted s) (tp_open s) (tp_handlers s) (<[k := (c, SessIdle id)]> (tp_sessions s)) (tp_ids s ++ [id]).

(** The first step of the <commit> handler. *)
Definition begin_commit (n : Server) (id : Z) (now : time) (ctx : context) (fault : option io_fault) (operation : Element)
    : sess_pc * Server :=
  match parseCommit operation with
  | Err _ => (SessIdle id, n)
  | Ok params =>
      if cp_confirmed params then
        match Snapshot (sv_mem (nc_state n)) ctx with
        | Err _ => (SessIdle id, n)
        | Ok snapshot => (SessCommitting id (mkRequest id (cp_timeout params) snapshot), n)
        end
      else
        let '(x, s) := applyCommit (nc_state n) now ctx fault "commit" in
        (if is_ok x then SessConfirming id else SessIdle id, with_state n s)
  end.

(** The critical section of [SessionEnded]: the rollback it decides is the session's to run. *)
Definition release (n : Server) (id : Z) : option values * Server :=
  let s := nc_state n in
  match sv_pend s with
  | Some p => if (pc_session p =? id)%Z
              then (Some (pc_rollback p), with_state n (set_rollbacks (SessionEnded s id) (sv_rollbacks s)))
              else (None, n)
  | None => (None, n)
  end.

(** ** Steps *)

Inductive tact : Type :=
  | TListen | TServe | TAccept | TAcceptClosed | TAcceptFailed | TWaited | TClose | TDispatcherDone
  | TTrack (c : conn_id) | THandshake (c : conn_id) | THandshakeBroken (c : conn_id) | THandshakeRefused (c : conn_id)
  | TChannel (c : conn_id) (k : sess_key) | TChannelsDone (c : conn_id) | TConnClose (c : conn_id) | TUntrack (c : conn_id)
  | TDisconnect (c : conn_id)
  | TRequest (k : sess_key) (req : sshRequest) | TRpc (k : sess_key) (t : turn) (rpc : incomingRPC)
  | TCommit (k : sess_key) (now : time) (ctx : context) (fault : option io_fault) (operation : Element)
  | TApply (k : sess_key) (now : time) (ctx : context) (fault : option io_fault)
  | TConfirm (k : sess_key) | TQuit (k : sess_key) | TBroken (k : sess_key)
  | TUnsubscribe (k : sess_key) | TRelease (k : sess_key) | TRevert (k : sess_key) (now : time) (fault : option io_fault)
  | TTimer (a : action).

(** What timers and the other management planes do to the state of the commits. *)
Definition outside (a : action) : bool :=
  match a with AExpire _ _ | AFire _ | ARollback _ _ _ | AStore _ => true | _ => false end.

Definition is_commit (rpc : incomingRPC) : bool :=
  match ParseElement (ir_Body rpc).1 (ir_Body rpc).2 with
  | Ok operation => String.eqb (el_name operation) "commit"
  | Err _ => false
  end.

(** The steps of a session; [None] for the session ends its goroutine. *)
Definition session_step (s : Transport) (c : conn_id) (pc : sess_pc) (a : tact) : option (option sess_pc * Server) :=
  let n := tp_netconf s in
  match a, pc with
  | TRpc _ t rpc, SessIdle id =>
      if is_commit rpc then None
      else let '(_, closes, n) := dispatch t id n rpc in Some (Some (if closes then SessLeaving id else SessIdle id), n)
  | TCommit _ now ctx fault operation, SessIdle id =>
      let '(pc, n) := begin_commit n id now ctx fault operation in Some (Some pc, n)
  | TApply _ now ctx fault, SessCommitting id req =>
      Some (Some (SessIdle id), with_state n (Apply (nc_state n) now ctx fault req).2)
  | TConfirm _, SessConfirming id => Some (Some (SessIdle id), with_state n (Confirm (nc_state n)))
  | TQuit _, SessWaiting => Some (None, n)
  | TQuit _, SessIdle id => Some (Some (SessLeaving id), n)
  | TBroken _, SessWaiting => if bool_decide (c ∈ tp_open s) then None else Some (None, n)
  | TBroken _, SessIdle id => if bool_decide (c ∈ tp_open s) then None else Some (Some (SessLeaving id), n)
  | TUnsubscribe _, SessLeaving id =>
      Some (Some (SessReleasing id),
            match nc_dispatcher n with Some d => with_dispatcher n (Notif.Unsubscribe d id) | None => n end)
  | TRelease _, SessReleasing id => let '(vs, n) := release n id in Some (Some (SessReverting vs), n)
  | TRevert _ now fault, SessReverting (Some vs) => Some (None, with_state n (runRollback (nc_state n) now fault vs).2)
  | TRevert _ now fault, SessReverting None => Some (None, n)
  | _, _ => None
  end.

Definition session_of (a : tact) : option sess_key :=
  match a with
  | TRpc k _ _ | TCommit k _ _ _ _ | TApply k _ _ _ | TConfirm k | TQuit k | TBroken k | TUnsubscribe k | TRelease k
  | TRevert k _ _ => Some k
  | _ => None
  end.

(** The steps of a connection: its next place; [None] untracks it and ends the goroutine. *)
Definition conn_step (s : Transport) (c : conn_id) (pc : conn_pc) (a : tact) : option (option conn_pc) :=
  match a, pc with
  | TTrack _, ConnAccepted => Some (Some ConnHandshake)
  | THandshake _, ConnHandshake => if bool_decide (c ∈ tp_open s) then Some (Some ConnServing) else None
  | THandshakeBroken _, ConnHandshake => if bool_decide (c ∈ tp_open s) then None else Some (Some ConnClosing)
  | THandshakeRefused _, ConnHandshake => Some (Some ConnClosing)
  | TChannelsDone _, ConnServing => if bool_decide (c ∈ tp_open s) then None else Some (Some ConnClosing)
  | TConnClose _, ConnClosing => Some (Some ConnClosed)
  | TUntrack _, ConnClosed => Some None
  | _, _ => None
  end.

Definition conn_of (a : tact) : option conn_id :=
  match a with
  | TTrack c | THandshake c | THandshakeBroken c | THandshakeRefused c | TChannelsDone c | TConnClose c | TUntrack c => Some c
  | _ => None
  end.

Definition update {K A} `{Countable K} (m : gmap K A) (k : K) (x : option A) : gmap K A :=
  match x with Some x => <[k := x]> m | None => delete k m end.

(** [None]: the step is not enabled. *)
Definition tstep (s : Transport) (a : tact) : option Transport :=
  match session_of a, conn_of a with
  | Some k, _ =>
      '(c, pc) ← tp_sessions s !! k;
      '(pc, n) ← session_step s c pc a;
      Some (set_netconf (set_sessions s (update (tp_sessions s) k (pair c <$> pc))) n)
  | None, Some c =>
      pc ← tp_handlers s !! c;
      next ← conn_step s c pc a;
      Some (set_handlers s
              (match pc with ConnAccepted => track s c true | ConnClosed => track s c false | _ => tp_conns s end)
              (match pc with ConnClosing => tp_open s ∖ {[c]} | _ => tp_open s end)
              (update (tp_handlers s) c next))
  | None, None =>
      match a with
      | TListen => match tp_listener s with None => Some (set_listener s (Some true)) | Some _ => None end
      | TServe =>
          match tp_phase s, tp_listener s with
          | NotServing, Some _ => Some (set_phase s Accepting (bool_decide (is_Some (nc_dispatcher (tp_netconf s)))))
          | NotServing, None => Some (set_phase s ServeFailed false)
          | _, _ => None
          end
      | TAccept =>
          match tp_phase s, tp_listener s with
          | Accepting, Some true =>
              let c := tp_accepted s in
              Some (mkTransport (tp_netconf s) (tp_listener s) (tp_closed s) (tp_conns s) (tp_counter s) (tp_phase s)
                      (tp_dispatching s) (S c) ({[c]} ∪ tp_open s) (<[c := ConnAccepted]> (tp_handlers s)) (tp_sessions s) (tp_ids s))
          | _, _ => None
          end
      | TAcceptClosed =>
          match tp_phase s, tp_listener s with
          | Accepting, Some false => Some (set_phase s Waiting (tp_dispatching s))
          | _, _ => None
          end
      | TAcceptFailed =>
          match tp_phase s with Accepting => Some (set_phase s ServeFailed (tp_dispatching s)) | _ => None end
      | TWaited =>
          match tp_phase s with
          | Waiting =>
              if bool_decide (tp_handlers s = ∅) && bool_decide (tp_sessions s = ∅) && negb (tp_dispatching s)
              then Some (set_phase (set_netconf s (with_state (tp_netconf s) (Confirmed.Close (nc_state (tp_netconf s))))) Served false)
              else None
          | _ => None
          end
      | TClose => Some (CloseServer s)
      | TDispatcherDone =>
          match nc_dispatcher (tp_netconf s) with
          | Some d => if tp_dispatching s && di_closed d then Some (set_phase s (tp_phase s) false) else None
          | None => None
          end
      | TChannel c k =>
          match tp_handlers s !! c, tp_sessions s !! k with
          | Some ConnServing, None =>
              if bool_decide (c ∈ tp_open s) then Some (set_sessions s (<[k := (c, SessWaiting)]> (tp_sessions s))) else None
          | _, _ => None
          end
      | TDisconnect c => Some (set_handlers s (tp_conns s) (tp_open s ∖ {[c]}) (tp_handlers s))
      | TRequest k req =>
          match tp_sessions s !! k with
          | Some (c, SessWaiting) => Some (if (answerRequest req).2 then start_session s k c else s)
          | _ => None
          end
      | TTimer a =>
          if outside a then
            st ← exec (nc_state (tp_netconf s)) a;
            Some (set_netconf s (with_state (tp_netconf s) st))
          else None
      | _ => None
      end
  end.

Fixpoint tsteps (s : Transport) (l : list tact) : option Transport :=
  match l with
  | [] => Some s
  | a :: l => s ← tstep s a; tsteps s l
  end.

Lemma tstep_session s a k c pc pc' n : session_of a = Some k → tp_sessions s !! k = Some (c, pc) →
  session_step s c pc a = Some (pc', n) →
  tstep s a = Some (set_netconf (set_sessions s (update (tp_sessions s) k (pair c <$> pc'))) n).
Proof. intros Ha Hk Hs. unfold tstep. rewrite Ha, Hk. cbn [mbind option_bind]. by rewrite Hs. Qed.

(** ** Who owns a pending commit *)

(** The session a goroutine still acts for. *)
Definition owner (pc : sess_pc) : option Z :=
  match pc with
  | SessIdle id | SessCommitting id _ | SessConfirming id | SessLeaving id | SessReleasing id => Some id
  | SessWaiting | SessReverting _ => None
  end.

Abbreviation pending_of n := (sv_pend (nc_state n)).

Lemma dispatch_pending t id n rpc : is_commit rpc = false → pending_of (dispatch t id n rpc).2 = pending_of n.
Proof.
  unfold is_commit, dispatch. destruct (ParseElement _ _) as [operation|]; [|done]. intros Hc. rewrite Hc.
  destruct (String.eqb _ "get-config"); [by destruct (GetConfig _ _ _ _)|].
  destruct (String.eqb _ "edit-config"); [by destruct (EditConfig _ _ _ _ _)|].
  destruct (String.eqb _ "discard-changes").
  { unfold DiscardChanges. by destruct (Rollback _ _ _) as [[]]. }
  destruct (String.eqb _ "create-subscription"); [|by destruct (String.eqb _ "close-session")].
  unfold subscribe. destruct (nc_dispatcher n) as [d|]; [|done]. destruct (ParseRequest operation); [|done].
  by destruct (Notif.Subscribe d id _) as [[]].
Qed.

(** What a step of a session can do to the pending commit: leave it, in a session that goes on
    owning it if it did, or make it its own. *)
Lemma session_step_pending s c pc a pc' n' : session_step s c pc a = Some (pc', n') →
  (∀ id req, pc = SessCommitting id req → rq_session req = id) →
  ∀ p, pending_of n' = Some p →
    (pc' ≫= owner = Some (pc_session p)) ∨
    (pending_of (tp_netconf s) = Some p ∧ (owner pc = Some (pc_session p) → pc' ≫= owner = Some (pc_session p))).
Proof.
  intros H Hreq p. destruct a, pc; try done; cbn [session_step] in H.
  - destruct (is_commit rpc) eqn:Hc; [done|]. pose proof (dispatch_pending t id (tp_netconf s) rpc Hc) as Hd.
    destruct (dispatch t id _ rpc) as [[? closes] n]. injection H as <- <-. cbn [snd] in Hd. rewrite Hd.
    intros Hp. right. split; [done|]. by destruct closes.
  - destruct (begin_commit _ _ _ _ _ _) as [pc n] eqn:E. injection H as <- <-. unfold begin_commit in E.
    destruct (parseCommit operation) as [params|]; [|injection E as <- <-; by right].
    destruct (cp_confirmed params); [destruct (Snapshot _ _); injection E as <- <-; by right|].
    destruct (applyCommit _ _ _ _ _) as [x st] eqn:Ea. apply applyCommit_core in Ea as [(_ & Ep & _) _].
    injection E as <- <-. cbn. rewrite Ep. intros Hp. right. split; [done|]. by destruct (is_ok x).
  - injection H as <- <-. cbn. destruct (Apply _ _ _ _ _) as [x st] eqn:E. cbn.
    apply Apply_cases in E as [(e & _ & _ & Ep & _)|[(d & q & _ & Hq & Hs & _ & Ep & _)|(d & _ & _ & _ & Ep & _)]];
      rewrite Ep; intros Hp.
    + by right.
    + right. injection Hp as ->. by split.
    + left. injection Hp as <-. cbn. f_equal. symmetry. by eapply Hreq.
  - injection H as <- <-. cbn. destruct (Confirm_cases (nc_state (tp_netconf s))) as [[Hn ->]|(q & _ & -> & _)]; [|done].
    by rewrite Hn.
  - injection H as <- <-. by right.
  - injection H as <- <-. by right.
  - destruct (bool_decide _); [done|]. injection H as <- <-. by right.
  - destruct (bool_decide _); [done|]. injection H as <- <-. by right.
  - injection H as <- <-. destruct (nc_dispatcher _); by right.
  - destruct (release _ _) as [vs n] eqn:E. injection H as <- <-. unfold release in E.
    destruct (pending_of (tp_netconf s)) as [q|] eqn:Hq; [|injection E as <- <-; by rewrite Hq].
    destruct (Z.eqb_spec (pc_session q) id) as [Hid|Hid]; injection E as <- <-.
    + cbn. unfold SessionEnded. rewrite Hq, (proj2 (Z.eqb_eq _ _) Hid). done.
    + rewrite Hq. intros [= ->]. right. split; [done|]. intros [= ->]. done.
  - destruct snapshot as [vs|]; injection H as <- <-; [|by right]. cbn.
    destruct (runRollback_core (nc_state (tp_netconf s)) now fault vs) as (_ & -> & _). by right.
Qed.

Lemma session_step_request s c pc a pc' n' id req : session_step s c pc a = Some (pc', n') →
  pc' = Some (SessCommitting id req) → rq_session req = id.
Proof.
  intros H ->. destruct a, pc; try done; cbn [session_step] in H; repeat case_match; try done; simplify_eq.
  unfold begin_commit in *. repeat case_match; simplify_eq; done.
Qed.

(** ** The invariant *)

Record transport_inv (s : Transport) : Prop := {
  ti_owner : ∀ p, pending_of (tp_netconf s) = Some p →
    ∃ k c pc, tp_sessions s !! k = Some (c, pc) ∧ owner pc = Some (pc_session p);
  ti_request : ∀ k c id req, tp_sessions s !! k = Some (c, SessCommitting id req) → rq_session req = id;
  ti_fresh : ∀ c, tp_accepted s ≤ c → tp_handlers s !! c = None ∧ c ∉ tp_open s;
  ti_conn : ∀ k c pc, tp_sessions s !! k = Some (c, pc) → c < tp_accepted s;
  ti_gone : ∀ c, tp_handlers s !! c = None ∨ tp_handlers s !! c = Some ConnClosed → c ∉ tp_open s;
  ti_served : tp_phase s = Served → tp_handlers s = ∅ ∧ tp_sessions s = ∅;
}.

Lemma transport_inv_new n : pending_of n = None → transport_inv (NewTransport n).
Proof. intros Hp. split; cbn; try done; try (by rewrite Hp); set_solver. Qed.

(** A session moves. *)
Lemma inv_session s k c pc pc' n a : transport_inv s → tp_sessions s !! k = Some (c, pc) →
  session_step s c pc a = Some (pc', n) →
  transport_inv (set_netconf (set_sessions s (update (tp_sessions s) k (pair c <$> pc'))) n).
Proof.
  intros [Ho Hr Hf Hc Hg Hs] Hk Hstep.
  assert (∀ k0 c0 pc0, update (tp_sessions s) k (pair c <$> pc') !! k0 = Some (c0, pc0) →
    tp_sessions s !! k0 = Some (c0, pc0) ∨ (c0 = c ∧ pc' = Some pc0)) as Hup.
  { intros k0 c0 pc0. destruct pc' as [pc1|]; cbn [fmap option_fmap option_map update].
    - rewrite lookup_insert_Some. intros [[_ [= <- <-]]|[_ H]]; auto.
    - intros [_ H]%lookup_delete_Some. auto. }
  split; cbn; try done.
  - intros p Hp. destruct (session_step_pending _ _ _ _ _ _ Hstep (λ id req E, Hr k c id req (eq_trans Hk (f_equal (Some ∘ pair c) E))) p Hp)
      as [Hown|[Hold Hown]].
    + destruct pc' as [pc1|]; [|done]. exists k, c, pc1. split; [apply lookup_insert_eq|done].
    + destruct (Ho p Hold) as (k0 & c0 & pc0 & Hk0 & Hown0). destruct (decide (k0 = k)) as [->|Hne].
      * rewrite Hk in Hk0. injection Hk0 as <- <-. specialize (Hown Hown0). destruct pc' as [pc1|]; [|done].
        exists k, c, pc1. split; [apply lookup_insert_eq|done].
      * exists k0, c0, pc0. split; [|done]. destruct pc' as [pc1|]; cbn; [by rewrite lookup_insert_ne|by rewrite lookup_delete_ne].
  - intros k0 c0 id req [H|[-> H]]%Hup; [by eapply Hr|by eapply session_step_request].
  - intros k0 c0 pc0 [H|[-> _]]%Hup; by eapply Hc.
  - intros Hph. destruct (Hs Hph) as [_ He]. by rewrite He, lookup_empty in Hk.
Qed.

(** A connection moves. *)
Lemma inv_conn s c pc next a conns : transport_inv s → tp_handlers s !! c = Some pc → conn_step s c pc a = Some next →
  transport_inv (set_handlers s conns (match pc with ConnClosing => tp_open s ∖ {[c]} | _ => tp_open s end)
    (update (tp_handlers s) c next)).
Proof.
  intros [Ho Hr Hf Hc Hg Hs] Hk Hstep.
  assert (match pc with ConnClosing => tp_open s ∖ {[c]} | _ => tp_open s end ⊆ tp_open s) as Hsub by (destruct pc; set_solver).
  assert (c < tp_accepted s) as Hlt.
  { destruct (decide (c < tp_accepted s)) as [|Hge]; [done|]. destruct (Hf c) as [Hn _]; [lia|congruence]. }
  assert (∀ c0, c0 ≠ c → update (tp_handlers s) c next !! c0 = tp_handlers s !! c0) as Hne.
  { intros c0 H. destruct next; cbn; [by rewrite lookup_insert_ne|by rewrite lookup_delete_ne]. }
  split; cbn; try done.
  - intros c0 Hc0. rewrite Hne by lia. destruct (Hf c0 Hc0). set_solver.
  - intros c0. destruct (decide (c0 = c)) as [->|H]; [|rewrite Hne by done; intros ?%Hg; set_solver].
    intros Hx. destruct a, pc; cbn in Hstep; try done; try destruct (bool_decide _); simplify_eq; cbn in Hx;
      rewrite ?lookup_insert_eq in Hx; try (by destruct Hx); set_solver.
  - intros Hph. destruct (Hs Hph) as [He _]. by rewrite He, lookup_empty in Hk.
Qed.

(** Timers and other planes do not make a commit pending. *)
Lemma exec_outside s a s' p : outside a = true → exec s a = Some s' → sv_pend s' = Some p → sv_pend s = Some p.
Proof.
  destruct a; try done; intros _; cbn [exec].
  - destruct (sv_timers s !! seq); [|done]. cbn. by destruct (_ <=? _)%Z; intros [= <-].
  - destruct (sv_fires s !! i) as [k|]; [|done]. cbn [mbind option_bind]. intros [= <-].
    destruct (fire_cases (set_fires s (remove_at i (sv_fires s))) k) as [[-> _]|(q & _ & _ & ->)]; done.
  - destruct (sv_rollbacks s !! i) as [vs|]; [|done]. cbn [mbind option_bind]. intros [= <-].
    destruct (runRollback_core (set_rollbacks s (remove_at i (sv_rollbacks s))) now fault vs) as (_ & -> & _). done.
  - destruct (after _ c). by intros [= <-].
Qed.

(** A session goroutine that owns nothing yet is started or moves on. *)
Lemma inv_enter s k c pc : transport_inv s → c < tp_accepted s → (∀ c0 pc0, tp_sessions s !! k = Some (c0, pc0) → owner pc0 = None) →
  (∀ id req, pc ≠ SessCommitting id req) → tp_phase s ≠ Served →
  transport_inv (set_sessions s (<[k := (c, pc)]> (tp_sessions s))).
Proof.
  intros [Ho Hr Hf Hc Hg Hs] Hlt Hnone Hpc Hph. split; cbn; try done.
  - intros p Hp. destruct (Ho p Hp) as (k0 & c0 & pc0 & Hk0 & Hown). exists k0, c0, pc0. split; [|done].
    rewrite lookup_insert_ne; [done|]. intros ->. by rewrite (Hnone _ _ Hk0) in Hown.
  - intros k0 c0 id req [[_ [= _ H]]|[_ H]]%lookup_insert_Some; [by destruct (Hpc id req)|by eapply Hr].
  - intros k0 c0 pc0 [[_ [= <- _]]|[_ H]]%lookup_insert_Some; [done|by eapply Hc].
Qed.

(** Every step keeps the invariant. *)
Lemma inv_tstep s a s' : transport_inv s → tstep s a = Some s' → transport_inv s'.
Proof.
  intros Hi. unfold tstep. destruct (session_of a) as [k|] eqn:Ek.
  { destruct (tp_sessions s !! k) as [[c pc]|] eqn:Hk; [|done]. cbn [mbind option_bind].
    destruct (session_step s c pc a) as [[pc' n]|] eqn:Hst; [|done]. intros [= <-]. by eapply inv_session. }
  destruct (conn_of a) as [c|] eqn:Ec.
  { destruct (tp_handlers s !! c) as [pc|] eqn:Hk; [|done]. cbn [mbind option_bind].
    destruct (conn_step s c pc a) as [next|] eqn:Hst; [|done]. intros [= <-]. by eapply inv_conn. }
  pose proof Hi as [Ho Hr Hf Hc Hg Hs]. destruct a; try done.
  - destruct (tp_listener s); [done|]. intros [= <-]. by split.
  - destruct (tp_phase s); try done. destruct (tp_listener s); intros [= <-]; by split.
  - destruct (tp_phase s) eqn:Hp; try done. destruct (tp_listener s) as [[]|]; try done. intros [= <-]. split; cbn; try done.
    + intros c Hle. destruct (Hf c) as [H1 H2]; [lia|]. rewrite lookup_insert_ne by lia. set_solver by lia.
    + intros k c pc H%Hc. lia.
    + intros c. destruct (decide (c = tp_accepted s)) as [->|Hne]; [rewrite lookup_insert_eq; by intros []|].
      rewrite lookup_insert_ne by done. intros ?%Hg. set_solver.
  - destruct (tp_phase s); try done. destruct (tp_listener s) as [[]|]; try done. intros [= <-]. by split.
  - destruct (tp_phase s); try done. intros [= <-]. by split.
  - destruct (tp_phase s); try done. destruct (bool_decide_reflect (tp_handlers s = ∅)) as [Hh|]; [|done].
    destruct (bool_decide_reflect (tp_sessions s = ∅)) as [Hss|]; [|done]. destruct (tp_dispatching s); [done|].
    intros [= <-]. split; cbn; try done. intros p. unfold Confirmed.Close.
    destruct (Confirm_cases (nc_state (tp_netconf s))) as [[Hn ->]|(q & _ & -> & _)]; [by rewrite Hn|done].
  - intros [= <-]. unfold CloseServer. destruct (tp_closed s); [by split|]. split; cbn; try done.
    + destruct (nc_dispatcher (tp_netconf s)); exact Ho.
    + intros c Hle. destruct (Hf c Hle). set_solver.
    + intros c ?%Hg. set_solver.
  - destruct (nc_dispatcher (tp_netconf s)); [|done]. destruct (_ && _); [|done]. intros [= <-]. by split.
  - destruct (tp_handlers s !! c) as [[]|] eqn:Hh; try done. destruct (tp_sessions s !! k) eqn:Hk; [done|].
    destruct (bool_decide _); [|done]. intros [= <-]. apply inv_enter; try done.
    + destruct (decide (c < tp_accepted s)) as [|Hge]; [done|]. destruct (ti_fresh s Hi c) as [Hn _]; [lia|congruence].
    + by intros c0 pc0; rewrite Hk.
    + intros Hph. destruct (ti_served s Hi Hph) as [He _]. by rewrite He, lookup_empty in Hh.
  - intros [= <-]. split; cbn; try done.
    + intros c0 Hle. destruct (Hf c0 Hle). set_solver.
    + intros c0 ?%Hg. set_solver.
  - destruct (tp_sessions s !! k) as [[c []]|] eqn:Hk; try done. intros [= <-]. destruct (_.2); [|done].
    pose proof (inv_enter s k c (SessIdle (nextSessionID (tp_counter s))) Hi) as [Ho1 Hr1 Hf1 Hc1 Hg1 Hs1]; [by eapply ti_conn|..|by split]; try done.
    + intros c0 pc0. rewrite Hk. by intros [= _ <-].
    + intros Hph. destruct (ti_served s Hi Hph) as [_ He]. by rewrite He, lookup_empty in Hk.
  - destruct (outside a) eqn:Ha; [|done]. destruct (exec _ a) as [st|] eqn:E; [|done]. intros [= <-].
    split; cbn; try done. intros p Hp. apply Ho. by eapply exec_outside.
Qed.

Lemma inv_tsteps l : ∀ s s', transport_inv s → tsteps s l = Some s' → transport_inv s'.
Proof.
  induction l as [|a l IH]; intros s s' Hi; cbn [tsteps]; [by intros [= <-]|].
  destruct (tstep s a) as [s1|] eqn:E; [|done]. cbn. apply IH. by eapply inv_tstep.
Qed.

(** ** Session numbers *)

Lemma tstep_ids s a s' : tstep s a = Some s' →
  (tp_counter s' = tp_counter s ∧ tp_ids s' = tp_ids s) ∨
  (∃ k c, s' = start_session s k c ∧ tp_sessions s !! k = Some (c, SessWaiting)).
Proof.
  unfold tstep. destruct (session_of a) as [k|].
  { destruct (tp_sessions s !! k) as [[c pc]|]; [|done]. cbn [mbind option_bind].
    destruct (session_step s c pc a) as [[pc' n]|]; [|done]. intros [= <-]. by left. }
  destruct (conn_of a) as [c|].
  { destruct (tp_handlers s !! c) as [pc|]; [|done]. cbn [mbind option_bind].
    destruct (conn_step s c pc a) as [next|]; [|done]. intros [= <-]. by left. }
  destruct a; try done; try (repeat case_match; try done; intros [= <-]; by left).
  - intros [= <-]. left. unfold CloseServer. by destruct (tp_closed s).
  - destruct (tp_sessions s !! k) as [[c []]|] eqn:Hk; try done. intros [= <-].
    destruct (_.2); [right; by exists k, c|by left].
  - destruct (outside a); [|done]. destruct (exec _ a); [|done]. intros [= <-]. by left.
Qed.

(** The owners of the sessions after a step. *)
Lemma tstep_owner s a s' k c' pc' id : tstep s a = Some s' → tp_sessions s' !! k = Some (c', pc') → owner pc' = Some id →
  (∃ c pc, tp_sessions s !! k = Some (c, pc) ∧ owner pc = Some id) ∨
  (s' = start_session s k c' ∧ id = tp_counter s').
Proof.
  intros Hst Hk Hown. revert Hst. unfold tstep. destruct (session_of a) as [k0|].
  { destruct (tp_sessions s !! k0) as [[c pc]|] eqn:Hk0; [|done]. cbn [mbind option_bind].
    destruct (session_step s c pc a) as [[pc0 n]|] eqn:Hs; [|done]. intros [= <-]. left. cbn in Hk.
    destruct (decide (k = k0)) as [->|Hne].
    - exists c, pc. split; [done|]. destruct pc0 as [pc0|]; cbn in Hk; [|by rewrite lookup_delete_eq in Hk].
      rewrite lookup_insert_eq in Hk. injection Hk as <- <-. revert Hs.
      destruct a, pc; try done; cbn [session_step]; repeat case_match; try done; intros; simplify_eq/=; try done.
      unfold begin_commit in *. repeat case_match; simplify_eq; done.
    - exists c', pc'. split; [|done]. destruct pc0 as [pc0|]; cbn in Hk; [by rewrite lookup_insert_ne in Hk|by rewrite lookup_delete_ne in Hk]. }
  destruct (conn_of a) as [c|].
  { destruct (tp_handlers s !! c) as [pc|]; [|done]. cbn [mbind option_bind].
    destruct (conn_step s c pc a) as [next|]; [|done]. intros [= <-]. left. by exists c', pc'. }
  destruct a; try done; try (repeat case_match; try done; intros [= <-]; left; by exists c', pc').
  - intros [= <-]. left. exists c', pc'. split; [|done]. revert Hk. unfold CloseServer. by destruct (tp_closed s).
  - destruct (tp_handlers s !! c) as [[]|]; try done. destruct (tp_sessions s !! k0) eqn:Hk0; [done|].
    destruct (bool_decide _); [|done]. intros [= <-]. cbn in Hk. apply lookup_insert_Some in Hk as [[_ [= _ <-]]|[_ Hk]]; [done|].
    left. by exists c', pc'.
  - destruct (tp_sessions s !! k0) as [[c []]|] eqn:Hk0; try done. intros [= <-]. destruct (_.2); [|left; by exists c', pc'].
    cbn in Hk. apply lookup_insert_Some in Hk as [[<- [= <- <-]]|[_ Hk]]; [|left; by exists c', pc'].
    right. split; [done|]. cbn in Hown. by injection Hown as <-.
  - destruct (outside a); [|done]. destruct (exec _ a); [|done]. intros [= <-]. left. by exists c', pc'.
Qed.

(** The numbers handed out are 1, 2, 3, ..., and every session acts for its own. *)
Record ids_inv (s : Transport) : Prop := {
  ii_counter : tp_counter s = Z.of_nat (length (tp_ids s));
  ii_ids : tp_ids s = Z.of_nat <$> seq 1 (length (tp_ids s));
  ii_owner : ∀ k c pc id, tp_sessions s !! k = Some (c, pc) → owner pc = Some id → (1 ≤ id ≤ tp_counter s)%Z;
  ii_distinct : ∀ k1 k2 c1 c2 pc1 pc2 id, tp_sessions s !! k1 = Some (c1, pc1) → tp_sessions s !! k2 = Some (c2, pc2) →
    owner pc1 = Some id → owner pc2 = Some id → k1 = k2;
}.

Lemma next_id n : (0 ≤ n < 2 ^ 32 - 1)%Z → nextSessionID n = (n + 1)%Z.
Proof.
  intros Hn. unfold nextSessionID, u32. rewrite Z.mod_small by lia. by destruct (Z.eqb_spec (n + 1) 0); [lia|].
Qed.

Lemma ids_tstep s a s' : ids_inv s → tstep s a = Some s' → (Z.of_nat (length (tp_ids s')) < 2 ^ 32)%Z → ids_inv s'.
Proof.
  intros [H1 H2 H3 H4] Hst Hlen.
  destruct (tstep_ids s a s' Hst) as [[E1 E2]|(k & c & -> & Hk)].
  - assert (∀ k c pc id, tp_sessions s' !! k = Some (c, pc) → owner pc = Some id →
      ∃ c0 pc0, tp_sessions s !! k = Some (c0, pc0) ∧ owner pc0 = Some id) as Hold.
    { intros k c pc id Hk Ho. destruct (tstep_owner _ _ _ _ _ _ _ Hst Hk Ho) as [H|[E _]]; [done|].
      exfalso. rewrite E in E2. cbn in E2. apply (f_equal length) in E2. rewrite length_app in E2. cbn in E2. lia. }
    split; rewrite ?E1, ?E2; try done.
    + intros k c pc id Hk Ho. destruct (Hold k c pc id Hk Ho) as (c0 & pc0 & Hk0 & Ho0). by eapply H3.
    + intros k1 k2 c1 c2 pc1 pc2 id Hk1 Hk2 Ho1 Ho2.
      destruct (Hold _ _ _ _ Hk1 Ho1) as (? & ? & ? & ?), (Hold _ _ _ _ Hk2 Ho2) as (? & ? & ? & ?). by eapply H4.
  - cbn in Hlen. rewrite length_app in Hlen. cbn in Hlen.
    assert (nextSessionID (tp_counter s) = tp_counter s + 1)%Z as En by (apply next_id; lia).
    split; cbn; rewrite ?En, ?length_app; cbn; try lia.
    + rewrite Nat.add_1_r, seq_S, fmap_app, <- H2. cbn. do 2 f_equal. lia.
    + intros k0 c0 pc0 id [[_ [= _ <-]]|[_ H]]%lookup_insert_Some; [intros [= <-]; lia|]. intros Ho. specialize (H3 _ _ _ _ H Ho). lia.
    + intros k1 k2 c1 c2 pc1 pc2 id [[<- [= _ <-]]|[Hn1 Hk1]]%lookup_insert_Some [[<- [= _ <-]]|[Hn2 Hk2]]%lookup_insert_Some; try done.
      * intros [= <-] Ho2. specialize (H3 _ _ _ _ Hk2 Ho2). lia.
      * intros Ho1 [= <-]. specialize (H3 _ _ _ _ Hk1 Ho1). lia.
      * by eapply H4.
Qed.

Lemma tstep_ids_grow s a s' : tstep s a = Some s' → length (tp_ids s) ≤ length (tp_ids s').
Proof.
  intros [[_ ->]|(k & c & -> & _)]%tstep_ids; [done|]. cbn. rewrite length_app. lia.
Qed.
Lemma tsteps_ids_grow l : ∀ s s', tsteps s l = Some s' → length (tp_ids s) ≤ length (tp_ids s').
Proof.
  induction l as [|a l IH]; intros s s'; cbn [tsteps]; [by intros [= <-]|].
  destruct (tstep s a) as [s1|] eqn:E; [|done]. cbn. intros ?%IH. apply tstep_ids_grow in E. lia.
Qed.

Lemma ids_tsteps l : ∀ s s', ids_inv s → tsteps s l = Some s' → (Z.of_nat (length (tp_ids s')) < 2 ^ 32)%Z → ids_inv s'.
Proof.
  induction l as [|a l IH]; intros s s' Hi; cbn [tsteps]; [by intros [= <-]|].
  destruct (tstep s a) as [s1|] eqn:E; [|done]. cbn. intros Hl Hlen. eapply IH; [|done|done].
  eapply ids_tstep; [done|done|]. pose proof (tsteps_ids_grow _ _ _ Hl). lia.
Qed.

Lemma ids_new n : ids_inv (NewTransport n).
Proof. split; cbn; try done; by intros; rewrite lookup_empty in *. Qed.

(** ** The end of a session *)

Lemma release_reverts s k c id p now fault : tp_sessions s !! k = Some (c, SessReleasing id) →
  pending_of (tp_netconf s) = Some p → pc_session p = id →
  ∃ s', tsteps s [TRelease k; TRevert k now fault] = Some s' ∧ tp_sessions s' = delete k (tp_sessions s) ∧
    pending_of (tp_netconf s') = None ∧
    let st := nc_state (tp_netconf s) in
    ((Restore (sv_mem st) now true (sv_fs st) fault (pc_rollback p)).1.1 = Ok tt →
     running (sv_mem (nc_state (tp_netconf s'))) = pc_rollback p ∧ startup (sv_mem (nc_state (tp_netconf s'))) = pc_rollback p).
Proof.
  intros Hk Hp Hid. cbn [tsteps].
  rewrite (tstep_session s (TRelease k) k c (SessReleasing id) (Some (SessReverting (Some (pc_rollback p))))
    (with_state (tp_netconf s) (set_rollbacks (SessionEnded (nc_state (tp_netconf s)) id) (sv_rollbacks (nc_state (tp_netconf s))))));
    [|done|done|cbn [session_step]; unfold release; by rewrite Hp, (proj2 (Z.eqb_eq _ _) Hid)].
  cbn [mbind option_bind]. erewrite tstep_session; [|done|cbn; apply lookup_insert_eq|reflexivity].
  cbn [mbind option_bind]. eexists. split; [reflexivity|].
  cbn [tp_sessions tp_netconf set_netconf set_sessions nc_state with_state fmap option_fmap option_map update snd].
  split; [by rewrite delete_insert_eq|].
  set (st := set_rollbacks _ _). split.
  - destruct (runRollback_core st now fault (pc_rollback p)) as (_ & -> & _). unfold st, SessionEnded. cbn.
    by rewrite Hp, (proj2 (Z.eqb_eq _ _) Hid).
  - assert (sv_mem st = sv_mem (nc_state (tp_netconf s)) ∧ sv_fs st = sv_fs (nc_state (tp_netconf s))) as [Em Ef].
    { unfold st, SessionEnded. by rewrite Hp, (proj2 (Z.eqb_eq _ _) Hid). }
    rewrite <- Em, <- Ef. intros Hok. destruct (runRollback st now fault (pc_rollback p)) as [x st'] eqn:E.
    assert (x = Ok tt) as ->.
    { revert E Hok. unfold runRollback. destruct (Restore _ _ _ _ _ _) as [[[[]|] m] fs]; [|done]. by intros [= <- _]. }
    by apply runRollback_ok in E as (? & ? & _).
Qed.


(** ** Shutdown *)

(** The steps the process takes by itself, without a client. *)
Definition own (a : tact) : bool :=
  match a with
  | TAcceptClosed | TWaited | TDispatcherDone | TTrack _ | THandshakeBroken _ | TChannelsDone _ | TConnClose _ | TUntrack _
  | TApply _ _ _ _ | TConfirm _ | TBroken _ | TUnsubscribe _ | TRelease _ | TRevert _ _ _ => true
  | _ => false
  end.

(** A run of such steps. *)
Definition alone (s s' : Transport) : Prop := ∃ l, tsteps s l = Some s' ∧ Forall (λ a, own a = true) l.

Lemma alone_refl s : alone s s.
Proof. by exists []. Qed.
Lemma alone_step s a s1 s' : own a = true → tstep s a = Some s1 → alone s1 s' → alone s s'.
Proof. intros Ha Hs (l & Hl & Ho). exists (a :: l). cbn [tsteps]. rewrite Hs. split; [done|by constructor]. Qed.
Lemma alone_trans s1 s2 s3 : alone s1 s2 → alone s2 s3 → alone s1 s3.
Proof.
  intros (l1 & H1 & O1) H23. revert s1 H1. induction O1 as [|a l1 Ha _ IH]; intros s1; cbn [tsteps]; [by intros [= ->]|].
  destruct (tstep s1 a) as [s|] eqn:E; [|done]. cbn. intros H%IH. by eapply alone_step.
Qed.

(** The server is shutting down: nothing is accepted any more and every connection that has
    a goroutine or a session is closed. *)
Record closing (s : Transport) : Prop := {
  cl_phase : (tp_phase s = Accepting ∧ tp_listener s = Some false) ∨ tp_phase s = Waiting;
  cl_handlers : ∀ c pc, tp_handlers s !! c = Some pc → c ∉ tp_open s;
  cl_sessions : ∀ k c pc, tp_sessions s !! k = Some (c, pc) → c ∉ tp_open s;
  cl_dispatcher : tp_dispatching s = true → ∃ d, nc_dispatcher (tp_netconf s) = Some d ∧ di_closed d = true;
}.

(** How far a session is from its end. *)
Definition sess_weight (pc : sess_pc) : nat :=
  match pc with
  | SessReverting _ => 1 | SessReleasing _ => 2 | SessLeaving _ => 3 | SessIdle _ => 4
  | SessCommitting _ _ | SessConfirming _ => 5 | SessWaiting => 1
  end.

(** Its next step is its own, and keeps the dispatcher closed. *)
Lemma session_proceeds s k c pc : tp_sessions s !! k = Some (c, pc) → c ∉ tp_open s →
  ∃ a pc' n, own a = true ∧ session_of a = Some k ∧ session_step s c pc a = Some (pc', n) ∧
    (pc' = None ∨ ∃ pc1, pc' = Some pc1 ∧ sess_weight pc1 < sess_weight pc) ∧
    ∀ d, nc_dispatcher (tp_netconf s) = Some d → ∃ d', nc_dispatcher n = Some d' ∧ di_closed d' = di_closed d.
Proof.
  intros Hk Hc. destruct pc as [|id|id req|id|id|id|[vs|]].
  - exists (TBroken k), None, (tp_netconf s). cbn [session_step]. rewrite bool_decide_false by done. split_and!; eauto.
  - exists (TBroken k), (Some (SessLeaving id)), (tp_netconf s). cbn [session_step]. rewrite bool_decide_false by done.
    split_and!; eauto.
  - exists (TApply k 0 true None). do 2 eexists. split_and!; [done|done|reflexivity| |by eauto].
    right. eexists. split; [done|]. cbn. lia.
  - exists (TConfirm k). do 2 eexists. split_and!; [done|done|reflexivity| |by eauto].
    right. eexists. split; [done|]. cbn. lia.
  - exists (TUnsubscribe k). do 2 eexists. split_and!; [done|done|reflexivity| |].
    + right. eexists. split; [done|]. cbn. lia.
    + intros d ->. eexists. split; [done|]. unfold Notif.Unsubscribe. by destruct (di_subs d !! id).
  - exists (TRelease k). cbn [session_step]. destruct (release (tp_netconf s) id) as [vs n] eqn:E. do 2 eexists.
    split_and!; [done|done|reflexivity| |].
    + right. eexists. split; [done|]. cbn. lia.
    + intros d Hd. exists d. split; [|done]. unfold release in E. repeat case_match; by simplify_eq.
  - exists (TRevert k 0 None). do 2 eexists. split_and!; [done|done|reflexivity|by left|by eauto].
  - exists (TRevert k 0 None). do 2 eexists. split_and!; [done|done|reflexivity|by left|by eauto].
Qed.

(** A session of a server that shuts down ends. *)
Lemma session_ends s k c pc : closing s → tp_sessions s !! k = Some (c, pc) →
  ∃ s', alone s s' ∧ closing s' ∧ tp_sessions s' = delete k (tp_sessions s) ∧ tp_handlers s' = tp_handlers s.
Proof.
  remember (sess_weight pc) as w eqn:Hw. revert s pc Hw. induction w as [w IH] using lt_wf_ind. intros s pc -> Hcl Hk.
  destruct (session_proceeds s k c pc Hk) as (a & pc' & n & Ha & Hsa & Hstep & Hnext & Hd); [by eapply cl_sessions|].
  pose proof (tstep_session s a k c pc pc' n Hsa Hk Hstep) as Hst. set (s1 := set_netconf _ n) in Hst.
  assert (closing s1) as Hcl1.
  { destruct Hcl as [H1 H2 H3 H4]. split; cbn; try done.
    - intros k0 c0 pc0. destruct pc' as [pc1|]; cbn.
      + rewrite lookup_insert_Some. intros [[_ [= <- _]]|[_ H]]; by eapply H3.
      + intros [_ H]%lookup_delete_Some. by eapply H3.
    - intros Hdis. destruct (H4 Hdis) as (d & Hd0 & Hc0). destruct (Hd d Hd0) as (d' & E1 & E2). exists d'. by rewrite E2. }
  destruct Hnext as [->|(pc1 & -> & Hlt)].
  - exists s1. split; [eapply alone_step; [done|done|apply alone_refl]|]. done.
  - destruct (IH _ Hlt s1 pc1 eq_refl Hcl1) as (s' & Hal & Hcl' & Es & Eh); [cbn; apply lookup_insert_eq|].
    exists s'. split; [by eapply alone_step|]. split; [done|]. rewrite Es, Eh. cbn. by rewrite delete_insert_eq.
Qed.

Lemma sessions_end s : closing s → ∃ s', alone s s' ∧ closing s' ∧ tp_sessions s' = ∅ ∧ tp_handlers s' = tp_handlers s.
Proof.
  remember (size (tp_sessions s)) as n eqn:Hn. revert s Hn. induction n as [n IH] using lt_wf_ind. intros s -> Hcl.
  destruct (decide (tp_sessions s = ∅)) as [He|(k & [c pc] & Hk)%map_choose]; [exists s; split; [apply alone_refl|done]|].
  destruct (session_ends s k c pc Hcl Hk) as (s1 & Hal & Hcl1 & Es & Eh).
  assert (size (tp_sessions s1) < size (tp_sessions s)) as Hlt.
  { rewrite Es, map_size_delete, Hk. assert (size (tp_sessions s) ≠ 0); [|lia].
    intros H0%map_size_empty_inv. by rewrite H0, lookup_empty in Hk. }
  destruct (IH _ Hlt s1 eq_refl Hcl1) as (s' & Hal' & Hcl' & Es' & Eh').
  exists s'. split; [by eapply alone_trans|]. by rewrite Eh'.
Qed.

Definition conn_weight (pc : conn_pc) : nat :=
  match pc with ConnAccepted => 5 | ConnHandshake => 4 | ConnServing => 3 | ConnClosing => 2 | ConnClosed => 1 end.

Lemma conn_proceeds s c pc : c ∉ tp_open s →
  ∃ a next, own a = true ∧ conn_of a = Some c ∧ session_of a = None ∧ conn_step s c pc a = Some next ∧
    (next = None ∨ ∃ pc1, next = Some pc1 ∧ conn_weight pc1 < conn_weight pc).
Proof.
  intros Hc. destruct pc.
  - exists (TTrack c), (Some ConnHandshake). split_and!; try done. right. eexists. split; [done|]. cbn. lia.
  - exists (THandshakeBroken c), (Some ConnClosing). cbn [conn_step]. rewrite bool_decide_false by done.
    split_and!; try done. right. eexists. split; [done|]. cbn. lia.
  - exists (TChannelsDone c), (Some ConnClosing). cbn [conn_step]. rewrite bool_decide_false by done.
    split_and!; try done. right. eexists. split; [done|]. cbn. lia.
  - exists (TConnClose c), (Some ConnClosed). split_and!; try done. right. eexists. split; [done|]. cbn. lia.
  - exists (TUntrack c), None. split_and!; try done. by left.
Qed.

Lemma conn_ends s c pc : closing s → tp_handlers s !! c = Some pc →
  ∃ s', alone s s' ∧ closing s' ∧ tp_handlers s' = delete c (tp_handlers s) ∧ tp_sessions s' = tp_sessions s.
Proof.
  remember (conn_weight pc) as w eqn:Hw. revert s pc Hw. induction w as [w IH] using lt_wf_ind. intros s pc -> Hcl Hk.
  destruct (conn_proceeds s c pc) as (a & next & Ha & Hca & Hsa & Hstep & Hnext); [by eapply cl_handlers|].
  assert (∃ s1, tstep s a = Some s1 ∧ tp_handlers s1 = update (tp_handlers s) c next ∧ tp_sessions s1 = tp_sessions s ∧ closing s1)
    as (s1 & Hst & Eh1 & Es1 & Hcl1).
  { eexists. split; [unfold tstep; rewrite Hsa, Hca, Hk; cbn [mbind option_bind]; rewrite Hstep; reflexivity|].
    split; [done|]. split; [done|]. destruct Hcl as [H1 H2 H3 H4].
    assert (match pc with ConnClosing => tp_open s ∖ {[c]} | _ => tp_open s end ⊆ tp_open s) as Hsub by (destruct pc; set_solver).
    split; cbn; try done.
    - intros c0 pc0. destruct next as [pc1|]; cbn.
      + rewrite lookup_insert_Some. intros [[<- _]|[_ H]]; [apply H2 in Hk|apply H2 in H]; set_solver.
      + intros [_ H]%lookup_delete_Some. apply H2 in H. set_solver.
    - intros k0 c0 pc0 H%H3. set_solver. }
  destruct Hnext as [->|(pc1 & -> & Hlt)].
  - exists s1. split; [eapply alone_step; [done|done|apply alone_refl]|]. by rewrite Eh1.
  - destruct (IH _ Hlt s1 pc1 eq_refl Hcl1) as (s' & Hal & Hcl' & Eh & Es); [rewrite Eh1; cbn; apply lookup_insert_eq|].
    exists s'. split; [by eapply alone_step|]. split; [done|]. rewrite Es, Eh, Eh1. cbn. by rewrite delete_insert_eq.
Qed.

Lemma conns_end s : closing s → ∃ s', alone s s' ∧ closing s' ∧ tp_handlers s' = ∅ ∧ tp_sessions s' = tp_sessions s.
Proof.
  remember (size (tp_handlers s)) as n eqn:Hn. revert s Hn. induction n as [n IH] using lt_wf_ind. intros s -> Hcl.
  destruct (decide (tp_handlers s = ∅)) as [He|(c & pc & Hk)%map_choose]; [exists s; split; [apply alone_refl|done]|].
  destruct (conn_ends s c pc Hcl Hk) as (s1 & Hal & Hcl1 & Eh & Es).
  assert (size (tp_handlers s1) < size (tp_handlers s)) as Hlt.
  { rewrite Eh, map_size_delete, Hk. assert (size (tp_handlers s) ≠ 0); [|lia].
    intros H0%map_size_empty_inv. by rewrite H0, lookup_empty in Hk. }
  destruct (IH _ Hlt s1 eq_refl Hcl1) as (s' & Hal' & Hcl' & Eh' & Es').
  exists s'. split; [by eapply alone_trans|]. by rewrite Es'.
Qed.

(** A server that shuts down returns from [Serve] by itself. *)
Lemma closing_serves s : closing s → ∃ s', alone s s' ∧ tp_phase s' = Served ∧ pending_of (tp_netconf s') = None.
Proof.
  intros Hcl. destruct (sessions_end s Hcl) as (s1 & A1 & C1 & Es1 & _).
  destruct (conns_end s1 C1) as (s2 & A2 & C2 & Eh2 & Es2). rewrite Es1 in Es2.
  assert (∃ s3, alone s2 s3 ∧ closing s3 ∧ tp_handlers s3 = ∅ ∧ tp_sessions s3 = ∅ ∧ tp_dispatching s3 = false) as (s3 & A3 & C3 & Eh3 & Es3 & Ed3).
  { destruct (tp_dispatching s2) eqn:Ed; [|exists s2; split; [apply alone_refl|done]].
    destruct (cl_dispatcher s2 C2 Ed) as (d & Hd & Hc). exists (set_phase s2 (tp_phase s2) false). split.
    - eapply (alone_step _ TDispatcherDone); [done| |apply alone_refl]. unfold tstep. cbn. by rewrite Hd, Ed, Hc.
    - destruct C2 as [H1 H2 H3 H4]. by split_and!. }
  assert (∃ s4, alone s3 s4 ∧ tp_phase s4 = Waiting ∧ tp_handlers s4 = ∅ ∧ tp_sessions s4 = ∅ ∧ tp_dispatching s4 = false)
    as (s4 & A4 & Ep4 & Eh4 & Es4 & Ed4).
  { destruct (cl_phase s3 C3) as [[Hp Hli]|Hp]; [|exists s3; split; [apply alone_refl|done]].
    exists (set_phase s3 Waiting (tp_dispatching s3)). split; [|done].
    eapply (alone_step _ TAcceptClosed); [done| |apply alone_refl]. unfold tstep. cbn. by rewrite Hp, Hli. }
  eexists. split.
  - eapply alone_trans; [exact A1|]. eapply alone_trans; [exact A2|]. eapply alone_trans; [exact A3|].
    eapply alone_trans; [exact A4|]. eapply (alone_step _ TWaited); [done| |apply alone_refl].
    unfold tstep. cbn. rewrite Ep4, Eh4, Es4, Ed4. cbn. reflexivity.
  - split; [done|]. cbn. unfold Confirmed.Close.
    destruct (Confirm_cases (nc_state (tp_netconf s4))) as [[Hn ->]|(q & _ & -> & _)]; done.
Qed.

(** What [Close] relies on. *)
Record shut_inv (s : Transport) : Prop := {
  si_tracked : ∀ c pc, tp_handlers s !! c = Some pc → pc ≠ ConnAccepted → c ∈ tp_conns s;
  si_listens : tp_phase s = Accepting → is_Some (tp_listener s);
  si_open : tp_closed s = false → tp_listener s ≠ Some false;
  si_dispatcher : tp_dispatching s = true → is_Some (nc_dispatcher (tp_netconf s));
}.

Lemma dispatch_dispatcher t id n rpc : is_Some (nc_dispatcher n) → is_Some (nc_dispatcher (dispatch t id n rpc).2).
Proof.
  intros Hd. unfold dispatch. destruct (ParseElement _ _) as [operation|]; [|done].
  destruct (String.eqb _ "get-config"); [by destruct (GetConfig _ _ _ _)|].
  destruct (String.eqb _ "edit-config"); [by destruct (EditConfig _ _ _ _ _)|].
  destruct (String.eqb _ "commit"); [by destruct (Commit_rpc _ _ _ _ _ _)|].
  destruct (String.eqb _ "discard-changes"); [by destruct (DiscardChanges _ _ _)|].
  destruct (String.eqb _ "create-subscription"); [|by destruct (String.eqb _ "close-session")].
  unfold subscribe. destruct (nc_dispatcher n) as [d|] eqn:Hn; [|by destruct Hd]. destruct (ParseRequest operation); [|simpl; rewrite Hn; by eexists].
  destruct (Notif.Subscribe d id _) as [[]]; by eexists.
Qed.

Lemma session_step_dispatcher s c pc a pc' n : session_step s c pc a = Some (pc', n) →
  is_Some (nc_dispatcher (tp_netconf s)) → is_Some (nc_dispatcher n).
Proof.
  intros H Hd. destruct a, pc; try done; cbn [session_step] in H.
  - destruct (is_commit rpc); [done|]. assert (is_Some (nc_dispatcher (dispatch t id (tp_netconf s) rpc).2)) as Hx.
    { by apply dispatch_dispatcher. }
    destruct (dispatch t id _ rpc) as [[? closes] m]. by injection H as <- <-.
  - destruct (begin_commit _ _ _ _ _ _) as [pc m] eqn:E. injection H as <- <-. unfold begin_commit in E.
    repeat case_match; by simplify_eq/=.
  - by injection H as <- <-.
  - by injection H as <- <-.
  - by injection H as <- <-.
  - by injection H as <- <-.
  - destruct (bool_decide _); [done|]. by injection H as <- <-.
  - destruct (bool_decide _); [done|]. by injection H as <- <-.
  - injection H as <- <-. by destruct (nc_dispatcher _).
  - destruct (release _ _) as [vs m] eqn:E. injection H as <- <-. unfold release in E. repeat case_match; by simplify_eq/=.
  - destruct snapshot as [vs|]; by injection H as <- <-.
Qed.

Lemma shut_tstep s a s' : shut_inv s → tstep s a = Some s' → shut_inv s'.
Proof.
  intros [H1 H2 H3 H4]. unfold tstep. destruct (session_of a) as [k|].
  { destruct (tp_sessions s !! k) as [[c pc]|]; [|done]. cbn [mbind option_bind].
    destruct (session_step s c pc a) as [[pc' n]|] eqn:E; [|done]. intros [= <-]. split; cbn; try done.
    intros Hd. by eapply session_step_dispatcher, H4. }
  destruct (conn_of a) as [c|] eqn:Ec.
  { destruct (tp_handlers s !! c) as [pc|] eqn:Hk; [|done]. cbn [mbind option_bind].
    destruct (conn_step s c pc a) as [next|] eqn:Hst; [|done]. intros [= <-]. split; cbn; try done.
    intros c0 pc0 H0 Hne. unfold track. destruct (decide (c0 = c)) as [->|Hc].
    - destruct a, pc; cbn in Hst; try done; try destruct (bool_decide _); simplify_eq; cbn in H0;
        rewrite ?lookup_delete_eq in H0; try done; try (eapply H1; [exact Hk|done]); set_solver.
    - assert (c0 ∈ tp_conns s) as Hin.
      { eapply H1; [|done]. destruct next; cbn in H0; [by rewrite lookup_insert_ne in H0|by rewrite lookup_delete_ne in H0]. }
      destruct pc; set_solver. }
  destruct a; try done.
  - destruct (tp_listener s) eqn:E; [done|]. intros [= <-]. by split.
  - destruct (tp_phase s) eqn:Ep; try done. destruct (tp_listener s) eqn:El; intros [= <-]; split; cbn; try done;
      first [by rewrite El|intros Hd; by apply bool_decide_eq_true in Hd].
  - destruct (tp_phase s); try done. destruct (tp_listener s) as [[]|]; try done. intros [= <-]. split; cbn; try done.
    intros c pc [[<- <-]|[_ H]]%lookup_insert_Some; [done|]. by apply H1.
  - destruct (tp_phase s); try done. destruct (tp_listener s) as [[]|] eqn:El; try done. intros [= <-]. split; cbn; try done.
    by rewrite El.
  - destruct (tp_phase s); try done. intros [= <-]. by split.
  - destruct (tp_phase s); try done. destruct (_ && _); [|done]. intros [= <-]. by split.
  - intros [= <-]. unfold CloseServer. destruct (tp_closed s) eqn:Hcl; [split; try done; by rewrite Hcl|]. split; cbn; try done.
    + intros Hp. destruct (H2 Hp) as [b ->]. by eexists.
    + intros Hd. destruct (H4 Hd) as [d ->]. by eexists.
  - destruct (nc_dispatcher (tp_netconf s)); [|done]. destruct (_ && _); [|done]. intros [= <-]. by split.
  - destruct (tp_handlers s !! c) as [[]|]; try done. destruct (tp_sessions s !! k); [done|].
    destruct (bool_decide _); [|done]. intros [= <-]. by split.
  - intros [= <-]. by split.
  - destruct (tp_sessions s !! k) as [[c []]|]; try done. intros [= <-]. destruct (_.2); by split.
  - destruct (outside a); [|done]. destruct (exec _ a); [|done]. intros [= <-]. by split.
Qed.

Lemma shut_new n : shut_inv (NewTransport n).
Proof. split; cbn; done. Qed.

Lemma shut_tsteps l : ∀ s s', shut_inv s → tsteps s l = Some s' → shut_inv s'.
Proof.
  induction l as [|a l IH]; intros s s' Hi; cbn [tsteps]; [by intros [= <-]|].
  destruct (tstep s a) as [s1|] eqn:E; [|done]. cbn. apply IH. by eapply shut_tstep.
Qed.

(** [Close] of a server that serves, with every connection tracked, starts the shutdown. *)
Lemma close_closing s : transport_inv s → shut_inv s → tp_phase s = Accepting → tp_closed s = false →
  (∀ c, tp_handlers s !! c ≠ Some ConnAccepted) → closing (CloseServer s).
Proof.
  intros Hi [H1 H2 H3 H4] Hp Hc Hna. unfold CloseServer. rewrite Hc.
  assert (∀ c pc, tp_handlers s !! c = Some pc → c ∉ tp_open s ∖ tp_conns s) as Hh.
  { intros c pc Hk. assert (c ∈ tp_conns s); [|set_solver]. eapply H1; [done|]. intros ->. by destruct (Hna c). }
  split; cbn.
  - left. split; [done|]. destruct (H2 Hp) as [b ->]. done.
  - exact Hh.
  - intros k c pc Hk. destruct (tp_handlers s !! c) as [pc0|] eqn:Ec; [by eapply Hh|].
    assert (c ∉ tp_open s); [|set_solver]. apply (ti_gone s Hi). by left.
  - intros Hd. destruct (H4 Hd) as [d ->]. exists (CloseDispatcher d). split; [done|]. unfold CloseDispatcher.
    by destruct (di_closed d) eqn:E.
Qed.


(** ** A connection that comes late *)

(** While a connection is open and its goroutine not on its way out, the process alone does
    not get out of [Serve]. *)
Definition held_up (c : conn_id) (s : Transport) : Prop :=
  c ∈ tp_open s ∧ ∃ pc, tp_handlers s !! c = Some pc ∧ pc ∈ [ConnAccepted; ConnHandshake; ConnServing].

Lemma held_up_step s a s' c : held_up c s → own a = true → tstep s a = Some s' → held_up c s' ∧ (tp_phase s' = Served → tp_phase s = Served).
Proof.
  intros [Ho (pc & Hk & Hpc)] Ha. unfold tstep. destruct (session_of a) as [k|] eqn:Es.
  { destruct (tp_sessions s !! k) as [[c0 pc0]|]; [|done]. cbn [mbind option_bind].
    destruct (session_step s c0 pc0 a) as [[pc' n]|]; [|done]. intros [= <-]. split; [|done]. split; [done|by exists pc]. }
  destruct (conn_of a) as [c0|] eqn:Ec.
  { destruct (tp_handlers s !! c0) as [pc0|] eqn:Hk0; [|done]. cbn [mbind option_bind].
    destruct (conn_step s c0 pc0 a) as [next|] eqn:Hst; [|done]. intros [= <-]. split; [|done]. unfold held_up. cbn.
    destruct (decide (c0 = c)) as [->|Hne].
    - rewrite Hk in Hk0. injection Hk0 as <-. destruct a; try done; destruct pc; cbn [conn_step] in Hst; try done;
        try (rewrite bool_decide_true in Hst by done; done); try set_solver.
      injection Hst as <-. split; [done|]. exists ConnHandshake. split; [apply lookup_insert_eq|set_solver].
    - split; [destruct pc0; set_solver|]. exists pc. split; [|done].
      destruct next; cbn; [by rewrite lookup_insert_ne|by rewrite lookup_delete_ne]. }
  destruct a; try done.
  - destruct (tp_phase s); try done. destruct (tp_listener s) as [[]|]; try done. intros [= <-]. split; [|done].
    split; [done|by exists pc].
  - destruct (tp_phase s); try done. destruct (bool_decide_reflect (tp_handlers s = ∅)) as [He|]; [|done].
    by rewrite He, lookup_empty in Hk.
  - destruct (nc_dispatcher (tp_netconf s)); [|done]. destruct (_ && _); [|done]. intros [= <-]. split; [|done].
    split; [done|by exists pc].
Qed.

Lemma held_up_steps c l : ∀ s s', held_up c s → Forall (λ a, own a = true) l → tsteps s l = Some s' →
  tp_phase s ≠ Served → tp_phase s' ≠ Served.
Proof.
  induction l as [|a l IH]; intros s s' Hh Ho; cbn [tsteps]; [by intros [= <-]|].
  apply Forall_cons in Ho as [Ha Ho]. destruct (tstep s a) as [s1|] eqn:E; [|done]. cbn. intros Hl Hp.
  destruct (held_up_step s a s1 c Hh Ha E) as [Hh1 Hp1]. apply (IH s1 s' Hh1 Ho Hl). auto.
Qed.

(** ** Runs *)

(** A client connects, starts a session and makes a confirmed commit of one edit. *)
Definition edited_server : Server := mkNetconf default_router (new_server demo_mem (mkFS ∅ ∅)) (Some NewDispatcher).
Definition confirmed_element : Element := Elem "" "commit" [] "" [Elem "" "confirmed" [] "" []].
Definition connected : list tact :=
  [TListen; TServe; TAccept; TTrack 0; THandshake 0; TChannel 0 0; TRequest 0 (mkSSHRequest "subsystem" true (Some "netconf"));
   TCommit 0 2 true None confirmed_element; TApply 0 3 true None].
Definition committed : Transport := default (NewTransport edited_server) (tsteps (NewTransport edited_server) connected).
Definition quitting : Transport :=
  default (NewTransport edited_server) (tsteps (NewTransport edited_server) (connected ++ [TQuit 0; TUnsubscribe 0])).

Lemma default_Some {A} (x : option A) d : (match x with Some _ => true | None => false end) = true → x = Some (default d x).
Proof. by destruct x. Qed.



(** Close misses a connection that has been accepted and not yet tracked: whatever the
    process then does by itself, Serve does not return. *)
Example late_connection_blocks :
  let s := tsteps (NewTransport edited_server) [TListen; TServe; TAccept; TClose; TTrack 0] in
  (tp_closed <$> s) = Some true ∧
  ∀ s0 l s', s = Some s0 → Forall (λ a, own a = true) l → tsteps s0 l = Some s' → tp_phase s' ≠ Served.
Proof.
  split; [vm_compute; reflexivity|]. intros s0 l s' Hs Ho Hl.
  assert (0 ∈ tp_open s0 ∧ tp_handlers s0 !! 0 = Some ConnHandshake ∧ tp_phase s0 = Accepting) as (H1 & H2 & H3).
  { assert ((λ s, bool_decide (0 ∈ tp_open s ∧ tp_handlers s !! 0 = Some ConnHandshake ∧ tp_phase s = Accepting))
      <$> tsteps (NewTransport edited_server) [TListen; TServe; TAccept; TClose; TTrack 0] = Some true) as H by (vm_compute; reflexivity).
    rewrite Hs in H. injection H as H%bool_decide_eq_true. done. }
  apply (held_up_steps 0 l s0 s'); [|done|done|by rewrite H3]. split; [done|]. exists ConnHandshake. split; [done|set_solver].
Qed.

(** The answers on a channel: anything but the subsystem is refused, the subsystem accepted
    once. *)
Example channel_requests :
  answerRequests false [mkSSHRequest "env" false None; mkSSHRequest "shell" true None; mkSSHRequest "subsystem" true (Some "sftp");
    mkSSHRequest "subsystem" true (Some "netconf"); mkSSHRequest "subsystem" true (Some "netconf")]
  = ([false; false; true; false], true).
Proof. reflexivity. Qed.
