(* ===== verification/Agent.v ===== *)
(** * The SNMP agent ([internal/snmp/agent.go], [oid.go])

    The agent answers v2c requests from the router's bindings: a sorted index serves GET,
    GETNEXT and GETBULK, and SET validates the proposed configuration binding by binding
    before one atomic write.  The packet codec is the gosnmp package: a request is its
    decoded packet and a response the packet it is given to encode.  INTEGER values are
    decoded as [int], Gauge32 as [uint], TimeTicks as [uint32], Counter64 as [uint64],
    OCTET STRING as bytes; the router treats [uint] and [uint64] alike. *)

From S2P Require Import Prelude GoStrings GoFloat GoValue GoNet Persist Store Path Model Reflect Reflected Hydrate Schema Oid Router Ops Datatree.

(** ** Packets *)

Definition DefaultCommunity : string := "public".
Definition maxBulkRepetitions : Z := 100.

Inductive PDUType : Set := GetRequest | GetNextRequest | GetBulkRequest | SetRequest | OtherPDU.
Global Instance PDUType_eq_dec : EqDecision PDUType.
Proof. solve_decision. Defined.

(** The value of a request binding. *)
Inductive pduValue : Set :=
  | PNil | PBool (b : bool) | PInt (z : Z) | PUint (z : Z) | PUint32 (z : Z) | PUint64 (z : Z)
  | PFloat (f : float64) | PString (s : string) | PBytes (s : string) | PUnsupported.
Record varbind : Set := mkVarbind { vb_Name : string; vb_Value : pduValue }.

Record packet : Set := mkPacket {
  pk_v2c : bool;
  pk_Community : string;
  pk_PDUType : PDUType;
  pk_RequestID : Z;
  pk_NonRepeaters : Z;
  pk_MaxRepetitions : Z;
  pk_Variables : list varbind;
}.

(** A response binding: its type and the value normalised for that type. *)
Inductive asn1 : Set :=
  | AInteger (z : Z) | AOctetString (s : snmpValue) | AObjectIdentifier (s : string) | AGauge32 (z : Z)
  | ACounter32 (z : Z) | ACounter64 (z : Z) | ATimeTicks (z : Z) | AOpaqueDouble (f : float64) | ANull
  | ANoSuchObject | AEndOfMibView.
Record pdu : Set := mkPDU { pd_Name : string; pd_Value : asn1 }.

Inductive SNMPError : Set :=
  NoError | GenErr | NoCreation | NotWritable | WrongType | WrongValue | InconsistentValue.
Global Instance SNMPError_eq_dec : EqDecision SNMPError.
Proof. solve_decision. Defined.

(** ** The index *)

Record pduIndex : Set := mkIndex { ix_bindings : list Binding; ix_byOID : gmap string Binding }.

Fixpoint insert_binding (b : Binding) (l : list Binding) : list Binding :=
  match l with
  | [] => [b]
  | x :: l =>
      match CompareOID (bi_OID b) (bi_OID x) with
      | Gt => x :: insert_binding b l
      | _ => b :: x :: l
      end
  end.
Definition sort_bindings (l : list Binding) : list Binding := foldr insert_binding [] l.

Definition newPDUIndex (bindings : list Binding) : pduIndex :=
  let sorted := sort_bindings bindings in
  mkIndex sorted (foldl (λ m b, <[bi_OID b := b]> m) ∅ sorted).

Definition trimOID (oid : string) : string := trim_dot oid.

Definition exact (x : pduIndex) (oid : string) : option Binding := ix_byOID x !! trimOID oid.

(** [sort.Search]: the half-open interval is halved until it is empty. *)
Fixpoint search (fuel : nat) (f : nat → bool) (i j : nat) : nat :=
  match fuel with
  | O => i
  | S fuel =>
      if Nat.ltb i j then
        let h := (i + j) / 2 in
        if f h then search fuel f i h else search fuel f (S h) j
      else i
  end.
Definition Search (n : nat) (f : nat → bool) : nat := search (S n) f 0 n.

Definition next (x : pduIndex) (oid : string) : option Binding :=
  let oid := trimOID oid in
  ix_bindings x !! Search (length (ix_bindings x)) (λ i,
    match ix_bindings x !! i with
    | Some b => bool_decide (CompareOID (bi_OID b) oid = Gt)
    | None => false
    end).

(** ** Values *)

Definition asInt (v : snmpValue) : option Z :=
  match v with
  | SVal (VInt z | VUint8 z | VUint16 z | VUint32 z) => Some z
  | SVal (VUint64 z) => Some (i64 z)
  | _ => None
  end.
Definition asUint32 (v : snmpValue) : option Z :=
  match v with
  | SVal (VUint8 z | VUint16 z | VUint32 z) => Some z
  | SVal (VUint64 z | VInt z) => Some (u32 z)
  | _ => None
  end.
Definition asUint64 (v : snmpValue) : option Z :=
  match v with
  | SVal (VUint8 z | VUint16 z | VUint32 z | VUint64 z) => Some z
  | SVal (VInt z) => Some (u64 z)
  | _ => None
  end.
Definition asFloat64 (v : snmpValue) : option float64 :=
  match v with
  | SVal (VFloat64 f) => Some f
  | SVal (VInt z | VUint32 z) => Some (F64.of_Z z)
  | _ => None
  end.
Definition asString (v : snmpValue) : option snmpValue :=
  match v with
  | SVal (VString s) => Some v
  | SOctets _ => Some v
  | _ => None
  end.

(** [toPDU] with [asn1Type]: a value that does not fit its type is sent as null. *)
Definition toPDU (b : Binding) : pdu :=
  mkPDU (bi_OID b)
    (default ANull
       match bi_Type b with
       | TypeInteger => AInteger <$> asInt (bi_Value b)
       | TypeGauge32 => AGauge32 <$> asUint32 (bi_Value b)
       | TypeCounter32 => ACounter32 <$> asUint32 (bi_Value b)
       | TypeTimeTicks => ATimeTicks <$> asUint32 (bi_Value b)
       | TypeCounter64 => ACounter64 <$> asUint64 (bi_Value b)
       | TypeOctetString => AOctetString <$> asString (bi_Value b)
       | TypeObjectID => match bi_Value b with SVal (VString s) => Some (AObjectIdentifier s) | _ => None end
       | TypeOpaqueDouble => AOpaqueDouble <$> asFloat64 (bi_Value b)
       end).

Definition exception (oid : string) (typ : asn1) : pdu := mkPDU (trimOID oid) typ.

(** [fromPDU]. *)
Definition fromPDU (v : pduValue) : option value :=
  match v with
  | PNil | PUnsupported => None
  | PBool b => Some (VBool b)
  | PInt z => Some (VInt z)
  | PUint z | PUint64 z => Some (VUint64 z)
  | PUint32 z => Some (VUint32 z)
  | PFloat f => Some (VFloat64 f)
  | PString s | PBytes s => Some (VString s)
  end.

(** ** Requests *)

Section agent.
Context (r : Router) (now : time) (ctx : context).

(** The body of an answer: the bindings, the status and the error index. *)
Abbreviation answer := (list pdu * SNMPError * Z)%type.

Definition next_pdu (ix : pduIndex) (oid : string) : pdu :=
  match next ix oid with Some b => toPDU b | None => exception oid AEndOfMibView end.
Definition exact_pdu (ix : pduIndex) (oid : string) : pdu :=
  match exact ix oid with Some b => toPDU b | None => exception oid ANoSuchObject end.

Definition get (ix : pduIndex) (req : packet) : answer :=
  ((λ v, exact_pdu ix (vb_Name v)) <$> pk_Variables req, NoError, 0%Z).

Definition getNext (ix : pduIndex) (req : packet) : answer :=
  ((λ v, next_pdu ix (vb_Name v)) <$> pk_Variables req, NoError, 0%Z).

(** One column of the repetition: its binding, its next cursor, and whether it ended. *)
Definition advance (ix : pduIndex) (c : string * bool) : pdu * (string * bool) :=
  let '(cursor, ended) := c in
  if ended then (exception cursor AEndOfMibView, c)
  else match next ix cursor with
       | None => (exception cursor AEndOfMibView, (cursor, true))
       | Some b => (toPDU b, (bi_OID b, false))
       end.

(** The repetitions; the loop stops after a row in which every column had ended. *)
Fixpoint repeat_rows (ix : pduIndex) (n : nat) (cols : list (string * bool)) : list pdu :=
  match n with
  | O => []
  | S n =>
      let row := advance ix <$> cols in
      row.*1 ++ (if forallb (λ c, snd (snd c)) row then [] else repeat_rows ix n row.*2)
  end.

Definition getBulk (ix : pduIndex) (req : packet) : answer :=
  let vars := vb_Name <$> pk_Variables req in
  let nonRepeaters := Nat.min (Z.to_nat (pk_NonRepeaters req)) (length vars) in
  let repetitions := Z.to_nat (Z.min (pk_MaxRepetitions req) maxBulkRepetitions) in
  ((next_pdu ix <$> take nonRepeaters vars) ++
   repeat_rows ix repetitions ((λ oid, (oid, false)) <$> drop nonRepeaters vars), NoError, 0%Z).

(** ** SET *)

(** The status of a conversion error. *)
Definition convert_status (e : error) : SNMPError :=
  if errors_is e RouterErrReadOnly then NotWritable
  else if errors_is e RouterErrTypeMismatch then WrongType
  else if errors_is e RouterErrBadValue then WrongValue
  else if errors_is e RouterErrNotFound then NoCreation
  else GenErr.

(** The loop over the bindings: [i] is the position, [proposed] and [changed] the two maps;
    a rejection carries its status and index. *)
Fixpoint set_loop (ix : pduIndex) (vars : list varbind) (i : Z) (proposed changed : values)
    : values + (SNMPError * Z) :=
  match vars with
  | [] => inl changed
  | v :: vars =>
      let reject status := inr (status, ((i + 1) mod 256)%Z) in
      match exact ix (vb_Name v) with
      | None => reject NoCreation
      | Some b =>
          if negb (bi_Writable b) || String.eqb (bi_Path b) "" then reject NotWritable
          else match fromPDU (vb_Value v) with
          | None => reject WrongType
          | Some x =>
              match Convert r (bi_Path b) x with
              | Err e => reject (convert_status e)
              | Ok result =>
                  let proposed := <[res_Path result := res_Value result]> proposed in
                  let changed := <[res_Path result := res_Value result]> changed in
                  match Router_Validate (r_root r) ctx proposed with
                  | Err _ => reject InconsistentValue
                  | Ok _ => set_loop ix vars (i + 1) proposed changed
                  end
              end
          end
      end
  end.

(** [runningSnapshot]. *)
Definition runningSnapshot (m : Memory) : res values :=
  results ← Router_Values r m ctx Running;
  Ok (list_to_map ((λ x, (x.1, res_Value x.2)) <$> results)).

(** [index], with the router's cache. *)
Definition index (cache : bindingCache) (m : Memory) : res pduIndex * bindingCache :=
  let '(x, cache) := Bindings r cache m m ctx Running in (bindings ← x; Ok (newPDUIndex bindings), cache).

(** [applySet] inside the router's transaction. *)
Definition applySet (cache : bindingCache) (m : Memory) (req : packet) : answer * bindingCache * Memory :=
  match runningSnapshot m with
  | Err _ => (([], GenErr, 0%Z), cache, m)
  | Ok proposed =>
      match index cache m with
      | (Err _, cache) => (([], GenErr, 0%Z), cache, m)
      | (Ok ix, cache) =>
          match set_loop ix (pk_Variables req) 0 proposed ∅ with
          | inr (status, i) => (([], status, i), cache, m)
          | inl changed =>
              match Router_Apply r m now ctx Running changed [] with
              | (Err _, m) => (([], GenErr, 0%Z), cache, m)
              | (Ok _, m) =>
                  match index cache m with
                  | (Err _, cache) => (([], GenErr, 0%Z), cache, m)
                  | (Ok ix, cache) => (get ix req, cache, m)
                  end
              end
          end
      end
  end.

(** [set]: a cancelled context fails the transaction. *)
Definition set (cache : bindingCache) (m : Memory) (req : packet) : answer * bindingCache * Memory :=
  match ctx_err ctx with
  | Err _ => (([], GenErr, 0%Z), cache, m)
  | Ok _ => applySet cache m req
  end.

(** [handle]: [None] drops the packet. *)
Definition handle (community : string) (cache : bindingCache) (m : Memory) (req : packet)
    : option (Z * answer) * bindingCache * Memory :=
  let read serve :=
    match index cache m with
    | (Err _, cache) => (Some (pk_RequestID req, ([], GenErr, 0%Z)), cache, m)
    | (Ok ix, cache) => (Some (pk_RequestID req, serve ix req), cache, m)
    end in
  if negb (pk_v2c req) || negb (String.eqb (pk_Community req) community) then (None, cache, m)
  else match pk_PDUType req with
  | GetRequest => read get
  | GetNextRequest => read getNext
  | GetBulkRequest => read getBulk
  | SetRequest => let '(a, cache, m) := set cache m req in (Some (pk_RequestID req, a), cache, m)
  | OtherPDU => (None, cache, m)
  end.
End agent.
