(* ===== verification/Walk.v ===== *)
(** * Properties of the SNMP agent ([internal/snmp/agent.go], [oid.go])

    The index answers GETNEXT by binary search; the properties relate it to the order of
    the OIDs' numbers, follow a client's whole walk through [handle], describe a GETBULK
    answer row by row, and state what a SET leaves in the store. *)

From S2P Require Import Prelude GoStrings GoFloat GoValue GoNet Persist Store Path Model Reflect Reflected Hydrate Schema Oid Router Snmp Ops Datatree Edits Agent.

(** ** Binary search *)

Lemma search_spec f n : (∀ i j, i ≤ j → j < n → f i = true → f j = true) → ∀ fuel i j,
  i ≤ j → j ≤ n → j - i < fuel → (∀ x, x < i → f x = false) → (∀ x, j ≤ x → x < n → f x = true) →
  let k := search fuel f i j in
  k ≤ n ∧ (∀ x, x < k → f x = false) ∧ (∀ x, k ≤ x → x < n → f x = true).
Proof.
  intros Hmono. induction fuel as [|fuel IH]; intros i j Hij Hjn Hf Hlo Hhi; [lia|]. cbn [search].
  destruct (Nat.ltb_spec i j) as [Hlt|Hge].
  - pose proof (Nat.Div0.div_le_mono (i + i) (i + j) 2 ltac:(lia)) as H1.
    pose proof (Nat.Div0.div_lt_upper_bound (i + j) 2 j ltac:(lia)) as H2.
    replace (i + i) with (i * 2) in H1 by lia. rewrite Nat.div_mul in H1 by lia.
    destruct (f ((i + j) / 2)) eqn:E; apply IH; try lia; try done.
    + intros x Hx Hxn. by eapply Hmono.
    + intros x Hx. destruct (f x) eqn:Ex; [|done]. rewrite (Hmono x ((i + j) / 2)) in E; [done|lia|lia|done].
  - replace j with i in * by lia. by split_and!.
Qed.

Lemma Search_spec n f : (∀ i j, i ≤ j → j < n → f i = true → f j = true) →
  Search n f ≤ n ∧ (∀ x, x < Search n f → f x = false) ∧ (∀ x, Search n f ≤ x → x < n → f x = true).
Proof. intros H. apply (search_spec f n H); lia. Qed.

(** ** The sorted index *)

Definition numeric_oid (s : string) : Prop := is_Some (oid_numbers s).
Definition numeric_binding (b : Binding) : Prop := numeric_oid (bi_OID b).
Definition oid_lt (a b : Binding) : Prop := CompareOID (bi_OID a) (bi_OID b) = Lt.
Definition binding_le (a b : Binding) : Prop := CompareOID (bi_OID a) (bi_OID b) ≠ Gt.

Lemma lex_lt_trans a b c : lex a b = Lt → lex b c ≠ Gt → lex a c = Lt.
Proof.
  revert b c. induction a as [|x a IH]; intros [|y b] [|z c]; simpl; try done.
  destruct (Z.compare_spec x y), (Z.compare_spec y z), (Z.compare_spec x z); try done; try lia.
  apply IH.
Qed.

Lemma lex_refl a : lex a a = Eq.
Proof. induction a as [|x a IH]; simpl; [done|]. by rewrite Z.compare_refl. Qed.

(** Order facts on numeric OIDs, by their numbers. *)
Ltac by_numbers :=
  repeat match goal with
  | H : numeric_oid ?s |- _ => let n := fresh "n" in destruct H as [n ?]
  | Ha : oid_numbers ?a = Some _, Hb : oid_numbers ?b = Some _ |- context [CompareOID ?a ?b] =>
      rewrite (CompareOID_lex a b _ _ Ha Hb)
  | Ha : oid_numbers ?a = Some _, Hb : oid_numbers ?b = Some _, H : context [CompareOID ?a ?b] |- _ =>
      rewrite (CompareOID_lex a b _ _ Ha Hb) in H
  end.

Lemma CompareOID_le_trans a b c : numeric_oid a → numeric_oid b → numeric_oid c →
  CompareOID a b ≠ Gt → CompareOID b c ≠ Gt → CompareOID a c ≠ Gt.
Proof. intros. by_numbers. by eapply lex_trans. Qed.

Lemma CompareOID_lt_le a b c : numeric_oid a → numeric_oid b → numeric_oid c →
  CompareOID a b = Lt → CompareOID b c ≠ Gt → CompareOID a c = Lt.
Proof. intros. by_numbers. by eapply lex_lt_trans. Qed.

Lemma CompareOID_opp a b : numeric_oid a → numeric_oid b → CompareOID b a = CompOpp (CompareOID a b).
Proof. intros. by_numbers. apply lex_antisym. Qed.

Lemma CompareOID_refl a : numeric_oid a → CompareOID a a = Eq.
Proof. intros [n H]. rewrite (CompareOID_lex _ _ _ _ H H). apply lex_refl. Qed.

Lemma insert_binding_perm b l : insert_binding b l ≡ₚ b :: l.
Proof. induction l as [|x l IH]; simpl; [done|]. destruct (CompareOID _ _); try done. rewrite IH. apply Permutation_swap. Qed.

Lemma sort_bindings_perm l : sort_bindings l ≡ₚ l.
Proof. induction l as [|b l IH]; simpl; [done|]. by rewrite insert_binding_perm, IH. Qed.

Lemma insert_binding_sorted b l : numeric_binding b → Forall numeric_binding l →
  StronglySorted binding_le l → StronglySorted binding_le (insert_binding b l).
Proof.
  intros Hb Hl Hs. induction Hs as [|x l Hs IH Hx]; simpl; [by repeat constructor|].
  apply Forall_cons in Hl as [Hnx Hl].
  assert (CompareOID (bi_OID b) (bi_OID x) ≠ Gt → StronglySorted binding_le (b :: x :: l)) as Hfront.
  { intros E. constructor; [by constructor|]. constructor; [done|]. rewrite Forall_forall in Hx, Hl |- *.
    intros y Hy. apply (CompareOID_le_trans _ (bi_OID x)); try done; [by apply Hl|by apply Hx]. }
  destruct (CompareOID (bi_OID b) (bi_OID x)) eqn:E; [by apply Hfront..|].
  constructor; [by apply IH|]. rewrite insert_binding_perm. constructor; [|done].
  unfold binding_le. by rewrite (CompareOID_opp (bi_OID b)), E.
Qed.

Lemma sort_bindings_sorted l : Forall numeric_binding l → StronglySorted binding_le (sort_bindings l).
Proof.
  induction 1 as [|b l Hb Hl IH]; simpl; [constructor|].
  apply insert_binding_sorted; [done| |done]. by rewrite sort_bindings_perm.
Qed.

(** [TrimPrefix] of a numeric OID changes nothing the comparison sees. *)
Lemma trim_dot_idem_numeric s : numeric_oid s → trim_dot (trim_dot s) = trim_dot s.
Proof.
  intros [n Hn]. unfold oid_numbers in Hn. unfold trim_dot at 1.
  destruct (HasPrefix (trim_dot s) ".") eqn:E; [|done]. exfalso.
  destruct (trim_dot s) as [|a t]; [done|]. change "." with (String "." "") in E. rewrite HasPrefix_head in E.
  apply Ascii.eqb_eq in E as <-. cbn [SplitByte Ascii.eqb] in Hn. done.
Qed.

Lemma CompareOID_trim a s : numeric_oid s → CompareOID a (trimOID s) = CompareOID a s.
Proof. intros H. unfold CompareOID, trimOID. by rewrite trim_dot_idem_numeric. Qed.

(** The bindings above an OID, in order: the reference [next] and the walks are compared with. *)
Definition above (x : pduIndex) (oid : string) : list Binding :=
  filter (λ b, CompareOID (bi_OID b) oid = Gt) (ix_bindings x).

Lemma filter_above (P : Binding → Prop) `{!∀ b, Decision (P b)} l k : k ≤ length l →
  (∀ i b, l !! i = Some b → i < k → ¬ P b) → (∀ i b, l !! i = Some b → k ≤ i → P b) → filter P l = drop k l.
Proof.
  revert k. induction l as [|b l IH]; intros k Hk H1 H2; [by destruct k|]. destruct k as [|k].
  - rewrite filter_cons_True by (by apply (H2 0)). simpl. f_equal. rewrite <- (drop_0 l) at 2. apply IH; [lia| |].
    + intros; lia.
    + intros i c Hi _. apply (H2 (S i)); [done|lia].
  - rewrite filter_cons_False by (apply (H1 0); [done|lia]). simpl. simpl in Hk. apply IH; [lia| |].
    + intros i c Hi Hlt. apply (H1 (S i)); [done|lia].
    + intros i c Hi Hle. apply (H2 (S i)); [done|lia].
Qed.

Lemma StronglySorted_filter {A} (R : A → A → Prop) (P : A → Prop) `{!∀ b, Decision (P b)} l :
  StronglySorted R l → StronglySorted R (filter P l).
Proof.
  induction 1 as [|b l _ IH Hb]; [constructor|]. rewrite filter_cons. case_decide; [|done].
  constructor; [done|]. rewrite Forall_forall in Hb |- *. intros c [_ Hc]%list_elem_of_filter. by apply Hb.
Qed.

Section walks.
Context (bs : list Binding) (Hbs : Forall numeric_binding bs).
Let ix := newPDUIndex bs.

Lemma index_bindings : ix_bindings ix = sort_bindings bs.
Proof. done. Qed.

Lemma sorted_numeric : Forall numeric_binding (sort_bindings bs).
Proof. by rewrite sort_bindings_perm. Qed.

(** The binary search finds the first binding above. *)
Lemma next_head oid : numeric_oid oid → next ix oid = head (above ix oid).
Proof.
  intros Ho. unfold next, above. rewrite index_bindings.
  set (l := sort_bindings bs). set (f := λ i, match l !! i with Some b => _ | None => _ end).
  assert (∀ b, CompareOID (bi_OID b) (trimOID oid) = CompareOID (bi_OID b) oid) as Ht by (intros; by apply CompareOID_trim).
  assert (∀ i b, l !! i = Some b → f i = bool_decide (CompareOID (bi_OID b) oid = Gt)) as Hf.
  { intros i b Hi. unfold f. by rewrite Hi, Ht. }
  assert (∀ i b, l !! i = Some b → numeric_binding b) as Hn.
  { intros i b Hi. pose proof sorted_numeric as H. rewrite Forall_forall in H. by eapply H, list_elem_of_lookup_2. }
  destruct (Search_spec (length l) f) as (Hk & Hlo & Hhi).
  { intros i j Hij Hj. destruct (lookup_lt_is_Some_2 l j Hj) as [b Hb].
    destruct (lookup_lt_is_Some_2 l i ltac:(lia)) as [a Ha]. rewrite (Hf _ _ Ha), (Hf _ _ Hb), !bool_decide_eq_true.
    destruct (decide (i = j)) as [->|Hne]; [by simplify_eq|]. intros Hgt.
    assert (binding_le a b) as Hab.
    { eapply (StronglySorted_app_1_elem_of binding_le (take j l) (drop j l)).
      - rewrite take_drop. by apply sort_bindings_sorted.
      - apply list_elem_of_lookup. exists i. rewrite lookup_take_Some. split; [done|lia].
      - apply list_elem_of_lookup. exists 0. by rewrite lookup_drop, Nat.add_0_r. }
    assert (CompareOID oid (bi_OID a) = Lt) as Hlt by (rewrite CompareOID_opp, Hgt; [done|by eapply Hn|done]).
    rewrite CompareOID_opp, (CompareOID_lt_le oid (bi_OID a) (bi_OID b)); try done; by eapply Hn. }
  fold f. rewrite (filter_above _ l (Search (length l) f)); [|done|..].
  - rewrite head_lookup, lookup_drop, Nat.add_0_r. done.
  - intros i b Hi Hlt. apply Hlo in Hlt. rewrite (Hf _ _ Hi) in Hlt. by apply bool_decide_eq_false in Hlt.
  - intros i b Hi Hle. assert (i < length l) by (by eapply lookup_lt_Some). specialize (Hhi i Hle ltac:(done)).
    rewrite (Hf _ _ Hi) in Hhi. by apply bool_decide_eq_true in Hhi.
Qed.

(** The successive answers of [next], at most [fuel] of them. *)
Fixpoint successors (x : pduIndex) (fuel : nat) (oid : string) : list Binding :=
  match fuel with
  | O => []
  | S fuel => match next x oid with Some b => b :: successors x fuel (bi_OID b) | None => [] end
  end.

Lemma elem_of_above b oid : b ∈ above ix oid ↔ b ∈ bs ∧ CompareOID (bi_OID b) oid = Gt.
Proof. unfold above. rewrite list_elem_of_filter, index_bindings, sort_bindings_perm. tauto. Qed.

Lemma above_numeric b oid : b ∈ above ix oid → numeric_binding b.
Proof. intros [Hb _]%elem_of_above. rewrite Forall_forall in Hbs. by apply Hbs. Qed.

Lemma filter_shrinks (P Q : Binding → Prop) `{!∀ b, Decision (P b), !∀ b, Decision (Q b)} l b :
  (∀ c, c ∈ l → P c → Q c) → b ∈ l → Q b → ¬ P b → length (filter P l) < length (filter Q l).
Proof.
  intros Himp Hb HQ HP.
  assert (∀ k, (∀ c, c ∈ k → P c → Q c) → length (filter P k) ≤ length (filter Q k)) as Hle.
  { induction k as [|c k IH]; intros Hk; [done|]. specialize (IH ltac:(set_solver)).
    rewrite !filter_cons. pose proof (Hk c ltac:(set_solver)).
    destruct (decide (P c)), (decide (Q c)); simpl; try lia. naive_solver. }
  apply list_elem_of_split in Hb as (l1 & l2 & ->). rewrite !filter_app, !length_app.
  rewrite filter_cons_False, filter_cons_True by done. simpl.
  pose proof (Hle l1 ltac:(set_solver)). pose proof (Hle l2 ltac:(set_solver)). lia.
Qed.

(** [next] gives a least binding above. *)
Lemma next_least oid b : numeric_oid oid → next ix oid = Some b →
  b ∈ bs ∧ CompareOID (bi_OID b) oid = Gt ∧ numeric_binding b ∧
  (∀ c, c ∈ bs → CompareOID (bi_OID c) oid = Gt → binding_le b c).
Proof.
  intros Ho. rewrite next_head by done. destruct (above ix oid) as [|b' t] eqn:E; [done|]. intros [= ->].
  assert (b ∈ above ix oid) as Hb by (rewrite E; apply list_elem_of_here).
  pose proof (above_numeric _ _ Hb) as Hn. destruct (proj1 (elem_of_above _ _) Hb). split_and!; try done.
  intros c Hc Hgt. assert (c ∈ b :: t) as Hct by (rewrite <- E; by apply elem_of_above).
  assert (StronglySorted binding_le (b :: t)) as Hs.
  { rewrite <- E. unfold above. apply StronglySorted_filter. by apply sort_bindings_sorted. }
  apply elem_of_cons in Hct as [->|Hct]; [unfold binding_le; by rewrite CompareOID_refl|].
  apply StronglySorted_inv in Hs as [_ Hs]. rewrite Forall_forall in Hs. by apply Hs.
Qed.

Lemma next_none oid : numeric_oid oid → next ix oid = None → ∀ c, c ∈ bs → CompareOID (bi_OID c) oid ≠ Gt.
Proof.
  intros Ho. rewrite next_head by done. destruct (above ix oid) as [|b t] eqn:E; [|done]. intros _ c Hc Hgt.
  assert (c ∈ above ix oid) as H by (by apply elem_of_above). rewrite E in H. by apply elem_of_nil in H.
Qed.

Lemma above_shrinks oid b : numeric_oid oid → next ix oid = Some b →
  length (above ix (bi_OID b)) < length (above ix oid).
Proof.
  intros Ho Hb. destruct (next_least _ _ Ho Hb) as (Hin & Hgt & Hn & _).
  apply (filter_shrinks _ _ _ b); [|by rewrite index_bindings, sort_bindings_perm|done|by rewrite CompareOID_refl].
  intros c Hc Hcb. rewrite index_bindings, sort_bindings_perm in Hc.
  assert (numeric_binding c) by (rewrite Forall_forall in Hbs; by apply Hbs).
  assert (CompareOID oid (bi_OID b) = Lt) as H1 by (by rewrite CompareOID_opp, Hgt).
  assert (CompareOID (bi_OID b) (bi_OID c) = Lt) as H2 by (by rewrite CompareOID_opp, Hcb).
  rewrite CompareOID_opp, (CompareOID_lt_le oid (bi_OID b)); try done. by rewrite H2.
Qed.

(** The OID a walk stands at after the bindings [w]. *)
Definition cursor (oid : string) (w : list Binding) : string := default oid (bi_OID <$> last w).

Lemma cursor_cons oid b w : cursor oid (b :: w) = cursor (bi_OID b) w.
Proof. unfold cursor. rewrite last_cons. by destruct (last w). Qed.

Lemma successors_spec fuel : ∀ oid, numeric_oid oid → length (above ix oid) ≤ fuel →
  let w := successors ix fuel oid in
  StronglySorted oid_lt w ∧
  Forall (λ b, b ∈ bs ∧ CompareOID (bi_OID b) oid = Gt) w ∧
  (∀ b, b ∈ bs → CompareOID (bi_OID b) oid = Gt →
     ∃ b', b' ∈ w ∧ oid_numbers (bi_OID b') = oid_numbers (bi_OID b)) ∧
  next ix (cursor oid w) = None ∧ length w ≤ length (above ix oid).
Proof.
  induction fuel as [|fuel IH]; intros oid Ho Hf w; subst w; cbn [successors].
  - assert (above ix oid = []) as E by (destruct (above ix oid); simpl in *; [done|lia]).
    split_and!; [apply SSorted_nil|apply Forall_nil_2| | |simpl; lia].
    + intros b Hb Hgt. assert (b ∈ above ix oid) as H by (by apply elem_of_above). rewrite E in H. by apply elem_of_nil in H.
    + unfold cursor. simpl. by rewrite next_head, E.
  - destruct (next ix oid) as [b|] eqn:E.
    + destruct (next_least _ _ Ho E) as (Hin & Hgt & Hn & Hmin). pose proof (above_shrinks _ _ Ho E) as Hlt.
      destruct (IH (bi_OID b) Hn ltac:(lia)) as (Hs & Hall & Hcov & Hend & Hlen).
      assert (∀ c, c ∈ bs → numeric_binding c) as Hnum by (by apply Forall_forall).
      assert (CompareOID oid (bi_OID b) = Lt) as Hob by (by rewrite CompareOID_opp, Hgt).
      split_and!.
      * constructor; [done|]. eapply Forall_impl; [exact Hall|]. intros c [Hc Hcb]. unfold oid_lt.
        rewrite (CompareOID_opp (bi_OID c)), Hcb; try done. by apply Hnum.
      * constructor; [done|]. eapply Forall_impl; [exact Hall|]. intros c [Hc Hcb]. split; [done|].
        rewrite (CompareOID_opp oid), (CompareOID_lt_le oid (bi_OID b)); try done; try by apply Hnum.
        rewrite (CompareOID_opp (bi_OID c)), Hcb; try done. by apply Hnum.
      * intros c Hc Hco. specialize (Hmin c Hc Hco). unfold binding_le in Hmin.
        destruct (CompareOID (bi_OID b) (bi_OID c)) eqn:Ebc; [| |done].
        -- exists b. split; [apply list_elem_of_here|]. pose proof (Hnum c Hc) as Hnc. unfold numeric_binding in *.
           by_numbers. apply lex_eq in Ebc. congruence.
        -- destruct (Hcov c Hc) as (b' & Hb' & Heq).
           { rewrite CompareOID_opp, Ebc; try done. by apply Hnum. }
           exists b'. split; [by apply list_elem_of_further|done].
      * by rewrite cursor_cons.
      * simpl. lia.
    + split_and!; [apply SSorted_nil|apply Forall_nil_2| | |simpl; lia].
      * intros b Hb Hgt. by apply (next_none _ Ho E) in Hb.
      * done.
Qed.

Definition walk_of (oid : string) : list Binding := successors ix (length bs) oid.

Lemma above_length oid : length (above ix oid) ≤ length bs.
Proof. unfold above. rewrite index_bindings, length_filter. by rewrite sort_bindings_perm. Qed.

Lemma successors_next fuel : ∀ oid i, numeric_oid oid → length (above ix oid) ≤ fuel →
  next ix (cursor oid (take i (successors ix fuel oid))) = successors ix fuel oid !! i.
Proof.
  induction fuel as [|fuel IH]; intros oid i Ho Hf.
  - destruct (successors_spec 0 oid Ho Hf) as (_ & _ & _ & H & _). by destruct i.
  - cbn [successors]. destruct (next ix oid) as [b|] eqn:E; [|by destruct i]. destruct i as [|i]; [done|]. cbn [take].
    rewrite cursor_cons. destruct (next_least _ _ Ho E) as (_ & _ & Hn & _). pose proof (above_shrinks _ _ Ho E).
    apply IH; [done|lia].
Qed.

(** ** GETBULK *)

(** Row [i] of a column, and the column's state before row [i]. *)
Definition cell (i : nat) (oid : string) : pdu :=
  match walk_of oid !! i with Some b => toPDU b | None => exception (cursor oid (walk_of oid)) AEndOfMibView end.
Definition column (i : nat) (oid : string) : string * bool :=
  (cursor oid (take i (walk_of oid)), negb (i <=? length (walk_of oid))).

Lemma advance_column i oid : numeric_oid oid → advance ix (column i oid) = (cell i oid, column (S i) oid).
Proof.
  intros Ho. unfold advance, column, cell. destruct (Nat.leb_spec i (length (walk_of oid))) as [Hi|Hi]; cbn [negb].
  - unfold walk_of at 1. rewrite successors_next; [|done|apply above_length]. fold (walk_of oid).
    destruct (walk_of oid !! i) as [b|] eqn:E.
    + pose proof (lookup_lt_Some _ _ _ E). destruct (Nat.leb_spec (S i) (length (walk_of oid))); [|lia].
      rewrite (take_S_r _ _ _ E). unfold cursor. by rewrite last_snoc.
    + apply lookup_ge_None in E. destruct (Nat.leb_spec (S i) (length (walk_of oid))); [lia|].
      by rewrite !take_ge by lia.
  - rewrite lookup_ge_None_2 by lia. destruct (Nat.leb_spec (S i) (length (walk_of oid))); [lia|].
    by rewrite !take_ge by lia.
Qed.

Definition longest (cols : list string) : nat := foldr Nat.max 0 ((λ oid, length (walk_of oid)) <$> cols).

Lemma longest_le cols n : longest cols ≤ n ↔ Forall (λ oid, length (walk_of oid) ≤ n) cols.
Proof.
  unfold longest. induction cols as [|c cols IH]; cbn [fmap list_fmap foldr]; [split; [constructor|lia]|].
  by rewrite Forall_cons, <- IH, Nat.max_lub_iff.
Qed.

Lemma repeat_rows_spec cols n : Forall numeric_oid cols → ∀ i, i ≤ longest cols →
  repeat_rows ix n (column i <$> cols) = seq i (n `min` (S (longest cols) - i)) ≫= λ j, cell j <$> cols.
Proof.
  intros Hc. induction n as [|n IH]; intros i Hi; [done|]. cbn [repeat_rows].
  assert (advance ix <$> (column i <$> cols) = (λ oid, (cell i oid, column (S i) oid)) <$> cols) as ->.
  { rewrite <- list_fmap_compose. apply Forall_fmap_ext_1. eapply Forall_impl; [exact Hc|]. apply advance_column. }
  rewrite <- !list_fmap_compose. unfold compose; cbn [fst snd].
  assert (forallb (λ c, c.2.2) ((λ oid, (cell i oid, column (S i) oid)) <$> cols) = (longest cols <=? i)) as ->.
  { apply eq_bool_prop_intro. rewrite !Is_true_true, Nat.leb_le, longest_le. clear IH Hi Hc.
    induction cols as [|c cols IH]; [split; [constructor|done]|]. rewrite fmap_cons. cbn [forallb]. unfold column at 1.
    cbn [snd]. rewrite andb_true_iff, Forall_cons, IH, negb_true_iff, Nat.leb_gt, Nat.lt_succ_r. done. }
  destruct (Nat.leb_spec (longest cols) i).
  - replace (S n `min` (S (longest cols) - i)) with 1 by lia. simpl. by rewrite !app_nil_r.
  - rewrite IH by lia. replace (S n `min` (S (longest cols) - i)) with (S (n `min` (S (longest cols) - S i))) by lia. done.
Qed.
End walks.

(** ** The bindings of a device *)

Lemma bind_object_oid vs o b : b ∈ bind_object vs o → bi_OID b = ob_oid o.
Proof.
  unfold bind_object. repeat case_match; first [intros ->%list_elem_of_singleton; done|by intros ?%elem_of_nil].
Qed.

Lemma bindings_numeric vs device : indexable device →
  Forall numeric_binding (buildObjects device ≫= bind_object vs).
Proof.
  intros Hi%raw_numeric. apply Forall_forall. intros b (o & Hb & Ho)%list_elem_of_bind.
  unfold numeric_binding. rewrite (bind_object_oid _ _ _ Hb). unfold buildObjects in Ho. rewrite sort_objects_perm in Ho.
  rewrite Forall_forall in Hi. by apply Hi.
Qed.

(** The cache is empty or holds the index of the memory. *)
Definition fresh_cache (m : Memory) (bs : list Binding) (cache : bindingCache) : Prop :=
  cache = empty_cache ∨ cache = mkCache Running (gen m Running) bs.

Lemma index_fresh r m bs cache : bindings_of r m true Running = Ok bs → fresh_cache m bs cache →
  index r true cache m = (Ok (newPDUIndex bs), mkCache Running (gen m Running) bs).
Proof.
  intros Hb Hc. unfold index, Bindings.
  change (_ ← ctx_err true; Generation m true Running) with (@Ok Z (gen m Running)). cbn [mbind res_bind].
  rewrite Hb. destruct Hc as [-> | ->]; [done|]. cbn [bc_ds bc_generation bc_bindings].
  by rewrite String.eqb_refl, Z.eqb_refl.
Qed.

(** ** Properties *)

(** A client that follows GETNEXT answers until the end of the view; the flag tells that
    it got there. *)
Definition getnext_request (oid : string) : packet :=
  mkPacket true DefaultCommunity GetNextRequest 1 0 0 [mkVarbind oid PNil].

Fixpoint client_walk (r : Router) (now : time) (fuel : nat) (cache : bindingCache) (m : Memory) (oid : string)
    : list pdu * bool :=
  match fuel with
  | O => ([], false)
  | S fuel =>
      match handle r now true DefaultCommunity cache m (getnext_request oid) with
      | (Some (_, ([p], NoError, _)), cache, m) =>
          match pd_Value p with
          | AEndOfMibView => ([], true)
          | _ => let '(l, ended) := client_walk r now fuel cache m (pd_Name p) in (p :: l, ended)
          end
      | _ => ([], false)
      end
  end.

Lemma toPDU_value b : pd_Value (toPDU b) ≠ AEndOfMibView.
Proof. unfold toPDU; cbn [pd_Value]. destruct (bi_Type b), (bi_Value b) as [[]|]; simpl; discriminate. Qed.

Lemma client_walk_successors r now m bs : bindings_of r m true Running = Ok bs → Forall numeric_binding bs →
  ∀ fuel cache oid, fresh_cache m bs cache → numeric_oid oid → length (above (newPDUIndex bs) oid) < fuel →
  client_walk r now fuel cache m oid = (toPDU <$> successors (newPDUIndex bs) fuel oid, true).
Proof.
  intros Hb Hn. induction fuel as [|fuel IH]; intros cache oid Hc Ho Hf; [lia|]. cbn [client_walk successors].
  unfold handle. cbn [pk_v2c pk_Community pk_PDUType getnext_request negb orb]. rewrite String.eqb_refl. cbn [negb].
  rewrite (index_fresh _ _ _ _ Hb Hc). unfold getNext, getnext_request. cbn [pk_Variables]. rewrite list_fmap_singleton.
  cbn [vb_Name]. unfold next_pdu.
  destruct (next (newPDUIndex bs) oid) as [b|] eqn:E; [|done].
  pose proof (above_shrinks bs Hn oid b Ho E). destruct (next_least bs Hn oid b Ho E) as (_ & _ & Hnb & _).
  pose proof (toPDU_value b) as Hv. change (pd_Name (toPDU b)) with (bi_OID b).
  rewrite IH; [|by right|done|lia]. by destruct (pd_Value (toPDU b)).
Qed.

(** C16: an SNMP walk sees every object once, in order. Starting from any numeric OID, a
    client that repeats GETNEXT on the name it was last given is answered every time,
    reaches the end of the view, and gets the objects in strictly increasing order of
    their OIDs' numbers: only objects of the running datastore above the start, and every
    OID above the start that the datastore has. *)
Theorem snmp_walk_complete r now m vs device oid :
  Values m true Running = Ok vs → deviceFromValues (r_root r) vs = Ok device → indexable device →
  is_Some (oid_numbers oid) →
  let bs := buildObjects device ≫= bind_object vs in
  ∃ w, client_walk r now (S (length bs)) empty_cache m oid = (toPDU <$> w, true) ∧
    StronglySorted (λ a b, CompareOID (bi_OID a) (bi_OID b) = Lt) w ∧
    Forall (λ b, b ∈ bs ∧ CompareOID (bi_OID b) oid = Gt) w ∧
    (∀ b, b ∈ bs → CompareOID (bi_OID b) oid = Gt →
       ∃ b', b' ∈ w ∧ oid_numbers (bi_OID b') = oid_numbers (bi_OID b)).
Proof.
  intros Hvs Hd Hi Ho bs. pose proof (bindings_numeric vs device Hi) as Hn. fold bs in Hn.
  assert (bindings_of r m true Running = Ok bs) as Hb.
  { unfold bindings_of, flatValues. cbn [ctx_err check mbind res_bind]. rewrite Hvs. cbn [mbind res_bind]. by rewrite Hd. }
  pose proof (above_length bs oid).
  exists (successors (newPDUIndex bs) (S (length bs)) oid). split; [apply client_walk_successors; auto; [by left|lia]|].
  destruct (successors_spec bs Hn (S (length bs)) oid Ho ltac:(lia)) as (H1 & H2 & H3 & _). done.
Qed.

Definition demo_values : values := {[ "system-info/name" := VString "n"; "system-info/contact" := VString "c" ]}.
Definition demo_store : Memory := mkMemory demo_values ∅ ∅ "" None None ∅ ∅.
Definition demo_device : Device :=
  match deviceFromValues (r_root default_router) demo_values with Ok d => d | Err _ => DefaultDevice end.

Lemma snmp_walk_complete_witness :
  ∃ w, client_walk default_router 5 (S (length (buildObjects demo_device ≫= bind_object demo_values)))
         empty_cache demo_store ".1.3.6.1.2.1.1" = (toPDU <$> w, true) ∧ length w = 3.
Proof.
  destruct (snmp_walk_complete default_router 5 demo_store demo_values demo_device ".1.3.6.1.2.1.1")
    as (w & Hw & _).
  - vm_compute. reflexivity.
  - vm_compute. reflexivity.
  - split; [vm_compute; reflexivity|]. vm_compute. repeat constructor.
  - vm_compute. eauto.
  - exists w. split; [exact Hw|]. pose proof (f_equal (λ x, length x.1) Hw) as H. cbn [fst] in H.
    rewrite length_fmap in H. rewrite <- H. vm_compute. reflexivity.
Defined.

(** A GETBULK answer is its repetitions, row by row. The first varbinds get one
    successor each; then row [i] holds, for every remaining column in order, the [i]-th
    object of that column's walk, or endOfMibView at the last OID of the walk once it is
    over.  The rows stop at max-repetitions, at 100, or after the first row in which every
    column is over, so the answer is bounded whatever the request asks. *)
Theorem get_bulk_rows vs device req :
  indexable device → Forall (λ v, is_Some (oid_numbers (vb_Name v))) (pk_Variables req) →
  let bs := buildObjects device ≫= bind_object vs in
  let ix := newPDUIndex bs in
  let vars := vb_Name <$> pk_Variables req in
  let n := Z.to_nat (pk_NonRepeaters req) `min` length vars in
  let cols := drop n vars in
  let rows := Z.to_nat (Z.min (pk_MaxRepetitions req) 100) `min` S (longest bs cols) in
  getBulk ix req =
    ((next_pdu ix <$> take n vars) ++ (seq 0 rows ≫= λ i, cell bs i <$> cols), NoError, 0%Z) ∧
  length (getBulk ix req).1.1 ≤ n + 100 * length cols.
Proof.
  intros Hi Hv bs ix vars n cols rows. pose proof (bindings_numeric vs device Hi) as Hn. fold bs in Hn.
  assert (Forall numeric_oid cols) as Hc by (apply Forall_drop, Forall_fmap; exact Hv).
  assert (repeat_rows ix (Z.to_nat (Z.min (pk_MaxRepetitions req) 100)) ((λ oid, (oid, false)) <$> cols) =
    seq 0 rows ≫= λ i, cell bs i <$> cols) as Hrows.
  { pose proof (repeat_rows_spec bs Hn cols (Z.to_nat (Z.min (pk_MaxRepetitions req) 100)) Hc 0 ltac:(lia)) as H.
    rewrite Nat.sub_0_r in H. etransitivity; [|exact H]. done. }
  assert (getBulk ix req = ((next_pdu ix <$> take n vars) ++ (seq 0 rows ≫= λ i, cell bs i <$> cols), NoError, 0%Z)) as ->.
  { unfold getBulk, maxBulkRepetitions. fold vars n cols. by rewrite Hrows. }
  split; [done|]. cbn [fst]. rewrite length_app, length_fmap, length_take.
  assert (∀ l, length (l ≫= λ i, cell bs i <$> cols) = length l * length cols) as Hlen.
  { induction l as [|i l IH]; [done|]. cbn [mbind list_bind length Nat.mul]. rewrite length_app, length_fmap. by rewrite IH. }
  rewrite Hlen, length_seq. assert (rows ≤ 100) by lia. nia.
Qed.

Abbreviation bulk_request :=
  (mkPacket true DefaultCommunity GetBulkRequest 1 0 1000
     [mkVarbind "1.3.6.1.2.1.1.4.0" PNil; mkVarbind "1.3.6.1" PNil]).

Lemma get_bulk_rows_witness :
  length (getBulk (newPDUIndex (buildObjects demo_device ≫= bind_object demo_values)) bulk_request).1.1 ≤ 0 + 100 * 2 ∧
  length (getBulk (newPDUIndex (buildObjects demo_device ≫= bind_object demo_values)) bulk_request).1.1 = 8.
Proof.
  split; [|vm_compute; reflexivity].
  assert (H1 : indexable demo_device) by (split; [vm_compute; reflexivity|vm_compute; repeat constructor]).
  assert (H2 : Forall (λ v, is_Some (oid_numbers (vb_Name v))) (pk_Variables bulk_request))
    by (repeat constructor; vm_compute; eauto).
  pose proof (get_bulk_rows demo_values demo_device bulk_request H1 H2) as H. cbv zeta in H. destruct H as [_ H].
  exact H.
Defined.

(** ** SET *)

(** What a varbind of a SET writes: a writable object with a path, at which the value
    converts to [v]. *)
Definition writes (r : Router) (ix : pduIndex) (vb : varbind) (p : string) (v : value) : Prop :=
  ∃ b w x, exact ix (vb_Name vb) = Some b ∧ bi_Writable b = true ∧ bi_Path b = p ∧
    fromPDU (vb_Value vb) = Some w ∧ Convert r p w = Ok x ∧ res_Value x = v.

(** The value the last varbind that names [p] writes there. *)
Definition last_write (r : Router) (ix : pduIndex) (vars : list varbind) (p : string) (v : value) : Prop :=
  ∃ before vb after, vars = before ++ vb :: after ∧ writes r ix vb p v ∧
    ∀ vb' v', vb' ∈ after → ¬ writes r ix vb' p v'.

Lemma set_loop_spec r ix base : ∀ vars i changed changed',
  set_loop r true ix vars i (changed ∪ base) changed = inl changed' →
  (vars ≠ [] → Router_Validate (r_root r) true (changed' ∪ base) = Ok tt) ∧
  (∀ p v, changed' !! p = Some v →
     changed !! p = Some v ∧ (∀ vb v', vb ∈ vars → ¬ writes r ix vb p v') ∨ last_write r ix vars p v) ∧
  (∀ p, is_Some (changed !! p) → is_Some (changed' !! p)) ∧
  (∀ vb, vb ∈ vars → ∃ p v, writes r ix vb p v ∧ is_Some (changed' !! p)).
Proof.
  induction vars as [|vb vars IH]; intros i changed changed'; cbn [set_loop].
  - intros [= <-]. split_and!; [done| |done|by intros ? ?%elem_of_nil].
    intros p v Hv. left. split; [done|]. by intros ? ? ?%elem_of_nil.
  - destruct (exact ix (vb_Name vb)) as [b|] eqn:Eb; [|done]. destruct (bi_Writable b) eqn:Ew; [|done]. cbn [negb orb].
    destruct (String.eqb (bi_Path b) ""); [done|]. destruct (fromPDU (vb_Value vb)) as [w|] eqn:Ef; [|done].
    destruct (Convert r (bi_Path b) w) as [x|] eqn:Ec; [|done]. pose proof (Convert_path _ _ _ _ Ec) as (_ & _ & Hp).
    rewrite Hp, insert_union_l. set (next := <[_ := _]> changed).
    destruct (Router_Validate _ _ _) as [[]|] eqn:EV; [|done]. intros H.
    destruct (IH _ _ _ H) as (HV & Hval & Hkeep & Hcov).
    assert (writes r ix vb (bi_Path b) (res_Value x)) as Hw by (by exists b, w, x).
    assert (is_Some (next !! bi_Path b)) as Hnext by (unfold next; rewrite lookup_insert_eq; eauto).
    split_and!.
    + intros _. destruct vars as [|vb' vars]; [|by apply HV]. cbn [set_loop] in H. by injection H as <-.
    + intros p v Hv. destruct (Hval p v Hv) as [[Hn Hno]|(l1 & vb' & l2 & -> & Hw' & Hl)]; [|right; by exists (vb :: l1), vb', l2].
      unfold next in Hn. apply lookup_insert_Some in Hn as [[<- <-]|[Hpb Hn]]; [right; by exists [], vb, vars|].
      left. split; [done|]. intros vb' v' [->|Hin]%elem_of_cons; [|by apply Hno].
      intros (b' & w' & x' & Eb' & _ & Hp' & _). congruence.
    + intros p Hs. apply Hkeep. unfold next. destruct (decide (p = bi_Path b)) as [->|]; [by rewrite lookup_insert_eq|].
      by rewrite lookup_insert_ne.
    + intros vb' [->|Hin]%elem_of_cons; [|by apply Hcov]. eauto 10.
Qed.

Lemma set_loop_status r ctx ix vars i proposed changed st k :
  set_loop r ctx ix vars i proposed changed = inr (st, k) → st ≠ NoError.
Proof.
  revert i proposed changed. induction vars as [|vb vars IH]; intros i proposed changed; cbn [set_loop]; [done|].
  repeat (case_match; try (intros [= <- <-]; done)); [by apply IH|].
  intros [= <- <-]. unfold convert_status. by repeat case_match.
Qed.

Lemma Router_Apply_err r m now ctx ds vs dels e m' : Router_Apply r m now ctx ds vs dels = (Err e, m') → m' = m.
Proof.
  unfold Router_Apply, Apply. destruct (_ ≫= _) as [conv|]; [|congruence]. repeat case_match; congruence.
Qed.

Lemma runningSnapshot_values r m vs : runningSnapshot r true m = Ok vs → vs = running m.
Proof.
  unfold runningSnapshot. destruct (Router_Values r m true Running) as [l|] eqn:E; [|done]. cbn [mbind res_bind].
  intros [= <-]. assert (collect r m true Running = Ok l) as Hc by (unfold collect; by rewrite E).
  apply collect_editor in Hc as (H & _ & _). unfold datastore in H. simpl in H. by injection H as ->.
Qed.

Lemma index_ok r cache m bs : bindings_of r m true Running = Ok bs →
  ∃ ix cache', index r true cache m = (Ok ix, cache').
Proof.
  intros Hb. unfold index, Bindings.
  change (_ ← ctx_err true; Generation m true Running) with (@Ok Z (gen m Running)). cbn [mbind res_bind].
  rewrite Hb. destruct (_ && _); cbn [mbind res_bind]; eauto.
Qed.

(** A second conversion of converted values changes nothing. *)
Lemma convert_all_id r `{!BuiltRouter r} (vs conv : values) :
  (∀ p v, vs !! p = Some v → ∃ w x, Convert r p w = Ok x ∧ res_Value x = v) →
  convert_all r (map_to_list vs) ∅ = Ok conv → conv = vs.
Proof.
  intros Hvs H. apply map_eq. intros p.
  pose proof (convert_all_lookup r _ _ _ (NoDup_fst_map_to_list vs) H p) as Hl. rewrite list_to_map_to_list in Hl.
  destruct (vs !! p) as [v|] eqn:Ev; [|by rewrite Hl, lookup_empty].
  destruct (Hvs p v Ev) as (w & x & Hw & <-). destruct Hl as (y & Hy & ->). apply Convert_idem in Hw; [|done]. congruence.
Qed.

Lemma applySet_ok r `{!BuiltRouter r} now m changed m' :
  (∀ p v, changed !! p = Some v → ∃ w x, Convert r p w = Ok x ∧ res_Value x = v) →
  Router_Apply r m now true Running changed [] = (Ok tt, m') →
  running m' = changed ∪ running m ∧ candidate m' = changed ∪ candidate m ∧ startup m' = startup m.
Proof.
  intros Hc. unfold Router_Apply. cbn [ctx_err check mbind res_bind].
  destruct (convert_all r (map_to_list changed) ∅) as [conv|] eqn:E; [|done].
  apply convert_all_id in E as ->; [|done..]. intros ([Hr Hca Hs _ _ _] & _ & _)%Apply_effect.
  assert (∀ old, overlay (map_to_list changed) [] old = changed ∪ old) as Ho.
  { intros old. apply map_eq. intros p. rewrite overlay_lookup, bool_decide_eq_false_2 by apply not_elem_of_nil.
    rewrite lookup_union. by destruct (changed !! p), (old !! p). }
  rewrite Ho in Hr, Hca. by rewrite Hr, Hca, Hs.
Qed.

(** C13: an SNMP SET is all or nothing. If the answer carries an error status the store is
    exactly as before, even when only the last of several bindings is refused.  If the
    status is noError, every varbind named a writable object and its converted value is
    written, the last one for a path named more than once; no other leaf of the running
    datastore changes, the candidate gets the same writes and the startup datastore none;
    and the running datastore rebuilds into a device that satisfies every rule of the
    model. *)
Theorem snmp_set_atomic root r now ctx cache m req pdus status i cache' m' :
  NewRouter root = Ok r → pk_Variables req ≠ [] →
  set r now ctx cache m req = ((pdus, status, i), cache', m') →
  (status ≠ NoError → m' = m) ∧
  (status = NoError → ∃ ix cache1 changed d,
     index r ctx cache m = (Ok ix, cache1) ∧
     (∀ vb, vb ∈ pk_Variables req → ∃ p v, writes r ix vb p v ∧ is_Some (changed !! p)) ∧
     (∀ p v, changed !! p = Some v → last_write r ix (pk_Variables req) p v) ∧
     running m' = changed ∪ running m ∧ candidate m' = changed ∪ candidate m ∧ startup m' = startup m ∧
     Router_Snapshot r m' true Running = Ok d ∧ Device_ok d).
Proof.
  intros [_ Hbuilt]%NewRouter_built Hne. clear root. unfold set. destruct ctx; [|by intros [= <- <- <- <- <-]]. cbn [ctx_err check].
  unfold applySet. destruct (runningSnapshot r true m) as [base|] eqn:Es; [|by intros [= <- <- <- <- <-]].
  apply runningSnapshot_values in Es as ->.
  destruct (index r true cache m) as [[ix|] cache1] eqn:Ei; [|by intros [= <- <- <- <- <-]].
  rewrite <- (map_empty_union (running m)) at 1.
  destruct (set_loop r true ix _ 0 _ ∅) as [changed|[st k]] eqn:Eset.
  2:{ intros [= <- <- <- <- <-]. split; [done|]. intros ->. by apply set_loop_status in Eset. }
  apply set_loop_spec in Eset as (HV & Hval & _ & Hcov). specialize (HV Hne).
  assert (∀ p v, changed !! p = Some v → last_write r ix (pk_Variables req) p v) as Hval'.
  { intros p v Hv. destruct (Hval p v Hv) as [[H _]|H]; [by rewrite lookup_empty in H|done]. }
  destruct (Router_Apply r m now true Running changed []) as [[[]|] m1] eqn:EA.
  2:{ apply Router_Apply_err in EA as ->. by intros [= <- <- <- <- <-]. }
  apply applySet_ok in EA as (Hr & Hc & Hs); [|done|].
  2:{ intros p v (_ & vb & _ & _ & (b & w & x & _ & _ & _ & _ & Hx & Hv) & _)%Hval'. eauto. }
  unfold Router_Validate in HV. cbn [ctx_err check mbind res_bind] in HV.
  destruct (deviceFromValues (r_root r) (changed ∪ running m)) as [d|] eqn:Hd; [|done]. cbn [mbind res_bind] in HV.
  assert (flatValues m1 true Running = Ok (changed ∪ running m)) as Hflat.
  { unfold flatValues, Values, datastore. cbn. by rewrite copyValues_id, Hr. }
  destruct (index_ok r cache1 m1 (buildObjects d ≫= bind_object (changed ∪ running m))) as (ix' & cache2 & ->).
  { unfold bindings_of. rewrite Hflat. cbn [mbind res_bind]. by rewrite Hd. }
  unfold get. intros [= <- <- <- <- <-]. split; [done|]. intros _. exists ix, cache1, changed, d. split_and!; try done.
  - unfold Router_Snapshot. rewrite Hflat. cbn [mbind res_bind]. done.
  - by apply Device_Validate_ok.
Qed.

(** The default device with its two interface names and its system name stored. *)
Abbreviation set_store :=
  (Set_ (Set_ (NewMemory "" None None) 1 true Running "synce/selected-source" (VString "")).2
     2 true Running "system-info/name" (VString "old")).2.
Abbreviation set_request :=
  (mkPacket true DefaultCommunity SetRequest 7 0 0
     [mkVarbind ".1.3.6.1.2.1.1.5.0" (PBytes "new"); mkVarbind "1.3.6.1.2.1.1.5.0" (PBytes "newer")]).
Abbreviation demo_set := (set default_router 5 true empty_cache set_store set_request).

Lemma snmp_set_atomic_witness :
  demo_set.1.1.1.2 = NoError ∧
  ∃ ix cache1 changed d,
    index default_router true empty_cache set_store = (Ok ix, cache1) ∧
    running demo_set.2 = changed ∪ running set_store ∧ Router_Snapshot default_router demo_set.2 true Running = Ok d.
Proof.
  split; [vm_compute; reflexivity|].
  destruct (proj2 (snmp_set_atomic DefaultDevice default_router 5 true empty_cache set_store set_request
    demo_set.1.1.1.1 demo_set.1.1.1.2 demo_set.1.1.2 demo_set.1.2 demo_set.2 default_router_built
    ltac:(discriminate) ltac:(destruct demo_set as [[[[? ?] ?] ?] ?]; reflexivity)) ltac:(vm_compute; reflexivity))
    as (ix & cache1 & changed & d & H1 & _ & _ & H2 & _ & _ & H3 & _).
  exists ix, cache1, changed, d. exact (conj H1 (conj H2 H3)).
Defined.
