(* ===== verification/Codec.v ===== *)
(** * The RESTCONF codecs ([internal/restconf/ops/codec_json.go], [codec_xml.go])

    Request bodies become documents of the data-tree editor, read trees become JSON or XML.
    JSON text is read and scalars are written by package [encoding/json], XML text by
    [encoding/xml]: a body is the value or the token stream these packages deliver, and an
    encoded document the sequence of the pieces written. *)

From S2P Require Import Prelude GoStrings GoFloat GoParse GoFormat GoValue GoNet Persist Store Path Model Reflect Reflected Hydrate Schema Oid Router Ops Datatree Read GetConfig.

(** [Malformed]. *)
Definition Malformed {A} : res A := newError TagMalformedMessage "".

(** ** Bodies *)

(** A decoded JSON value; numbers keep their text ([UseNumber]).  The members of an object
    have distinct names, as in the Go map. *)
Inductive json : Set :=
  | JNull
  | JBool (b : bool)
  | JNumber (text : string)
  | JString (s : string)
  | JArray (l : list json)
  | JObject (members : list (string * json)).

(** The bytes of a request body after [TrimSpace], as the two decoders see them: nothing;
    for JSON the first value, with whether more follows it, or a syntax error; for XML the
    tokens, with the error they end in. *)
Record bodyBytes : Type := mkBody {
  bd_empty : bool;
  bd_json : option (json * bool);
  bd_xml : list token;
  bd_xmlError : option error;
}.

Inductive Format : Set := FormatJSON | FormatXML.
Global Instance Format_eq_dec : EqDecision Format.
Proof. solve_decision. Defined.

Record Payload : Set := mkPayload {
  pl_Name : string;
  pl_Documents : list Document;
  pl_Scalar : string;
  pl_IsScalar : bool;
}.

(** ** Decoding JSON *)

Definition scalarText (v : json) : string :=
  match v with
  | JString s => s
  | JNumber s => s
  | JBool b => FormatBool b
  | _ => ""
  end.

Definition stripModule (name : string) : string :=
  match IndexByte name ":" with Some i => str_drop (S i) name | None => name end.

Definition leafOf (name text : string) : Document := Doc name text true ∅ [].

(** The members in the order of their names ([sort.Strings]). *)
Fixpoint insert_member {A} (k : string * A) (l : list (string * A)) : list (string * A) :=
  match l with
  | [] => [k]
  | x :: l => if str_ltb x.1 k.1 then x :: insert_member k l else k :: x :: l
  end.
Definition sort_members {A} (l : list (string * A)) : list (string * A) := foldr insert_member [] l.

(** [documentOfMap]: the documents of one member are computed first, the members are then
    ordered by their names. *)
Fixpoint member_documents (childName : string) (v : json) : list Document :=
  let documentOfMap name members :=
    Doc name "" false ∅
      (concat (sort_members ((fix go (l : list (string * json)) : list (string * list Document) :=
        match l with
        | [] => []
        | (k, v) :: l => (k, member_documents (stripModule k) v) :: go l
        end) members)).*2) in
  match v with
  | JObject members => [documentOfMap childName members]
  | JArray entries =>
      map (λ e, match e with
                | JObject members => documentOfMap childName members
                | _ => leafOf childName (scalarText e)
                end) entries
  | JNull => [leafOf childName ""]
  | _ => [leafOf childName (scalarText v)]
  end.
Definition documentOfMap (name : string) (members : list (string * json)) : Document :=
  Doc name "" false ∅ (concat (sort_members ((λ kv, (kv.1, member_documents (stripModule kv.1) kv.2)) <$> members)).*2).

(** The entries of a top-level array. *)
Fixpoint entry_documents (resource : string) (l : list json) : res (list Document) :=
  match l with
  | [] => Ok []
  | JObject members :: l => rest ← entry_documents resource l; Ok (documentOfMap resource members :: rest)
  | _ :: _ => InvalidValue
  end.

Definition decodeJSON (b : bodyBytes) : res Payload :=
  if bd_empty b then Malformed
  else match bd_json b with
  | None => Malformed
  | Some (_, true) => Malformed
  | Some (JObject [(name, v)], false) =>
      let resource := stripModule name in
      match v with
      | JObject members => Ok (mkPayload resource [documentOfMap resource members] "" false)
      | JArray l => documents ← entry_documents resource l; Ok (mkPayload resource documents "" false)
      | _ => Ok (mkPayload resource [] (scalarText v) true)
      end
  | Some (_, false) => InvalidValue
  end.

(** ** Decoding XML *)

(** [parseXMLDocument] builds the document of a token stream the way [ParseElement] builds
    an element; [HasText] is what the text trims to. *)
Definition doc_close (child parent : Document) : Document :=
  let 'Doc n t h a c := parent in Doc n t h a (c ++ [child]).
Definition doc_close_all (stack : list Document) : option Document :=
  match stack with [] => None | top :: rest => Some (foldl doc_close top rest) end.
Definition doc_add_text (d : Document) (text : string) : Document :=
  let 'Doc n t h a c := d in Doc n (t +:+ text) (negb (String.eqb (TrimSpace (t +:+ text)) "")) a c.

Fixpoint document_tokens (tokens : list token) (fail : option error) (root : option Document) (stack : list Document)
    : res Document :=
  match tokens with
  | [] =>
      match fail with
      | Some _ => Malformed
      | None =>
          match doc_close_all stack, root with
          | Some d, _ | None, Some d => Ok d
          | None, None => Malformed
          end
      end
  | StartElement _ n _ :: tokens =>
      match root, stack with
      | Some _, [] => Malformed
      | _, _ => document_tokens tokens fail root (Doc n "" false ∅ [] :: stack)
      end
  | EndElement _ :: tokens =>
      match stack with
      | [] => Malformed
      | [top] => document_tokens tokens fail (Some top) []
      | top :: parent :: stack => document_tokens tokens fail root (doc_close top parent :: stack)
      end
  | CharData t :: tokens =>
      match stack with
      | [] => document_tokens tokens fail root []
      | top :: stack => document_tokens tokens fail root (doc_add_text top t :: stack)
      end
  | TokenOther :: tokens => document_tokens tokens fail root stack
  end.
Definition parseXMLDocument (b : bodyBytes) : res Document :=
  if bd_empty b then Malformed else document_tokens (bd_xml b) (bd_xmlError b) None [].

Definition decodeXML (b : bodyBytes) : res Payload :=
  document ← parseXMLDocument b;
  Ok (mkPayload (doc_Name document) [document] "" false).

Definition Decode (format : Format) (b : bodyBytes) : res Payload :=
  match format with FormatJSON => decodeJSON b | FormatXML => decodeXML b end.

(** ** Encoding JSON *)

(** What is written to the buffer: punctuation, member names with their colon, scalars. *)
Inductive jtoken : Set :=
  | JPunct (c : ascii)
  | JKey (name : string)
  | JScalar (v : value)
  | JNullText.

Definition moduleQualified (n : DataNode) : string :=
  let name := mod_Name (ModuleFor (dn_Path n)) in
  if String.eqb name "" then dn_Name n else name +:+ ":" +:+ dn_Name n.

Definition writeJSONKey (name : string) : list jtoken := [JKey name].

(** [json.Marshal] refuses the infinities and NaN; a nil value is null. *)
Definition marshalLeaf (v : option value) : jtoken :=
  match v with
  | Some (VFloat64 f) => match f with S754_nan | S754_infinity _ => JNullText | _ => JScalar (VFloat64 f) end
  | Some v => JScalar v
  | None => JNullText
  end.

(** Items separated by commas. *)
Fixpoint separated (l : list (list jtoken)) : list jtoken :=
  match l with
  | [] => []
  | [x] => x
  | x :: l => x ++ [JPunct ","] ++ separated l
  end.

Fixpoint writeJSONValue (n : DataNode) : list jtoken :=
  match n with
  | DNode _ _ kind _ _ _ v children =>
      match kind with
      | KindLeaf => [marshalLeaf v]
      | KindList => [JPunct "["] ++ separated (map writeJSONValue children) ++ [JPunct "]"]
      | KindContainer =>
          [JPunct "{"] ++
          separated (map (λ c, match c with DNode _ name _ _ _ _ _ _ => writeJSONKey name end ++ writeJSONValue c) children) ++
          [JPunct "}"]
      end
  end.

Definition encodeJSON (n : DataNode) : list jtoken :=
  let member c := writeJSONKey (moduleQualified c) ++ writeJSONValue c in
  [JPunct "{"] ++ (if String.eqb (dn_Name n) "" then separated (map member (dn_Children n)) else member n) ++ [JPunct "}"].

(** ** Encoding XML *)

(** An opening tag with the namespace it declares, escaped text, a closing tag. *)
Inductive xtoken : Set := XStart (name : string) (xmlns : option string) | XText (text : string) | XEnd (name : string).

Definition restconfNamespace : string := "urn:ietf:params:xml:ns:yang:ietf-restconf".

Definition writeXMLStart (name namespace currentNS : string) : list xtoken :=
  [XStart name (if String.eqb namespace currentNS then None else Some namespace)].
Definition writeXMLText (text : string) : list xtoken := [XText text].
Definition writeXMLEnd (name : string) : list xtoken := [XEnd name].

(** [writeXMLNode]: the tokens and the namespace it returns, which its caller passes on to
    the next sibling. *)
Fixpoint writeXMLNode (n : DataNode) (currentNS : string) : list xtoken * string :=
  let nodes := fix nodes (l : list DataNode) (ns : string) : list xtoken * string :=
    match l with
    | [] => ([], ns)
    | c :: l =>
        let '(t, ns) := writeXMLNode c ns in
        let '(rest, ns) := nodes l ns in
        (t ++ rest, ns)
    end in
  match n with
  | DNode path name kind _ _ _ v children =>
      if bool_decide (kind = KindList) then nodes children currentNS
      else
        let namespace := namespaceFor path in
        let start := writeXMLStart name namespace currentNS in
        let currentNS := namespace in
        let '(inner, currentNS) :=
          match kind with
          | KindLeaf => (writeXMLText (match v with Some v => FormatLeaf v | None => "<nil>" end), currentNS)
          | _ => nodes children currentNS
          end in
        (start ++ inner ++ writeXMLEnd name, currentNS)
  end.

Fixpoint writeXMLNodes (l : list DataNode) (ns : string) : list xtoken * string :=
  match l with
  | [] => ([], ns)
  | c :: l =>
      let '(t, ns) := writeXMLNode c ns in
      let '(rest, ns) := writeXMLNodes l ns in
      (t ++ rest, ns)
  end.

(** [encodeXML], without the XML declaration. *)
Definition encodeXML (n : DataNode) : list xtoken :=
  if String.eqb (dn_Name n) "" then
    [XStart "data" (Some restconfNamespace)] ++ (writeXMLNodes (dn_Children n) restconfNamespace).1 ++ [XEnd "data"]
  else (writeXMLNode n "").1.

Inductive encoded : Set := EncodedJSON (l : list jtoken) | EncodedXML (l : list xtoken).
Definition Encode (format : Format) (n : DataNode) : encoded :=
  match format with FormatJSON => EncodedJSON (encodeJSON n) | FormatXML => EncodedXML (encodeXML n) end.
