(* ===== verification/Resource.v ===== *)
(** * RESTCONF datastore operations ([internal/restconf/ops/deps.go], [write.go])

    GET, PUT, PATCH, POST and DELETE on one resource, over the data-tree reader and editor.
    An operation returns its result, the store afterwards and the events it published. *)

From S2P Require Import Prelude GoStrings GoFloat GoParse GoFormat GoValue GoNet Persist Store Event Path Model Reflect Reflected Hydrate Schema Oid Router Ops Datatree Read GetConfig Codec.

Record Target : Set := mkTarget {
  tg_Path : string;
  tg_BasePath : string;
  tg_Name : string;
  tg_Schema : Node;
  tg_Key : string;
  tg_KeyValue : string;
  tg_Collection : bool;
}.

(** [Deps.publish], with a bus; the bus stamps the time. *)
Definition publish (reason : string) : list Event := [mkEvent TypeConfigChanged "device" "" reason "" "" "" "" 0].

(** [asTreeError]. *)
Definition asTreeError {A} (e : error) : res A :=
  match AsError e with Some s => Err [s] | None => Failed e end.

Definition documentName (t : Target) : string := tg_Name t.

Definition doc_append (d : Document) (children : list Document) : Document :=
  let 'Doc n t h a c := d in Doc n t h a (c ++ children).

(** [ensureKey]: the document, with the key leaf of the path. *)
Definition ensureKey (t : Target) (d : Document) : res Document :=
  if String.eqb (tg_Key t) "" then Ok d
  else match doc_Child d (tg_Key t) with
  | Some key => if String.eqb (TrimSpace (doc_Text key)) (tg_KeyValue t) then Ok d else InvalidValueAt (tg_Path t)
  | None => Ok (doc_append d [leafOf (tg_Key t) (tg_KeyValue t)])
  end.

(** [Payload.document]. *)
Definition payload_document (p : Payload) : res Document :=
  if pl_IsScalar p then InvalidValue
  else match pl_Documents p with [d] => Ok d | _ => InvalidValue end.

(** [hasData]. *)
Definition hasData (n : DataNode) : bool :=
  match dn_Kind n with KindList => negb (bool_decide (dn_Children n = [])) | _ => true end.

(** [documentFor] and [payloadDocuments]. *)
Definition documentFor (t : Target) (p : Payload) : res Document :=
  if pl_IsScalar p then
    if bool_decide (nd_Kind (tg_Schema t) = KindLeaf) then Ok (leafOf (tg_Name t) (pl_Scalar p)) else InvalidValue
  else payload_document p.

Definition payloadDocuments (t : Target) (p : Payload) : res (list Document) :=
  if pl_IsScalar p then
    if bool_decide (nd_Kind (tg_Schema t) = KindLeaf) then Ok [leafOf (tg_Name t) (pl_Scalar p)] else InvalidValue
  else if bool_decide (pl_Documents p = []) then InvalidValue
  else Ok (pl_Documents p).

Section resource.
Context (r : Router).

(** [Get]. *)
Definition ops_Get (m : Memory) (ctx : context) (ds : Datastore) (path : string) (content : Content) : res DataNode :=
  match Read r m ctx ds (mkReadOptions path content) with
  | Err e => asTreeError e
  | Ok None => DataMissing path
  | Ok (Some n) =>
      if negb (bool_decide (dn_Kind n = KindContainer)) && negb (hasData n) then DataMissing path else Ok n
  end.

(** [apply]. *)
Definition apply (m : Memory) (now : time) (ctx : context) (ds : Datastore) (t : Target) (op : Op)
    (documents : list Document) (reason : string) : res unit * Memory * list Event :=
  match Edit r m now ctx ds (mkEdit (tg_BasePath t) op documents) with
  | (Err e, m) => (asTreeError e, m, [])
  | (Ok _, m) => (Ok tt, m, publish reason)
  end.

(** [Put]. *)
Definition ops_Put (m : Memory) (now : time) (ctx : context) (ds : Datastore) (t : Target) (p : Payload)
    : res unit * Memory * list Event :=
  if tg_Collection t then (NotSupported, m, [])
  else match (d ← documentFor t p; ensureKey t d) with
  | Err e => (Err e, m, [])
  | Ok d => apply m now ctx ds t OpReplace [d] ("restconf PUT " +:+ tg_Path t)
  end.

(** [Patch]. *)
Definition ops_Patch (m : Memory) (now : time) (ctx : context) (ds : Datastore) (t : Target) (p : Payload)
    : res unit * Memory * list Event :=
  match (documents ← payloadDocuments t p; res_map (ensureKey t) documents) with
  | Err e => (Err e, m, [])
  | Ok documents => apply m now ctx ds t OpMerge documents ("restconf PATCH " +:+ tg_Path t)
  end.

(** The path of the created entry. *)
Definition created_path (t : Target) (documents : list Document) : string :=
  match documents with
  | [d] =>
      match doc_Child d (nd_Key (tg_Schema t)) with
      | Some key => tg_Path t +:+ "[" +:+ nd_Key (tg_Schema t) +:+ "=" +:+ TrimSpace (doc_Text key) +:+ "]"
      | None => tg_Path t
      end
  | _ => tg_Path t
  end.

(** [Post]. *)
Definition ops_Post (m : Memory) (now : time) (ctx : context) (ds : Datastore) (t : Target) (p : Payload)
    : res string * Memory * list Event :=
  if negb (tg_Collection t) then (NotSupported, m, [])
  else if pl_IsScalar p then (InvalidValue, m, [])
  else match res_map (ensureKey t) (pl_Documents p) with
  | Err e => (Err e, m, [])
  | Ok documents =>
      match apply m now ctx ds t OpCreate documents ("restconf POST " +:+ tg_Path t) with
      | (Err e, m, events) => (Err e, m, events)
      | (Ok _, m, events) => (Ok (created_path t documents), m, events)
      end
  end.

(** [deleteCollection]. *)
Definition deleteCollection (m : Memory) (now : time) (ctx : context) (ds : Datastore) (t : Target)
    : res unit * Memory * list Event :=
  match ops_Get m ctx ds (tg_Path t) ContentAll with
  | Err e => (Err e, m, [])
  | Ok n =>
      let documents :=
        (λ entry, Doc (tg_Name t) "" false ∅ [leafOf (nd_Key (tg_Schema t)) (dn_KeyValue entry)]) <$> dn_Children n in
      if bool_decide (documents = []) then (DataMissing (tg_Path t), m, [])
      else apply m now ctx ds t OpDelete documents ("restconf DELETE " +:+ tg_Path t)
  end.

(** [Delete]. *)
Definition ops_Delete (m : Memory) (now : time) (ctx : context) (ds : Datastore) (t : Target)
    : res unit * Memory * list Event :=
  if tg_Collection t then deleteCollection m now ctx ds t
  else
    let d := Doc (documentName t) "" false ∅
               (if String.eqb (tg_Key t) "" then [] else [leafOf (tg_Key t) (tg_KeyValue t)]) in
    apply m now ctx ds t OpDelete [d] ("restconf DELETE " +:+ tg_Path t).
End resource.
