(* ===== verification/Http.v ===== *)
(** * The RESTCONF server ([internal/restconf/path.go], [errors.go], [caching.go], [server.go])

    A request is the escaped path, the query and headers the handlers read, and the body;
    a handler returns the response, the store afterwards and the events published.  The
    routing of paths to handlers is the chi package's. *)

From S2P Require Import Prelude GoStrings GoFloat GoParse GoFormat GoValue GoNet Persist Store Clock Event Path Model Reflect Reflected Hydrate Schema Oid Router Ops Datatree Read GetConfig Codec Resource.

Definition HBasePath : string := "/restconf".
Definition MediaTypeJSON : string := "application/yang-data+json".
Definition MediaTypeXML : string := "application/yang-data+xml".
Definition allowDataMethods : string := "GET, HEAD, PUT, PATCH, POST, DELETE".

(** ** Requests and responses *)

(** A date header as [http.ParseTime] reads it. *)
Inductive dateHeader : Set := NoDate | BadDate | HTTPDate (t : time).

(** What reading the body gives. *)
Inductive readBody : Type := BodyTooBig | BodyFailed | BodyRead (b : bodyBytes).

Record httpRequest : Type := mkRequest {
  hr_Method : string;
  hr_EscapedPath : string;
  hr_Query : list (string * string);
  hr_Header : list (string * string);
  hr_IfModifiedSince : dateHeader;
  hr_IfUnmodifiedSince : dateHeader;
  hr_Body : readBody;
}.

(** [Get] of a query or a header: the first value, or the empty string. *)
Definition get_first (l : list (string * string)) (name : string) : string :=
  default "" ((λ x, x.2.2) <$> list_find (λ kv, kv.1 = name) l).

Record httpError : Set := mkHTTPError {
  he_status : Z;
  he_typ : errorType;
  he_tag : errorTag;
  he_path : string;
  he_allow : string;
}.

Inductive responseBody : Set :=
  | NoBody
  | ErrorDocument (e : httpError)
  | Content_ (e : encoded)
  | Status (fields : list (string * string)).

Record response : Set := mkResponse {
  rs_status : Z;
  rs_ETag : string;
  rs_LastModified : option time;
  rs_Location : string;
  rs_body : responseBody;
}.

(** ** Errors *)

Definition newHTTPError (status : Z) (typ : errorType) (tag : errorTag) : httpError := mkHTTPError status typ tag "" "".
Definition malformedRequest : httpError := newHTTPError 400 TypeProtocol TagMalformedMessage.
Definition unknownElement : httpError := newHTTPError 400 TypeProtocol TagUnknownElement.
Definition invalidValue : httpError := newHTTPError 400 TypeProtocol TagInvalidValue.
Definition notFound : httpError := newHTTPError 404 TypeProtocol TagInvalidValue.
Definition methodNotAllowed (allow : string) : httpError :=
  mkHTTPError 405 TypeProtocol TagOperationNotSupported "" allow.
Definition unsupportedMedia : httpError := newHTTPError 415 TypeProtocol TagOperationNotSupported.
Definition notAcceptable : httpError := newHTTPError 406 TypeProtocol TagOperationNotSupported.
Definition tooLarge : httpError := newHTTPError 413 TypeProtocol TagTooBig.
Definition preconditionFailed : httpError := newHTTPError 412 TypeProtocol TagOperationFailed.
Definition notImplemented : httpError := newHTTPError 501 TypeProtocol TagOperationNotSupported.
Definition internalError : httpError := newHTTPError 500 TypeApplication TagOperationFailed.
Definition unprocessable : httpError := newHTTPError 422 TypeProtocol TagInvalidValue.

(** The status of a data-tree error. *)
Definition tree_status (tag : errorTag) (validation : bool) : Z :=
  match tag with
  | TagMalformedMessage | TagUnknownElement | TagMissingElement => 400
  | TagInvalidValue => if validation then 422 else 400
  | TagAccessDenied => 403
  | TagDataExists => 409
  | TagDataMissing => 404
  | TagOperationNotSupported => 501
  | TagOperationFailed => 500
  | TagTooBig => 413
  | TagMissingAttribute => 500
  end.

(** [dataTreeHTTPError]; the operations return data-tree errors only. *)
Definition dataTreeHTTPError (e : error) : httpError :=
  match AsError e with
  | Some (OpError tag path validation) => mkHTTPError (tree_status tag validation) (type_of_tag tag) tag path ""
  | _ => internalError
  end.

(** [writeError]. *)
Definition writeError (e : httpError) : response := mkResponse (he_status e) "" None "" (ErrorDocument e).

(** ** Paths *)

(** [url.PathUnescape]. *)
Fixpoint PathUnescape (s : string) : option string :=
  match s with
  | "" => Some ""
  | String "%" (String a (String b s)) =>
      match hex_val a, hex_val b with
      | Some x, Some y => String (ascii_of_N (16 * x + y)) <$> PathUnescape s
      | _, _ => None
      end
  | String "%" _ => None
  | String c s => String c <$> PathUnescape s
  end.

(** The fmt verb [%02X] of a byte. *)
Definition hex_digit (n : N) : ascii := ascii_of_N (if (n <? 10)%N then 48 + n else 55 + n).
Definition percent (c : ascii) : string :=
  String "%" (String (hex_digit (N_of_ascii c / 16)) (String (hex_digit (N_of_ascii c mod 16)) "")).

Definition unreserved (c : ascii) : bool :=
  let n := N_of_ascii c in
  ((97 <=? n) && (n <=? 122) || (65 <=? n) && (n <=? 90) || (48 <=? n) && (n <=? 57))%N ||
  Ascii.eqb c "-" || Ascii.eqb c "." || Ascii.eqb c "_" || Ascii.eqb c "~".

Fixpoint escapeKey (value : string) : string :=
  match value with
  | "" => ""
  | String c s => if unreserved c then String c (escapeKey s) else percent c +:+ escapeKey s
  end.

(** Cutting at the first occurrence of a byte. *)
Definition cut (s : string) (c : ascii) : option (string * string) :=
  (λ i, (str_take i s, str_drop (S i) s)) <$> IndexByte s c.

(** [splitSegment]: module, name and key value. *)
Definition splitSegment (part : string) : httpError + (string * string * string) :=
  let '(rawName, rawValue) := default (part, "") (cut part "=") in
  let '(rawModule, rawName) := default ("", rawName) (cut rawName ":") in
  match PathUnescape rawModule, PathUnescape rawName, PathUnescape rawValue with
  | Some module, Some name, Some value => inr (module, name, value)
  | _, _, _ => inl malformedRequest
  end.

Definition parseDatastore (value : string) : httpError + Datastore :=
  if String.eqb value "" || String.eqb value Running then inr Running
  else if String.eqb value Candidate then inr Candidate
  else if String.eqb value Startup then inr Startup
  else inl malformedRequest.

Definition identityRunning : string := "ietf-datastores:running".
Definition identityCandidate : string := "ietf-datastores:candidate".
Definition identityStartup : string := "sim-device:startup".

Definition parseDatastoreIdentity (value : string) : httpError + Datastore :=
  if String.eqb value identityRunning then inr Running
  else if String.eqb value identityCandidate then inr Candidate
  else if String.eqb value identityStartup then inr Startup
  else inl malformedRequest.

Definition parseContent (value : string) : httpError + Content :=
  if String.eqb value "" || String.eqb value "all" then inr ContentAll
  else if String.eqb value "config" then inr ContentConfig
  else if String.eqb value "nonconfig" then inr ContentNonConfig
  else inl malformedRequest.

(** [resolveAddressing]: the base, the escaped data path and the datastore. *)
Definition resolveAddressing (q : httpRequest) : httpError + (string * string * Datastore) :=
  let path := hr_EscapedPath q in
  let query := get_first (hr_Query q) "datastore" in
  let data := HBasePath +:+ "/data" in
  let ds := HBasePath +:+ "/ds/" in
  if HasPrefix path data then
    let rest := str_drop (String.length data) path in
    if negb (String.eqb rest "") && negb (HasPrefix rest "/") then inl notFound
    else match parseDatastore query with
    | inl e => inl e
    | inr d => inr (data, rest, d)
    end
  else if HasPrefix path ds then
    if negb (String.eqb query "") then inl malformedRequest
    else
      let rest := str_drop (String.length ds) path in
      let '(identity, raw) :=
        match IndexByte rest "/" with Some i => (str_take i rest, str_drop i rest) | None => (rest, "") end in
      match parseDatastoreIdentity identity with
      | inl e => inl e
      | inr d => inr (ds +:+ identity, raw, d)
      end
  else inl notFound.

(** [target]. *)
Record target : Set := mkHTarget {
  ht_Base : string;
  ht_Path : string;
  ht_BasePath : string;
  ht_Name : string;
  ht_Segment : Segment;
  ht_Node : Node;
  ht_Collection : bool;
  ht_Datastore : Datastore;
  ht_Content : Content;
}.

(** [strings.Trim(s, "/")]. *)
Fixpoint trim_left_byte (c : ascii) (s : string) : string :=
  match s with String a s' => if Ascii.eqb a c then trim_left_byte c s' else s | "" => "" end.
Definition trim_byte (c : ascii) (s : string) : string :=
  str_rev (trim_left_byte c (str_rev (trim_left_byte c s))).

(** One step of the loop over the parts: the target at [parent] extended by [part].
    [last] tells that it is the last part. *)
Definition target_step (schema : schemaNode) (t : target) (parent part : string) (last : bool) : httpError + target :=
  match splitSegment part with
  | inl e => inl e
  | inr (module, name, value) =>
      if String.eqb name "" then inl malformedRequest
      else match Children schema parent with
      | Err _ => inl unknownElement
      | Ok children =>
          match nodeNamed children name with
          | None => inl unknownElement
          | Some node =>
              let list_ := bool_decide (nd_Kind node = KindList) in
              let at_ segment canonical collection :=
                let path := join parent canonical in
                if negb (String.eqb module "") && negb (String.eqb module (mod_Name (ModuleFor path)))
                then inl malformedRequest
                else inr (mkHTarget (ht_Base t) path parent name segment node collection (ht_Datastore t) (ht_Content t)) in
              if list_ && String.eqb value "" then
                if last then at_ (mkSeg name "" "") name true else inl malformedRequest
              else if list_ then
                at_ (mkSeg name (nd_Key node) value) (name +:+ "[" +:+ nd_Key node +:+ "=" +:+ value +:+ "]") false
              else if negb (String.eqb value "") then inl malformedRequest
              else at_ (mkSeg name "" "") name false
          end
      end
  end.

Fixpoint target_steps (schema : schemaNode) (t : target) (parent : string) (parts : list string) : httpError + target :=
  match parts with
  | [] => inr t
  | part :: rest =>
      match target_step schema t parent part (bool_decide (rest = [])) with
      | inl e => inl e
      | inr t => if ht_Collection t then inr t else target_steps schema t (ht_Path t) rest
      end
  end.

(** [parseTarget]. *)
Definition root_target (base : string) (ds : Datastore) (content : Content) : target :=
  mkHTarget base "" "" "" (mkSeg "" "" "") (mkSNode "" KindLeaf "" None) false ds content.

Definition parseTarget (r : Router) (q : httpRequest) : httpError + target :=
  match resolveAddressing q with
  | inl e => inl e
  | inr (base, raw, ds) =>
      match parseContent (get_first (hr_Query q) "content") with
      | inl e => inl e
      | inr content =>
          let t := root_target base ds content in
          let raw := trim_byte "/" raw in
          if String.eqb raw "" then inr t else target_steps (r_schema r) t "" (SplitByte raw "/")
      end
  end.

(** [locationFor]. *)
Definition location_segment (path : string) (i : nat) (s : Segment) : string :=
  (if Nat.eqb i 0 then mod_Name (ModuleFor path) +:+ ":" else "") +:+ seg_Name s +:+
  (if String.eqb (seg_Key s) "" then "" else "=" +:+ escapeKey (seg_Value s)).
Definition locationFor (base path : string) : string :=
  match Parse path with
  | Err _ => base
  | Ok segs => base +:+ "/" +:+ Join (imap (location_segment path) segs) "/"
  end.

(** ** Caching *)

(** FNV-1a of 64 bits. *)
Fixpoint fnv1a (h : Z) (s : string) : Z :=
  match s with
  | "" => h
  | String c s => fnv1a (u64 (Z.lxor h (Z.of_N (N_of_ascii c)) * 1099511628211)) s
  end.
Definition Sum64 (s : string) : Z := fnv1a 14695981039346656037 s.

(** The fmt verb [%016x]. *)
Fixpoint hex_digits (fuel : nat) (z : Z) (acc : string) : string :=
  match fuel with
  | O => acc
  | S fuel =>
      let d := Z.to_N (z mod 16) in
      hex_digits fuel (z / 16) (String (ascii_of_N (if (d <? 10)%N then 48 + d else 87 + d)) acc)
  end.
Definition quote : string := String (ascii_of_nat 34) "".

Definition format_name (f : Format) : string := match f with FormatJSON => "json" | FormatXML => "xml" end.
Definition UnixNano (t : time) : Z := i64 (t - unix_epoch).

(** [validators]. *)
Definition etag_of (ds : Datastore) (f : Format) (changed : time) : string :=
  quote +:+ hex_digits 16 (Sum64 (ds +:+ "|" +:+ format_name f +:+ "|" +:+ Itoa (UnixNano changed))) "" +:+ quote.
Definition validators (m : Memory) (ctx : context) (ds : Datastore) (f : Format) : res (string * time) :=
  changed ← ConfigChangedAt m ctx ds;
  Ok (etag_of ds f changed, changed).

(** [setValidators]. *)
Definition setValidators (etag : string) (changed : time) (rs : response) : response :=
  mkResponse (rs_status rs) etag (if (changed =? 0)%Z then None else Some changed) (rs_Location rs) (rs_body rs).

Definition etagMatches (header etag : string) : bool :=
  String.eqb (TrimSpace header) "*" ||
  existsb (λ candidate, String.eqb (TrimSpace candidate) etag) (SplitByte header ",").

Definition truncate_second (t : time) : time := (t - t mod second)%Z.
Definition notModifiedSince (h : dateHeader) (changed : time) : bool :=
  match h with HTTPDate since => negb (since <? truncate_second changed)%Z | _ => false end.
Definition modifiedAfter (h : dateHeader) (changed : time) : bool :=
  match h with HTTPDate since => (since <? truncate_second changed)%Z | _ => false end.

Definition notModified (q : httpRequest) (etag : string) (changed : time) : bool :=
  let header := get_first (hr_Header q) "If-None-Match" in
  if negb (String.eqb header "") then etagMatches header etag else notModifiedSince (hr_IfModifiedSince q) changed.

(** [checkPreconditions]: the rejection with its headers. *)
Definition checkPreconditions (m : Memory) (ctx : context) (q : httpRequest) (ds : Datastore) : option response :=
  let header := get_first (hr_Header q) "If-Match" in
  if String.eqb header "" && match hr_IfUnmodifiedSince q with NoDate => true | _ => false end then None
  else match validators m ctx ds FormatJSON, validators m ctx ds FormatXML with
  | Ok (etagJSON, changed), Ok (etagXML, _) =>
      let failed :=
        if negb (String.eqb header "") then negb (etagMatches header etagJSON) && negb (etagMatches header etagXML)
        else modifiedAfter (hr_IfUnmodifiedSince q) changed in
      if failed then Some (setValidators etagJSON changed (writeError preconditionFailed)) else None
  | _, _ => Some (writeError internalError)
  end.

(** ** Handlers *)

Definition mediaTypeOf (f : Format) : string := match f with FormatXML => MediaTypeXML | FormatJSON => MediaTypeJSON end.

(** [requestFormat] and [responseFormat]. *)
Definition requestFormat (contentType : string) : httpError + Format :=
  let media := TrimSpace (hd "" (SplitByte contentType ";")) in
  if String.eqb media "" || String.eqb media MediaTypeJSON then inr FormatJSON
  else if String.eqb media MediaTypeXML then inr FormatXML
  else inl unsupportedMedia.

Definition responseFormat (accept : string) : httpError + Format :=
  if String.eqb accept "" || Contains accept "*/*" || Contains accept MediaTypeJSON then inr FormatJSON
  else if Contains accept MediaTypeXML then inr FormatXML
  else inl notAcceptable.

(** [checkWritable]. *)
Definition checkWritable (t : target) (method : string) : option httpError :=
  if String.eqb (ht_Datastore t) Startup then Some (methodNotAllowed "GET, HEAD")
  else if String.eqb method "PUT" && ht_Collection t then Some (methodNotAllowed "GET, HEAD, PATCH, POST, DELETE")
  else if String.eqb method "POST" && negb (ht_Collection t) then Some (methodNotAllowed "GET, HEAD, PUT, PATCH, DELETE")
  else None.

(** [opsTarget]. *)
Definition opsTarget (t : target) : Target :=
  mkTarget (ht_Path t) (ht_BasePath t) (ht_Name t) (ht_Node t) (seg_Key (ht_Segment t)) (seg_Value (ht_Segment t))
    (ht_Collection t).

(** [decodeBody]. *)
Definition decodeBody (q : httpRequest) : httpError + Payload :=
  match requestFormat (get_first (hr_Header q) "Content-Type") with
  | inl e => inl e
  | inr format =>
      match hr_Body q with
      | BodyTooBig => inl tooLarge
      | BodyFailed => inl malformedRequest
      | BodyRead b =>
          match Decode format b with Ok payload => inr payload | Err e => inl (dataTreeHTTPError e) end
      end
  end.

Definition status_only (status : Z) : response := mkResponse status "" None "" NoBody.

Section server.
Context (r : Router) (now : time) (ctx : context).

Abbreviation handled := (response * Memory * list Event)%type.

(** [handleGet]. *)
Definition handleGet (m : Memory) (q : httpRequest) (t : target) : response :=
  match responseFormat (get_first (hr_Header q) "Accept") with
  | inl e => writeError e
  | inr format =>
      match ops_Get r m ctx (ht_Datastore t) (ht_Path t) (ht_Content t) with
      | Err e => writeError (dataTreeHTTPError e)
      | Ok node =>
          match validators m ctx (ht_Datastore t) format with
          | Err _ => writeError internalError
          | Ok (etag, changed) =>
              if notModified q etag changed then setValidators etag changed (status_only 304)
              else setValidators etag changed
                     (mkResponse 200 "" None ""
                        (if String.eqb (hr_Method q) "HEAD" then NoBody else Content_ (Encode format node)))
          end
      end
  end.

(** [resourceMissing]. *)
Definition resourceMissing (m : Memory) (t : target) : bool :=
  match ops_Get r m ctx (ht_Datastore t) (ht_Path t) ContentAll with
  | Ok _ => false
  | Err e => match AsError e with Some (OpError TagDataMissing _ _) => true | _ => false end
  end.

(** [handleWrite]: [method] is PUT, PATCH or POST. *)
Definition handleWrite (m : Memory) (q : httpRequest) (t : target) (method : string) : handled :=
  match checkWritable t method with
  | Some e => (writeError e, m, [])
  | None =>
      match checkPreconditions m ctx q (ht_Datastore t) with
      | Some rejection => (rejection, m, [])
      | None =>
          match decodeBody q with
          | inl e => (writeError e, m, [])
          | inr payload =>
              if String.eqb method "PUT" then
                let created := resourceMissing m t in
                match ops_Put r m now ctx (ht_Datastore t) (opsTarget t) payload with
                | (Err e, m, events) => (writeError (dataTreeHTTPError e), m, events)
                | (Ok _, m, events) =>
                    (if created then mkResponse 201 "" None (locationFor (ht_Base t) (ht_Path t)) NoBody
                     else status_only 200, m, events)
                end
              else if String.eqb method "PATCH" then
                match ops_Patch r m now ctx (ht_Datastore t) (opsTarget t) payload with
                | (Err e, m, events) => (writeError (dataTreeHTTPError e), m, events)
                | (Ok _, m, events) => (status_only 204, m, events)
                end
              else
                match ops_Post r m now ctx (ht_Datastore t) (opsTarget t) payload with
                | (Err e, m, events) => (writeError (dataTreeHTTPError e), m, events)
                | (Ok created, m, events) =>
                    (mkResponse 201 "" None (locationFor (ht_Base t) created) NoBody, m, events)
                end
          end
      end
  end.

(** [handleDelete]. *)
Definition handleDelete (m : Memory) (q : httpRequest) (t : target) : handled :=
  match checkWritable t "DELETE" with
  | Some e => (writeError e, m, [])
  | None =>
      match checkPreconditions m ctx q (ht_Datastore t) with
      | Some rejection => (rejection, m, [])
      | None =>
          match ops_Delete r m now ctx (ht_Datastore t) (opsTarget t) with
          | (Err e, m, events) => (writeError (dataTreeHTTPError e), m, events)
          | (Ok _, m, events) => (status_only 204, m, events)
          end
      end
  end.

(** [handleData]. *)
Definition handleData (m : Memory) (q : httpRequest) : handled :=
  match parseTarget r q with
  | inl e => (writeError e, m, [])
  | inr t =>
      let method := hr_Method q in
      if String.eqb method "GET" || String.eqb method "HEAD" then (handleGet m q t, m, [])
      else if bool_decide (method ∈ ["PUT"; "PATCH"; "POST"]) then handleWrite m q t method
      else if String.eqb method "DELETE" then handleDelete m q t
      else (writeError (methodNotAllowed allowDataMethods), m, [])
  end.
End server.

(** [handleNotImplemented]: the operations and streams resources. *)
Definition handleNotImplemented : response := writeError notImplemented.

(** ** Simulation endpoints *)

(** The body of a simulation request as [decodeJSON] leaves it in the request struct. *)
Inductive simBody (A : Type) : Type := SimTooBig | SimMalformed | SimDecoded (a : A).
Arguments SimTooBig {A}. Arguments SimMalformed {A}. Arguments SimDecoded {A} a.

Definition decodeSim {A} (b : simBody A) : httpError + A :=
  match b with SimTooBig => inl tooLarge | SimMalformed => inl malformedRequest | SimDecoded a => inr a end.

(** The three simulator interfaces over a state [W]; an absent one is nil. *)
Record simulators (W : Type) : Type := mkSimulators {
  sim_Storm : option (W → context → string → Z → res unit * W);
  sim_SyncLoss : option (W → context → string → res string * W);
  sim_RadioFailure : option (W → context → string → float64 → res string * W);
  sim_RadioRestore : option (W → context → string → res string * W);
}.
Arguments sim_Storm {W}. Arguments sim_SyncLoss {W}. Arguments sim_RadioFailure {W}. Arguments sim_RadioRestore {W}.

Section simulate.
Context {W : Type} (sim : simulators W) (ctx : context).

(** The guards the four endpoints share: the method, the interface, the body. *)
Definition simulate {A I : Type} (w : W) (method : string) (iface : option I) (body : simBody A)
    (run : I → A → response * W) : response * W :=
  if negb (String.eqb method "POST") then (writeError (methodNotAllowed "POST"), w)
  else match iface with
  | None => (writeError notImplemented, w)
  | Some f => match decodeSim body with inl e => (writeError e, w) | inr a => run f a end
  end.

Definition accepted (fields : list (string * string)) : response := mkResponse 202 "" None "" (Status fields).

Definition handleStorm (w : W) (method : string) (body : simBody (string * Z)) : response * W :=
  simulate w method (sim_Storm sim) body (λ storm '(port, packets),
    if String.eqb port "" then (writeError invalidValue, w)
    else match storm w ctx port packets with
    | (Err _, w) => (writeError unprocessable, w)
    | (Ok _, w) => (accepted [("status", "ok"); ("port", port); ("packets", FormatUint packets)], w)
    end).

Definition handleSyncLoss (w : W) (method : string) (body : simBody string) : response * W :=
  simulate w method (sim_SyncLoss sim) body (λ loss port,
    match loss w ctx port with
    | (Err _, w) => (writeError unprocessable, w)
    | (Ok state, w) => (accepted [("status", "ok"); ("port", port); ("state", state)], w)
    end).

Definition handleRadioFailure (w : W) (method : string) (body : simBody (string * float64)) : response * W :=
  simulate w method (sim_RadioFailure sim) body (λ fail '(link, fadeDB),
    if F64.ltb fadeDB (F64.of_Z 0) then (writeError invalidValue, w)
    else match fail w ctx link fadeDB with
    | (Err _, w) => (writeError unprocessable, w)
    | (Ok state, w) => (accepted [("status", "ok"); ("link", link); ("state", state)], w)
    end).

Definition handleRadioRestore (w : W) (method : string) (body : simBody string) : response * W :=
  simulate w method (sim_RadioRestore sim) body (λ restore link,
    match restore w ctx link with
    | (Err _, w) => (writeError unprocessable, w)
    | (Ok state, w) => (accepted [("status", "ok"); ("link", link); ("state", state)], w)
    end).
End simulate.
