(* ===== verification/Restful.v ===== *)
(** * Properties of the RESTCONF server ([internal/restconf])

    What a request leaves in the store, what a Location header addresses, what an
    entity-tag protects, and what a representation decodes to. *)

From S2P Require Import Prelude GoStrings GoFloat GoParse GoFormat GoValue GoNet Persist Store Clock Event Path Model Reflect Reflected Hydrate Schema Oid Router Ops Datatree Edits Read Trees GetConfig Codec Resource Http.

(** ** Requests *)

(** The datastore holds a snapshot that rebuilds into a valid device, and one
    configuration change was announced. *)
Definition committed (root : Device) (m' : Memory) (ds : Datastore) (events : list Event) : Prop :=
  ∃ final next d reason, datastore m' ds = Ok final ∧ (∀ p, same_value (final !! p) (next !! p)) ∧
    deviceFromValues root next = Ok d ∧ Device_ok d ∧ events = publish reason.

Definition outcome {A} (root : Device) (m : Memory) (ds : Datastore) (x : res A * Memory * list Event) : Prop :=
  let '(a, m', events) := x in
  match a with Err _ => m' = m ∧ events = [] | Ok _ => committed root m' ds events end.

(** The contract of the data-tree editor the operations rely on. *)
Class EditsAtomically (root : Device) (r : Router) : Prop :=
  edit_contract : ∀ m now ctx ds req, match Edit r m now ctx ds req with
    | (Err _, m') => m' = m
    | (Ok _, m') => ∃ next final d, deviceFromValues root next = Ok d ∧ Device_ok d ∧
        datastore m' ds = Ok final ∧ ∀ p, same_value (final !! p) (next !! p)
    end.

Lemma new_router_edits root r : NewRouter root = Ok r → EditsAtomically root r.
Proof.
  intros Hr m now ctx ds req. destruct (Edit r m now ctx ds req) as [x m'] eqn:E.
  pose proof (Edit_outcome _ _ _ _ _ _ _ _ _ Hr E) as H. clear Hr E. destruct x; [|exact H].
  destruct H as (? & next & final & d & _ & _ & H). by exists next, final, d.
Qed.

Section outcomes.
Context (root : Device) (r : Router) `{!EditsAtomically root r} (m : Memory) (now : time) (ctx : context) (ds : Datastore).

Lemma apply_outcome t op documents reason : outcome root m ds (apply r m now ctx ds t op documents reason).
Proof.
  unfold apply. pose proof (edit_contract m now ctx ds (mkEdit (tg_BasePath t) op documents)) as E.
  destruct (Edit _ _ _ _ _ _) as [[u|e] m1].
  - destruct E as (next & final & d & Hd & Hok & Hf & Hs). by exists final, next, d, reason.
  - unfold asTreeError. by destruct (AsError e).
Qed.

Lemma put_outcome t p : outcome root m ds (ops_Put r m now ctx ds t p).
Proof. unfold ops_Put. destruct (tg_Collection t); [done|]. destruct (_ ≫= _); [apply apply_outcome|done]. Qed.

Lemma patch_outcome t p : outcome root m ds (ops_Patch r m now ctx ds t p).
Proof. unfold ops_Patch. destruct (_ ≫= _); [apply apply_outcome|done]. Qed.

Lemma post_outcome t p : outcome root m ds (ops_Post r m now ctx ds t p).
Proof.
  unfold ops_Post. destruct (negb _); [done|]. destruct (pl_IsScalar p); [done|]. destruct (res_map _ _) as [documents|]; [|done].
  pose proof (apply_outcome t OpCreate documents ("restconf POST " +:+ tg_Path t)) as H.
  destruct (apply _ _ _ _ _ _ _ _ _) as [[[] m1] events]; exact H.
Qed.

Lemma delete_outcome t : outcome root m ds (ops_Delete r m now ctx ds t).
Proof.
  unfold ops_Delete, deleteCollection. destruct (tg_Collection t); [|apply apply_outcome].
  destruct (ops_Get _ _ _ _ _ _); [|done]. case_bool_decide; [done|apply apply_outcome].
Qed.

Lemma tree_error_status e : (400 ≤ he_status (dataTreeHTTPError e))%Z.
Proof.
  unfold dataTreeHTTPError. destruct (AsError e) as [[]|]; simpl; try lia. destruct tag; simpl; try lia. by destruct validation.
Qed.

(** A handler answers with success exactly when it committed. *)
Definition answered (t : target) (q : httpRequest) (x : response * Memory * list Event) : Prop :=
  let '(rs, m', events) := x in
  ((rs_status rs < 200 ∨ 300 ≤ rs_status rs)%Z ∧ m' = m ∧ events = []) ∨
  ((200 ≤ rs_status rs < 300)%Z ∧ ht_Datastore t ≠ Startup ∧ checkPreconditions m ctx q (ht_Datastore t) = None ∧
   committed root m' (ht_Datastore t) events).

Lemma refused t q e : (400 ≤ he_status e)%Z → answered t q (writeError e, m, []).
Proof. intros H. left. simpl. split; [lia|done]. Qed.

Lemma precondition_status q d rs : checkPreconditions m ctx q d = Some rs → (400 ≤ rs_status rs)%Z.
Proof.
  unfold checkPreconditions. destruct (_ && _); [done|]. destruct (validators _ _ _ _) as [[]|]; [|by intros [= <-]].
  destruct (validators _ _ _ _) as [[]|]; [|by intros [= <-]]. destruct (if negb _ then _ else _); [|done]. by intros [= <-].
Qed.

(** The common tail: an operation's outcome turned into a response. *)
Lemma finish {A} t q (x : res A * Memory * list Event) (f : A → response) :
  ht_Datastore t ≠ Startup → checkPreconditions m ctx q (ht_Datastore t) = None →
  (∀ a, (200 ≤ rs_status (f a) < 300)%Z) → outcome root m (ht_Datastore t) x →
  answered t q (let '(a, m', events) := x in
                match a with Err e => (writeError (dataTreeHTTPError e), m', events) | Ok a => (f a, m', events) end).
Proof.
  intros Hds Hpre Hf H. destruct x as [[[a|e] m'] events].
  - by right.
  - destruct H as [-> ->]. apply refused, tree_error_status.
Qed.

Lemma checkWritable_spec t method :
  match checkWritable t method with Some e => (400 ≤ he_status e)%Z | None => ht_Datastore t ≠ Startup end.
Proof.
  unfold checkWritable. destruct (String.eqb_spec (ht_Datastore t) Startup); [done|].
  destruct (_ && _); [done|]. by destruct (_ && _).
Qed.
End outcomes.

Section handlers.
Context (root : Device) (r : Router) `{!EditsAtomically root r} (m : Memory) (now : time) (ctx : context).

Lemma decodeBody_status q e : decodeBody q = inl e → (400 ≤ he_status e)%Z.
Proof.
  unfold decodeBody, requestFormat. repeat case_match; intros [= <-]; simplify_eq; try done; apply tree_error_status.
Qed.

Lemma handleWrite_answered q t method : answered root m ctx t q (handleWrite r now ctx m q t method).
Proof.
  unfold handleWrite. pose proof (checkWritable_spec t method) as Hw. destruct (checkWritable t method) as [e|]; [by apply refused|].
  destruct (checkPreconditions m ctx q (ht_Datastore t)) as [rs|] eqn:Hp.
  { left. apply precondition_status in Hp. split; [lia|done]. }
  destruct (decodeBody q) as [e|payload] eqn:Hb; [by apply refused, (decodeBody_status q)|].
  destruct (String.eqb method "PUT"); [|destruct (String.eqb method "PATCH")].
  - pose proof (finish root m ctx t q (ops_Put r m now ctx (ht_Datastore t) (opsTarget t) payload)
      (λ _, if resourceMissing r ctx m t then mkResponse 201 "" None (locationFor (ht_Base t) (ht_Path t)) NoBody
            else status_only 200) Hw Hp) as H.
    destruct (ops_Put _ _ _ _ _ _ _) as [[[] ?] ?] eqn:E; apply H; try (intros; destruct (resourceMissing _ _ _ _); simpl; lia);
      rewrite <- E; by apply put_outcome.
  - pose proof (finish root m ctx t q (ops_Patch r m now ctx (ht_Datastore t) (opsTarget t) payload) (λ _, status_only 204) Hw Hp) as H.
    destruct (ops_Patch _ _ _ _ _ _ _) as [[[] ?] ?] eqn:E; apply H; try (intros; simpl; lia); rewrite <- E; by apply patch_outcome.
  - pose proof (finish root m ctx t q (ops_Post r m now ctx (ht_Datastore t) (opsTarget t) payload)
      (λ created, mkResponse 201 "" None (locationFor (ht_Base t) created) NoBody) Hw Hp) as H.
    destruct (ops_Post _ _ _ _ _ _ _) as [[[] ?] ?] eqn:E; apply H; try (intros; simpl; lia); rewrite <- E; by apply post_outcome.
Qed.

Lemma handleDelete_answered q t : answered root m ctx t q (handleDelete r now ctx m q t).
Proof.
  unfold handleDelete. pose proof (checkWritable_spec t "DELETE") as Hw. destruct (checkWritable t "DELETE") as [e|]; [by apply refused|].
  destruct (checkPreconditions m ctx q (ht_Datastore t)) as [rs|] eqn:Hp.
  { left. apply precondition_status in Hp. split; [lia|done]. }
  pose proof (finish root m ctx t q (ops_Delete r m now ctx (ht_Datastore t) (opsTarget t)) (λ _, status_only 204) Hw Hp) as H.
  destruct (ops_Delete _ _ _ _ _ _) as [[[] ?] ?] eqn:E; apply H; try (intros; simpl; lia); rewrite <- E; by apply delete_outcome.
Qed.
End handlers.

Lemma splitSegment_status part e : splitSegment part = inl e → (400 ≤ he_status e)%Z.
Proof. unfold splitSegment. repeat case_match; intros [= <-]; done. Qed.

Lemma target_step_status schema t parent part last e : target_step schema t parent part last = inl e → (400 ≤ he_status e)%Z.
Proof.
  unfold target_step. destruct (splitSegment part) as [e'|[[module name] value]] eqn:E;
    [intros [= <-]; by apply splitSegment_status in E|].
  repeat case_match; intros [= <-]; done.
Qed.

Lemma target_steps_status schema parts : ∀ t parent e, target_steps schema t parent parts = inl e → (400 ≤ he_status e)%Z.
Proof.
  induction parts as [|part parts IH]; intros t parent e; simpl; [done|].
  destruct (target_step _ _ _ _ _) as [e'|t'] eqn:E; [intros [= <-]; by apply target_step_status in E|].
  destruct (ht_Collection t'); [done|]. apply IH.
Qed.

Lemma parseTarget_status r q e : parseTarget r q = inl e → (400 ≤ he_status e)%Z.
Proof.
  unfold parseTarget. destruct (resolveAddressing q) as [e'|[[base raw] ds]] eqn:E.
  - intros [= <-]. revert E. unfold resolveAddressing, parseDatastore, parseDatastoreIdentity.
    repeat case_match; intros; simplify_eq; done.
  - unfold parseContent. repeat case_match; try (intros; simplify_eq; done); by apply target_steps_status.
Qed.

(** ** Properties *)

(** C35: a RESTCONF request is all or nothing. A response that is no success, and any answer
    to GET or HEAD, leaves the store exactly as it was and announces nothing.  A successful
    PUT, PATCH, POST or DELETE addressed a resource outside the startup datastore and passed
    its preconditions; the datastore then holds a snapshot that rebuilds into a device
    satisfying every rule of the model, and exactly one configuration change is announced. *)
Theorem restconf_atomic root r now ctx m q rs m' events :
  NewRouter root = Ok r → handleData r now ctx m q = (rs, m', events) →
  ((rs_status rs < 200 ∨ 300 ≤ rs_status rs)%Z ∨ hr_Method q = "GET" ∨ hr_Method q = "HEAD" → m' = m ∧ events = []) ∧
  ((200 ≤ rs_status rs < 300)%Z → hr_Method q ≠ "GET" → hr_Method q ≠ "HEAD" →
     ∃ t, parseTarget r q = inr t ∧ ht_Datastore t ≠ Startup ∧ checkPreconditions m ctx q (ht_Datastore t) = None ∧
       committed root m' (ht_Datastore t) events).
Proof.
  intros Hed%new_router_edits. unfold handleData. destruct (parseTarget r q) as [e|t] eqn:Ht.
  - intros [= <- <- <-]. apply parseTarget_status in Ht. split; [done|]. simpl. lia.
  - destruct (String.eqb_spec (hr_Method q) "GET") as [Hg|Hg]; [|destruct (String.eqb_spec (hr_Method q) "HEAD") as [Hh|Hh]];
      cbn [orb]; [by intros [= <- <- <-]..|].
    assert (∀ x, answered root m ctx t q x → x = (rs, m', events) →
      ((rs_status rs < 200 ∨ 300 ≤ rs_status rs)%Z ∨ hr_Method q = "GET" ∨ hr_Method q = "HEAD" → m' = m ∧ events = []) ∧
      ((200 ≤ rs_status rs < 300)%Z → hr_Method q ≠ "GET" → hr_Method q ≠ "HEAD" →
         ∃ t', @inr httpError target t = inr t' ∧ ht_Datastore t' ≠ Startup ∧ checkPreconditions m ctx q (ht_Datastore t') = None ∧
           committed root m' (ht_Datastore t') events)) as Hfin.
    { intros x Hx ->. destruct Hx as [(Hs & -> & ->)|(Hs & Hds & Hp & Hc)]; split; try done.
      - lia.
      - intros [H|[H|H]]; [lia|done|done].
      - intros. by exists t. }
    case_bool_decide; [apply Hfin, handleWrite_answered; apply Hed|].
    destruct (String.eqb (hr_Method q) "DELETE"); [apply Hfin, handleDelete_answered; apply Hed|].
    apply Hfin, refused. simpl. lia.
Qed.

(** Renaming the device by a PUT. *)
Abbreviation put_name :=
  (mkRequest "PUT" "/restconf/data/system-info/name" [] [] NoDate NoDate
     (BodyRead (mkBody false (Some (JObject [("sim-device:name", JString "new")], false)) [] None))).
Definition done_put : response * Memory * list Event := handleData default_router 9 true named_store put_name.

Lemma restconf_atomic_witness : rs_status done_put.1.1 = 200%Z ∧
  ∃ t, parseTarget default_router put_name = inr t ∧ committed DefaultDevice done_put.1.2 (ht_Datastore t) done_put.2.
Proof.
  assert (H : rs_status done_put.1.1 = 200%Z) by (vm_compute; reflexivity).
  split; [exact H|].
  assert (E : handleData default_router 9 true named_store put_name = (done_put.1.1, done_put.1.2, done_put.2))
    by (change (handleData default_router 9 true named_store put_name) with done_put; destruct done_put as [[? ?] ?]; reflexivity).
  destruct (proj2 (restconf_atomic DefaultDevice default_router 9 true named_store put_name _ _ _ default_router_built E))
    as (t & Ht & _ & _ & Hc).
  - rewrite H. lia.
  - discriminate.
  - discriminate.
  - exists t. exact (conj Ht Hc).
Defined.

(** ** Locations *)

Lemma PathUnescape_plain_byte c s : c ≠ "%"%char → PathUnescape (String c s) = String c <$> PathUnescape s.
Proof. destruct c as [[] [] [] [] [] [] [] []]; done. Qed.

Lemma PathUnescape_percent c s : PathUnescape (percent c +:+ s) = String c <$> PathUnescape s.
Proof. destruct c as [[] [] [] [] [] [] [] []]; reflexivity. Qed.

Lemma PathUnescape_plain s : has_byte s "%" = false → PathUnescape s = Some s.
Proof.
  induction s as [|c s IH]; [done|]. rewrite has_byte_cons, orb_false_iff. intros [Hc Hs].
  apply Ascii.eqb_neq in Hc. by rewrite PathUnescape_plain_byte, IH.
Qed.

(** Percent-encoding a key loses nothing, and the result holds no delimiter. *)
Lemma PathUnescape_escapeKey v : PathUnescape (escapeKey v) = Some v.
Proof.
  induction v as [|c v IH]; [done|]. cbn [escapeKey]. destruct (unreserved c) eqn:E.
  - rewrite PathUnescape_plain_byte, IH; [done|]. by intros ->.
  - by rewrite PathUnescape_percent, IH.
Qed.

Lemma escapeKey_delimiter v c : c = "/"%char ∨ c = "="%char ∨ c = ":"%char → has_byte (escapeKey v) c = false.
Proof.
  intros Hc. assert (∀ a, has_byte (if unreserved a then String a "" else percent a) c = false) as Ha.
  { intros a. destruct Hc as [-> |[-> | ->]]; destruct a as [[] [] [] [] [] [] [] []]; reflexivity. }
  induction v as [|a v IH]; [done|]. cbn [escapeKey]. specialize (Ha a). destruct (unreserved a).
  - change (String a (escapeKey v)) with (String a "" +:+ escapeKey v). by rewrite has_byte_app, Ha, IH.
  - by rewrite has_byte_app, Ha, IH.
Qed.

Lemma cut_app a b c : has_byte a c = false → cut (a +:+ String c b) c = Some (a, b).
Proof.
  intros H. unfold cut. rewrite IndexByte_app by done. cbn [IndexByte]. rewrite Ascii.eqb_refl. cbn [fmap option_fmap option_map].
  rewrite Nat.add_0_r, str_take_app. f_equal. f_equal.
  replace (a +:+ String c b) with ((a +:+ String c "") +:+ b) by (by rewrite str_app_assoc).
  rewrite <- (str_drop_app (a +:+ String c "") b) at 2. f_equal. rewrite str_length_app. simpl. lia.
Qed.

Lemma cut_none a c : has_byte a c = false → cut a c = None.
Proof. unfold cut, has_byte. by destruct (IndexByte a c). Qed.

(** Names as the schema has them: no byte with a meaning in a resource path. *)
Definition url_name (s : string) : bool :=
  negb (has_byte s "%") && negb (has_byte s "=") && negb (has_byte s ":") && negb (has_byte s "/").
Fixpoint url_schema (s : schemaNode) : bool :=
  match s with SNode _ l => forallb (λ c, match c with SNode n _ => url_name (nd_Name n) end && url_schema c) l end.

Lemma url_schema_child s name c : url_schema s = true → child s name = Some c →
  url_name name = true ∧ nd_Name (sn_node c) = name ∧ url_schema c = true.
Proof.
  destruct s as [n l]. unfold child, child_at. cbn [url_schema sn_children].
  destruct (list_find _ l) as [[i x]|] eqn:E; [|done]. intros Hall [= ->].
  apply list_find_Some in E as (Hi & <- & _). rewrite forallb_forall in Hall.
  specialize (Hall c (proj1 (list_elem_of_In _ _) (list_elem_of_lookup_2 _ _ _ Hi))).
  apply andb_true_iff in Hall as [H1 H2]. by destruct c.
Qed.

Lemma router_url_schema r `{!BuiltRouter r} : url_schema (r_schema r) = true.
Proof.
  assert (match buildSchema device_type with Ok s => url_schema s | Err _ => false end = true) as H
    by (vm_compute; reflexivity).
  by rewrite built_schema in H.
Qed.

Lemma split_named module name value tail :
  (module = "" ∨ url_name module = true) → url_name name = true → PathUnescape tail = Some value → 
  ∀ part, part = (if String.eqb module "" then "" else module +:+ ":") +:+ name +:+ (if String.eqb value "" then "" else "=" +:+ tail) →
  (value = "" → tail = "") →
  splitSegment part = inr (module, name, value).
Proof.
  unfold url_name. intros Hm Hn Ht part -> Htail.
  rewrite !andb_true_iff, !negb_true_iff in Hn. destruct Hn as (((n1 & n2) & n3) & n4).
  set (pre := (if String.eqb module "" then "" else module +:+ ":") +:+ name).
  assert (has_byte pre "=" = false) as Hpre.
  { unfold pre. destruct (String.eqb_spec module ""); [done|]. destruct Hm as [?|Hm]; [done|].
    rewrite !andb_true_iff, !negb_true_iff in Hm. destruct Hm as (((_ & m2) & _) & _). by rewrite !has_byte_app, m2, n2. }
  assert (default ("", pre) (cut pre ":") = (module, name) ∧ PathUnescape module = Some module) as [Hcut Hmod].
  { unfold pre. destruct (String.eqb_spec module "") as [->|Hne]; [by rewrite cut_none|].
    destruct Hm as [?|Hm]; [done|]. rewrite !andb_true_iff, !negb_true_iff in Hm. destruct Hm as (((m1 & m2) & m3) & _).
    rewrite str_app_assoc. change (":" +:+ name) with (String ":" name). rewrite cut_app by done. split; [done|].
    by apply PathUnescape_plain. }
  unfold splitSegment.
  assert (default (pre +:+ (if String.eqb value "" then "" else "=" +:+ tail), "")
    (cut (pre +:+ (if String.eqb value "" then "" else "=" +:+ tail)) "=") = (pre, tail)) as Hc.
  { destruct (String.eqb_spec value "") as [->|].
    - rewrite str_app_nil_r, cut_none by done. by rewrite Htail.
    - change ("=" +:+ tail) with (String "=" tail). by rewrite cut_app. }
  replace ((if String.eqb module "" then "" else module +:+ ":") +:+ name +:+ (if String.eqb value "" then "" else "=" +:+ tail))
    with (pre +:+ (if String.eqb value "" then "" else "=" +:+ tail)) by (unfold pre; by rewrite str_app_assoc).
  rewrite Hc, Hcut, Hmod, Ht, (PathUnescape_plain name) by done. done.
Qed.

(** The paths of resources: nodes of the schema, a list with its key, or without it at the
    end. *)
Definition fits (c : schemaNode) (seg : Segment) (last : bool) : bool :=
  match nd_Kind (sn_node c) with
  | KindLeaf => String.eqb (seg_Key seg) "" && last
  | KindContainer => String.eqb (seg_Key seg) ""
  | KindList => if String.eqb (seg_Key seg) "" then last else String.eqb (seg_Key seg) (nd_Key (sn_node c))
  end.
Fixpoint addressable (s : schemaNode) (segs : list Segment) : bool :=
  match segs with
  | [] => true
  | seg :: rest =>
      match child s (seg_Name seg) with
      | None => false
      | Some c => fits c seg (bool_decide (rest = [])) && addressable c rest
      end
  end.

Definition plain_segment (seg : Segment) : string :=
  seg_Name seg +:+ (if String.eqb (seg_Key seg) "" then "" else "=" +:+ escapeKey (seg_Value seg)).

Section location.
Context (r : Router).

Lemma target_step_ok pre seg s c t module last :
  Forall wf_segment pre → wf_segment seg → schema_walk (r_schema r) pre = Ok s → url_schema s = true →
  child s (seg_Name seg) = Some c → fits c seg last = true →
  (module = "" ∨ url_name module = true) →
  (module = "" ∨ module = mod_Name (ModuleFor (Path_String (pre ++ [seg])))) →
  ∃ t', target_step (r_schema r) t (Path_String pre)
     ((if String.eqb module "" then "" else module +:+ ":") +:+ plain_segment seg) last = inr t' ∧
   ht_Base t' = ht_Base t ∧ ht_Path t' = Path_String (pre ++ [seg]) ∧ ht_Datastore t' = ht_Datastore t ∧
   ht_Content t' = ht_Content t ∧
   ht_Collection t' = bool_decide (nd_Kind (sn_node c) = KindList) && String.eqb (seg_Key seg) "".
Proof.
  intros Hpre Hseg Hw Hu Hc Hf Hm Hm'. destruct (url_schema_child _ _ _ Hu Hc) as (Hname & Hn & _).
  destruct Hseg as (Hne & _ & Hkv). unfold target_step, plain_segment.
  assert (splitSegment ((if String.eqb module "" then "" else module +:+ ":") +:+ seg_Name seg +:+
    (if String.eqb (seg_Key seg) "" then "" else "=" +:+ escapeKey (seg_Value seg))) =
    inr (module, seg_Name seg, seg_Value seg)) as ->.
  { apply (split_named module (seg_Name seg) (seg_Value seg) (escapeKey (seg_Value seg))); try done.
    - apply PathUnescape_escapeKey.
    - by destruct Hkv as [[-> ->]|(Hk & Hv & _)]; [|destruct (String.eqb_spec (seg_Key seg) ""), (String.eqb_spec (seg_Value seg) "")].
    - by intros ->. }
  destruct (String.eqb_spec (seg_Name seg) ""); [done|]. rewrite (schema_walk_parse _ _ _ Hpre Hw), (nodeNamed_of_child _ _ _ Hc).
  assert (∀ canonical, canonical = seg_String seg → join (Path_String pre) canonical = Path_String (pre ++ [seg])) as Hjoin
    by (intros ? ->; by apply join_snoc).
  assert (negb (String.eqb module "") && negb (String.eqb module (mod_Name (ModuleFor (Path_String (pre ++ [seg]))))) = false) as Hmod.
  { destruct Hm' as [-> | ->]; [done|]. rewrite String.eqb_refl. apply andb_false_r. }
  unfold fits in Hf. destruct Hkv as [[Ek Ev]|(Hk & Hv & _)].
  - assert (seg_String seg = seg_Name seg) as Hs by (unfold seg_String; by rewrite Ek).
    rewrite (Hjoin (seg_Name seg)), Hmod by done. rewrite Ek, Ev in *. cbn [String.eqb] in *.
    destruct (nd_Kind (sn_node c)); cbn [bool_decide andb] in *; try rewrite Hf; eexists; (split; [reflexivity|]); done.
  - destruct (String.eqb_spec (seg_Key seg) ""); [done|]. destruct (nd_Kind (sn_node c)) eqn:Ekind; try done.
    apply String.eqb_eq in Hf. destruct (String.eqb_spec (seg_Value seg) ""); [done|].
    change (bool_decide (KindList = KindList)) with true. cbn [andb].
    assert (seg_Name seg +:+ "[" +:+ nd_Key (sn_node c) +:+ "=" +:+ seg_Value seg +:+ "]" = seg_String seg) as ->.
    { unfold seg_String. destruct (String.eqb_spec (seg_Key seg) ""); [done|]. by rewrite Hf. }
    rewrite Hjoin, Hmod by done.
    eexists. split; [reflexivity|]. done.
Qed.

Lemma fits_inner c seg : fits c seg false = true →
  bool_decide (nd_Kind (sn_node c) = KindList) && String.eqb (seg_Key seg) "" = false ∧ seg_fits c seg.
Proof.
  unfold fits, seg_fits. intros Hf. destruct (nd_Kind (sn_node c)); try done.
  - by apply String.eqb_eq in Hf.
  - destruct (String.eqb_spec (seg_Key seg) ""); [done|]. by apply String.eqb_eq in Hf.
  - by rewrite andb_false_r in Hf.
Qed.

Lemma target_steps_ok segs : ∀ pre s t,
  Forall wf_segment pre → Forall wf_segment segs → schema_walk (r_schema r) pre = Ok s → url_schema s = true →
  addressable s segs = true → ht_Path t = Path_String pre →
  ∃ t', target_steps (r_schema r) t (Path_String pre) (plain_segment <$> segs) = inr t' ∧
   ht_Base t' = ht_Base t ∧ ht_Path t' = Path_String (pre ++ segs) ∧ ht_Datastore t' = ht_Datastore t ∧ ht_Content t' = ht_Content t.
Proof.
  induction segs as [|seg segs IH]; intros pre s t Hpre Hsegs Hw Hu Ha Ht.
  - exists t. by rewrite app_nil_r.
  - apply Forall_cons in Hsegs as [Hseg Hsegs]. cbn [addressable] in Ha.
    destruct (child s (seg_Name seg)) as [c|] eqn:Hc; [|done]. apply andb_true_iff in Ha as [Hf Ha].
    destruct (url_schema_child _ _ _ Hu Hc) as (_ & _ & Huc).
    destruct (target_step_ok pre seg s c t "" (bool_decide (segs = [])) Hpre Hseg Hw Hu Hc Hf) as (t1 & Ht1 & H1 & H2 & H3 & H4 & H5);
      [by left|by left|].
    rewrite fmap_cons. cbn [target_steps].
    assert (bool_decide (plain_segment <$> segs = []) = bool_decide (segs = [])) as -> by (by destruct segs).
    change (plain_segment seg) with ((if String.eqb "" "" then "" else "" +:+ ":") +:+ plain_segment seg). rewrite Ht1, H5.
    destruct segs as [|seg' segs].
    + destruct (_ && _); [exists t1|exists t1]; done.
    + rewrite bool_decide_eq_false_2 in Hf by done.
      assert (bool_decide (nd_Kind (sn_node c) = KindList) && String.eqb (seg_Key seg) "" = false ∧ seg_fits c seg) as [-> Hfit]
        by (by apply fits_inner).
      rewrite H2. destruct (IH (pre ++ [seg]) c t1) as (t' & Ht' & G1 & G2 & G3 & G4); try done.
      * apply Forall_app. split; [done|]. by constructor.
      * by eapply schema_walk_snoc.
      * exists t'. rewrite Ht'. split_and!; [done|congruence| |congruence|congruence]. by rewrite G2, <- app_assoc.
Qed.
End location.

(** [strings.Trim] takes off the separator in front of a path without empty components. *)
Lemma trim_left_head c s : HasPrefix s (String c "") = false → trim_left_byte c s = s.
Proof.
  destruct s as [|a s]; [done|]. rewrite HasPrefix_head. intros H. cbn [trim_left_byte].
  destruct (Ascii.eqb_spec a c) as [->|]; [by rewrite Ascii.eqb_refl in H|done].
Qed.

Lemma rev_head c s : HasSuffix s (String c "") = false → HasPrefix (str_rev s) (String c "") = false.
Proof.
  intros H. destruct (HasPrefix (str_rev s) (String c "")) eqn:E; [|done]. apply HasPrefix_spec in E as [t Ht].
  assert (s = str_rev t +:+ String c "") as Hs.
  { rewrite <- (str_rev_involutive s), Ht. change (String c "" +:+ t) with (String c t). apply str_rev_cons. }
  rewrite Hs, HasSuffix_app in H. done.
Qed.

Lemma trim_slash_path parts : parts ≠ [] → Forall (λ p, p ≠ "" ∧ has_byte p slash = false) parts →
  trim_byte "/" ("/" +:+ Join parts "/") = Join parts "/" ∧ Join parts "/" ≠ "" ∧ SplitByte (Join parts "/") "/" = parts.
Proof.
  intros Hne Hall.
  assert (SplitByte (Join parts "/") slash = parts) as Hsplit.
  { apply Split_Join; [done|]. eapply Forall_impl; [exact Hall|]. by intros ? []. }
  assert (Join parts "/" ≠ "") as HJ.
  { intros E. rewrite E in Hsplit. simpl in Hsplit. subst parts. apply Forall_cons in Hall as [[? _] _]. done. }
  pose proof (slash_checks_split (Join parts "/") slash HJ) as Hc. rewrite Hsplit in Hc.
  assert (forallb (λ p, negb (String.eqb p "")) parts = true) as Hf.
  { clear -Hall. induction Hall as [|p parts [Hp _] _ IH]; [done|]. simpl. rewrite IH. by destruct (String.eqb_spec p ""). }
  rewrite Hf in Hc. unfold slash_free_ends in Hc. apply negb_true_iff in Hc.
  apply orb_false_iff in Hc as [[Hp Hs]%orb_false_iff _].
  split_and!; [|done|done]. unfold trim_byte.
  change (trim_left_byte "/" ("/" +:+ Join parts "/")) with (trim_left_byte "/" (Join parts "/")).
  rewrite (trim_left_head "/" (Join parts "/")) by exact Hp.
  rewrite (trim_left_head "/" (str_rev _)) by (apply rev_head; exact Hs). apply str_rev_involutive.
Qed.

Lemma location_parts path seg segs : imap (location_segment path) (seg :: segs) =
  ((mod_Name (ModuleFor path) +:+ ":") +:+ plain_segment seg) :: (plain_segment <$> segs).
Proof.
  rewrite imap_cons. f_equal. rewrite <- imap_const. apply imap_ext. done.
Qed.

Lemma plain_segment_ok seg : wf_segment seg → plain_segment seg ≠ "" ∧ has_byte (plain_segment seg) slash = false.
Proof.
  intros (Hne & Hc & _). unfold clean in Hc. apply Forall_cons in Hc as [Hc _]. unfold plain_segment. split.
  - by destruct (seg_Name seg).
  - rewrite has_byte_app, Hc. destruct (String.eqb (seg_Key seg) ""); [done|]. rewrite has_byte_app, escapeKey_delimiter; auto.
Qed.

Lemma module_name path : url_name (mod_Name (ModuleFor path)) = true ∧ mod_Name (ModuleFor path) ≠ "".
Proof.
  unfold ModuleFor. induction (SplitByte path slash) as [|s l IH]; [done|]. cbn [module_of].
  destruct (bool_decide _); [done|]. destruct (bool_decide _); [done|]. by destruct (bool_decide _).
Qed.

(** The addressing of a location: the base and the datastore of the request it answers. *)
Lemma location_addressing q q' base raw ds tail :
  resolveAddressing q = inr (base, raw, ds) → hr_Query q' = hr_Query q → hr_EscapedPath q' = base +:+ "/" +:+ tail →
  resolveAddressing q' = inr (base, "/" +:+ tail, ds).
Proof.
  unfold resolveAddressing. intros H Hq Hp. rewrite Hq, Hp. revert H.
  destruct (HasPrefix (hr_EscapedPath q) (HBasePath +:+ "/data")).
  - destruct (_ && _); [done|]. destruct (parseDatastore _) as [|d] eqn:E; [done|]. intros [= <- <- <-].
    rewrite HasPrefix_app, str_drop_app. cbn [String.append HasPrefix negb andb]. by rewrite andb_false_r.
  - destruct (HasPrefix (hr_EscapedPath q) (HBasePath +:+ "/ds/")); [|done]. destruct (negb _) eqn:En; [done|].
    destruct (match IndexByte _ _ with Some _ => _ | None => _ end) as [identity raw'].
    destruct (parseDatastoreIdentity identity) as [|d] eqn:E; [done|]. intros [= <- <- <-].
    revert E. unfold parseDatastoreIdentity.
    destruct (String.eqb_spec identity identityRunning) as [->|]; [|destruct (String.eqb_spec identity identityCandidate) as [->|];
      [|destruct (String.eqb_spec identity identityStartup) as [->|]; [|done]]]; intros [= <-]; cbn; done.
Qed.

(** A Location header leads back to the resource. The URL the server builds for a
    resource, under the addressing of the request that created it, is parsed back into
    exactly the path and the datastore of the resource, whatever bytes its keys hold, for
    every path of the schema whose nodes belong to the module of its top node. *)
Theorem location_roundtrip root r q q' base raw ds path segs content :
  NewRouter root = Ok r → resolveAddressing q = inr (base, raw, ds) →
  Parse path = Ok segs → addressable (r_schema r) segs = true →
  ModuleFor path = ModuleFor (hd "" (SplitByte path "/")) →
  hr_EscapedPath q' = locationFor base path → hr_Query q' = hr_Query q →
  parseContent (get_first (hr_Query q) "content") = inr content →
  ∃ t, parseTarget r q' = inr t ∧ ht_Path t = path ∧ ht_Datastore t = ds ∧ ht_Base t = base ∧ ht_Content t = content.
Proof.
  intros [_ Hb]%NewRouter_built. clear root. intros Haddr HP Ha Hm Hq' Hq Hcont.
  unfold locationFor in Hq'. rewrite HP in Hq'. apply Parse_inv in HP as [Hpath [Hne Hwf]].
  destruct segs as [|seg segs]; [done|]. rewrite location_parts in Hq'.
  set (parts := _ :: _) in Hq'. apply Forall_cons in Hwf as [Hseg Hsegs].
  pose proof (module_name path) as [Hmod Hmod'].
  assert (Forall (λ p, p ≠ "" ∧ has_byte p slash = false) parts) as Hparts.
  { constructor.
    - destruct (plain_segment_ok seg Hseg) as [_ H]. split; [by destruct (mod_Name (ModuleFor path))|].
      rewrite !has_byte_app, H. unfold url_name in Hmod. rewrite !andb_true_iff, !negb_true_iff in Hmod.
      destruct Hmod as (_ & H4). change (has_byte (mod_Name (ModuleFor path)) slash = false) in H4. by rewrite H4.
    - apply Forall_fmap. eapply Forall_impl; [exact Hsegs|]. apply plain_segment_ok. }
  destruct (trim_slash_path parts) as (Htrim & HJ & Hsplit); [done|done|].
  unfold parseTarget. rewrite (location_addressing q q' base raw ds _ Haddr Hq Hq'), Hq, Hcont, Htrim.
  destruct (String.eqb_spec (Join parts "/") ""); [done|]. rewrite Hsplit. unfold parts. cbn [target_steps].
  cbn [addressable] in Ha. destruct (child (r_schema r) (seg_Name seg)) as [c|] eqn:Hc; [|done].
  apply andb_true_iff in Ha as [Hf Ha]. pose proof (router_url_schema r) as Hu.
  destruct (url_schema_child _ _ _ Hu Hc) as (_ & _ & Huc).
  assert (mod_Name (ModuleFor path) = mod_Name (ModuleFor (Path_String ([] ++ [seg])))) as Hmod1.
  { rewrite Hm. f_equal. f_equal. rewrite <- Hpath. change "/"%char with slash. rewrite Split_Path by (by split; [|constructor]).
    done. }
  destruct (target_step_ok r [] seg (r_schema r) c (root_target base ds content) (mod_Name (ModuleFor path))
    (bool_decide (plain_segment <$> segs = []))) as (t1 & Ht1 & H1 & H2 & H3 & H4 & H5); try done; [by destruct segs|by right..|].
  destruct (String.eqb_spec (mod_Name (ModuleFor path)) ""); [done|].
  change (Path_String []) with "" in Ht1. rewrite Ht1, H5, H2. destruct segs as [|seg' segs].
  - exists t1. cbn [target_steps fmap list_fmap]. rewrite H2. by destruct (_ && _).
  - rewrite bool_decide_eq_false_2 in Hf by done.
    assert (bool_decide (nd_Kind (sn_node c) = KindList) && String.eqb (seg_Key seg) "" = false ∧ seg_fits c seg) as [-> Hfit]
      by (by apply fits_inner).
    destruct (target_steps_ok r (seg' :: segs) [seg] c t1) as (t' & Ht' & G1 & G2 & G3 & G4); try done.
    + by constructor.
    + by apply (schema_walk_snoc []  seg (r_schema r) (r_schema r)).
    + exists t'. split_and!; [exact Ht'|by rewrite G2|by rewrite G3, H3|by rewrite G1, H1|by rewrite G4, H4].
Qed.

(** An interface whose name holds bytes with a meaning in URLs, addressed through the datastore path. *)
Abbreviation candidate_request path :=
  (mkRequest "GET" path [("content", "config")] [] NoDate NoDate BodyFailed).

Lemma location_roundtrip_witness :
  ∃ t, parseTarget default_router
         (candidate_request (locationFor "/restconf/ds/ietf-datastores:candidate" "interfaces/interface[name=a b%=c]/mtu")) = inr t ∧
       ht_Path t = "interfaces/interface[name=a b%=c]/mtu" ∧ ht_Datastore t = Candidate.
Proof.
  destruct (location_roundtrip DefaultDevice default_router
    (candidate_request "/restconf/ds/ietf-datastores:candidate/sim-device:interfaces")
    (candidate_request (locationFor "/restconf/ds/ietf-datastores:candidate" "interfaces/interface[name=a b%=c]/mtu"))
    "/restconf/ds/ietf-datastores:candidate" "/sim-device:interfaces" Candidate "interfaces/interface[name=a b%=c]/mtu"
    [mkSeg "interfaces" "" ""; mkSeg "interface" "name" "a b%=c"; mkSeg "mtu" "" ""] ContentConfig)
    as (t & H1 & H2 & H3 & _).
  - exact default_router_built.
  - vm_compute. reflexivity.
  - vm_compute. reflexivity.
  - vm_compute. reflexivity.
  - vm_compute. reflexivity.
  - reflexivity.
  - reflexivity.
  - reflexivity.
  - exists t. exact (conj H1 (conj H2 H3)).
Defined.
