(* ===== verification/Represent.v ===== *)
(** * RESTCONF representations and entity-tags ([internal/restconf])

    What the XML representation of a resource decodes to, and when an entity-tag lets an
    edit through. *)

From S2P Require Import Prelude GoStrings GoFloat GoParse GoFormat GoValue GoNet Persist Store Clock Event Path Model Reflect Reflected Hydrate Schema Oid Router Ops Datatree Edits Read Trees GetConfig Rendering Codec Resource Http Restful.

(** ** The XML representation *)

(** The tokens a client's or the server's XML reader delivers for what was written. *)
Definition xml_token (x : xtoken) : token :=
  match x with XStart n _ => StartElement "" n [] | XText t => CharData t | XEnd n => EndElement n end.

(** The documents of a read node: a leaf with its text, a container with its children, and
    for a list its entries. *)
Fixpoint documents_of (n : DataNode) : list Document :=
  match n with
  | DNode _ name kind _ _ _ v children =>
      match kind with
      | KindLeaf =>
          let text := match v with Some v => FormatLeaf v | None => "<nil>" end in
          [Doc name text (negb (String.eqb (TrimSpace text) "")) ∅ []]
      | KindContainer => [Doc name "" false ∅ (flat_map documents_of children)]
      | KindList => flat_map documents_of children
      end
  end.

Lemma doc_append_app d l k : doc_append (doc_append d l) k = doc_append d (l ++ k).
Proof. destruct d. simpl. by rewrite app_assoc. Qed.
Lemma doc_append_nil d : doc_append d [] = d.
Proof. destruct d. simpl. by rewrite app_nil_r. Qed.

Definition reads_node (n : DataNode) : Prop := ∀ ns rest fail root top st,
  document_tokens ((xml_token <$> (writeXMLNode n ns).1) ++ rest) fail root (top :: st) =
  document_tokens rest fail root (doc_append top (documents_of n) :: st).

(** The local loop of [writeXMLNode] is [writeXMLNodes]. *)
Lemma writeXMLNode_eq p name kind key kv lf v children ns :
  writeXMLNode (DNode p name kind key kv lf v children) ns =
  if bool_decide (kind = KindList) then writeXMLNodes children ns
  else
    let '(inner, out) :=
      match kind with
      | KindLeaf => (writeXMLText (match v with Some v => FormatLeaf v | None => "<nil>" end), namespaceFor p)
      | _ => writeXMLNodes children (namespaceFor p)
      end in
    (writeXMLStart name (namespaceFor p) ns ++ inner ++ writeXMLEnd name, out).
Proof.
  cbn [writeXMLNode].
  assert (∀ l ns, (fix nodes (l : list DataNode) (ns : string) : list xtoken * string :=
    match l with
    | [] => ([], ns)
    | c :: l => let '(t, ns) := writeXMLNode c ns in let '(rest, ns) := nodes l ns in (t ++ rest, ns)
    end) l ns = writeXMLNodes l ns) as Hn.
  { induction l as [|c l IH]; intros ns'; [done|]. cbn [writeXMLNodes]. destruct (writeXMLNode c ns') as [t ns1]. by rewrite IH. }
  destruct kind; rewrite ?Hn; done.
Qed.

Lemma reads_nodes l : Forall reads_node l → ∀ ns rest fail root top st,
  document_tokens ((xml_token <$> (writeXMLNodes l ns).1) ++ rest) fail root (top :: st) =
  document_tokens rest fail root (doc_append top (flat_map documents_of l) :: st).
Proof.
  induction 1 as [|n l Hn _ IH]; intros ns rest fail root top st; cbn [writeXMLNodes flat_map].
  - by rewrite doc_append_nil.
  - specialize (Hn ns). destruct (writeXMLNode n ns) as [t ns1]. specialize (IH ns1).
    destruct (writeXMLNodes l ns1) as [t2 ns2]. cbn [fst] in *. rewrite fmap_app, <- app_assoc, Hn, IH.
    by rewrite doc_append_app.
Qed.

(** The element of a leaf or container, after its start tag. *)
Lemma reads_element p name kind key kv lf v children ns rest fail root st :
  Forall reads_node children → kind ≠ KindList →
  ∃ d, documents_of (DNode p name kind key kv lf v children) = [d] ∧ doc_Name d = name ∧
    document_tokens ((xml_token <$> (writeXMLNode (DNode p name kind key kv lf v children) ns).1) ++ rest) fail root st =
    match root, st with
    | Some _, [] => Malformed
    | _, _ => document_tokens (EndElement name :: rest) fail root (d :: st)
    end.
Proof.
  intros Hc Hk. rewrite writeXMLNode_eq, bool_decide_eq_false_2 by done. destruct kind; [|done|]; cbn [documents_of].
  - pose proof (reads_nodes children Hc (namespaceFor p) (EndElement name :: rest) fail root (Doc name "" false ∅ []) st) as H.
    destruct (writeXMLNodes children (namespaceFor p)) as [inner out]. cbn [fst] in *. eexists. split; [done|]. split; [done|].
    unfold writeXMLStart, writeXMLEnd. rewrite !fmap_app, <- !app_assoc. cbn [fmap list_fmap xml_token app document_tokens].
    rewrite H. by destruct root, st.
  - eexists. split; [done|]. split; [done|]. unfold writeXMLStart, writeXMLEnd, writeXMLText. cbn [fst].
    cbn [fmap list_fmap xml_token app document_tokens doc_add_text]. by destruct root, st.
Qed.

Lemma node_inside n : reads_node n.
Proof.
  induction n as [p name kind key kv lf v children IH] using DataNode_ind'. intros ns rest fail root top st.
  destruct (decide (kind = KindList)) as [->|Hk].
  - rewrite writeXMLNode_eq. change (bool_decide (KindList = KindList)) with true. by apply reads_nodes.
  - destruct (reads_element p name kind key kv lf v children ns rest fail root (top :: st) IH Hk) as (d & -> & _ & ->).
    destruct top. by destruct root.
Qed.

(** ** Properties *)



(** ** Entity-tags *)

(** What the entity-tag of a representation is computed from. *)
Definition fingerprint (m : Memory) (ds : Datastore) (f : Format) : Z :=
  Sum64 (ds +:+ "|" +:+ format_name f +:+ "|" +:+ Itoa (UnixNano (default 0%Z (configChanged m !! ds)))).

Lemma fnv1a_range s : ∀ h, (0 ≤ h < 2 ^ 64)%Z → (0 ≤ fnv1a h s < 2 ^ 64)%Z.
Proof.
  induction s as [|c s IH]; intros h Hh; [done|]. cbn [fnv1a]. apply IH. unfold u64. apply Z.mod_pos_bound. lia.
Qed.

Lemma Sum64_range s : (0 ≤ Sum64 s < 2 ^ 64)%Z.
Proof. apply fnv1a_range. lia. Qed.

(** The digits [%016x] writes determine the number. *)
Definition digit_char (d : Z) : ascii := ascii_of_N (if (Z.to_N d <? 10)%N then 48 + Z.to_N d else 87 + Z.to_N d).

Lemma digit_char_inj a b : (0 ≤ a < 16)%Z → (0 ≤ b < 16)%Z → digit_char a = digit_char b → a = b.
Proof.
  intros Ha Hb H.
  assert (∀ z, (0 ≤ z < 16)%Z → z ∈ [0;1;2;3;4;5;6;7;8;9;10;11;12;13;14;15]%Z) as Hin.
  { intros z Hz. rewrite !elem_of_cons. lia. }
  apply Hin in Ha, Hb. clear Hin.
  repeat (apply elem_of_cons in Ha as [->|Ha]); [..|by apply elem_of_nil in Ha];
    repeat (apply elem_of_cons in Hb as [->|Hb]); first [by apply elem_of_nil in Hb|done|by vm_compute in H].
Qed.

Lemma hex_digits_app n : ∀ z acc, ∃ l, hex_digits n z acc = l +:+ acc ∧ String.length l = n ∧
  (∀ c, has_byte l c = true → ∃ d, (0 ≤ d < 16)%Z ∧ c = digit_char d).
Proof.
  induction n as [|n IH]; intros z acc; [by exists ""|]. cbn [hex_digits].
  destruct (IH (z / 16)%Z (String (digit_char (z mod 16)) acc)) as (l & E & Hl & Hc).
  exists (l +:+ String (digit_char (z mod 16)) ""). unfold digit_char in *. rewrite E.
  split_and!; [by rewrite str_app_assoc|rewrite str_length_app; simpl; lia|].
  intros c. rewrite has_byte_app, orb_true_iff. intros [H|H]; [by apply Hc|].
  rewrite has_byte_cons, orb_true_iff in H. destruct H as [H|H]; [|done]. apply Ascii.eqb_eq in H as <-.
  exists (z mod 16)%Z. split; [apply Z.mod_pos_bound; lia|done].
Qed.

Lemma str_app_inj_len a b c d : String.length a = String.length c → a +:+ b = c +:+ d → a = c ∧ b = d.
Proof.
  revert c. induction a as [|x a IH]; intros [|y c] Hl H; try done. simpl in *. injection H as -> H.
  destruct (IH c) as [-> ->]; [lia|done|done].
Qed.

Lemma hex_digits_inj n : ∀ z z' acc acc', hex_digits n z acc = hex_digits n z' acc' →
  (z mod 16 ^ Z.of_nat n = z' mod 16 ^ Z.of_nat n)%Z ∧ acc = acc'.
Proof.
  induction n as [|n IH]; intros z z' acc acc' H.
  - simpl in H. rewrite !Z.mod_1_r. done.
  - cbn [hex_digits] in H. destruct (IH _ _ _ _ H) as [Hd Hacc]. injection Hacc as Hc ->. split; [|done].
    assert (z mod 16 = z' mod 16)%Z as H0.
    { apply digit_char_inj; [apply Z.mod_pos_bound; lia..|exact Hc]. }
    replace (16 ^ Z.of_nat (S n))%Z with (16 * 16 ^ Z.of_nat n)%Z by (rewrite Nat2Z.inj_succ, Z.pow_succ_r; lia).
    assert (0 < 16 ^ Z.of_nat n)%Z by (apply Z.pow_pos_nonneg; lia).
    rewrite !Z.rem_mul_r by lia. by rewrite H0, Hd.
Qed.

Lemma etag_inj ds f t ds' f' t' : etag_of ds f t = etag_of ds' f' t' →
  Sum64 (ds +:+ "|" +:+ format_name f +:+ "|" +:+ Itoa (UnixNano t)) =
  Sum64 (ds' +:+ "|" +:+ format_name f' +:+ "|" +:+ Itoa (UnixNano t')).
Proof.
  unfold etag_of. set (a := Sum64 _). set (b := Sum64 _). intros H.
  apply (str_app_inj_len quote _ quote _ eq_refl) in H as [_ H].
  destruct (hex_digits_app 16 a "") as (la & Ha & Hla & _). destruct (hex_digits_app 16 b "") as (lb & Hb & Hlb & _).
  rewrite str_app_nil_r in Ha, Hb.
  apply (str_app_inj_len _ quote _ quote) in H as [H _]; [|by rewrite Ha, Hb, Hla, Hlb].
  apply hex_digits_inj in H as [H _]. change (16 ^ Z.of_nat 16)%Z with (2 ^ 64)%Z in H.
  pose proof (Sum64_range (ds +:+ "|" +:+ format_name f +:+ "|" +:+ Itoa (UnixNano t))).
  pose proof (Sum64_range (ds' +:+ "|" +:+ format_name f' +:+ "|" +:+ Itoa (UnixNano t'))).
  by rewrite !Z.mod_small in H.
Qed.

(** A header that holds one entity-tag of the server matches that tag and no other. *)
Lemma etag_matches_one ds f t etag : etagMatches (etag_of ds f t) etag = bool_decide (etag_of ds f t = etag).
Proof.
  assert (∃ s, etag_of ds f t = String (ascii_of_nat 34) s ∧ has_byte (etag_of ds f t) "," = false ∧
    ∃ l, String (ascii_of_nat 34) s = l +:+ String (ascii_of_nat 34) "") as (s & Hs & Hcomma & l & Hl).
  { unfold etag_of. destruct (hex_digits_app 16 (Sum64 (ds +:+ "|" +:+ format_name f +:+ "|" +:+ Itoa (UnixNano t))) "")
      as (la & Ha & _ & Hc). rewrite str_app_nil_r in Ha. rewrite Ha. eexists. split; [reflexivity|]. split.
    - rewrite !has_byte_app. destruct (has_byte la ",") eqn:E; [|done]. destruct (Hc _ E) as (d & Hd & H).
      exfalso. assert (∀ z, (0 ≤ z < 16)%Z → z ∈ [0;1;2;3;4;5;6;7;8;9;10;11;12;13;14;15]%Z) as Hin.
      { intros z Hz. rewrite !elem_of_cons. lia. }
      apply Hin in Hd. repeat (apply elem_of_cons in Hd as [->|Hd]; [by vm_compute in H|]). by apply elem_of_nil in Hd.
    - exists (quote +:+ la). by rewrite str_app_assoc. }
  assert (TrimSpace (etag_of ds f t) = etag_of ds f t) as Htrim.
  { rewrite Hs. by apply (TrimSpace_graphic _ s (ascii_of_nat 34) l). }
  unfold etagMatches. rewrite Htrim, SplitByte_none by done. cbn [existsb]. rewrite Htrim, orb_false_r.
  destruct (String.eqb_spec (etag_of ds f t) "*") as [E|_]; [by rewrite Hs in E|]. cbn [orb].
  destruct (String.eqb_spec (etag_of ds f t) etag); [by rewrite bool_decide_eq_true_2|by rewrite bool_decide_eq_false_2].
Qed.

(** C39: an entity-tag guards an edit. An edit that sends the entity-tag of an earlier GET in
    If-Match passes the precondition exactly when the fingerprint of the datastore's last
    configuration change still is the one of then, in one of the two formats: state writes
    in between never refuse it, and after a configuration change it is refused, unless the
    64-bit hashes of the two instants collide. *)
Theorem etag_guards_edits r m0 q0 t m q :
  let rs := handleGet r true m0 q0 t in
  rs_status rs = 200%Z ∨ rs_status rs = 304%Z →
  get_first (hr_Header q) "If-Match" = rs_ETag rs →
  ∃ f, (checkPreconditions m true q (ht_Datastore t) = None ↔
        ∃ f', fingerprint m (ht_Datastore t) f' = fingerprint m0 (ht_Datastore t) f).
Proof.
  set (ds := ht_Datastore t). unfold handleGet. fold ds.
  destruct (responseFormat _) as [e|f] eqn:Ef.
  { intros [H|H]; exfalso; revert Ef H; unfold responseFormat; repeat case_match; intros; by simplify_eq. }
  destruct (ops_Get _ _ _ _ _ _) as [node|e]; [|pose proof (tree_error_status e); simpl; lia].
  destruct (validators m0 true ds f) as [[etag changed]|] eqn:Ev; [|simpl; lia].
  intros _ Hh. exists f.
  assert (rs_ETag (if notModified q0 etag changed then setValidators etag changed (status_only 304) else
    setValidators etag changed (mkResponse 200 "" None "" (if String.eqb (hr_Method q0) "HEAD" then NoBody else Content_ (Encode f node)))) = etag)
    as Hetag by (by destruct (notModified q0 etag changed)).
  rewrite Hetag in Hh. clear Hetag.
  unfold validators, ConfigChangedAt in Ev. cbn [ctx_err check mbind res_bind] in Ev.
  destruct (datastore m0 ds) as [vs|] eqn:Hds; [|done]. cbn [mbind res_bind] in Ev. injection Ev as <- <-.
  assert (∃ vs', datastore m ds = Ok vs') as [vs' Hds'].
  { apply datastore_ok in Hds as [[-> _]|[[-> _]|[-> _]]]; eexists; reflexivity. }
  assert (∀ f', validators m true ds f' = Ok (etag_of ds f' (default 0%Z (configChanged m !! ds)), default 0%Z (configChanged m !! ds)))
    as Hval by (intros; unfold validators, ConfigChangedAt; cbn [ctx_err check mbind res_bind]; by rewrite Hds').
  unfold checkPreconditions. rewrite Hh, !Hval, !etag_matches_one.
  set (c := default 0%Z (configChanged m !! ds)). set (c0 := default 0%Z (configChanged m0 !! ds)).
  destruct (String.eqb_spec (etag_of ds f c0) "") as [E|_]; [done|]. cbn [negb andb].
  transitivity (etag_of ds f c0 = etag_of ds FormatJSON c ∨ etag_of ds f c0 = etag_of ds FormatXML c).
  { generalize (etag_of ds f c0) (etag_of ds FormatJSON c) (etag_of ds FormatXML c). intros x y z.
    generalize (setValidators y c (writeError preconditionFailed)). intros rejection.
    destruct (decide (x = y)); [rewrite (bool_decide_eq_true_2 (x = y)) by done|rewrite (bool_decide_eq_false_2 (x = y)) by done].
    1: split; [by left|done].
    destruct (decide (x = z)); [rewrite bool_decide_eq_true_2 by done|rewrite bool_decide_eq_false_2 by done].
    1: split; [by right|done].
    split; [done|by intros []]. }
  unfold fingerprint. fold c c0. split.
  - intros [H|H]; apply etag_inj in H; [by exists FormatJSON|by exists FormatXML].
  - intros [[] H]; [left|right]; unfold etag_of; by rewrite H.
Qed.

(** A GET of a datastore that was never configured, and an edit with its tag. *)
Abbreviation get_root := (mkRequest "GET" "/restconf/data/system-info" [] [] NoDate NoDate BodyFailed).
Definition get_target : target :=
  match parseTarget default_router get_root with inr t => t | inl _ => root_target "" Running ContentAll end.
Definition tagged_get : response := handleGet default_router true named_store get_root get_target.
Abbreviation tagged_put :=
  (mkRequest "PUT" "/restconf/data/system-info/name" [] [("If-Match", rs_ETag tagged_get)] NoDate NoDate
     (BodyRead (mkBody false (Some (JObject [("sim-device:name", JString "new")], false)) [] None))).

Lemma etag_guards_edits_witness :
  rs_status tagged_get = 200%Z ∧
  ∃ f, (checkPreconditions named_store true tagged_put (ht_Datastore get_target) = None ↔
        ∃ f', fingerprint named_store (ht_Datastore get_target) f' = fingerprint named_store (ht_Datastore get_target) f).
Proof.
  assert (H : rs_status tagged_get = 200%Z) by (vm_compute; reflexivity).
  split; [exact H|].
  exact (etag_guards_edits default_router named_store get_root get_target named_store tagged_put (or_introl H) eq_refl).
Defined.

(** ** Where the server departs from its documentation *)

(** A PUT edits the resource its body names: the name is not compared with the target's. *)
Abbreviation put_other :=
  (mkRequest "PUT" "/restconf/data/stp" [] [] NoDate NoDate
     (BodyRead (mkBody false (Some (JObject [("sim-device:system-info", JObject [("name", JString "other")])], false)) [] None))).

Example put_edits_other_resource :
  let x := handleData default_router 9 true named_store put_other in
  rs_status x.1.1 = 200%Z ∧ running x.1.2 !! "system-info/name" = Some (VString "other").
Proof. split; vm_compute; reflexivity. Qed.

(** The namespace a closed sibling declared is taken to be in scope for the next one:
    [interfaces] is left in the namespace of <data>. *)
Example sibling_namespace_lost :
  encodeXML (DNode "" "" KindContainer "" "" None None
    [DNode "system-info" "system-info" KindContainer "" "" None None []; DNode "interfaces" "interfaces" KindContainer "" "" None None []]) =
  [XStart "data" (Some restconfNamespace); XStart "system-info" (Some "urn:sim:device"); XEnd "system-info";
   XStart "interfaces" None; XEnd "interfaces"; XEnd "data"].
Proof. vm_compute. reflexivity. Qed.

(** A location below another module than the top node's names that module at the top,
    where the parser refuses it. *)
Example location_of_radio_link_refused :
  parseTarget default_router
    (mkRequest "GET" (locationFor "/restconf/data" "interfaces/interface[name=radio0]/radio-link") [] [] NoDate NoDate BodyFailed) =
  inl malformedRequest.
Proof. vm_compute. reflexivity. Qed.

(** An encoded slash in a key becomes a separator of the router path. *)
Example encoded_slash_splits_key :
  match parseTarget default_router
    (mkRequest "GET" "/restconf/data/vlans/vlan=1%5D%2Fports%2Fport%5Bport=eth0" [] [] NoDate NoDate BodyFailed) with
  | inr t => ht_Path t = "vlans/vlan[id=1]/ports/port[port=eth0]" ∧ ht_Name t = "vlan"
  | inl _ => False
  end.
Proof. vm_compute. done. Qed.
