(* ===== verification/Gnmi.v ===== *)
(** * The gNMI server ([internal/gnmi])

    Get, Set, Subscribe and Capabilities over decoded protocol messages: the message types
    are the generated gnmi package's, reduced to the fields the server reads, and the
    transport is grpc's.  An RPC returns a reply or a status code. *)

From S2P Require Import Prelude GoStrings GoFloat GoParse GoFormat GoValue GoNet Persist Store Clock Event Path Model Reflect Reflected Hydrate Schema Oid Router Ops Datatree Read GetConfig Codec.

(** ** Status codes *)

Inductive code : Set :=
  | Canceled | InvalidArgument | NotFound | AlreadyExists | PermissionDenied | Unimplemented | Internal.
Global Instance code_eq_dec : EqDecision code.
Proof. solve_decision. Defined.

Inductive rpc (A : Type) : Type := Reply (a : A) | Fail (c : code).
Arguments Reply {A} a. Arguments Fail {A} c.
Global Instance rpc_bind : MBind rpc := λ A B f x, match x with Reply a => f a | Fail c => Fail c end.

Fixpoint rpc_map {A B} (f : A → rpc B) (l : list A) : rpc (list B) :=
  match l with [] => Reply [] | a :: l => b ← f a; rest ← rpc_map f l; Reply (b :: rest) end.

(** [codeForTag] and [statusError]. *)
Definition codeForTag (tag : errorTag) : code :=
  match tag with
  | TagDataMissing => NotFound
  | TagAccessDenied => PermissionDenied
  | TagDataExists => AlreadyExists
  | TagOperationNotSupported => Unimplemented
  | TagMalformedMessage | TagTooBig | TagMissingElement | TagUnknownElement | TagInvalidValue | TagOperationFailed =>
      InvalidArgument
  | TagMissingAttribute => Internal
  end.

Definition statusError (e : error) : code :=
  if errors_is e CtxCanceled then Canceled
  else match AsError e with
  | Some (OpError tag _ _) => codeForTag tag
  | _ =>
      if errors_is e RouterErrNotFound then NotFound
      else if errors_is e RouterErrInvalidPath then InvalidArgument
      else if errors_is e RouterErrReadOnly then PermissionDenied
      else Internal
  end.
Definition of_res {A} (x : res A) : rpc A := match x with Ok a => Reply a | Err e => Fail (statusError e) end.

(** ** Paths *)

Record PathElem : Set := mkElem { pe_Name : string; pe_Key : list (string * string) }.
Record gPath : Set := mkGPath { gp_Origin : string; gp_Elem : list PathElem; gp_Element : list string }.
Definition empty_path : gPath := mkGPath "" [] [].

Definition modules : list Module_ := [ModuleDevice; ModuleRadioLink; ModuleL2; ModuleSync].
Definition originAccepted (origin : string) : bool :=
  String.eqb origin "" ||
  existsb (λ module, String.eqb origin (mod_Name module) || String.eqb origin (mod_Namespace module)) modules.

(** [onlyKey], on a map of one entry. *)
Definition onlyKey (keys : list (string * string)) : string * string := hd ("", "") keys.

(** [elementsToPath]. *)
Definition elem_segment (e : PathElem) : rpc string :=
  let name := stripModule (pe_Name e) in
  if String.eqb name "" then Fail InvalidArgument
  else match pe_Key e with
  | [] => Reply name
  | [_] =>
      let '(key, value) := onlyKey (pe_Key e) in
      if String.eqb value "" then Fail InvalidArgument else Reply (name +:+ "[" +:+ key +:+ "=" +:+ value +:+ "]")
  | _ => Fail InvalidArgument
  end.
Definition parsed_path (joined : string) : rpc string :=
  match Parse joined with Ok _ => Reply joined | Err _ => Fail InvalidArgument end.
Definition elementsToPath (elems : list PathElem) : rpc string :=
  segments ← rpc_map elem_segment elems;
  parsed_path (Join segments "/").

(** [routerPath]; [None] is the nil path. *)
Definition routerPath (path : option gPath) : rpc string :=
  match path with
  | None => Reply ""
  | Some p =>
      if negb (originAccepted (gp_Origin p)) then Fail InvalidArgument
      else if negb (bool_decide (gp_Elem p = [])) then elementsToPath (gp_Elem p)
      else if negb (bool_decide (gp_Element p = [])) then parsed_path (Join (gp_Element p) "/")
      else Reply ""
  end.

(** [gnmiPath]. *)
Definition elem_of_segment (s : Segment) : PathElem :=
  mkElem (seg_Name s) (if String.eqb (seg_Key s) "" then [] else [(seg_Key s, seg_Value s)]).
Definition gnmiPath (path : string) : res gPath :=
  if String.eqb path "" then Ok empty_path
  else segs ← Parse path; Ok (mkGPath "" (elem_of_segment <$> segs) []).

(** [joinPrefix]. *)
Definition joinPrefix (prefix : string) (rel : option gPath) : rpc string :=
  path ← routerPath rel;
  Reply (if String.eqb prefix "" then path else if String.eqb path "" then prefix else prefix +:+ "/" +:+ path).

Definition parseSegments (path : string) : option (list Segment) :=
  if String.eqb path "" then Some []
  else match Parse path with Ok segs => Some segs | Err _ => None end.

Fixpoint isPrefix (outer inner : list Segment) : bool :=
  match outer, inner with
  | [], _ => true
  | a :: outer, b :: inner => bool_decide (a = b) && isPrefix outer inner
  | _ :: _, [] => false
  end.

Definition pathsOverlap (a b : string) : bool :=
  match parseSegments a, parseSegments b with
  | Some a, Some b => isPrefix a b || isPrefix b a
  | _, _ => false
  end.

(** [schemaKind] and [checkPath]. *)
Definition schemaKind (r : Router) (parent : list Segment) (name : string) : rpc Kind :=
  children ← of_res (Children (r_schema r) (Path_String parent));
  match nodeNamed children name with Some n => Reply (nd_Kind n) | None => Fail NotFound end.

Definition gnmi_checkPath (r : Router) (path : string) : rpc unit :=
  if String.eqb path "" then Reply tt
  else match Parse path with
  | Err _ => Fail InvalidArgument
  | Ok segs =>
      match last segs with
      | None => Fail Internal
      | Some l => _ ← schemaKind r (take (length segs - 1) segs) (seg_Name l); Reply tt
      end
  end.

(** ** Values *)

Inductive DataType : Set := DataAll | DataConfig | DataState | DataOperational.
Definition contentFor (t : DataType) : Content :=
  match t with DataConfig => ContentConfig | DataState | DataOperational => ContentNonConfig | DataAll => ContentAll end.

Inductive Encoding : Set := EncodingJSON | EncodingBytes | EncodingProto | EncodingASCII | EncodingJSONIETF.
Global Instance Encoding_eq_dec : EqDecision Encoding.
Proof. solve_decision. Defined.
Definition encodingFor (e : Encoding) : rpc Encoding :=
  match e with EncodingJSON | EncodingJSONIETF | EncodingProto => Reply e | _ => Fail InvalidArgument end.

(** What a JSON byte value holds: only white space, no JSON, or a first value. *)
Inductive jsonBytes : Set := JSONEmpty | JSONMalformed | JSONValue (v : json).

Inductive TypedValue : Set :=
  | StringVal (s : string) | AsciiVal (s : string) | IntVal (z : Z) | UintVal (z : Z) | BoolVal (b : bool)
  | FloatVal (f : float64) | DoubleVal (f : float64) | DecimalVal (d : option (Z * Z)) | BytesVal (s : string)
  | LeaflistVal (l : option (list TypedValue)) | JsonVal (b : jsonBytes) | JsonIetfVal (b : jsonBytes)
  | ProtoBytes (s : string) | NoVal | OtherVal.

(** The value of an update the server sends: the JSON text of a leaf value ([null] for none),
    or its scalar. *)
Inductive SentValue : Set := SentJSON (v : option value) | SentJSONIETF (v : option value) | SentScalar (v : value).

(** [typedValue]: [json.Marshal] refuses the infinities and NaN. *)
Definition marshals (v : option value) : bool :=
  match v with Some (VFloat64 f) => F64.is_finite f | _ => true end.
Definition typedValue (v : option value) (encoding : Encoding) : rpc SentValue :=
  if negb (marshals v) then Fail Internal
  else Reply match encoding with
             | EncodingJSON => SentJSON v
             | EncodingJSONIETF => SentJSONIETF v
             | _ => match v with None | Some (VOther _) => SentJSONIETF v | Some v => SentScalar v end
             end.

(** [decimalText]: precisions above 18 are refused. *)
Definition decimalText (d : option (Z * Z)) : rpc string :=
  match d with
  | None => Fail InvalidArgument
  | Some (digits, precision) =>
      if (18 <? precision)%Z then Fail InvalidArgument
      else Reply (format_fixed (Z.to_nat precision) (F64.div (F64.of_Z digits) (F64.of_Z (10 ^ precision))))
  end.

Definition jsonScalarText (b : jsonBytes) : rpc string :=
  match b with
  | JSONEmpty | JSONMalformed => Fail InvalidArgument
  | JSONValue (JString s) => Reply s
  | JSONValue (JNumber s) => Reply s
  | JSONValue (JBool b) => Reply (FormatBool b)
  | JSONValue JNull => Reply ""
  | JSONValue _ => Fail InvalidArgument
  end.

(** [textOf] with [leaflistText]. *)
Fixpoint textOf (v : TypedValue) : rpc string :=
  match v with
  | StringVal s | AsciiVal s | BytesVal s | ProtoBytes s => Reply s
  | IntVal z => Reply (Itoa z)
  | UintVal z => Reply (FormatUint z)
  | BoolVal b => Reply (FormatBool b)
  | FloatVal f => Reply (FormatFloat32 f)
  | DoubleVal f => Reply (FormatFloat f)
  | DecimalVal d => decimalText d
  | LeaflistVal (Some [v]) => textOf v
  | LeaflistVal _ => Fail InvalidArgument
  | JsonVal b | JsonIetfVal b => jsonScalarText b
  | NoVal | OtherVal => Fail InvalidArgument
  end.

(** ** Get *)

Record Update : Set := mkUpdate { up_Path : gPath; up_Val : SentValue }.
Record Notification : Set := mkNotification { no_Timestamp : Z; no_Prefix : gPath; no_Update : list Update }.

Definition relativePath (path base : string) : string :=
  if String.eqb base "" then path
  else if String.eqb path base then ""
  else
    let rest := if HasPrefix path base then str_drop (String.length base) path else path in
    if HasPrefix rest "/" then str_drop 1 rest else rest.

(** [leafUpdates]. *)
Fixpoint leafUpdates (n : DataNode) (base : string) (encoding : Encoding) : rpc (list Update) :=
  match n with
  | DNode path _ kind _ _ _ v children =>
      if bool_decide (kind = KindLeaf) then
        value ← typedValue v encoding;
        path ← of_res (gnmiPath (relativePath path base));
        Reply [mkUpdate path value]
      else
        (fix walk (l : list DataNode) : rpc (list Update) :=
           match l with
           | [] => Reply []
           | c :: l => updates ← leafUpdates c base encoding; rest ← walk l; Reply (updates ++ rest)
           end) children
  end.

Record GetRequest : Set := mkGet {
  gr_Prefix : option gPath; gr_Path : list gPath; gr_Type : DataType; gr_Encoding : Encoding;
}.

Section service.
(** The router, the context of the call, and whether the server has an event bus. *)
Context (r : Router) (ctx : context) (bus : bool).

(** [notification]. *)
Definition notification (m : Memory) (unix : Z) (target : string) (content : Content) (encoding : Encoding)
    : rpc (option Notification) :=
  node ← of_res (Read r m ctx Running (mkReadOptions target content));
  match node with
  | None => Reply None
  | Some n =>
      updates ← leafUpdates n target encoding;
      match updates with
      | [] => Reply None
      | _ => prefix ← of_res (gnmiPath target); Reply (Some (mkNotification unix prefix updates))
      end
  end.

(** [Get], one path and the whole request. *)
Definition get_one (m : Memory) (unix : Z) (prefix : string) (content : Content) (encoding : Encoding) (path : gPath)
    : rpc (option Notification) :=
  target ← joinPrefix prefix (Some path);
  _ ← gnmi_checkPath r target;
  notification m unix target content encoding.

Definition gnmi_Get (m : Memory) (unix : Z) (req : GetRequest) : rpc (list Notification) :=
  prefix ← routerPath (gr_Prefix req);
  encoding ← encodingFor (gr_Encoding req);
  let content := contentFor (gr_Type req) in
  let paths := match gr_Path req with [] => [empty_path] | l => l end in
  notifications ← rpc_map (get_one m unix prefix content encoding) paths;
  Reply (omap (M := list) (λ n : option Notification, n) notifications).

(** ** Set *)

Inductive UpdateOperation : Set := UPDATE | REPLACE | DELETE.
Definition resultOperation (op : Op) : UpdateOperation :=
  match op with OpReplace => REPLACE | OpDelete => DELETE | _ => UPDATE end.

Record operation : Set := mkOperation { oo_path : gPath; oo_op : UpdateOperation; oo_document : Document }.

(** The text of an edit operation attribute. *)
Definition op_text (op : Op) : string :=
  match op with
  | OpMerge => "merge" | OpReplace => "replace" | OpCreate => "create" | OpDelete => "delete" | OpRemove => "remove"
  | OpNone => "none"
  end.

(** The chain of documents along the segments, the operation and text on the last. *)
Fixpoint document_chain (op : Op) (text : string) (segs : list Segment) : list Document :=
  match segs with
  | [] => []
  | s :: rest =>
      let keys := if String.eqb (seg_Key s) "" then [] else [leafOf (seg_Key s) (seg_Value s)] in
      match rest with
      | [] =>
          let write := negb (bool_decide (op = OpDelete)) in
          [Doc (seg_Name s) (if write then text else "") write {[ "operation" := op_text op ]} keys]
      | _ => [Doc (seg_Name s) "" false ∅ (keys ++ document_chain op text rest)]
      end
  end.

(** [documentFor]. *)
Definition gnmi_documentFor (target : string) (op : Op) (text : string) : rpc Document :=
  match Parse target with
  | Err _ => Fail InvalidArgument
  | Ok segs =>
      match last segs with
      | None => Fail Internal
      | Some l =>
          _ ← (if bool_decide (op = OpDelete) then Reply tt
               else if negb (String.eqb (seg_Key l) "") then Fail InvalidArgument
               else kind ← schemaKind r (take (length segs - 1) segs) (seg_Name l);
                    if bool_decide (kind = KindLeaf) then Reply tt else Fail InvalidArgument);
          match document_chain op text segs with d :: _ => Reply d | [] => Fail Internal end
      end
  end.

(** [newOperation]; an operation without an update carries no value. *)
Definition newOperation (prefix : string) (op : Op) (update : option gPath * TypedValue) : rpc operation :=
  target ← joinPrefix prefix update.1;
  if String.eqb target "" then Fail InvalidArgument
  else
    text ← (if bool_decide (op = OpDelete) then Reply "" else textOf update.2);
    document ← gnmi_documentFor target op text;
    converted ← of_res (gnmiPath target);
    Reply (mkOperation converted (resultOperation op) document).

Record SetRequest_ : Set := mkSet {
  sq_Prefix : option gPath;
  sq_Delete : list gPath;
  sq_Replace : list (option gPath * TypedValue);
  sq_Update : list (option gPath * TypedValue);
  sq_UnionReplace : nat;
}.

(** The operations in the order of the request. *)
Definition operations_of (req : SetRequest_) : rpc (gPath * list operation) :=
  if Nat.ltb 0 (sq_UnionReplace req) then Fail Unimplemented
  else
    prefix ← routerPath (sq_Prefix req);
    prefixPath ← of_res (gnmiPath prefix);
    deletes ← rpc_map (λ path, newOperation prefix OpDelete (Some path, NoVal)) (sq_Delete req);
    replaces ← rpc_map (newOperation prefix OpReplace) (sq_Replace req);
    updates ← rpc_map (newOperation prefix OpMerge) (sq_Update req);
    Reply (prefixPath, deletes ++ replaces ++ updates).

(** [Set]. *)
Definition gnmi_Set (m : Memory) (now : time) (req : SetRequest_)
    : rpc (gPath * list (gPath * UpdateOperation)) * Memory * list Event :=
  match operations_of req with
  | Fail c => (Fail c, m, [])
  | Reply (prefixPath, []) => (Reply (prefixPath, []), m, [])
  | Reply (prefixPath, operations) =>
      match Edit r m now ctx Running (mkEdit "" OpMerge (oo_document <$> operations)) with
      | (Err e, m) => (Fail (statusError e), m, [])
      | (Ok _, m) =>
          (Reply (prefixPath, (λ o, (oo_path o, oo_op o)) <$> operations), m,
           if bus then [mkEvent TypeConfigChanged "device" "" "gnmi Set" "" "" "" "" 0] else [])
      end
  end.

(** ** Subscribe *)

Definition plainName (text : string) : bool :=
  negb (String.eqb text "") &&
  negb (has_byte text "/" || has_byte text "[" || has_byte text "]" || has_byte text "=").
Definition portPath (port list_ : string) : list string :=
  if plainName port then [list_ +:+ "[name=" +:+ port +:+ "]"] else [].

Definition affectedPaths (e : Event) : list string :=
  let resource := ev_Resource e in
  if String.eqb (ev_Type e) TypeConfigChanged then [""]
  else if String.eqb resource "" then []
  else if String.eqb resource "ptp/clock" then ["ptp/clock"]
  else if HasPrefix resource "l2/stp/" then portPath (str_drop 7 resource) "stp/state/ports/port"
  else if HasPrefix resource "l2/storm/" then portPath (str_drop 9 resource) "interfaces/interface"
  else if plainName resource then ["interfaces/interface[name=" +:+ resource +:+ "]/radio-link"]
  else [].

Definition matchesSubscription (subscription affected : string) : bool :=
  String.eqb affected "" || pathsOverlap subscription affected.
Definition notificationTarget (subscription affected : string) : string :=
  if String.eqb subscription "" then affected else subscription.

Inductive SubscribeMode : Set := ModeStream | ModeOnce | ModePoll.
Inductive SubscriptionMode : Set := TARGET_DEFINED | ON_CHANGE | SAMPLE.
Global Instance SubscriptionMode_eq_dec : EqDecision SubscriptionMode.
Proof. solve_decision. Defined.

Record SubscriptionList : Set := mkSubscriptions {
  sl_Prefix : option gPath;
  sl_Subscription : list (SubscriptionMode * Z * gPath);
  sl_Mode : SubscribeMode;
  sl_Encoding : Encoding;
  sl_UpdatesOnly : bool;
}.

Inductive SubscribeResponse : Set := SentUpdate (n : Notification) | SyncResponse.

(** [subscriptionPaths], one subscription and the list. *)
Definition subscription_path (prefix : string) (subscription : SubscriptionMode * Z * gPath) : rpc string :=
  let '(mode, heartbeat, path) := subscription in
  if negb (bool_decide (mode = ON_CHANGE)) then Fail Unimplemented
  else if negb (heartbeat =? 0)%Z then Fail Unimplemented
  else
    path ← joinPrefix prefix (Some path);
    _ ← gnmi_checkPath r path;
    Reply path.

Definition subscriptionPaths (l : SubscriptionList) : rpc (list string) :=
  prefix ← routerPath (sl_Prefix l);
  match sl_Subscription l with
  | [] => _ ← gnmi_checkPath r prefix; Reply [prefix]
  | subscriptions =>
      rpc_map (subscription_path prefix) subscriptions
  end.

(** The messages an RPC sends, with the status it ends in; a failed RPC keeps what it sent.
    Sending to the stream succeeds. *)
Abbreviation sent := (list SubscribeResponse * option code)%type.

Definition send_optional (x : rpc (option Notification)) : sent :=
  match x with
  | Fail c => ([], Some c)
  | Reply None => ([], None)
  | Reply (Some n) => ([SentUpdate n], None)
  end.
Definition then_send (a : sent) (b : sent) : sent :=
  match a with (l, Some c) => (l, Some c) | (l, None) => (l ++ b.1, b.2) end.

(** [sendSnapshot], for every path. *)
Definition sendSnapshots (m : Memory) (unix : Z) (paths : list string) (encoding : Encoding) : sent :=
  foldr (λ path rest, then_send (send_optional (notification m unix path ContentAll encoding)) rest) ([], None) paths.

Definition sendSyncResponse : sent := ([SyncResponse], None).

(** [subscribeOnce]. *)
Definition subscribeOnce (m : Memory) (unix : Z) (paths : list string) (encoding : Encoding) : sent :=
  then_send (sendSnapshots m unix paths encoding) sendSyncResponse.

(** [sendEvent]: the subscriptions of one affected path, [notified] the targets so far. *)
Fixpoint send_matching (m : Memory) (unix : Z) (encoding : Encoding) (affected : string) (notified : gset string)
    (paths : list string) : sent :=
  match paths with
  | [] => ([], None)
  | subscription :: paths =>
      let target := notificationTarget subscription affected in
      if negb (matchesSubscription subscription affected) || bool_decide (target ∈ notified)
      then send_matching m unix encoding affected notified paths
      else then_send (send_optional (notification m unix target ContentAll encoding))
             (send_matching m unix encoding affected ({[target]} ∪ notified) paths)
  end.
Definition sendEvent (m : Memory) (unix : Z) (paths : list string) (e : Event) (encoding : Encoding) : sent :=
  foldr (λ affected rest, then_send (send_matching m unix encoding affected ∅ paths) rest) ([], None) (affectedPaths e).

(** [subscribeOnChange]: the snapshot at [m], then the events received, each with the store
    and the clock at the time it is handled, until the stream or the bus ends. *)
Definition subscribeOnChange (m : Memory) (unix : Z) (updatesOnly : bool) (paths : list string) (encoding : Encoding)
    (received : list (Memory * Z * Event)) : sent :=
  if negb bus then ([], Some Unimplemented)
  else then_send (if updatesOnly then ([], None) else sendSnapshots m unix paths encoding)
    (then_send sendSyncResponse
       (foldr (λ '(m, unix, e) rest, then_send (sendEvent m unix paths e encoding) rest) ([], None) received)).

(** [Subscribe]; [None] is a request without a subscription list. *)
Definition gnmi_Subscribe (m : Memory) (unix : Z) (request : option SubscriptionList)
    (received : list (Memory * Z * Event)) : sent :=
  match request with
  | None => ([], Some Unimplemented)
  | Some l =>
      match (encoding ← encodingFor (sl_Encoding l); paths ← subscriptionPaths l; Reply (encoding, paths)) : rpc _ with
      | Fail c => ([], Some c)
      | Reply (encoding, paths) =>
          match sl_Mode l with
          | ModeOnce => subscribeOnce m unix paths encoding
          | ModePoll => ([], Some Unimplemented)
          | ModeStream => subscribeOnChange m unix (sl_UpdatesOnly l) paths encoding received
          end
      end
  end.
End service.

(** [Capabilities]: the models with their organization and version, and the encodings. *)
Definition Organization : string := "TriadSim".
Definition ModelVersion : string := "0.1.0".
Definition Capabilities : list (string * string * string) * list Encoding :=
  ((λ module, (mod_Name module, Organization, ModelVersion)) <$> modules, [EncodingJSON; EncodingJSONIETF; EncodingProto]).
