(* ===== verification/Telemetry.v ===== *)
(** * Properties of the gNMI server ([internal/gnmi])

    What a path means in both directions, what a Set leaves in the store, what a Get of
    the device returns, and which subscriptions an event notifies. *)

From S2P Require Import Prelude GoStrings GoFloat GoParse GoFormat GoValue GoNet Persist Store Clock Event Path Model Reflect Reflected Hydrate Schema Oid Router Ops Datatree Edits Read Trees GetConfig Rendering Codec Resource Http Restful Gnmi.

(** ** Calls over lists *)

Lemma rpc_map_ok {A B} (f : A → rpc B) (g : A → B) l :
  Forall (λ a, f a = Reply (g a)) l → rpc_map f l = Reply (g <$> l).
Proof. induction 1 as [|a l Ha _ IH]; [done|]. cbn [rpc_map]. rewrite Ha, IH. done. Qed.

Lemma rpc_map_reply {A B} (f : A → rpc B) l bs : rpc_map f l = Reply bs → Forall2 (λ a b, f a = Reply b) l bs.
Proof.
  revert bs. induction l as [|a l IH]; intros bs; cbn [rpc_map]; [intros [= <-]; constructor|].
  destruct (f a) as [b|] eqn:E; [|done]. cbn [mbind rpc_bind].
  destruct (rpc_map f l) as [rest|]; [|done]. intros [= <-]. constructor; [done|by apply IH].
Qed.

(** ** Paths *)

(** A segment whose name carries no module prefix. *)
Definition unprefixed (s : Segment) : Prop := has_byte (seg_Name s) ":" = false.

Lemma elem_segment_ok s : wf_segment s → unprefixed s → elem_segment (elem_of_segment s) = Reply (seg_String s).
Proof.
  intros (Hn & _ & Hk) Hu. unfold elem_segment, elem_of_segment, seg_String. cbn [pe_Name pe_Key].
  replace (stripModule (seg_Name s)) with (seg_Name s)
    by (unfold stripModule; unfold unprefixed, has_byte in Hu; by destruct (IndexByte (seg_Name s) ":")).
  destruct (String.eqb_spec (seg_Name s) ""); [done|].
  destruct (String.eqb_spec (seg_Key s) ""); [done|]. cbn [onlyKey hd].
  destruct Hk as [[]|(_ & Hv & _)]; [done|]. by destruct (String.eqb_spec (seg_Value s) "").
Qed.

Lemma elements_of_path segs : wf_path segs → Forall unprefixed segs →
  elementsToPath (elem_of_segment <$> segs) = Reply (Path_String segs).
Proof.
  intros Hw Hu. unfold elementsToPath.
  assert (rpc_map elem_segment (elem_of_segment <$> segs) = Reply (seg_String <$> segs)) as ->.
  { rewrite (rpc_map_ok _ (λ e, match elem_segment e with Reply s => s | Fail _ => "" end)).
    - f_equal. rewrite <- list_fmap_compose. apply list_fmap_ext. intros i s Hs. cbn [compose].
      rewrite elem_segment_ok; [done|..].
      + destruct Hw as [_ Hw]. exact (Forall_lookup_1 _ _ _ _ Hw Hs).
      + exact (Forall_lookup_1 _ _ _ _ Hu Hs).
    - apply Forall_fmap. destruct Hw as [_ Hw]. pose proof (conj Hw Hu) as Hb%Forall_and. eapply Forall_impl; [exact Hb|].
      intros s [H1 H2]. unfold compose. by rewrite !elem_segment_ok. }
  cbn [mbind rpc_bind]. unfold parsed_path. fold (Path_String segs). by rewrite Parse_String.
Qed.

Lemma gnmiPath_reads path g : gnmiPath path = Ok g →
  (path = "" ∧ g = empty_path) ∨
  (∃ segs, Parse path = Ok segs ∧ g = mkGPath "" (elem_of_segment <$> segs) []).
Proof.
  unfold gnmiPath. destruct (String.eqb_spec path ""); [intros [= <-]; by left|].
  destruct (Parse path) as [segs|]; [|done]. intros [= <-]. right. by exists segs.
Qed.

Lemma elem_of_segment_inj a b : wf_segment a → wf_segment b → elem_of_segment a = elem_of_segment b → a = b.
Proof.
  intros (_ & _ & Ha) (_ & _ & Hb). unfold elem_of_segment. destruct a as [n k v], b as [n' k' v']; simpl in *.
  destruct (String.eqb_spec k ""), (String.eqb_spec k' ""); intros [= ->]; naive_solver.
Qed.

Lemma gnmiPath_inj p q g : gnmiPath p = Ok g → gnmiPath q = Ok g → p = q.
Proof.
  intros [[-> ->]|(s & Hs & ->)]%gnmiPath_reads [[-> H]|(s' & Hs' & H)]%gnmiPath_reads; [done|..].
  - apply Parse_inv in Hs' as [_ [Hne _]]. by destruct s'.
  - apply Parse_inv in Hs as [_ [Hne _]]. by destruct s.
  - apply Parse_inv in Hs as [<- [_ Hw]]. apply Parse_inv in Hs' as [<- [_ Hw']]. injection H as H. f_equal.
    clear -H Hw Hw'. revert s' H Hw'. induction Hw as [|a s Ha _ IH]; intros [|b s'] H Hw'; try done.
    apply Forall_cons in Hw' as [Hb Hw']. rewrite !fmap_cons in H. injection H as H1 H2.
    f_equal; [|by apply IH]. apply elem_of_segment_inj; [done..|]. unfold elem_of_segment. congruence.
Qed.

Lemma parsed_path_reads s p : parsed_path s = Reply p → s = p ∧ ∃ segs, Parse p = Ok segs.
Proof. unfold parsed_path. destruct (Parse s) as [segs|] eqn:E; [|done]. intros [= <-]. by eauto. Qed.

Lemma routerPath_reads g p : routerPath g = Reply p → p = "" ∨ ∃ segs, Parse p = Ok segs.
Proof.
  unfold routerPath. destruct g as [g|]; [|intros [= <-]; by left]. destruct (negb (originAccepted _)); [done|].
  case_bool_decide; simpl.
  - case_bool_decide; simpl; [intros [= <-]; by left|]. intros [_ Hq]%parsed_path_reads. by right.
  - unfold elementsToPath. destruct (rpc_map _ _) as [l|]; [|done]. intros [_ Hq]%parsed_path_reads. by right.
Qed.

(** GNMI paths round-trip. Every router path whose names carry no module prefix, and the
    root, converts to a gNMI path that converts back to it; different paths never convert to
    the same gNMI path; and whatever gNMI path a client sends, one the server accepts is
    the root or a path the router parses. *)
Theorem gnmi_path_roundtrip :
  gnmiPath "" = Ok empty_path ∧ routerPath (Some empty_path) = Reply "" ∧
  (∀ path segs, Parse path = Ok segs → Forall unprefixed segs →
     ∃ g, gnmiPath path = Ok g ∧ length (gp_Elem g) = length segs ∧ routerPath (Some g) = Reply path) ∧
  (∀ p q g, gnmiPath p = Ok g → gnmiPath q = Ok g → p = q) ∧
  (∀ g p, routerPath g = Reply p → p = "" ∨ ∃ segs, Parse p = Ok segs).
Proof.
  split_and!; [done|done| |exact gnmiPath_inj|exact routerPath_reads].
  intros path segs Hp Hu. exists (mkGPath "" (elem_of_segment <$> segs) []). unfold gnmiPath.
  destruct (String.eqb_spec path "") as [-> |]; [done|]. rewrite Hp. split; [done|]. split; [apply length_fmap|].
  apply Parse_inv in Hp as [<- Hw]. cbn [routerPath gp_Origin gp_Elem].
  rewrite bool_decide_eq_false_2 by (destruct Hw, segs; done). by apply elements_of_path.
Qed.

(** ** Set *)

(** The requested path, joined to the prefix, is the path of the result. *)
Definition answers (prefix : string) (path : option gPath) (op : UpdateOperation) (result : gPath * UpdateOperation) : Prop :=
  result.2 = op ∧ ∃ p, joinPrefix prefix path = Reply p ∧ p ≠ "" ∧ gnmiPath p = Ok result.1.

Lemma newOperation_answers r prefix op update o : newOperation r prefix op update = Reply o →
  answers prefix update.1 (resultOperation op) (oo_path o, oo_op o).
Proof.
  unfold newOperation. destruct (joinPrefix prefix update.1) as [p|] eqn:Ej; [|done]. cbn [mbind rpc_bind].
  destruct (String.eqb_spec p ""); [done|].
  destruct (if bool_decide (op = OpDelete) then _ else _) as [text|]; [|done]. cbn [mbind rpc_bind].
  destruct (gnmi_documentFor r p op text); [|done]. cbn [mbind rpc_bind]. unfold of_res.
  destruct (gnmiPath p) as [g|] eqn:Eg; [|done]. intros [= <-]. split; [done|]. by exists p.
Qed.

Lemma operations_answer {A} r prefix op (f : A → option gPath * TypedValue) l os :
  rpc_map (λ a, newOperation r prefix op (f a)) l = Reply os →
  Forall2 (λ a, answers prefix (f a).1 (resultOperation op)) l ((λ o, (oo_path o, oo_op o)) <$> os).
Proof.
  intros H%rpc_map_reply. apply Forall2_fmap_r. eapply Forall2_impl; [exact H|].
  intros a o Ho. by apply newOperation_answers in Ho.
Qed.

(** What the results of a Set list: the deletes, the replaces and the updates in order. *)
Definition listed (req : SetRequest_) (results : list (gPath * UpdateOperation)) : Prop :=
  ∃ prefix, routerPath (sq_Prefix req) = Reply prefix ∧
    Forall2 (λ '(path, op) result, answers prefix path op result)
      (((λ g, (Some g, DELETE)) <$> sq_Delete req) ++ ((λ u, (u.1, REPLACE)) <$> sq_Replace req) ++
       ((λ u, (u.1, UPDATE)) <$> sq_Update req)) results.

Lemma operations_listed r req prefixPath os : operations_of r req = Reply (prefixPath, os) →
  listed req ((λ o, (oo_path o, oo_op o)) <$> os).
Proof.
  unfold operations_of. destruct (Nat.ltb _ _); [done|].
  destruct (routerPath (sq_Prefix req)) as [prefix|] eqn:Ep; [|done]. cbn [mbind rpc_bind].
  destruct (of_res (gnmiPath prefix)); [|done]. cbn [mbind rpc_bind].
  destruct (rpc_map _ (sq_Delete req)) as [ds|] eqn:Ed; [|done]. cbn [mbind rpc_bind].
  destruct (rpc_map _ (sq_Replace req)) as [rs|] eqn:Er; [|done]. cbn [mbind rpc_bind].
  destruct (rpc_map _ (sq_Update req)) as [us|] eqn:Eu; [|done]. intros [= <- <-].
  exists prefix. split; [done|]. rewrite !fmap_app. repeat apply Forall2_app; apply Forall2_fmap_l.
  - exact (operations_answer r prefix OpDelete (λ g, (Some g, NoVal)) _ _ Ed).
  - exact (operations_answer r prefix OpReplace id _ _ Er).
  - exact (operations_answer r prefix OpMerge id _ _ Eu).
Qed.

Lemma listed_empty req : listed req [] → sq_Delete req = [] ∧ sq_Replace req = [] ∧ sq_Update req = [].
Proof.
  intros (prefix & _ & H%Forall2_nil_inv_r). apply app_eq_nil in H as [H1 [H2 H3]%app_eq_nil].
  by split_and!; eapply fmap_nil_inv.
Qed.


(** Creating VLAN 20 with its name, and renaming the device, in one Set. *)
Definition leaf_path (elems : list (string * list (string * string))) : option gPath :=
  Some (mkGPath "" ((λ '(n, k), mkElem n k) <$> elems) []).
Definition set_request : SetRequest_ :=
  mkSet None [] [(leaf_path [("system-info", []); ("name", [])], JsonIetfVal (JSONValue (JString "edge")))]
    [(leaf_path [("vlans", []); ("vlan", [("id", "20")]); ("name", [])], StringVal "users")] 0.
Definition done_set : rpc (gPath * list (gPath * UpdateOperation)) * Memory * list Event :=
  gnmi_Set default_router true true named_store 9 set_request.


(** ** Get *)

Definition leaf_update (encoding : Encoding) (l : string * value) : rpc Update :=
  value ← typedValue (Some l.2) encoding;
  path ← of_res (gnmiPath l.1);
  Reply (mkUpdate path value).

Lemma rpc_map_app {A B} (f : A → rpc B) l k :
  rpc_map f (l ++ k) = (x ← rpc_map f l; y ← rpc_map f k; Reply (x ++ y)).
Proof.
  induction l as [|a l IH]; cbn [rpc_map app mbind rpc_bind]; [by destruct (rpc_map f k)|].
  destruct (f a); cbn [mbind rpc_bind]; [|done]. rewrite IH. destruct (rpc_map f l); cbn [mbind rpc_bind]; [|done].
  by destruct (rpc_map f k).
Qed.

(** The updates below a list of children. *)
Fixpoint children_updates (encoding : Encoding) (l : list DataNode) : rpc (list Update) :=
  match l with
  | [] => Reply []
  | c :: l => updates ← leafUpdates c "" encoding; rest ← children_updates encoding l; Reply (updates ++ rest)
  end.

Lemma leafUpdates_inner p n k key kv l v c encoding : k ≠ KindLeaf →
  leafUpdates (DNode p n k key kv l v c) "" encoding = children_updates encoding c.
Proof.
  intros Hk. cbn [leafUpdates]. rewrite bool_decide_eq_false_2 by done.
  induction c as [|d c IH]; [done|]. cbn [children_updates]. by rewrite <- IH.
Qed.

Lemma children_leaf_updates encoding c :
  Forall (λ n, leafUpdates n "" encoding = rpc_map (leaf_update encoding) (leaves n)) c →
  children_updates encoding c = rpc_map (leaf_update encoding) (flat c).
Proof.
  induction 1 as [|d c Hd _ IH]; [done|]. cbn [children_updates flat_map]. rewrite rpc_map_app, Hd, IH. done.
Qed.

Lemma leaf_updates n encoding : well_named n → leafUpdates n "" encoding = rpc_map (leaf_update encoding) (leaves n).
Proof.
  induction n as [p n k key kv l v c IH] using DataNode_ind'. intros Hw.
  destruct (decide (k = KindLeaf)) as [-> |Hk].
  - destruct Hw as [_ [x ->]]. cbn [leafUpdates leaves rpc_map]. rewrite bool_decide_eq_true_2 by done.
    unfold leaf_update. cbn [fst snd]. destruct (typedValue _ _); [|done]. cbn [mbind rpc_bind].
    by destruct (of_res _).
  - rewrite leafUpdates_inner, leaves_inner by auto. apply children_leaf_updates.
    assert (Forall well_named c) as Hc.
    { destruct k; [| |done]; cbn [well_named] in Hw; rewrite foldr_and in Hw; [done|].
      eapply Forall_impl; [exact Hw|]. by intros x [_ ?]. }
    apply Forall_forall. intros d Hd. rewrite Forall_forall in IH, Hc. by apply IH, Hc.
Qed.

Lemma leaf_update_reads encoding p v u : leaf_update encoding (p, v) = Reply u ↔
  gnmiPath p = Ok (up_Path u) ∧ typedValue (Some v) encoding = Reply (up_Val u).
Proof.
  unfold leaf_update. cbn [fst snd]. destruct u as [g x]. cbn [up_Path up_Val].
  destruct (typedValue _ _); cbn [mbind rpc_bind]; [|naive_solver].
  unfold of_res. destruct (gnmiPath p); cbn [mbind rpc_bind]; naive_solver.
Qed.

Lemma leaf_update_total encoding p v segs : Parse p = Ok segs → marshals (Some v) = true →
  ∃ u, leaf_update encoding (p, v) = Reply u.
Proof.
  intros Hp Hv. unfold leaf_update, typedValue, gnmiPath. cbn [fst snd]. rewrite Hv. cbn [negb mbind rpc_bind].
  destruct (String.eqb p ""); [by eexists|]. rewrite Hp. by eexists.
Qed.

(** All leaves of a list turned into updates: one each, at different paths. *)
Lemma updates_exact encoding l : NoDup l.*1 → Forall (λ x, ∃ u, leaf_update encoding x = Reply u) l →
  ∃ us, rpc_map (leaf_update encoding) l = Reply us ∧ NoDup (up_Path <$> us) ∧
    ∀ u, u ∈ us ↔ ∃ p v, (p, v) ∈ l ∧ leaf_update encoding (p, v) = Reply u.
Proof.
  intros Hnd Hl. induction Hl as [|[p v] l [u Hu] _ IH].
  - exists []. split_and!; [done|constructor|]. intros u. split; [by intros ?%elem_of_nil|by intros (? & ? & ?%elem_of_nil & _)].
  - rewrite fmap_cons in Hnd. apply NoDup_cons in Hnd as [Hp Hnd]. destruct (IH Hnd) as (us & Hus & Hud & Hin).
    exists (u :: us). cbn [rpc_map]. rewrite Hu, Hus. split; [done|]. split.
    + rewrite fmap_cons. apply NoDup_cons. split; [|done]. intros (w & Hw & (q & x & Hq & Hx)%Hin)%list_elem_of_fmap.
      apply leaf_update_reads in Hu as [Hu _]. apply leaf_update_reads in Hx as [Hx _]. rewrite <- Hw in Hx.
      apply Hp. rewrite (gnmiPath_inj _ _ _ Hu Hx). by apply (list_elem_of_fmap_2 fst _ (q, x)).
    + intros w. rewrite elem_of_cons, Hin. split.
      * intros [-> |(q & x & Hq & Hx)]; [exists p, v|exists q, x]; split; try done; [by left|by right].
      * intros (q & x & [[= -> ->]|Hq]%elem_of_cons & Hx); [left; congruence|right; by eauto].
Qed.

(** C37: a gNMI Get of the device is complete and exact. When the leaves of the running
    datastore resolve, follow the schema and have JSON values, a Get without paths answers,
    for each data type and supported encoding, one notification at the root whose updates
    are exactly the selected leaves, each once, at its path and with its encoded value; if
    no leaf is selected it answers no notification. *)
Theorem gnmi_get_complete root r m vs results unix t encoding :
  NewRouter root = Ok r → datastore m Running = Ok vs → collect r m true Running = Ok results →
  map_Forall (λ p _, match Parse p with Ok segs => follows (r_schema r) segs | Err _ => false end = true) vs →
  map_Forall (λ _ v, marshals (Some v) = true) vs → encodingFor encoding = Reply encoding →
  ∃ us, gnmi_Get r true m unix (mkGet None [] t encoding) =
          Reply (if bool_decide (us = []) then [] else [mkNotification unix empty_path us]) ∧
    NoDup (up_Path <$> us) ∧
    ∀ u, u ∈ us ↔ ∃ p v, vs !! p = Some v ∧ wanted r (contentFor t) p ∧
                    gnmiPath p = Ok (up_Path u) ∧ typedValue (Some v) encoding = Reply (up_Val u).
Proof.
  intros Hr Hds Hc Hf Hm He. destruct (read_tree root r m Running vs results (contentFor t) Hr Hds Hc Hf) as (nodes & Hread & Hnd & Hl).
  apply NewRouter_built in Hr as [_ Hb]. clear root Hc.
  pose proof (read_named r m true Running (mkReadOptions "" (contentFor t)) nodes eq_refl Hread) as Hnamed.
  destruct (updates_exact encoding (flat nodes) Hnd) as (us & Hus & Hud & Hin).
  { apply Forall_forall. intros [p v] [Hv _]%Hl. specialize (Hf p v Hv). simpl in Hf.
    destruct (Parse p) as [segs|] eqn:Ep; [|done]. eapply leaf_update_total; [exact Ep|exact (Hm p v Hv)]. }
  exists us. split_and!; [|done|].
  - unfold gnmi_Get. cbn [gr_Prefix gr_Encoding gr_Path gr_Type routerPath mbind rpc_bind]. rewrite He.
    cbn [mbind rpc_bind rpc_map]. unfold get_one. change (joinPrefix "" (Some empty_path)) with (Reply "").
    cbn [mbind rpc_bind]. change (gnmi_checkPath r "") with (Reply tt). cbn [mbind rpc_bind].
    unfold notification. rewrite Hread. cbn [of_res mbind rpc_bind]. rewrite leafUpdates_inner by done.
    rewrite children_leaf_updates, Hus by (eapply Forall_impl; [exact Hnamed|]; intros; by apply leaf_updates).
    cbn [mbind rpc_bind]. destruct us as [|u us]; reflexivity.
  - intros u. rewrite Hin. setoid_rewrite leaf_update_reads. setoid_rewrite Hl. naive_solver.
Qed.

Lemma gnmi_get_complete_witness :
  collect default_router named_store true Running = Ok (match collect default_router named_store true Running with Ok l => l | Err _ => [] end) ∧
  ∃ us, gnmi_Get default_router true named_store 5 (mkGet None [] DataConfig EncodingProto) =
          Reply (if bool_decide (us = []) then [] else [mkNotification 5 empty_path us]) ∧
    NoDup (up_Path <$> us) ∧
    ∀ u, u ∈ us ↔ ∃ p v, running named_store !! p = Some v ∧ wanted default_router ContentConfig p ∧
                    gnmiPath p = Ok (up_Path u) ∧ typedValue (Some v) EncodingProto = Reply (up_Val u).
Proof.
  assert (H : collect default_router named_store true Running =
    Ok (match collect default_router named_store true Running with Ok l => l | Err _ => [] end)) by (vm_compute; reflexivity).
  split; [exact H|].
  apply (gnmi_get_complete DefaultDevice default_router named_store (running named_store) _ 5 DataConfig EncodingProto
    default_router_built eq_refl H); [by_decide|by_decide|reflexivity].
Defined.

(** ** Subscriptions *)

Lemma isPrefix_prefix a b : isPrefix a b = true ↔ a `prefix_of` b.
Proof.
  revert b. induction a as [|x a IH]; intros b; simpl; [split; [intros _; apply prefix_nil|done]|].
  destruct b as [|y b]; [split; [done|by intros ?%prefix_nil_not]|].
  rewrite andb_true_iff, bool_decide_eq_true, IH. split.
  - intros [-> H]. by apply prefix_cons.
  - intros H. split; [by eapply prefix_cons_inv_1|by eapply prefix_cons_inv_2].
Qed.

(** A change at [affected] concerns a subscription: one of the two nodes contains the other. *)
Definition concerns (affected subscription : string) : Prop :=
  affected = "" ∨ ∃ a s, parseSegments affected = Some a ∧ parseSegments subscription = Some s ∧
    (s `prefix_of` a ∨ a `prefix_of` s).

Lemma matches_concerns s a : matchesSubscription s a = true ↔ concerns a s.
Proof.
  unfold matchesSubscription, concerns, pathsOverlap. rewrite orb_true_iff, String.eqb_eq.
  destruct (parseSegments s) as [ss|], (parseSegments a) as [sa|]; try rewrite orb_true_iff, !isPrefix_prefix; naive_solver.
Qed.

Section events.
Context (r : Router) (ctx : context) (m : Memory) (unix : Z) (encoding : Encoding).

Abbreviation notified_about t := (notification r ctx m unix t ContentAll encoding).

Lemma notification_prefix t n : notified_about t = Reply (Some n) → gnmiPath t = Ok (no_Prefix n).
Proof.
  unfold notification. destruct (of_res (Read _ _ _ _ _)) as [[node|]|]; [|done..]. cbn [mbind rpc_bind].
  destruct (leafUpdates node t encoding) as [[|u us]|]; [done| |done]. cbn [mbind rpc_bind]. unfold of_res.
  destruct (gnmiPath t); [|done]. by intros [= <-].
Qed.

(** The notifications of one affected path, after the targets of [seen]. *)
Lemma send_matching_spec affected paths : Forall (λ s, ∃ o, notified_about (notificationTarget s affected) = Reply o) paths →
  ∀ seen, ∃ l, send_matching r ctx m unix encoding affected seen paths = (SentUpdate <$> l, None) ∧
    NoDup (no_Prefix <$> l) ∧
    ∀ n, n ∈ l ↔ ∃ s, s ∈ paths ∧ concerns affected s ∧ (notificationTarget s affected ∉ seen) ∧
                   notified_about (notificationTarget s affected) = Reply (Some n).
Proof.
  induction 1 as [|s paths [o Ho] _ IH]; intros seen.
  { exists []. split_and!; [done|constructor|]. intros n. split; [by intros ?%elem_of_nil|by intros (? & ?%elem_of_nil & _)]. }
  cbn [send_matching]. set (t := notificationTarget s affected) in *.
  destruct (negb (matchesSubscription s affected) || bool_decide (t ∈ seen)) eqn:Hskip.
  - destruct (IH seen) as (l & -> & Hnd & Hl). exists l. split_and!; [done|done|]. intros n. rewrite Hl. split.
    + intros (x & Hx & H). exists x. split; [by right|done].
    + intros (x & [-> |Hx]%elem_of_cons & Hc & Hs & Hn); [|by exists x]. exfalso.
      apply orb_true_iff in Hskip as [H|H%bool_decide_eq_true]; [|by apply Hs].
      apply matches_concerns in Hc. by rewrite Hc in H.
  - apply orb_false_iff in Hskip as [Hm%negb_false_iff%matches_concerns Hs%bool_decide_eq_false].
    destruct (IH ({[t]} ∪ seen)) as (l & -> & Hnd & Hl). rewrite Ho.
    exists (match o with Some n => n :: l | None => l end). split_and!.
    + by destruct o.
    + destruct o as [n|]; [|done]. rewrite fmap_cons. apply NoDup_cons. split; [|done].
      intros (n' & Hp & (x & _ & _ & Hx & Hn)%Hl)%list_elem_of_fmap. apply notification_prefix in Hn, Ho.
      rewrite <- Hp in Hn. pose proof (gnmiPath_inj _ _ _ Ho Hn). set_solver.
    + intros n. split.
      * intros Hn. assert ((o = Some n) ∨ n ∈ l) as [-> |(x & Hx & Hc & Hns & Hy)%Hl]
          by (destruct o; [by apply elem_of_cons in Hn as [-> |?]; auto|by right]).
        -- exists s. split; [by left|done].
        -- exists x. split; [by right|]. split; [done|]. split; [set_solver|done].
      * intros (x & Hx & Hc & Hns & Hy). destruct (decide (notificationTarget x affected = t)) as [Heq|Hne].
        -- rewrite Heq, Ho in Hy. injection Hy as ->. by left.
        -- apply elem_of_cons in Hx as [-> |Hx]; [done|].
           assert (n ∈ l) by (apply Hl; exists x; split_and!; [done|done|set_solver|done]).
           destruct o; [by right|done].
Qed.
End events.

Lemma affected_at_most_one e : affectedPaths e = [] ∨ ∃ a, affectedPaths e = [a].
Proof. unfold affectedPaths, portPath. repeat case_match; eauto. Qed.

(** C38: an event notifies the subscriptions it concerns, once per target. Every event maps to
    at most one affected node, and one that maps to none sends nothing. Otherwise, when the
    targets of the subscriptions can be read, the stream gets exactly the notifications of
    the subscriptions one of whose nodes contains the other, at the path of the
    subscription (or of the affected node for a subscription to the root), no two for the
    same path, and the subscription stays open. *)
Theorem event_notifies r ctx m unix encoding paths e :
  (affectedPaths e = [] ∨ ∃ a, affectedPaths e = [a]) ∧
  (affectedPaths e = [] → sendEvent r ctx m unix paths e encoding = ([], None)) ∧
  ∀ a, affectedPaths e = [a] →
    Forall (λ s, ∃ o, notification r ctx m unix (notificationTarget s a) ContentAll encoding = Reply o) paths →
    ∃ l, sendEvent r ctx m unix paths e encoding = (SentUpdate <$> l, None) ∧ NoDup (no_Prefix <$> l) ∧
      ∀ n, n ∈ l ↔ ∃ s, s ∈ paths ∧ concerns a s ∧
                     notification r ctx m unix (notificationTarget s a) ContentAll encoding = Reply (Some n).
Proof.
  split; [apply affected_at_most_one|]. unfold sendEvent. split; [by intros ->|]. intros a -> Hp.
  destruct (send_matching_spec r ctx m unix encoding a paths Hp ∅) as (l & Hl & Hnd & Hin).
  exists l. cbn [foldr]. rewrite Hl. split; [cbn [then_send fst snd]; by rewrite app_nil_r|]. split; [done|].
  intros n. rewrite Hin. set_solver.
Qed.

Definition config_event : Event := mkEvent TypeConfigChanged "device" "" "gnmi Set" "" "" "" "" 0.
Definition name_subscriptions : list string := ["system-info"; "system-info/name"; "system-info"; "vlans"].

Lemma event_notifies_witness :
  length (sendEvent default_router true named_store 7 name_subscriptions config_event EncodingJSON).1 = 2 ∧
  ∃ l, sendEvent default_router true named_store 7 name_subscriptions config_event EncodingJSON = (SentUpdate <$> l, None) ∧
    NoDup (no_Prefix <$> l).
Proof.
  split; [vm_compute; reflexivity|].
  destruct (proj2 (proj2 (event_notifies default_router true named_store 7 EncodingJSON name_subscriptions config_event)) "")
    as (l & Hl & Hnd & _); [reflexivity| |exists l; exact (conj Hl Hnd)].
  repeat constructor; eexists; vm_compute; reflexivity.
Defined.

(** An STP event names its port with the key [name], but the list key is [port]: a
    subscription to that port is not notified. *)
Definition stp_event : Event := mkEvent "stp-topology-change" "l2/stp/eth0" "" "" "" "" "" "" 0.
Example stp_port_subscription_missed :
  affectedPaths stp_event = ["stp/state/ports/port[name=eth0]"] ∧
  matchesSubscription "stp/state/ports/port[port=eth0]" "stp/state/ports/port[name=eth0]" = false ∧
  gnmi_checkPath default_router "stp/state/ports/port[port=eth0]" = Reply tt.
Proof. split_and!; vm_compute; reflexivity. Qed.
