(* ===== verification/Snapshot.v ===== *)
(** * What a snapshot says about the datastore ([internal/router/hydrate.go])

    [deviceFromValues] assigns the stored paths one after another to a pruned copy of the
    template.  Here: every leaf of the datastore is the value of that leaf in the rebuilt
    device, whatever else the datastore holds.  The entries in question are the [proper]
    ones: predicates on lists and only there, keys in the form they are printed in, a key
    leaf that agrees with the predicate above it, and a value its leaf can hold. *)

From S2P Require Import Prelude GoStrings GoFloat GoValue GoNet Persist Store Path Model Reflect Reflected Hydrate Schema Oid Router.

(** ** Proper paths *)

Definition plain_seg (s : Segment) : bool := bool_decide (seg_Key s = "" ∧ seg_Value s = "").
Definition plain_at (at_field : option Segment) : bool :=
  match at_field with Some s => plain_seg s | None => true end.

(** The predicate [last] of a list whose entries have these fields, on the way to [segs]
    below the entry, where [x] is stored. *)
Definition key_proper (fields : list (fieldTag * gotype)) (last : Segment) (segs : list Segment)
    (x : value) : bool :=
  match keyFieldIndex fields with
  | Some ki =>
      match fields !! ki with
      | Some (_, TLeaf k) =>
          bool_decide (seg_Key last ≠ "" ∧ seg_Key last = keyTagName fields) &&
          bool_decide (setKey k (seg_Value last) ≫= scalarString = Some (seg_Value last)) &&
          match matchField fields segs with
          | Some (i, _) =>
              if Nat.eqb i ki then
                match assignLeaf k x with
                | Ok y => bool_decide (scalarString y = Some (seg_Value last))
                | Err _ => false
                end
              else true
          | None => true
          end
      | _ => false
      end
  | None => false
  end.

Fixpoint proper (t : gotype) (at_field : option Segment) (segs : list Segment) (x : value) : bool :=
  match t with
  | TLeaf k => plain_at at_field && bool_decide (segs = []) && is_ok (assignLeaf k x)
  | TPtr t => plain_at at_field && bool_decide (segs ≠ []) && proper t None segs x
  | TSlice te =>
      match at_field, te with
      | Some last, TStruct fields => key_proper fields last segs x && proper te None segs x
      | _, _ => false
      end
  | TStruct fields =>
      plain_at at_field &&
      match matchField fields segs with
      | Some (i, n) =>
          forallb plain_seg (take (n - 1) segs) &&
          match segs !! (n - 1) with
          | Some last => default false (map (λ f, proper f.2 (Some last) (drop n segs) x) fields !! i)
          | None => false
          end
      | None => false
      end
  end.

(** The leaf a path leads to in a value, without creating anything. *)
Inductive leaf_at : gotype → goval → option Segment → list Segment → LeafKind → value → Prop :=
  | at_leaf k x at_field : leaf_at (TLeaf k) (GLeaf x) at_field [] k x
  | at_ptr t v at_field s segs k x :
      leaf_at t v None (s :: segs) k x → leaf_at (TPtr t) (GPtr (Some v)) at_field (s :: segs) k x
  | at_slice fields ki l last segs i e k x :
      keyFieldIndex fields = Some ki → seg_Key last ≠ "" → seg_Key last = keyTagName fields →
      find_key (TStruct fields) ki (seg_Value last) l = Some (i, e) →
      leaf_at (TStruct fields) e None segs k x →
      leaf_at (TSlice (TStruct fields)) (GSlice l) (Some last) segs k x
  | at_struct fields vs at_field segs i n tag ft fv last k x :
      matchField fields segs = Some (i, n) → fields !! i = Some (tag, ft) → vs !! i = Some fv →
      segs !! (n - 1) = Some last → leaf_at ft fv (Some last) (drop n segs) k x →
      leaf_at (TStruct fields) (GStruct vs) at_field segs k x.

(** ** Lemmas *)

Lemma key_proper_inv fields last segs x : key_proper fields last segs x = true →
  ∃ ki tag k, keyFieldIndex fields = Some ki ∧ fields !! ki = Some (tag, TLeaf k) ∧
    seg_Key last ≠ "" ∧ seg_Key last = keyTagName fields ∧
    (∃ y, setKey k (seg_Value last) = Some y ∧ scalarString y = Some (seg_Value last)) ∧
    (∀ n, matchField fields segs = Some (ki, n) →
       ∃ y, assignLeaf k x = Ok y ∧ scalarString y = Some (seg_Value last)).
Proof.
  unfold key_proper. destruct (keyFieldIndex fields) as [ki|]; [|done].
  destruct (fields !! ki) as [[tag [k| | |]]|] eqn:Hf; try done.
  rewrite !andb_true_iff, !bool_decide_eq_true. intros [[[H1 H2] H3] H4].
  exists ki, tag, k. split_and!; try done.
  - by apply bind_Some in H3.
  - intros n Hn. rewrite Hn, Nat.eqb_refl in H4.
    destruct (assignLeaf k x) as [y|]; [|done]. exists y. split; [done|]. by apply bool_decide_eq_true in H4.
Qed.

Lemma proper_struct_inv fields at_field segs x : proper (TStruct fields) at_field segs x = true →
  ∃ i n tag ft last, matchField fields segs = Some (i, n) ∧ fields !! i = Some (tag, ft) ∧
    segs !! (n - 1) = Some last ∧ forallb plain_seg (take (n - 1) segs) = true ∧
    proper ft (Some last) (drop n segs) x = true.
Proof.
  cbn [proper]. intros [_ H]%andb_true_iff.
  destruct (matchField fields segs) as [[i n]|]; [|done]. apply andb_true_iff in H as [Hp H].
  destruct (segs !! (n - 1)) as [last|] eqn:Hl; [|done]. rewrite list_lookup_fmap in H.
  destruct (fields !! i) as [[tag ft]|] eqn:Hi; [|done]. exists i, n, tag, ft, last. done.
Qed.

(** The key of an element is the predicate it is reached by, before and after. *)
Lemma element_key_struct fields vs ki tag k v :
  fields !! ki = Some (tag, TLeaf k) → vs !! ki = Some (GLeaf v) →
  element_key (TStruct fields) (GStruct vs) ki = scalarString v.
Proof. intros H1 H2. unfold element_key. simpl. by rewrite H1, H2. Qed.

Lemma new_element_key fields ki tag k text v :
  fields !! ki = Some (tag, TLeaf k) → new_element (TStruct fields) ki text = Some v →
  setKey k text ≫= scalarString = Some text → element_key (TStruct fields) v ki = Some text.
Proof.
  intros Hk. unfold new_element. cbn [zero]. rewrite Hk. simpl.
  intros (y & Hy & [= <-])%bind_Some (y' & Hy' & Hs)%bind_Some. simplify_eq.
  erewrite element_key_struct; [done|done|]. apply list_lookup_insert_eq.
  rewrite length_map. by eapply lookup_lt_Some.
Qed.

Lemma assigned_key fields last segs x e e' : key_proper fields last segs x = true →
  assignPath (TStruct fields) e None segs x = Ok e' →
  ∀ ki, keyFieldIndex fields = Some ki →
  element_key (TStruct fields) e ki = Some (seg_Value last) →
  element_key (TStruct fields) e' ki = Some (seg_Value last).
Proof.
  intros (ki & tag & k & Hki & Hk & _ & _ & _ & Hkey)%key_proper_inv Ha ki' Hki' He.
  assert (ki' = ki) as -> by congruence.
  destruct e as [| | |vs]; try done. rewrite assignPath_struct in Ha.
  destruct segs as [|s segs]; [done|]. set (ss := s :: segs) in *.
  destruct (matchField fields ss) as [[i n]|] eqn:Hm; [|done].
  destruct (fields !! i) as [[tag' ft]|] eqn:Hi; [|done].
  destruct (vs !! i) as [fv|] eqn:Hv; [|done]. destruct (ss !! (n - 1)) as [l|]; [|done].
  destruct (assignPath ft fv (Some l) (drop n ss) x) as [u|] eqn:Hu; [|done].
  cbn [mbind res_bind] in Ha. injection Ha as <-.
  destruct (decide (i = ki)) as [->|Hne].
  - destruct (Hkey n eq_refl) as (y & Hy & Hs). simplify_eq. cbn [assignPath] in Hu.
    destruct (drop n ss); [|done]. rewrite Hy in Hu. cbn [mbind res_bind] in Hu. injection Hu as <-.
    erewrite element_key_struct; [done|done|]. apply list_lookup_insert_eq. by eapply lookup_lt_Some.
  - unfold element_key in He |- *. simpl in *. rewrite Hk in *. by rewrite list_lookup_insert_ne.
Qed.

(** [appendOrSelect] finds the element by its key, in the old list when it is there. *)
Lemma appendOrSelect_proper fields last segs x l l' i : key_proper fields last segs x = true →
  appendOrSelect (TStruct fields) l last = Ok (l', i) →
  ∃ ki e, keyFieldIndex fields = Some ki ∧ l' !! i = Some e ∧ find_key (TStruct fields) ki (seg_Value last) l' = Some (i, e) ∧
    element_key (TStruct fields) e ki = Some (seg_Value last) ∧ (l' = l ∨ ∃ e, l' = l ++ [e] ∧ i = length l).
Proof.
  intros (ki & tag & k & Hki & Hk & _ & Hname & (y & Hy & Hs) & _)%key_proper_inv.
  unfold appendOrSelect. rewrite Hki, Hname, String.eqb_refl. cbn [negb].
  destruct (find_key _ _ _ l) as [[j e]|] eqn:Hf.
  - intros [= <- <-]. exists ki, e. pose proof Hf as Hf'. apply list_find_Some in Hf as (? & ? & ?).
    split_and!; auto.
  - destruct (new_element _ _ _) as [v|] eqn:Hn; [|done]. intros [= <- <-]. exists ki, v.
    assert (element_key (TStruct fields) v ki = Some (seg_Value last)) as He.
    { eapply new_element_key; [done|done|]. by rewrite Hy. }
    assert ((l ++ [v]) !! length l = Some v) as Hl by by apply list_lookup_middle.
    split_and!; try done; [|by right; eauto].
    apply list_find_Some. split_and!; [done|done|]. intros j z Hj Hlt Hz.
    rewrite lookup_app_l in Hj by done. apply list_find_None in Hf.
    by eapply Forall_lookup_1 in Hf; [|exact Hj].
Qed.

Lemma find_key_insert fields ki text l i e e' :
  find_key (TStruct fields) ki text l = Some (i, e) → element_key (TStruct fields) e' ki = Some text →
  find_key (TStruct fields) ki text (<[i := e']> l) = Some (i, e').
Proof.
  intros (Hi & He & Hlt)%list_find_Some He'. apply list_find_Some.
  split_and!; [apply list_lookup_insert_eq; by eapply lookup_lt_Some|done|].
  intros j z Hj Hlt'. rewrite list_lookup_insert_ne in Hj by lia. eauto.
Qed.

Lemma assignPath_slice te l last segs x :
  assignPath (TSlice te) (GSlice l) (Some last) segs x =
  if String.eqb (seg_Key last) "" then Err [RouterErrInvalidPath]
  else
    '(l, i) ← appendOrSelect te l last;
    match l !! i with
    | Some element => element ← assignPath te element None segs x; Ok (GSlice (<[i := element]> l))
    | None => Err [RouterErrNotFound]
    end.
Proof. done. Qed.

Lemma proper_slice fields last segs x :
  proper (TSlice (TStruct fields)) (Some last) segs x =
  key_proper fields last segs x && proper (TStruct fields) None segs x.
Proof. done. Qed.

(** *** The leaf just written *)

Lemma assign_leaf_at t : ∀ v at_field segs x v',
  proper t at_field segs x = true → assignPath t v at_field segs x = Ok v' →
  ∃ k y, leaf_at t v' at_field segs k y ∧ assignLeaf k x = Ok y.
Proof.
  induction t as [k|t IH|t IH|fields IH] using gotype_rect'; intros v at_field segs x v' Hp Ha.
  - simpl in Ha. destruct segs; [|done]. destruct (assignLeaf k x) as [y|] eqn:Hy; [|done].
    cbn [mbind res_bind] in Ha. injection Ha as <-. exists k, y. split; [constructor|done].
  - simpl in Ha, Hp. apply andb_true_iff in Hp as [_ Hp]. destruct v as [|o| |]; try done.
    destruct segs as [|s segs]; [done|].
    destruct (assignPath t _ None (s :: segs) x) as [u|] eqn:E; [|done].
    cbn [mbind res_bind] in Ha. injection Ha as <-. destruct (IH _ _ _ _ _ Hp E) as (k & y & H & ?).
    exists k, y. split; [by constructor|done].
  - cbn [assignPath proper] in Ha, Hp. destruct v as [| |l|]; try done.
    destruct at_field as [last|]; [|done]. destruct t as [| | |fields]; try done.
    apply andb_true_iff in Hp as [Hk Hp].
    destruct (String.eqb _ ""); [done|].
    destruct (appendOrSelect (TStruct fields) l last) as [[l' i]|] eqn:Hs; [|done].
    destruct (appendOrSelect_proper _ _ _ _ _ _ _ Hk Hs) as (ki & e & Hki & Hi & Hf & He & _).
    cbn [mbind res_bind] in Ha. rewrite Hi in Ha.
    destruct (assignPath (TStruct fields) e None segs x) as [u|] eqn:E; [|done].
    cbn [mbind res_bind] in Ha. injection Ha as <-. destruct (IH _ _ _ _ _ Hp E) as (k & y & H & ?).
    exists k, y. split; [|done]. pose proof (key_proper_inv _ _ _ _ Hk) as (? & ? & ? & ? & ? & ? & ? & _).
    econstructor; [exact Hki|done|done| |exact H]. eapply find_key_insert; [exact Hf|].
    by eapply assigned_key.
  - destruct v as [| | |vs]; try done. rewrite assignPath_struct in Ha.
    destruct (proper_struct_inv _ _ _ _ Hp) as (i & n & tag & ft & last & Hm & Hi & Hl & _ & Hft).
    destruct segs as [|s segs]; [done|]. rewrite Hm, Hi, Hl in Ha.
    destruct (vs !! i) as [fv|] eqn:Hv; [|done].
    destruct (assignPath ft fv _ _ x) as [u|] eqn:E; [|done].
    cbn [mbind res_bind] in Ha. injection Ha as <-.
    rewrite Forall_forall in IH.
    destruct (IH _ (list_elem_of_lookup_2 _ _ _ Hi) _ _ _ _ _ Hft E) as (k & y & H & ?).
    exists k, y. split; [|done]. econstructor; [done|done| |done|done].
    apply list_lookup_insert_eq. by eapply lookup_lt_Some.
Qed.

(** *** The leaves elsewhere *)

(** Two ways on from a node of type [t], that do not lead to the same leaf. *)
Definition apart (t : gotype) (a a' : option Segment) (segs segs' : list Segment) : Prop :=
  match t with
  | TSlice _ => ∀ last last', a = Some last → a' = Some last' → seg_Value last ≠ seg_Value last' ∨ segs ≠ segs'
  | _ => segs ≠ segs'
  end.

Lemma plain_name s s' : plain_seg s = true → plain_seg s' = true → seg_Name s = seg_Name s' → s = s'.
Proof.
  intros [H1 H2]%bool_decide_eq_true [H1' H2']%bool_decide_eq_true Hn. destruct s, s'. simpl in *. by subst.
Qed.

Lemma plain_names l : ∀ l', forallb plain_seg l = true → forallb plain_seg l' = true →
  seg_Name <$> l = seg_Name <$> l' → l = l'.
Proof.
  induction l as [|s l IH]; intros [|s' l'] H H' Hn; try done. simpl in *.
  apply andb_true_iff in H as [Hs H], H' as [Hs' H']. injection Hn as Hn Hns.
  f_equal; [by apply plain_name|by apply IH].
Qed.

Lemma proper_at_key t a segs x : proper t (Some a) segs x = true →
  match t with
  | TSlice te => ∃ fields, te = TStruct fields ∧ seg_Key a = keyTagName fields
  | _ => plain_seg a = true
  end.
Proof.
  destruct t as [k|t|t|fields]; simpl.
  - by intros [[H _]%andb_true_iff _]%andb_true_iff.
  - by intros [[H _]%andb_true_iff _]%andb_true_iff.
  - destruct t as [| | |fields]; try done. intros [H _]%andb_true_iff.
    apply key_proper_inv in H as (? & ? & ? & ? & ? & ? & ? & _). eauto.
  - by intros [H _]%andb_true_iff.
Qed.

Lemma take_last {A} (l : list A) n x : l !! (n - 1) = Some x → 0 < n → take n l = take (n - 1) l ++ [x].
Proof. intros H Hn. destruct n; [lia|]. simpl in H. rewrite Nat.sub_0_r in H. simpl. rewrite Nat.sub_0_r. by apply take_S_r. Qed.

Lemma apart_field fields segs segs' i n n' tag ft last last' x x' :
  matchField fields segs = Some (i, n) → matchField fields segs' = Some (i, n') →
  fields !! i = Some (tag, ft) → segs !! (n - 1) = Some last → segs' !! (n' - 1) = Some last' →
  forallb plain_seg (take (n - 1) segs) = true → forallb plain_seg (take (n' - 1) segs') = true →
  proper ft (Some last) (drop n segs) x = true → proper ft (Some last') (drop n' segs') x' = true →
  segs ≠ segs' → apart ft (Some last) (Some last') (drop n segs) (drop n' segs').
Proof.
  intros Hm Hm' Hi Hl Hl' Hp Hp' Hft Hft' Hne.
  destruct (matchField_ok fields segs i n Hm) as (tag1 & t1 & p1 & H1 & Ht1 & Hn & Hlen).
  destruct (matchField_ok fields segs' i n' Hm') as (tag2 & t2 & p2 & H2 & Ht2 & Hn' & Hlen').
  assert (p1 = p2) as -> by congruence. rewrite <- Hn' in Hn. clear Hn'.
  assert (n = n') as <-.
  { apply (f_equal length) in Hn. rewrite !length_fmap, !length_take in Hn. lia. }
  rewrite (take_last _ _ _ Hl), (take_last _ _ _ Hl'), !fmap_app in Hn by lia.
  apply app_inj_tail in Hn as [Hn Hlast]. apply (plain_names _ _ Hp Hp') in Hn.
  assert (last = last' → drop n segs ≠ drop n segs') as Hd.
  { intros -> Hd. apply Hne. rewrite <- (take_drop n segs), <- (take_drop n segs'), Hd.
    rewrite (take_last _ _ _ Hl), (take_last _ _ _ Hl') by lia. by rewrite Hn. }
  apply proper_at_key in Hft, Hft'. destruct ft as [k|t|te|fs]; simpl; [apply Hd|apply Hd| |apply Hd].
  1,2,4: by apply plain_name.
  intros a a' [= <-] [= <-]. destruct Hft as (fs & -> & Hk), Hft' as (fs' & [= <-] & Hk').
  destruct (decide (seg_Value last = seg_Value last')) as [Hv|Hv]; [right|by left].
  apply Hd. destruct last, last'; simpl in *. congruence.
Qed.

(** Lookup by another key is not affected by a change of one element. *)
Lemma find_key_other fields ki text text' l l' i e e' j z :
  find_key (TStruct fields) ki text' l = Some (j, z) → text ≠ text' →
  element_key (TStruct fields) e ki = Some text → l' !! i = Some e →
  element_key (TStruct fields) e' ki = Some text → (l' = l ∨ ∃ u, l' = l ++ [u] ∧ i = length l) →
  find_key (TStruct fields) ki text' (<[i := e']> l') = Some (j, z).
Proof.
  intros (Hj & Hz & Hlt)%list_find_Some Hne He Hi He' Hl.
  assert (l' !! j = Some z) as Hj'.
  { destruct Hl as [->|(u & -> & _)]; [done|]. rewrite lookup_app_l; [done|]. by eapply lookup_lt_Some. }
  assert (i ≠ j) by (intros ->; simplify_eq).
  apply list_find_Some. split_and!; [by rewrite list_lookup_insert_ne|done|].
  intros j' y Hy Hj'' Hy'. destruct (decide (i = j')) as [->|Hn].
  - rewrite list_lookup_insert_eq in Hy by (by eapply lookup_lt_Some). simplify_eq.
  - rewrite list_lookup_insert_ne in Hy by done. eapply Hlt; [|done|done].
    destruct Hl as [->|(u & -> & ->)]; [done|]. rewrite lookup_app_l in Hy; [done|].
    apply lookup_lt_Some in Hj. lia.
Qed.

Lemma assign_frame t : ∀ v a a' segs segs' x x' v' k y,
  proper t a segs x = true → proper t a' segs' x' = true → apart t a a' segs segs' →
  assignPath t v a segs x = Ok v' → leaf_at t v a' segs' k y → leaf_at t v' a' segs' k y.
Proof.
  induction t as [k0|t IH|t IH|fields IH] using gotype_rect'; intros v a a' segs segs' x x' v' k y Hp Hp' Hne Ha Hat.
  - simpl in Ha. destruct segs; [|done]. inversion Hat; subst. by destruct Hne.
  - simpl in Ha, Hp, Hp'. apply andb_true_iff in Hp as [_ Hp], Hp' as [_ Hp'].
    inversion Hat as [|t' u at_ s ss k' x0 Hu| |]; subst. destruct segs as [|s1 segs]; [done|].
    simpl in Ha. destruct (assignPath t u None (s1 :: segs) x) as [u'|] eqn:E; [|done].
    cbn [mbind res_bind] in Ha. injection Ha as <-. constructor.
    eapply IH; [exact Hp|exact Hp'| |exact E|exact Hu]. destruct t; simpl in *; [done|done| |done].
    by intros ? ? [=].
  - inversion Hat as [| |fields ki l last' ss j e k' x0 Hki Hk1 Hk2 Hf Hu|]; subst.
    destruct a as [last|]; [|done]. rewrite assignPath_slice in Ha. rewrite proper_slice in Hp, Hp'.
    apply andb_true_iff in Hp as [Hk Hp], Hp' as [Hk' Hp'].
    destruct (String.eqb _ ""); [done|].
    destruct (appendOrSelect (TStruct fields) l last) as [[l' i]|] eqn:Hs; [|done].
    destruct (appendOrSelect_proper _ _ _ _ _ _ _ Hk Hs) as (ki' & e1 & Hki' & Hi & Hf1 & He1 & Hl').
    assert (ki' = ki) as -> by congruence.
    cbn [mbind res_bind] in Ha. rewrite Hi in Ha.
    destruct (assignPath (TStruct fields) e1 None segs x) as [u|] eqn:E; [|done].
    cbn [mbind res_bind] in Ha. injection Ha as <-.
    pose proof (assigned_key _ _ _ _ _ _ Hk E _ Hki He1) as Hu1.
    destruct (decide (seg_Value last = seg_Value last')) as [Hv|Hv].
    + rewrite Hv in *. assert (j = i ∧ e = e1) as [-> ->].
      { destruct Hl' as [->|(z & -> & ->)]; [by simplify_eq|]. exfalso.
        apply list_find_Some in Hf as (Hj & He & _), Hf1 as (_ & _ & Hmin).
        apply (Hmin j e); [|by eapply lookup_lt_Some|done].
        rewrite lookup_app_l; [done|by eapply lookup_lt_Some]. }
      econstructor; [exact Hki|done|done|by eapply find_key_insert|].
      eapply IH; [exact Hp|exact Hp'| |exact E|exact Hu]. simpl.
      by destruct (Hne _ _ eq_refl eq_refl).
    + eapply at_slice; [exact Hki|done|done| |exact Hu].
      by eapply (find_key_other fields ki (seg_Value last) _ l l' i e1 u).
  - inversion Hat as [| | |fs vs at_ ss i' n' tag' ft' fv' last' k' x0 Hm' Hi' Hv' Hl' Hu]; subst.
    rewrite assignPath_struct in Ha.
    destruct (proper_struct_inv _ _ _ _ Hp) as (i & n & tag & ft & last & Hm & Hi & Hl & Hpl & Hft).
    destruct (proper_struct_inv _ _ _ _ Hp') as (i1 & n1 & tag1 & ft1 & last1 & Hm1 & Hi1 & Hl1 & Hpl1 & Hft1).
    rewrite Hm1 in Hm'. injection Hm' as -> ->. rewrite Hi1 in Hi'. injection Hi' as -> ->.
    rewrite Hl1 in Hl'. injection Hl' as ->.
    destruct segs as [|s segs]; [done|]. rewrite Hm, Hi, Hl in Ha.
    destruct (vs !! i) as [fv|] eqn:Hv; [|done].
    destruct (assignPath ft fv _ _ x) as [u|] eqn:E; [|done].
    cbn [mbind res_bind] in Ha. injection Ha as <-.
    destruct (decide (i = i')) as [->|Hii].
    + rewrite Hi1 in Hi. injection Hi as -> ->. rewrite Hv in Hv'. injection Hv' as ->.
      econstructor; [exact Hm1|exact Hi1|apply list_lookup_insert_eq; by eapply lookup_lt_Some|exact Hl1|].
      rewrite Forall_forall in IH.
      eapply (IH _ (list_elem_of_lookup_2 _ _ _ Hi1)); [exact Hft|exact Hft1| |exact E|exact Hu].
      by eapply apart_field.
    + econstructor; [exact Hm1|exact Hi1| |exact Hl1|exact Hu]. by rewrite list_lookup_insert_ne.
Qed.

(** *** Totality *)

Lemma new_element_some fields ki tag k text y :
  fields !! ki = Some (tag, TLeaf k) → setKey k text = Some y →
  ∃ v, new_element (TStruct fields) ki text = Some v.
Proof. intros Hk Hy. unfold new_element. cbn [zero]. rewrite Hk. cbn [mbind option_bind]. rewrite Hy. simpl. eauto. Qed.

Lemma assign_total t : ∀ v a segs x,
  has_type v t = true → proper t a segs x = true →
  ∃ v', assignPath t v a segs x = Ok v'.
Proof.
  induction t as [k|t IH|t IH|fields IH] using gotype_rect'; intros v a segs x Hv Hp.
  - simpl in *. apply andb_true_iff in Hp as [[_ ->%bool_decide_eq_true]%andb_true_iff Hp].
    apply is_ok_inv in Hp as [y ->]. simpl. eauto.
  - destruct v as [|o| |]; try done. simpl in Hp |- *. apply andb_true_iff in Hp as [[_ Hs%bool_decide_eq_true]%andb_true_iff Hp].
    destruct segs as [|s segs]; [done|].
    destruct (IH (default (Reflect.zero t) o) None (s :: segs) x) as [u ->]; [|done|simpl; eauto].
    destruct o as [u|]; simpl in *; [done|apply zero_typed].
  - destruct v as [|[]|l|]; try done. destruct a as [last|]; [|done]. destruct t as [| | |fields]; try done.
    rewrite proper_slice in Hp. apply andb_true_iff in Hp as [Hk Hp]. rewrite assignPath_slice.
    pose proof (key_proper_inv _ _ _ _ Hk) as (ki & tag & k & Hki & Hf & Hne & Hname & (y & Hy & _) & _).
    rewrite (proj2 (String.eqb_neq _ _) Hne).
    assert (∃ l' i, appendOrSelect (TStruct fields) l last = Ok (l', i)) as (l' & i & Hs).
    { unfold appendOrSelect. rewrite Hki, Hname, String.eqb_refl. cbn [negb].
      destruct (find_key _ _ _ _) as [[i e]|]; [eauto|].
      destruct (new_element_some _ _ _ _ _ _ Hf Hy) as [u ->]. eauto. }
    destruct (appendOrSelect_proper _ _ _ _ _ _ _ Hk Hs) as (_ & e & _ & Hi & _).
    apply has_type_slice in Hv. apply (appendOrSelect_typed _ _ _ _ _ Hs) in Hv.
    rewrite Hs. cbn [mbind res_bind]. rewrite Hi.
    destruct (IH e None segs x) as [u ->]; [by eapply Forall_lookup_1 in Hv|done|]. simpl. eauto.
  - destruct v as [|[]| |vs]; try done. rewrite assignPath_struct.
    destruct (proper_struct_inv _ _ _ _ Hp) as (i & n & tag & ft & last & Hm & Hi & Hl & _ & Hft).
    apply has_type_struct in Hv. destruct (Forall2_lookup_r _ _ _ _ _ Hv Hi) as (fv & Hfv & Ht).
    destruct segs as [|s segs]; [done|]. rewrite Hm, Hi, Hfv, Hl.
    rewrite Forall_forall in IH.
    destruct (IH _ (list_elem_of_lookup_2 _ _ _ Hi) fv (Some last) (drop n (s :: segs)) x Ht Hft) as [u Hu].
    simpl in Hu. rewrite Hu. simpl. eauto.
Qed.

(** *** The rebuilt device *)

Definition proper_entry (p : string) (x : value) : bool :=
  match Parse p with Ok segs => proper device_type None segs x | Err _ => false end.
Definition proper_values (vs : values) : Prop := map_Forall (λ p x, proper_entry p x = true) vs.

Lemma proper_entry_inv p x : proper_entry p x = true →
  ∃ segs, Parse p = Ok segs ∧ Path_String segs = p ∧ proper device_type None segs x = true.
Proof.
  unfold proper_entry. destruct (Parse p) as [segs|] eqn:E; [|done]. intros H. exists segs.
  split_and!; [done|by apply Parse_inv in E as [? _]|done].
Qed.

Lemma assign_all_spec vs : ∀ paths v,
  NoDup paths → (∀ p, p ∈ paths → ∃ x, vs !! p = Some x ∧ proper_entry p x = true) →
  has_type v device_type = true →
  ∃ v', assign_all device_type vs paths v = Ok v' ∧
  (∀ p x segs, p ∈ paths → vs !! p = Some x → Parse p = Ok segs →
     ∃ k y, leaf_at device_type v' None segs k y ∧ assignLeaf k x = Ok y) ∧
  (∀ q x segs k y, (q ∉ paths) → proper_entry q x = true → Parse q = Ok segs →
     leaf_at device_type v None segs k y → leaf_at device_type v' None segs k y).
Proof.
  assert (∀ fields, device_type = TStruct fields → ∀ a a' s s', s ≠ s' → apart device_type a a' s s') as Hap
    by (intros fields -> a a' s s' Hs; done).
  induction paths as [|p paths IH]; intros v Hnd Hall Hv.
  { exists v. split_and!; [done|by intros ? ? ? ?%not_elem_of_nil|done]. }
  apply NoDup_cons in Hnd as [Hnp Hnd].
  destruct (Hall p) as (x & Hx & Hp); [by left|].
  destruct (proper_entry_inv _ _ Hp) as (segs & Hparse & Hstr & Hpr).
  destruct (assign_total _ _ None _ _ Hv Hpr) as [v1 Hv1].
  destruct (IH v1 Hnd) as (v' & Ha & Hin & Hout).
  { intros q Hq. apply Hall. by right. }
  { by eapply assignPath_typed. }
  exists v'. cbn [assign_all]. rewrite Hparse. cbn [mbind res_bind]. rewrite Hx, Hv1. split_and!; [done|..].
  - intros q z segs' Hq Hz Hq'. apply elem_of_cons in Hq as [->|Hq]; [|eauto].
    assert (segs' = segs) as -> by congruence. assert (z = x) as -> by congruence.
    destruct (assign_leaf_at _ _ _ _ _ _ Hpr Hv1) as (k & y & Hat & Hy).
    exists k, y. split; [|done]. by eapply Hout.
  - intros q z segs' k y Hq Hqp Hq' Hat. apply not_elem_of_cons in Hq as [Hne Hq].
    eapply Hout; [done|exact Hqp|done|].
    destruct (proper_entry_inv _ _ Hqp) as (segs1 & Hq1 & Hstr1 & Hpr1).
    assert (segs1 = segs') as -> by congruence.
    eapply assign_frame; [exact Hpr|exact Hpr1| |exact Hv1|exact Hat].
    eapply Hap; [reflexivity|]. intros ->. congruence.
Qed.

Lemma newHydrator_total vs : proper_values vs → ∃ h, newHydrator vs = Ok h.
Proof.
  intros Hp. unfold newHydrator.
  assert (∀ paths m, (∀ p, p ∈ paths → is_ok (Parse p) = true) → ∃ m', collect_instances paths m = Ok m') as H.
  { induction paths as [|p paths IH]; intros m Hall; simpl; [eauto|].
    destruct (is_ok_inv _ (Hall p ltac:(by left))) as [segs ->]. simpl. apply IH. intros q Hq. apply Hall. by right. }
  destruct (H (map_to_list vs).*1 ∅) as [m ->]; [|simpl; eauto].
  intros p ([q x] & -> & Hin)%list_elem_of_fmap. apply elem_of_map_to_list in Hin.
  apply Hp in Hin. apply proper_entry_inv in Hin as (segs & Hs & _). simpl. by rewrite Hs.
Qed.

(** The device exists, and every stored leaf is where its path leads in it. *)
Lemma deviceFromValues_spec root vs : proper_values vs →
  ∃ d, deviceFromValues root vs = Ok d ∧
  ∀ p x, vs !! p = Some x → ∃ segs k y, Parse p = Ok segs ∧
    leaf_at device_type (enc c_Device d) None segs k y ∧ assignLeaf k x = Ok y.
Proof.
  intros Hp. unfold deviceFromValues, hydrate. destruct (newHydrator_total _ Hp) as [h ->]. cbn [mbind res_bind].
  set (v0 := pruneLists h _ _ _).
  assert (has_type v0 device_type = true) as Hv0.
  { unfold v0, pruneLists, cloneDevice. rewrite deepCopy_id.
    destruct (seeded h); [apply prune_typed|]; apply codec_typed. }
  destruct (assign_all_spec vs (sort_strings (map_to_list vs).*1) v0) as (v & Hv & Hin & _); [| |done|].
  { rewrite sort_strings_perm. apply NoDup_fst_map_to_list. }
  { intros p ([q x] & -> & Hq)%elem_of_sort_strings%list_elem_of_fmap.
    apply elem_of_map_to_list in Hq. exists x. split; [done|]. by apply Hp. }
  rewrite Hv. cbn [mbind res_bind].
  assert (has_type v (ct c_Device) = true) as Htv by (by eapply assign_all_typed).
  destruct (codec_total v Htv) as (d & -> & <-). exists d. split; [done|].
  intros p x Hx. pose proof (Hp p x Hx) as (segs & Hparse & _)%proper_entry_inv.
  destruct (Hin p x segs) as (k & y & Hat & Hy); [|done|done|].
  { apply elem_of_sort_strings, list_elem_of_fmap. exists (p, x). by rewrite elem_of_map_to_list. }
  exists segs, k, y. done.
Qed.

(** *** Reading the device *)

Lemma resolve_step fields vs a s segs ro i n tag ft fv last :
  matchField fields (s :: segs) = Some (i, n) → fields !! i = Some (tag, ft) → vs !! i = Some fv →
  (s :: segs) !! (n - 1) = Some last →
  resolve_from (TStruct fields) (GStruct vs) a (s :: segs) ro =
  resolve_from ft fv (Some (last, ft_creatable tag)) (drop n (s :: segs)) (ro || ft_state tag).
Proof.
  intros Hm Hi Hv Hl. cbn [resolve_from]. rewrite Hm, Hv, Hl. clear Hm Hv Hl. revert i Hi.
  induction fields as [|[tag' ft'] fields IH]; intros [|i] Hi; simplify_eq/=; [done|by apply IH].
Qed.

Lemma resolve_slice te l last creatable segs ro : seg_Key last ≠ "" →
  resolve_from (TSlice te) (GSlice l) (Some (last, creatable)) segs ro =
  element ← selectElement te l last creatable; resolve_from te element None segs ro.
Proof. intros Hne. cbn [resolve_from]. by rewrite (proj2 (String.eqb_neq _ _) Hne). Qed.

Lemma leaf_at_resolve t v a segs k y : leaf_at t v a segs k y →
  ∀ a' ro, (∀ last, a = Some last → fst <$> a' = Some last) →
  ∃ ro', resolve_from t v a' segs ro = Ok (mkNode (TLeaf k) (GLeaf y) ro').
Proof.
  induction 1 as [k x a|t v a s segs k x _ IH|fields ki l last segs i e k x Hki Hne Hk Hf _ IH
    |fields vs a segs i n tag ft fv last k x Hm Hi Hv Hl _ IH]; intros a' ro Ha.
  - exists ro. by destruct a'.
  - simpl. destruct a' as [a'|]; apply IH; by intros ? [=].
  - specialize (Ha _ eq_refl). destruct a' as [[last' creatable]|]; [|done]. simpl in Ha.
    injection Ha as ->. rewrite resolve_slice by done.
    unfold selectElement. cbn [deref_type]. rewrite Hki, Hk, String.eqb_refl. cbn [negb].
    rewrite Hf. cbn [mbind res_bind]. apply IH. by intros ? [=].
  - destruct segs as [|s segs]; [done|]. erewrite resolve_step by done. apply IH. by intros ? [= <-].
Qed.

Lemma assignLeaf_id k x : leafKindOf x = Some k → value_wf x → assignLeaf k x = Ok x.
Proof.
  destruct x; simpl; intros [= <-] Hw; cbn -[Z.pow]; unfold in_u in Hw; try done.
  all: destruct (_ <=? _)%Z eqn:E; [apply Z.leb_le in E; lia|done].
Qed.


(** A running datastore with a leaf of a list entry the template does not have. *)
Abbreviation demo_store :=
  (Set_ (NewMemory "" None None) 1 true Running "vlans/vlan[id=200]/name" (VString "voice")).2.

