(* ===== verification/Entries.v ===== *)
(** * Which list entries a snapshot has ([internal/router/hydrate.go])

    The datastore is authoritative for the instances of a list: an entry of a rebuilt
    device is there because a stored path goes through it, in the template or not. *)

From S2P Require Import Prelude GoStrings GoFloat GoValue GoNet Persist Store Path Model Reflect Reflected Hydrate Schema Oid Router Snapshot.

(** The list the names lead to, through structs. *)
Inductive list_at : gotype → goval → list string → list (fieldTag * gotype) → list goval → Prop :=
  | la_slice fields l : list_at (TSlice (TStruct fields)) (GSlice l) [] fields l
  | la_struct fs vs i tag ft fv p names fields l :
      fs !! i = Some (tag, ft) → ft_path tag = Some p → p ≠ "" → vs !! i = Some fv →
      list_at ft fv names fields l →
      list_at (TStruct fs) (GStruct vs) (SplitByte p slash ++ names) fields l.

(** The segment of a path that names an entry of the list. *)
Definition thru (a : option Segment) (segs : list Segment) (names : list string) (last : Segment) : Prop :=
  match names with
  | [] => a = Some last
  | _ => seg_Name <$> take (length names) segs = names ∧ segs !! (length names - 1) = Some last
  end.

Lemma thru_app a segs parts names last0 last : parts ≠ [] →
  seg_Name <$> take (length parts) segs = parts → segs !! (length parts - 1) = Some last0 →
  thru (Some last0) (drop (length parts) segs) names last → thru a segs (parts ++ names) last.
Proof.
  intros Hne Hn Hl Ht. destruct parts as [|part parts]; [done|]. set (ps := part :: parts) in *.
  assert (ps ++ names = part :: (parts ++ names)) as E by done.
  unfold thru. rewrite E, <- E. destruct names as [|name names].
  - simpl in Ht. injection Ht as ->. rewrite app_nil_r. done.
  - destruct Ht as [Ht Hlast]. rewrite length_app. split.
    + rewrite <- take_take_drop, fmap_app. by f_equal.
    + rewrite lookup_drop in Hlast. rewrite <- Hlast. f_equal. simpl. lia.
Qed.

(** *** Assignment adds the entries of its path only *)

Lemma assign_entries t : ∀ v a segs x v' names fields l' ki,
  proper t a segs x = true → assignPath t v a segs x = Ok v' →
  list_at t v' names fields l' → keyFieldIndex fields = Some ki →
  ∃ l, list_at t v names fields l ∧ ∀ e', e' ∈ l' →
    (∃ e, e ∈ l ∧ element_key (TStruct fields) e ki = element_key (TStruct fields) e' ki) ∨
    (∃ last, thru a segs names last ∧ element_key (TStruct fields) e' ki = Some (seg_Value last)).
Proof.
  induction t as [k|t IH|t IH|fs IH] using gotype_rect'; intros v a segs x v' names fields l' ki Hp Ha Hl Hki.
  - inversion Hl.
  - inversion Hl.
  - inversion Hl as [fields' l0|]; subst. destruct v as [| |l|]; try done. destruct a as [last|]; [|done].
    rewrite proper_slice in Hp. apply andb_true_iff in Hp as [Hk Hp]. rewrite assignPath_slice in Ha.
    destruct (String.eqb _ ""); [done|].
    destruct (appendOrSelect (TStruct fields) l last) as [[l1 i]|] eqn:Hs; [|done].
    destruct (appendOrSelect_proper _ _ _ _ _ _ _ Hk Hs) as (ki' & e1 & Hki' & Hi & Hf1 & He1 & Hl1).
    assert (ki' = ki) as -> by congruence. cbn [mbind res_bind] in Ha. rewrite Hi in Ha.
    destruct (assignPath (TStruct fields) e1 None segs x) as [u|] eqn:E; [|done].
    cbn [mbind res_bind] in Ha. injection Ha as <-. exists l. split; [constructor|].
    intros e' [j Hj]%list_elem_of_lookup. destruct (decide (j = i)) as [->|Hne].
    + right. exists last. split; [done|]. rewrite list_lookup_insert_eq in Hj by (by eapply lookup_lt_Some).
      injection Hj as <-. by eapply assigned_key.
    + left. exists e'. split; [|done]. rewrite list_lookup_insert_ne in Hj by done.
      destruct Hl1 as [->|(z & -> & ->)]; [by eapply list_elem_of_lookup_2|].
      apply lookup_app_Some in Hj as [Hj|[Hge Hj]]; [by eapply list_elem_of_lookup_2|].
      apply lookup_lt_Some in Hj. simpl in Hj. lia.
  - destruct v as [| | |vs]; try done. rewrite assignPath_struct in Ha.
    destruct (proper_struct_inv _ _ _ _ Hp) as (i & n & tag & ft & last0 & Hm & Hi & Hl0 & _ & Hft).
    destruct segs as [|s segs]; [done|]. rewrite Hm, Hi, Hl0 in Ha.
    destruct (vs !! i) as [fv|] eqn:Hv; [|done].
    destruct (assignPath ft fv _ _ x) as [u|] eqn:E; [|done].
    cbn [mbind res_bind] in Ha. injection Ha as <-.
    inversion Hl as [|fs' vs' i0 tag0 ft0 fv0 p names0 fields0 l0 Hi0 Hp0 Hpne Hv0 Hl1]; subst.
    destruct (decide (i = i0)) as [<-|Hne].
    + assert (tag0 = tag ∧ ft0 = ft) as [-> ->] by (split; congruence).
      rewrite list_lookup_insert_eq in Hv0 by (by eapply lookup_lt_Some). injection Hv0 as <-.
      rewrite Forall_forall in IH.
      destruct (IH _ (list_elem_of_lookup_2 _ _ _ Hi) _ _ _ _ _ _ _ _ _ Hft E Hl1 Hki) as (l & Hl2 & Hkeys).
      exists l. split; [by econstructor|]. intros e' He'.
      destruct (Hkeys e' He') as [?|(last & Hth & Hk)]; [by left|right]. exists last. split; [|done].
      destruct (matchField_ok fs (s :: segs) i n Hm) as (tag1 & t1 & p1 & H1 & Hp1 & Hn & Hlen).
      assert (p1 = p) as -> by congruence.
      assert (length (SplitByte p slash) = n) as Hlp.
      { rewrite <- Hn, length_fmap, length_take. lia. }
      rewrite <- Hlp in *. by eapply thru_app; [apply SplitByte_ne|..].
    + rewrite list_lookup_insert_ne in Hv0 by done. exists l'. split; [by econstructor|]. eauto.
Qed.

(** *** Pruning keeps the entries the datastore mentions *)

Definition joinNames (path : string) (names : list string) : string :=
  match names with [] => path | _ => joinPath path (Join names "/") end.

Lemma joinNames_parts path p parts names : p ≠ "" → parts ≠ [] → Join parts "/" = p →
  joinNames path (parts ++ names) = joinNames (joinPath path p) names.
Proof.
  intros Hp Hne Hj.
  assert (joinNames path (parts ++ names) = joinPath path (Join (parts ++ names) "/")) as ->.
  { unfold joinNames. by destruct parts. }
  destruct names as [|name names]; [by rewrite app_nil_r, Hj|].
  rewrite Join_app, Hj by done. unfold joinNames, joinPath.
  destruct (String.eqb_spec path "") as [->|Hpath].
  - by destruct (String.eqb_spec p "").
  - destruct (String.eqb_spec (path +:+ "/" +:+ p) "") as [[E _]%str_app_eq_nil|]; [done|].
    by rewrite !str_app_assoc.
Qed.

Lemma joinNames_app path p names : p ≠ "" →
  joinNames path (SplitByte p slash ++ names) = joinNames (joinPath path p) names.
Proof. intros Hp. apply joinNames_parts; [done|apply SplitByte_ne|apply (Join_Split p slash)]. Qed.

Lemma prune_struct_field h vs fs path i tag ft fv :
  fs !! i = Some (tag, ft) → vs !! i = Some fv →
  ∃ ws, prune h (GStruct vs) (TStruct fs) path = GStruct ws ∧
  ws !! i = Some (match ft_path tag with Some p => prune h fv ft (joinPath path p) | None => fv end).
Proof.
  cbn [prune]. revert fs i. induction vs as [|v vs IH]; intros [|[tag' ft'] fs] [|i] Hi Hv; simplify_eq/=; eauto.
  destruct (IH _ _ Hi Hv) as (ws & [= Hws] & Hw). rewrite Hws. eauto.
Qed.

Lemma prune_key h fields e path ki tag k :
  fields !! ki = Some (tag, TLeaf k) → has_type e (TStruct fields) = true →
  element_key (TStruct fields) (prune h e (TStruct fields) path) ki = element_key (TStruct fields) e ki.
Proof.
  intros Hk Ht. destruct e as [|[]| |vs]; try done.
  pose proof (proj1 (has_type_struct _ _) Ht) as Hf. destruct (Forall2_lookup_r _ _ _ _ _ Hf Hk) as (kv & Hkv & Hkt).
  destruct (prune_struct_field h vs fields path ki _ _ _ Hk Hkv) as (ws & -> & Hws).
  destruct kv as [x|[]| |]; try done.
  rewrite (element_key_struct _ _ _ _ _ _ Hk Hkv).
  assert (ws !! ki = Some (GLeaf x)) as Hx by (rewrite Hws; by destruct (ft_path tag)).
  by rewrite (element_key_struct _ _ _ _ _ _ Hk Hx).
Qed.

Lemma prune_slice h l te path :
  prune h (GSlice l) (TSlice te) path =
  GSlice ((λ v, prune h v te (match keyPredicateOf te v with
                              | Some predicate => path +:+ "[" +:+ predicate +:+ "]"
                              | None => path
                              end)) <$> filter (λ v, keep_element h te path v = true) l).
Proof.
  cbn [prune]. f_equal. induction l as [|v l IH]; [done|]. rewrite filter_cons.
  destruct (keep_element h te path v) eqn:E; [rewrite decide_True by done|rewrite decide_False by done; exact IH].
  rewrite fmap_cons. by f_equal.
Qed.

Lemma prune_entries h t v path names fields l' : has_type v t = true →
  list_at t (prune h v t path) names fields l' →
  ∀ ki tag k e', keyFieldIndex fields = Some ki → fields !! ki = Some (tag, TLeaf k) → e' ∈ l' →
  ∃ key, element_key (TStruct fields) e' ki = Some key ∧ key ∈ default ∅ (instances h !! joinNames path names).
Proof.
  intros Ht Hl ki tag k e' Hki Hk. remember (prune h v t path) as w eqn:Hw. revert v path Ht Hw.
  induction Hl as [fields l'|fs ws i tag0 ft fv p names fields l' Hi Hp Hpne Hv Hl IH]; intros v path Ht Hw He'.
  - destruct v as [|[]|l|]; try done. rewrite prune_slice in Hw. injection Hw as ->.
    apply list_elem_of_fmap in He' as (e & -> & [Hkeep He]%list_elem_of_filter).
    apply has_type_slice in Ht. rewrite (prune_key _ _ _ _ _ _ _ Hk) by (by eapply Forall_forall in Ht).
    unfold keep_element in Hkeep. cbn [deref_type] in Hkeep. rewrite Hki in Hkeep.
    destruct (element_key _ e ki) as [key|]; [|done]. exists key. split; [done|].
    by apply bool_decide_eq_true in Hkeep.
  - destruct v as [|[]| |vs]; try done.
    pose proof (proj1 (has_type_struct _ _) Ht) as Hf. destruct (Forall2_lookup_r _ _ _ _ _ Hf Hi) as (fv0 & Hfv0 & Hft).
    destruct (prune_struct_field h vs fs path i _ _ _ Hi Hfv0) as (ws' & E & Hws). rewrite E in Hw. injection Hw as ->.
    rewrite Hv, Hp in Hws. injection Hws as ->. rewrite joinNames_app by done. by eapply IH.
Qed.

(** *** The collected instances come from stored paths *)

Lemma add_instances_inv segs : Forall (λ s, seg_Name s ≠ "") segs → ∀ prefix m q key,
  key ∈ default ∅ (add_instances prefix segs m !! q) →
  key ∈ default ∅ (m !! q) ∨
  ∃ n last, 0 < n ∧ segs !! (n - 1) = Some last ∧ seg_Value last = key ∧
    q = joinNames prefix (seg_Name <$> take n segs).
Proof.
  intros Hwf. induction Hwf as [|s segs Hs Hwf IH]; intros prefix m q key; cbn [add_instances]; [by left|].
  set (prefix' := if String.eqb prefix "" then seg_Name s else prefix +:+ "/" +:+ seg_Name s).
  intros [H|(n & last & Hn & Hl & Hv & Hq)]%IH.
  - destruct (String.eqb (seg_Key s) ""); [by left|]. destruct (decide (q = prefix')) as [->|Hne].
    + rewrite lookup_insert_eq in H. cbn [default id] in H. apply elem_of_union in H as [->%elem_of_singleton|H]; [|by left].
      right. exists 1, s. split_and!; [lia|done|done|reflexivity].
    + rewrite lookup_insert_ne in H by done. by left.
  - right. exists (S n), last. split_and!; [lia| |done|].
    + destruct n; [lia|]. simpl in Hl |- *. rewrite Nat.sub_0_r in Hl. by rewrite Hl.
    + rewrite Hq. cbn [take]. rewrite fmap_cons. symmetry.
      apply (joinNames_parts prefix (seg_Name s) [seg_Name s]); done.
Qed.

Lemma collect_instances_inv paths : ∀ m m' q key, collect_instances paths m = Ok m' →
  key ∈ default ∅ (m' !! q) → key ∈ default ∅ (m !! q) ∨
  ∃ p segs n last, p ∈ paths ∧ Parse p = Ok segs ∧ 0 < n ∧ segs !! (n - 1) = Some last ∧ seg_Value last = key ∧
    q = joinNames "" (seg_Name <$> take n segs).
Proof.
  induction paths as [|p paths IH]; intros m m' q key; simpl; [intros [= ->]; by left|].
  destruct (Parse p) as [segs|] eqn:Hparse; [|done]. cbn [mbind res_bind]. intros Hc Hkey.
  destruct (IH _ _ _ _ Hc Hkey) as [H|(p' & segs' & n & last & Hp' & H)].
  - apply add_instances_inv in H as [H|(n & last & Hn & Hl & Hv & Hq)]; [by left| |].
    + right. exists p, segs, n, last. split_and!; [by left|done..].
    + apply Parse_inv in Hparse as [_ [_ Hwf]]. eapply Forall_impl; [exact Hwf|]. by intros s [? _].
  - right. exists p', segs', n, last. split; [by right|done].
Qed.

(** *** The entries of a rebuilt device *)

Lemma list_at_names t v names fields l : list_at t v names fields l → Forall (λ n, has_byte n slash = false) names.
Proof. induction 1; [constructor|]. apply Forall_app. split; [apply SplitByte_parts|done]. Qed.

Lemma assign_all_entries vs paths : ∀ v v' names fields l' ki,
  (∀ p, p ∈ paths → ∃ x, vs !! p = Some x ∧ proper_entry p x = true) →
  assign_all device_type vs paths v = Ok v' → names ≠ [] →
  list_at device_type v' names fields l' → keyFieldIndex fields = Some ki →
  ∃ l, list_at device_type v names fields l ∧ ∀ e', e' ∈ l' →
    (∃ e, e ∈ l ∧ element_key (TStruct fields) e ki = element_key (TStruct fields) e' ki) ∨
    (∃ p segs last, p ∈ paths ∧ Parse p = Ok segs ∧ thru None segs names last ∧
       element_key (TStruct fields) e' ki = Some (seg_Value last)).
Proof.
  induction paths as [|p paths IH]; intros v v' names fields l' ki Hall Ha Hne Hl Hki.
  { injection Ha as <-. exists l'. split; [done|]. eauto. }
  destruct (Hall p) as (x & Hx & Hp); [by left|]. cbn [assign_all] in Ha.
  destruct (proper_entry_inv _ _ Hp) as (segs & Hparse & _ & Hpr). rewrite Hparse in Ha.
  cbn [mbind res_bind] in Ha. rewrite Hx in Ha.
  destruct (assignPath device_type v None segs x) as [v1|] eqn:Hv1; [|done]. cbn [mbind res_bind] in Ha.
  destruct (IH v1 v' names fields l' ki) as (l1 & Hl1 & Hk1); [|done..|].
  { intros q Hq. apply Hall. by right. }
  destruct (assign_entries _ _ _ _ _ _ _ _ _ _ Hpr Hv1 Hl1 Hki) as (l & Hl0 & Hk0).
  exists l. split; [done|]. intros e' He'.
  destruct (Hk1 e' He') as [(e1 & He1 & E1)|(q & segs' & last & Hq & ?)].
  - destruct (Hk0 e1 He1) as [(e & He & E)|(last & Hth & E)].
    + left. exists e. split; [done|]. congruence.
    + right. exists p, segs, last. split_and!; [by left|done|done|congruence].
  - right. exists q, segs', last. split; [by right|done].
Qed.

(** Every entry of a list of the rebuilt device is on the way of a stored path. *)
Lemma snapshot_entries root vs d names fields l ki tag k e :
  proper_values vs → vs ≠ ∅ → deviceFromValues root vs = Ok d →
  list_at device_type (enc c_Device d) names fields l → names ≠ [] →
  keyFieldIndex fields = Some ki → fields !! ki = Some (tag, TLeaf k) → e ∈ l →
  ∃ p x segs last, vs !! p = Some x ∧ Parse p = Ok segs ∧ thru None segs names last ∧
    element_key (TStruct fields) e ki = Some (seg_Value last).
Proof.
  intros Hp Hne Hd Hl Hnames Hki Hk He. revert Hd. unfold deviceFromValues, hydrate.
  destruct (newHydrator vs) as [h|] eqn:Hh; [|done]. cbn [mbind res_bind].
  set (v0 := pruneLists h _ _ _). destruct (assign_all _ _ _ v0) as [v|] eqn:Hv; [|done]. cbn [mbind res_bind].
  assert (∀ p, p ∈ (map_to_list vs).*1 → ∃ x, vs !! p = Some x ∧ proper_entry p x = true) as Hall.
  { intros p ([q x] & -> & Hq)%list_elem_of_fmap. apply elem_of_map_to_list in Hq. eauto. }
  assert (seeded h = true ∧ collect_instances (map_to_list vs).*1 ∅ = Ok (instances h)) as [Hseed Hc].
  { revert Hh. unfold newHydrator. destruct (collect_instances _ _) as [m|]; [|done]. intros [= <-]. simpl.
    split; [|done]. destruct (Nat.eqb_spec (size vs) 0) as [E|]; [|done]. by apply map_size_empty_inv in E. }
  assert (v0 = prune h (enc c_Device root) device_type "") as Hv0.
  { unfold v0, pruneLists, cloneDevice. by rewrite Hseed, deepCopy_id. }
  assert (has_type v (ct c_Device) = true) as Hty.
  { eapply assign_all_typed; [|exact Hv]. rewrite Hv0. apply prune_typed, codec_typed. }
  destruct (codec_total v Hty) as (d' & -> & Hd'). intros [= ->]. rewrite Hd' in Hl.
  destruct (assign_all_entries vs (sort_strings (map_to_list vs).*1) v0 v names fields l ki) as (l0 & Hl0 & Hk0); [|done..|].
  { intros p Hin. rewrite elem_of_sort_strings in Hin. by apply Hall. }
  destruct (Hk0 e He) as [(e0 & He0 & E)|(p & segs & last & Hin & Hparse & Hth & E)].
  - rewrite Hv0 in Hl0. destruct (prune_entries h device_type _ "" names fields l0 (codec_typed root) Hl0 ki tag k e0 Hki Hk He0)
      as (key & Hkey & Hin).
    destruct (collect_instances_inv _ _ _ _ _ Hc Hin) as [H|(p & segs & n & last & Hp' & Hparse & Hn & Hlast & <- & Hq)].
    { rewrite lookup_empty in H. by apply not_elem_of_empty in H. }
    destruct (Hall p Hp') as (x & Hx & _). exists p, x, segs, last. split_and!; [done|done| |congruence].
    pose proof (list_at_names _ _ _ _ _ Hl0) as Hsl. apply Parse_inv in Hparse as [_ [_ Hwf]].
    pose proof (lookup_lt_Some _ _ _ Hlast) as Hlt.
    assert (names = seg_Name <$> take n segs) as Hnm.
    { assert (∀ ns, ns ≠ [] → joinNames "" ns = Join ns "/") as Hj by (by intros []).
      assert (seg_Name <$> take n segs ≠ []) as Hne'.
      { destruct n, segs; simpl in *; try done; lia. }
      rewrite !Hj in Hq by done. rewrite <- (Split_Join names slash), <- (Split_Join (seg_Name <$> take n segs) slash); [by f_equal|..]; try done.
      apply Forall_fmap, Forall_take. eapply Forall_impl; [exact Hwf|].
      intros s (_ & Hcl & _). simpl. unfold clean in Hcl. by apply Forall_cons in Hcl as [? _]. }
    assert (length names = n) as Hln.
    { rewrite Hnm, length_fmap, length_take. lia. }
    unfold thru. destruct names as [|name names]; [done|]. rewrite Hln. done.
  - rewrite elem_of_sort_strings in Hin. destruct (Hall p Hin) as (x & Hx & _). exists p, x, segs, last. done.
Qed.


Abbreviation vlan_fields := (struct_fields (ct c_VLAN)).
Abbreviation demo_device := (match Router_Snapshot default_router demo_store true Running with Ok d => d | Err _ => DefaultDevice end).

