(* ===== verification/L2.v ===== *)
(** * The layer-2 domain: the manager and its tables ([internal/l2])

    [l2.go] (the manager), [vlan.go], [mac.go] and [lldp.go].  The manager keeps its
    configuration and state in the running datastore and a few tables of its own; an
    operation runs under the manager's mutex and is a computation of the [ST] monad over
    the manager, given the router, the clock reading of the call and its context.  What a
    failing operation has written before the error stays written.  [slices.SortFunc] is
    modelled by a stable sort. *)

From S2P Require Import Prelude GoStrings GoFloat GoValue GoNet Persist Store Event Path Model Reflect Reflected Hydrate Schema Oid Router.

(** ** The manager *)

Definition DefaultTickInterval : duration := (5 * second)%Z.
Definition DefaultForwardDelay : duration := (15 * second)%Z.
Definition DefaultStormThresholdPPS : Z := 1000.
Definition DefaultStormWindow : duration := second.

(** [STPPhase]. *)
Inductive STPPhase : Set :=
  | STPPhaseDisabled | STPPhaseBlocking | STPPhaseListening | STPPhaseLearning | STPPhaseForwarding.
Global Instance STPPhase_eq_dec : EqDecision STPPhase.
Proof. solve_decision. Defined.

Record stpDeadline : Set := mkDeadline { dl_at : time; dl_phase : STPPhase }.
Record stormSample : Set := mkSample { sm_at : time; sm_packets : Z }.

(** [Manager]: the store behind the router, the events handed to the bus in order, and
    the manager's own fields. *)
Record Manager : Type := mkManager {
  mg_mem : Memory;
  mg_published : list Event;
  mg_bus : bool;
  mg_tickInterval : duration;
  mg_forwardDelay : duration;
  mg_stormThreshold : Z;
  mg_stormWindow : duration;
  mg_lastAging : time;
  mg_stpPending : gmap string stpDeadline;
  mg_stormSamples : gmap string (list stormSample);
  mg_stormAlarm : gmap string bool;
}.

(** [New], whose router is there by construction; [bus] says whether a bus is configured. *)
Definition New (mem : Memory) (bus : bool) (tick forward : duration) (threshold : Z) (window : duration) : Manager :=
  mkManager mem [] bus
    (if (tick <=? 0)%Z then DefaultTickInterval else tick)
    (if (forward <=? 0)%Z then DefaultForwardDelay else forward)
    (if (threshold =? 0)%Z then DefaultStormThresholdPPS else threshold)
    (if (window <=? 0)%Z then DefaultStormWindow else window)
    0 ∅ ∅ ∅.

Definition with_mem (s : Manager) (m : Memory) : Manager :=
  mkManager m (mg_published s) (mg_bus s) (mg_tickInterval s) (mg_forwardDelay s) (mg_stormThreshold s)
    (mg_stormWindow s) (mg_lastAging s) (mg_stpPending s) (mg_stormSamples s) (mg_stormAlarm s).
Definition with_published (s : Manager) (l : list Event) : Manager :=
  mkManager (mg_mem s) l (mg_bus s) (mg_tickInterval s) (mg_forwardDelay s) (mg_stormThreshold s)
    (mg_stormWindow s) (mg_lastAging s) (mg_stpPending s) (mg_stormSamples s) (mg_stormAlarm s).
Definition with_lastAging (s : Manager) (t : time) : Manager :=
  mkManager (mg_mem s) (mg_published s) (mg_bus s) (mg_tickInterval s) (mg_forwardDelay s) (mg_stormThreshold s)
    (mg_stormWindow s) t (mg_stpPending s) (mg_stormSamples s) (mg_stormAlarm s).
Definition with_stpPending (s : Manager) (p : gmap string stpDeadline) : Manager :=
  mkManager (mg_mem s) (mg_published s) (mg_bus s) (mg_tickInterval s) (mg_forwardDelay s) (mg_stormThreshold s)
    (mg_stormWindow s) (mg_lastAging s) p (mg_stormSamples s) (mg_stormAlarm s).
Definition with_storm (s : Manager) (w : gmap string (list stormSample)) (a : gmap string bool) : Manager :=
  mkManager (mg_mem s) (mg_published s) (mg_bus s) (mg_tickInterval s) (mg_forwardDelay s) (mg_stormThreshold s)
    (mg_stormWindow s) (mg_lastAging s) (mg_stpPending s) w a.

(** ** Pure helpers *)

Definition findVLAN (vlans : list VLAN) (id : Z) : option VLAN :=
  snd <$> list_find (λ v, vl_ID v = id) vlans.
Definition findMember (members : list VLANPort) (port : string) : option VLANPort :=
  snd <$> list_find (λ p, vp_Port p = port) members.

Definition vlanPrefix (id : Z) : string := "vlans/vlan[id=" +:+ FormatUint id +:+ "]".
Definition memberPrefix (id : Z) (port : string) : string :=
  vlanPrefix id +:+ "/ports/port[port=" +:+ port +:+ "]".
Definition macPrefix (mac : string) : string := "mac-table/entry[mac-address=" +:+ mac +:+ "]".
Definition lldpNeighborPrefix (port : string) : string := "lldp/neighbors/neighbor[port=" +:+ port +:+ "]".

(** [normalizeMAC]. *)
Definition normalizeMAC (text : string) : res string :=
  match ParseMAC text with
  | Some address => if Nat.eqb (length address) 6 then Ok (HardwareAddr_String address) else Err [L2ErrInvalidMAC]
  | None => Err [L2ErrInvalidMAC]
  end.

(** [equalMAC]. *)
Definition equalMAC (a b : string) : bool :=
  match normalizeMAC a, normalizeMAC b with
  | Ok x, Ok y => String.eqb x y
  | _, _ => String.eqb a b
  end.

(** [compareMAC]. *)
Definition compareMAC (a b : string) : Z :=
  match normalizeMAC a, normalizeMAC b with
  | Ok x, Ok y => if String.ltb x y then -1 else if String.ltb y x then 1 else 0
  | _, _ => 0
  end.

Definition findMAC (entries : list MACEntry) (mac : string) : option MACEntry :=
  snd <$> list_find (λ e, equalMAC (me_MAC e) mac = true) entries.

(** [bridgePortOf]. *)
Definition bridgePortOf (device : Device) (name : string) : res Z :=
  match list_find (λ i, if_Name i = name) (dev_Interfaces device) with
  | Some (i, _) => Ok (u32 (Z.of_nat i + 1))
  | None => Err [L2ErrPortUnknown]
  end.

(** [portNameOf]. *)
Definition portNameOf (device : Device) (number : Z) : res string :=
  if (number =? 0)%Z || (u32 (Z.of_nat (length (dev_Interfaces device))) <? number)%Z then Err [L2ErrPortUnknown]
  else match dev_Interfaces device !! Z.to_nat (number - 1) with
       | Some i => Ok (if_Name i)
       | None => Err [L2ErrPortUnknown]
       end.

(** [portAccepts]. *)
Definition portAccepts (device : Device) (port : string) (vlanID : Z) : bool :=
  match findVLAN (dev_VLANs device) vlanID with
  | Some vlan => bool_decide (is_Some (findMember (vl_Ports vlan) port))
  | None => false
  end.

Definition findInterface (device : Device) (name : string) : option Interface :=
  snd <$> list_find (λ i, if_Name i = name) (dev_Interfaces device).

(** The orders of the sorted reads. *)
Definition vlan_le (a b : VLAN) : Prop := (vl_ID a ≤ vl_ID b)%Z.
Global Instance vlan_le_dec a b : Decision (vlan_le a b).
Proof. unfold vlan_le. apply _. Defined.
Definition member_le (a b : VLANPort) : Prop := String.le (vp_Port a) (vp_Port b).
Global Instance member_le_dec a b : Decision (member_le a b).
Proof. unfold member_le. apply _. Defined.
Definition neighbor_le (a b : LLDPNeighbor) : Prop := String.le (ln_Port a) (ln_Port b).
Global Instance neighbor_le_dec a b : Decision (neighbor_le a b).
Proof. unfold neighbor_le. apply _. Defined.
Definition mac_le (a b : MACEntry) : Prop :=
  (me_VLAN a < me_VLAN b)%Z ∨ me_VLAN a = me_VLAN b ∧ (compareMAC (me_MAC a) (me_MAC b) ≤ 0)%Z.
Global Instance mac_le_dec a b : Decision (mac_le a b).
Proof. unfold mac_le. apply _. Defined.

(** ** Operations

    [r] is the router, [now] the clock reading and [ctx] the context of the call. *)
Section ops.
Context (r : Router) (now : time) (ctx : context).

(** Router calls on the running datastore. *)
Definition snapshot : ST Manager Device := λ s, (Router_Snapshot r (mg_mem s) ctx Running, s).
Definition set_leaf (path : string) (v : value) : ST Manager unit := λ s,
  let '(x, m) := Router_Set r (mg_mem s) now ctx Running path v in (_ ← x; Ok tt, with_mem s m).
Definition delete_leaf (path : string) : ST Manager unit := λ s,
  let '(x, m) := Router_Delete r (mg_mem s) now ctx Running path in (x, with_mem s m).

(** [publish]. *)
Definition publish (e : Event) : ST Manager unit := λ s,
  if mg_bus s then (Ok tt, with_published s (mg_published s ++ [stamp now e])) else (Ok tt, s).

(** [state]. *)
Definition state (path : string) (v : value) : ST Manager unit := λ s,
  let '(x, m) := SetState r (mg_mem s) now ctx path v in (_ ← x; Ok tt, with_mem s m).

(** [erase]. *)
Definition erase (path : string) : ST Manager unit := λ s,
  match DeleteState r (mg_mem s) now ctx path with
  | (Err e, m) => (if errors_is e RouterErrNotFound then Ok tt else Err e, with_mem s m)
  | (Ok _, m) => (Ok tt, with_mem s m)
  end.

(** [removeSubtree]. *)
Definition list_leaves (prefix : string) : ST Manager (list Result) := λ s,
  (Router_List r (mg_mem s) ctx Running prefix, s).
Definition removeSubtree (prefix : string) : ST Manager unit :=
  leaves ← list_leaves prefix;
  st_for leaves (λ leaf, delete_leaf (res_Path leaf)).

(** *** VLANs *)

Definition VLANs : ST Manager (list VLAN) :=
  device ← st_wrap "l2: list vlans" snapshot;
  mret (merge_sort vlan_le (dev_VLANs device)).

Definition VLAN_ (id : Z) : ST Manager VLAN :=
  vlans ← VLANs;
  match findVLAN vlans id with
  | Some vlan => mret vlan
  | None => st_fail [L2ErrVLANNotFound]
  end.

Definition writeVLAN (vlan : VLAN) : ST Manager unit :=
  st_for [("name", VString (vl_Name vlan)); ("description", VString (vl_Description vlan))]
    (λ field, st_wrap "l2: vlan" (set_leaf (vlanPrefix (vl_ID vlan) +:+ "/" +:+ field.1) field.2)).

Definition writeMember (id : Z) (member : VLANPort) : ST Manager unit :=
  st_for [("mode", VString (vp_Mode member)); ("pvid", VUint16 (vp_PVID member));
          ("tagged", VBool (vp_Tagged member)); ("qinq", VBool (vp_QinQ member));
          ("s-tag-vid", VUint16 (vp_OuterVID member)); ("c-tag-handling", VString (vp_CTagHandling member))]
    (λ field, st_wrap "l2: vlan port" (set_leaf (memberPrefix id (vp_Port member) +:+ "/" +:+ field.1) field.2)).

Definition removeMember (id : Z) (port : string) : ST Manager unit := removeSubtree (memberPrefix id port).

Definition CreateVLAN (vlan : VLAN) : ST Manager unit :=
  _ ← st_wrap "l2: vlan" (st_lift (VLAN_Validate vlan));
  found ← st_try (VLAN_ (vl_ID vlan));
  match found with
  | Ok _ => st_fail [L2ErrVLANExists]
  | Err e =>
      if errors_is e L2ErrVLANNotFound
      then _ ← writeVLAN vlan; st_for (vl_Ports vlan) (writeMember (vl_ID vlan))
      else st_fail e
  end.

Definition ReplaceVLAN (vlan : VLAN) : ST Manager unit :=
  _ ← st_wrap "l2: vlan" (st_lift (VLAN_Validate vlan));
  current ← VLAN_ (vl_ID vlan);
  _ ← st_for (vl_Ports current) (λ member,
        match findMember (vl_Ports vlan) (vp_Port member) with
        | Some _ => mret tt
        | None => removeMember (vl_ID vlan) (vp_Port member)
        end);
  _ ← writeVLAN vlan;
  st_for (vl_Ports vlan) (writeMember (vl_ID vlan)).

Definition DeleteVLAN (id : Z) : ST Manager unit :=
  _ ← VLAN_ id;
  removeSubtree (vlanPrefix id).

Definition Members (id : Z) : ST Manager (list VLANPort) :=
  vlan ← VLAN_ id;
  mret (merge_sort member_le (vl_Ports vlan)).

Definition Member (id : Z) (port : string) : ST Manager VLANPort :=
  vlan ← VLAN_ id;
  match findMember (vl_Ports vlan) port with
  | Some member => mret member
  | None => st_fail [L2ErrMemberNotFound]
  end.

Definition SetMember (id : Z) (member : VLANPort) : ST Manager unit :=
  _ ← st_wrap "l2: vlan" (st_lift (VLANPort_Validate member));
  _ ← VLAN_ id;
  writeMember id member.

Definition RemoveMember (id : Z) (port : string) : ST Manager unit :=
  _ ← Member id port;
  removeMember id port.

Definition PortVLANs (port : string) : ST Manager (list VLAN) :=
  vlans ← VLANs;
  mret (filter (λ v, is_Some (findMember (vl_Ports v) port)) vlans).

Definition Accepts (port : string) (vlanID : Z) : ST Manager bool :=
  found ← st_try (VLAN_ vlanID);
  match found with
  | Ok vlan => mret (bool_decide (is_Some (findMember (vl_Ports vlan) port)))
  | Err e => if errors_is e L2ErrVLANNotFound then mret false else st_fail e
  end.

Definition TagStack (id : Z) (port : string) : ST Manager (Z * Z) :=
  member ← Member id port;
  mret (if vp_Tagged member then vp_PVID member else 0%Z, if vp_QinQ member then vp_OuterVID member else 0%Z).

(** *** The forwarding database *)

Definition MACEntries : ST Manager (list MACEntry) :=
  device ← st_wrap "l2: mac table" snapshot;
  mret (merge_sort mac_le (mt_Entries (dev_MACTable device))).

Definition syncCount : ST Manager unit :=
  entries ← MACEntries;
  st_wrap "l2: mac count" (state "mac-table/current-count" (VUint32 (u32 (Z.of_nat (length entries))))).

Definition writeMAC (entry : MACEntry) : ST Manager unit :=
  _ ← st_for [("vlan-id", VUint16 (me_VLAN entry)); ("port", VUint32 (me_Port entry));
              ("type", VString (me_Type entry)); ("permanent", VBool (me_Permanent entry))]
        (λ field, st_wrap "l2: mac" (set_leaf (macPrefix (me_MAC entry) +:+ "/" +:+ field.1) field.2));
  _ ← st_wrap "l2: mac" (state (macPrefix (me_MAC entry) +:+ "/age") (VUint32 (me_Age entry)));
  syncCount.

Definition removeMAC (mac : string) : ST Manager unit := removeSubtree (macPrefix mac).

(** [learn], with the address canonical. *)
Definition learn (address : string) (vlanID : Z) (port : string) : ST Manager MACEntry :=
  device ← st_wrap "l2: learn" snapshot;
  index ← st_lift (bridgePortOf device port);
  if negb (portAccepts device port vlanID) then st_fail [L2ErrMemberNotFound]
  else
    let table := dev_MACTable device in
    let existing := findMAC (mt_Entries table) address in
    let write :=
      let entry := mkMACEntry address vlanID index MACEntryTypeDynamic 0
                     (match existing with Some e => me_Permanent e | None => false end) in
      _ ← writeMAC entry; mret entry in
    match existing with
    | Some e => if String.eqb (me_Type e) MACEntryTypeStatic then mret e else write
    | None =>
        if (mt_MaxEntries table <=? u32 (Z.of_nat (length (mt_Entries table))))%Z
        then st_fail [L2ErrTableFull] else write
    end.

Definition Learn (mac : string) (vlanID : Z) (port : string) : ST Manager MACEntry :=
  address ← st_lift (normalizeMAC mac);
  learn address vlanID port.

Definition SetStatic (entry : MACEntry) : ST Manager MACEntry :=
  address ← st_lift (normalizeMAC (me_MAC entry));
  let entry := mkMACEntry address (me_VLAN entry) (me_Port entry) MACEntryTypeStatic 0 true in
  _ ← st_wrap "l2: static mac entry" (st_lift (MACEntry_Validate entry));
  device ← st_wrap "l2: static mac entry" snapshot;
  let table := dev_MACTable device in
  if bool_decide (findMAC (mt_Entries table) address = None)
     && (mt_MaxEntries table <=? u32 (Z.of_nat (length (mt_Entries table))))%Z
  then st_fail [L2ErrTableFull]
  else _ ← writeMAC entry; mret entry.

Definition MACEntry_ (mac : string) : ST Manager MACEntry :=
  address ← st_lift (normalizeMAC mac);
  entries ← MACEntries;
  match findMAC entries address with
  | Some entry => mret entry
  | None => st_fail [L2ErrMACNotFound]
  end.

Definition DeleteMAC (mac : string) : ST Manager unit :=
  address ← st_lift (normalizeMAC mac);
  device ← st_wrap "l2: delete mac" snapshot;
  match findMAC (mt_Entries (dev_MACTable device)) address with
  | None => st_fail [L2ErrMACNotFound]
  | Some _ => _ ← removeMAC address; syncCount
  end.

(** The loop of [FlushMAC]; [removed] counts the entries removed so far, and is returned
    with an error too. *)
Fixpoint flush_entries (vlanID : Z) (l : list MACEntry) (removed : Z) (s : Manager) : (res unit * Z) * Manager :=
  match l with
  | [] => (Ok tt, removed, s)
  | entry :: l =>
      if negb (String.eqb (me_Type entry) MACEntryTypeDynamic)
         || negb (vlanID =? 0)%Z && negb (me_VLAN entry =? vlanID)%Z
      then flush_entries vlanID l removed s
      else match removeMAC (me_MAC entry) s with
           | (Ok _, s) => flush_entries vlanID l (removed + 1)%Z s
           | (Err e, s) => (Err e, removed, s)
           end
  end.

Definition FlushMAC (vlanID : Z) (s : Manager) : (res unit * Z) * Manager :=
  match MACEntries s with
  | (Err e, s) => (Err e, 0%Z, s)
  | (Ok entries, s) =>
      match flush_entries vlanID entries 0 s with
      | (Ok _, removed, s) =>
          if (0 <? removed)%Z then let '(x, s) := syncCount s in (x, removed, s) else (Ok tt, 0%Z, s)
      | (Err e, removed, s) => (Err e, removed, s)
      end
  end.

Definition BridgePort (name : string) : ST Manager Z :=
  device ← st_wrap "l2: bridge port" snapshot;
  st_lift (bridgePortOf device name).

Definition PortName (number : Z) : ST Manager string :=
  device ← st_wrap "l2: bridge port" snapshot;
  st_lift (portNameOf device number).

(** The entry loop of [age]; it returns the number of entries removed. *)
Fixpoint age_entries (agingTime elapsed : Z) (l : list MACEntry) : ST Manager Z :=
  match l with
  | [] => mret 0%Z
  | entry :: l =>
      if negb (String.eqb (me_Type entry) MACEntryTypeDynamic) then age_entries agingTime elapsed l
      else
        let age := u32 (me_Age entry + elapsed) in
        if (agingTime <=? age)%Z then
          _ ← removeMAC (me_MAC entry);
          n ← age_entries agingTime elapsed l; mret (n + 1)%Z
        else
          _ ← state (macPrefix (me_MAC entry) +:+ "/age") (VUint32 age);
          age_entries agingTime elapsed l
  end.

(** [age]; [elapsed_since] is the whole seconds since the previous sweep. *)
Definition elapsed_since (last : time) : Z :=
  if negb (is_zero_time last) && (last <? now)%Z then u32 (Z.quot (time_sub now last) second) else 0%Z.

Definition age : ST Manager unit :=
  s ← st_get;
  let elapsed := elapsed_since (mg_lastAging s) in
  _ ← st_put (with_lastAging s now);
  if (elapsed =? 0)%Z then mret tt
  else
    device ← st_wrap "l2: mac aging" snapshot;
    removed ← age_entries (mt_AgingTime (dev_MACTable device)) elapsed (mt_Entries (dev_MACTable device));
    if (0 <? removed)%Z then syncCount else mret tt.

(** *** LLDP *)

Definition LLDP : ST Manager LLDPConfig :=
  device ← st_wrap "l2: lldp config" snapshot;
  mret (dev_LLDP device).

Definition Neighbors : ST Manager (list LLDPNeighbor) :=
  config ← LLDP;
  mret (merge_sort neighbor_le (ll_Neighbors config)).

Definition Neighbor (port : string) : ST Manager LLDPNeighbor :=
  neighbors ← Neighbors;
  match list_find (λ n, ln_Port n = port) neighbors with
  | Some (_, n) => mret n
  | None => st_fail [L2ErrNeighborNotFound]
  end.

Definition SetNeighbor (n : LLDPNeighbor) : ST Manager unit :=
  _ ← st_wrap "l2: lldp neighbour" (st_lift (LLDPNeighbor_Validate n));
  st_for [("chassis-id", VString (ln_ChassisID n)); ("port-id", VString (ln_PortID n));
          ("system-name", VString (ln_SystemName n)); ("system-description", VString (ln_SystemDescription n));
          ("ttl", VUint32 (ln_TTL n)); ("capabilities", VString (ln_Capabilities n))]
    (λ field, st_wrap "l2: lldp neighbour" (set_leaf (lldpNeighborPrefix (ln_Port n) +:+ "/" +:+ field.1) field.2)).

Definition RemoveNeighbor (port : string) : ST Manager unit :=
  _ ← Neighbor port;
  removeSubtree (lldpNeighborPrefix port).

(** [refreshLLDP]. *)
Definition refreshLLDP : ST Manager unit :=
  config ← LLDP;
  if negb (ll_Enabled config) || Nat.eqb (length (ll_Neighbors config)) 0 then mret tt
  else
    let ttl := u32 (ll_TxInterval config * ll_TxHoldMultiplier config) in
    if (ttl =? 0)%Z || (LLDPTTLMax <? ttl)%Z then mret tt
    else st_for (ll_Neighbors config) (λ n,
      if (ln_TTL n =? ttl)%Z then mret tt
      else st_wrap "l2: lldp refresh" (set_leaf (lldpNeighborPrefix (ln_Port n) +:+ "/ttl") (VUint32 ttl))).
End ops.
