(* ===== verification/Stp.v ===== *)
(** * The simplified spanning-tree machine ([internal/l2/stp.go])

    A port walks the phases of IEEE 802.1D under the forward delay; BPDUs run a root
    election between this bridge and the announced one.  Roles and states live in the
    running datastore; the manager keeps one deadline per port.  The Go code updates a
    snapshot of the spanning-tree state in place while it transitions several ports; the
    model passes it along. *)

From S2P Require Import Prelude GoStrings GoFloat GoValue GoNet Persist Store Event Path Model Reflect Reflected Hydrate Schema Oid Router L2.

Definition stpPath (leaf : string) : string := "stp/state/" +:+ leaf.
Definition stpPortPath (port leaf : string) : string :=
  "stp/state/ports/port[port=" +:+ port +:+ "]/" +:+ leaf.

Inductive STPEventKind : Set := EventLinkUp | EventLinkDown | EventBPDU | EventOther (name : string).

Record STPEvent : Set := mkSTPEvent {
  se_Kind : STPEventKind;
  se_Port : string;
  se_RootID : string;
  se_RootPriority : Z;
  se_PathCost : Z;
}.

Definition phase_string (p : STPPhase) : string :=
  match p with
  | STPPhaseDisabled => "disabled" | STPPhaseBlocking => "blocking" | STPPhaseListening => "listening"
  | STPPhaseLearning => "learning" | STPPhaseForwarding => "forwarding"
  end.

(** [stateName]. *)
Definition stateName (protocol : string) (phase : STPPhase) : string :=
  if String.eqb protocol STPProtocolRSTP then
    match phase with
    | STPPhaseDisabled | STPPhaseBlocking | STPPhaseListening => STPPortStateDiscarding
    | _ => phase_string phase
    end
  else phase_string phase.

Definition findSTPPort (ports : list STPPort) (port : string) : option STPPort :=
  snd <$> list_find (λ p, sp_Port p = port) ports.

Definition zero_port : STPPort := mkSTPPort "" "" "" 0 0 false.
Definition currentPort (st : STPState) (port : string) : STPPort := default zero_port (findSTPPort (st_Ports st) port).

(** [normalizeMACString] and [compareBridgeID]. *)
Definition normalizeMACString (text : string) : string :=
  match normalizeMAC text with Ok address => address | Err _ => text end.

Definition compareBridgeID (aPriority : Z) (aID : string) (bPriority : Z) (bID : string) : Z :=
  if negb (aPriority =? bPriority)%Z then (if (aPriority <? bPriority)%Z then -1 else 1)
  else
    let a := normalizeMACString aID in
    let b := normalizeMACString bID in
    if String.eqb a b then 0 else if String.ltb a b then -1 else 1.

Definition set_port (p : STPPort) (role name : string) : STPPort :=
  mkSTPPort (sp_Port p) role name (sp_Priority p) (sp_PathCost p) (sp_EdgePort p).

(** The update of the snapshot at the end of [setSTPPort]: the first port of that name. *)
Fixpoint update_port (ports : list STPPort) (port role name : string) : list STPPort :=
  match ports with
  | [] => []
  | p :: ports =>
      if String.eqb (sp_Port p) port then set_port p role name :: ports
      else p :: update_port ports port role name
  end.

Definition with_ports (st : STPState) (ports : list STPPort) : STPState :=
  mkSTPState (st_Enabled st) (st_Protocol st) (st_BridgePriority st) (st_BridgeAddress st)
    (st_RootID st) (st_RootCost st) ports.
Definition with_root (st : STPState) (id : string) (cost : Z) : STPState :=
  mkSTPState (st_Enabled st) (st_Protocol st) (st_BridgePriority st) (st_BridgeAddress st) id cost (st_Ports st).

Definition stp_le (a b : STPPort) : Prop := String.le (sp_Port a) (sp_Port b).
Global Instance stp_le_dec a b : Decision (stp_le a b).
Proof. unfold stp_le. apply _. Defined.

Section ops.
Context (r : Router) (now : time) (ctx : context).

Definition STPState_ : ST Manager STPState :=
  device ← st_wrap "l2: stp state" (snapshot r ctx);
  mret (dev_STP device).

Definition STPPorts : ST Manager (list STPPort) :=
  st ← STPState_;
  mret (merge_sort stp_le (st_Ports st)).

(** [setSTPPort]. *)
Definition setSTPPort (st : STPState) (port role name : string) : ST Manager STPState :=
  _ ← st_wrap "l2: stp" (set_leaf r now ctx (stpPortPath port "role") (VString role));
  _ ← st_wrap "l2: stp" (set_leaf r now ctx (stpPortPath port "state") (VString name));
  mret (with_ports st (update_port (st_Ports st) port role name)).

(** [scheduleSTP]. *)
Definition scheduleSTP (port : string) (phase : STPPhase) : ST Manager unit := λ s,
  let arm next := (Ok tt, with_stpPending s (<[port := mkDeadline (now + mg_forwardDelay s) next]> (mg_stpPending s))) in
  match phase with
  | STPPhaseBlocking | STPPhaseListening => arm STPPhaseLearning
  | STPPhaseLearning => arm STPPhaseForwarding
  | _ => (Ok tt, with_stpPending s (delete port (mg_stpPending s)))
  end.

(** [transition]. *)
Definition transition (st : STPState) (port role : string) (phase : STPPhase) (reason : string)
    : ST Manager STPState :=
  let name := stateName (st_Protocol st) phase in
  let current := currentPort st port in
  if String.eqb (sp_Role current) role && String.eqb (sp_State current) name then mret st
  else
    st ← setSTPPort st port role name;
    _ ← publish now (mkEvent TypeStateTransition ("l2/stp/" +:+ port) ""
          ("stp " +:+ port +:+ ": " +:+ sp_State current +:+ " -> " +:+ name +:+ " (" +:+ reason +:+ ")")
          DomainL2 "" (sp_State current) name 0);
    _ ← scheduleSTP port phase;
    mret st.

(** The loop of [elect] over the other ports. *)
Fixpoint elect_others (better : bool) (port : string) (names : list string) (st : STPState)
    : ST Manager STPState :=
  match names with
  | [] => mret st
  | other :: names =>
      if String.eqb other port then elect_others better port names st
      else
        st ← (if better then transition st other STPPortRoleAlternate STPPhaseBlocking "root election"
              else transition st other STPPortRoleDesignated STPPhaseForwarding "root election");
        elect_others better port names st
  end.

(** [elect]. *)
Definition better_root (st : STPState) (ev : STPEvent) : bool :=
  (compareBridgeID (se_RootPriority ev) (se_RootID ev) (st_BridgePriority st) (st_BridgeAddress st) <? 0)%Z.

Definition elect (st : STPState) (ev : STPEvent) (port : STPPort) : ST Manager STPState :=
  let better := better_root st ev in
  let rootID := if better then se_RootID ev else st_BridgeAddress st in
  let rootCost := if better then u32 (se_PathCost ev + sp_PathCost port) else 0%Z in
  _ ← state r now ctx (stpPath "root-id") (VString rootID);
  _ ← state r now ctx (stpPath "root-cost") (VUint32 rootCost);
  st ← elect_others better (sp_Port port) (sp_Port <$> st_Ports st) (with_root st rootID rootCost);
  let role := if better then STPPortRoleRoot else STPPortRoleDesignated in
  let phase := if better && negb (String.eqb (st_Protocol st) STPProtocolRSTP)
               then STPPhaseBlocking else STPPhaseForwarding in
  transition st (sp_Port port) role phase ("bpdu from " +:+ se_RootID ev).

(** [Handle]. *)
Definition Handle (ev : STPEvent) : ST Manager unit :=
  if String.eqb (se_Port ev) "" then st_fail [Anon "l2: stp event without a port"]
  else
    device ← st_wrap "l2: stp event" (snapshot r ctx);
    let st := dev_STP device in
    if negb (st_Enabled st) then st_fail [L2ErrSTPDisabled]
    else
      match findSTPPort (st_Ports st) (se_Port ev) with
      | None => st_fail [L2ErrPortUnknown]
      | Some port =>
          match se_Kind ev with
          | EventLinkDown =>
              _ ← transition st (sp_Port port) STPPortRoleAlternate STPPhaseDisabled "link down"; mret tt
          | EventLinkUp =>
              _ ← transition st (sp_Port port) STPPortRoleDesignated
                    (if sp_EdgePort port then STPPhaseForwarding else STPPhaseBlocking) "link up"; mret tt
          | EventBPDU => _ ← elect st ev port; mret tt
          | EventOther _ => st_fail [Anon "l2: unknown stp event"]
          end
      end.

(** The ports whose deadline has passed, sorted. *)
Definition due_ports (p : gmap string stpDeadline) : list string :=
  sort_strings (filter (λ x, (dl_at x.2 <=? now)%Z = true) (map_to_list p)).*1.

(** The loop of [advanceSTP]. *)
Fixpoint advance_ports (due : list string) (st : STPState) : ST Manager unit :=
  match due with
  | [] => mret tt
  | port :: due =>
      s ← st_get;
      match mg_stpPending s !! port with
      | None => advance_ports due st
      | Some deadline =>
          _ ← st_put (with_stpPending s (delete port (mg_stpPending s)));
          match findSTPPort (st_Ports st) port with
          | None => advance_ports due st
          | Some current =>
              st ← transition st port (sp_Role current) (dl_phase deadline) "forward delay";
              advance_ports due st
          end
      end
  end.

(** [advanceSTP]. *)
Definition advanceSTP : ST Manager unit :=
  s ← st_get;
  match due_ports (mg_stpPending s) with
  | [] => mret tt
  | due =>
      device ← st_wrap "l2: stp forward delay" (snapshot r ctx);
      let st := dev_STP device in
      if negb (st_Enabled st) then st_modify (λ s, with_stpPending s ∅)
      else advance_ports due st
  end.

(** [Tick]: all three steps run, and the errors are joined. *)
Definition Tick : ST Manager unit :=
  a ← st_try (age r now ctx);
  b ← st_try advanceSTP;
  c ← st_try (refreshLLDP r now ctx);
  st_lift (errors_join [a; b; c]).
End ops.
