(* ===== verification/Traffic.v ===== *)
(** * Traffic through the bridge ([internal/l2/counters.go], [storm.go])

    Frames and broadcast storms move the interface counters, teach the forwarding
    database and raise the storm alarm.  Counters and rates are machine integers: sums
    wrap at 64 and 32 bits as in Go. *)

From S2P Require Import Prelude GoStrings GoFloat GoValue GoNet Persist Store Event Path Model Reflect Reflected Hydrate Schema Oid Router L2.

(** ** Counters and frames *)

Record Frame : Set := mkFrame {
  fr_Src : string;
  fr_Dst : string;
  fr_VLAN : Z;
  fr_Ingress : string;
  fr_Bytes : Z;
  fr_Broadcast : bool;
}.

Definition MinFrameBytes : Z := 64.

(** Why a frame was not forwarded; the numbers of the message are not modelled. *)
Inductive drop_reason : Set := NotDropped | WrongVLAN | Oversized.

Record FrameResult : Set := mkFrameResult {
  fx_Ingress : string;
  fx_Egress : list string;
  fx_Learned : bool;
  fx_Dropped : drop_reason;
}.

(** [addCounters]. *)
Definition addCounters (a b : InterfaceCounters) : InterfaceCounters :=
  mkInterfaceCounters
    (u64 (ic_InOctets a + ic_InOctets b)) (u64 (ic_OutOctets a + ic_OutOctets b))
    (u64 (ic_InUcastPkts a + ic_InUcastPkts b)) (u64 (ic_OutUcastPkts a + ic_OutUcastPkts b))
    (u32 (ic_InErrors a + ic_InErrors b)) (u32 (ic_OutErrors a + ic_OutErrors b))
    (u32 (ic_InDiscards a + ic_InDiscards b)) (u32 (ic_OutDiscards a + ic_OutDiscards b)).

Definition in_counters (octets packets errors discards : Z) : InterfaceCounters :=
  mkInterfaceCounters octets 0 packets 0 errors 0 discards 0.
Definition out_counters (octets packets : Z) : InterfaceCounters :=
  mkInterfaceCounters 0 octets 0 packets 0 0 0 0.

(** [egressPorts]. *)
Definition flood_ports (device : Device) (vlanID : Z) (ingress : string) : list string :=
  match findVLAN (dev_VLANs device) vlanID with
  | None => []
  | Some vlan => sort_strings (filter (λ p, p ≠ ingress) (vp_Port <$> vl_Ports vlan))
  end.

Definition egressPorts (device : Device) (frame : Frame) (destination : string) (ingressIndex : Z) : list string :=
  let flood := flood_ports device (fr_VLAN frame) (fr_Ingress frame) in
  if fr_Broadcast frame then flood
  else match findMAC (mt_Entries (dev_MACTable device)) destination with
       | None => flood
       | Some entry =>
           if (me_Port entry =? ingressIndex)%Z then []
           else match portNameOf device (me_Port entry) with
                | Ok name => [name]
                | Err _ => flood
                end
       end.

Definition counter_fields (c : InterfaceCounters) : list (string * value) :=
  [("in-octets", VUint64 (ic_InOctets c)); ("out-octets", VUint64 (ic_OutOctets c));
   ("in-ucast-pkts", VUint64 (ic_InUcastPkts c)); ("out-ucast-pkts", VUint64 (ic_OutUcastPkts c));
   ("in-errors", VUint32 (ic_InErrors c)); ("out-errors", VUint32 (ic_OutErrors c));
   ("in-discards", VUint32 (ic_InDiscards c)); ("out-discards", VUint32 (ic_OutDiscards c))].

Definition counterPath (port name : string) : string :=
  "interfaces/interface[name=" +:+ port +:+ "]/counters/" +:+ name.

(** ** Storm control *)

Definition MaxStormPackets : Z := 1000000.

(** The split of an injection into accepted and discarded frames. *)
Definition storm_split (threshold rate packets : Z) : Z * Z :=
  if (threshold <? rate)%Z then
    if (u32 (rate - packets) <? threshold)%Z then
      let accepted := u32 (threshold - u32 (rate - packets)) in (accepted, u32 (packets - accepted))
    else (0, packets)%Z
  else (packets, 0)%Z.

(** The samples [recordStorm] keeps, and their sum. *)
Definition storm_window (samples : list stormSample) (cutoff : time) : list stormSample :=
  filter (λ x, (sm_at x <? cutoff)%Z = false) samples.
Definition storm_sum (samples : list stormSample) : Z :=
  foldl (λ rate x, u32 (rate + sm_packets x)) 0%Z samples.

(** [recordStorm]. *)
Definition recordStorm (s : Manager) (port : string) (now : time) (packets : Z) : Z * Manager :=
  let kept := storm_window (default [] (mg_stormSamples s !! port)) (now - mg_stormWindow s) in
  let window := kept ++ [mkSample now packets] in
  (u32 (storm_sum kept + packets), with_storm s (<[port := window]> (mg_stormSamples s)) (mg_stormAlarm s)).

(** [stormVLAN]. *)
Definition stormVLAN (device : Device) (port : string) : option VLAN :=
  head (merge_sort vlan_le (filter (λ v, is_Some (findMember (vl_Ports v) port)) (dev_VLANs device))).

(** [Storming]. *)
Definition Storming (s : Manager) (port : string) : bool := default false (mg_stormAlarm s !! port).

Section ops.
Context (r : Router) (now : time) (ctx : context).

Definition Counters (port : string) : ST Manager InterfaceCounters :=
  device ← st_wrap "l2: counters" (snapshot r ctx);
  match findInterface device port with
  | Some iface => mret (if_Counters iface)
  | None => st_fail [L2ErrPortUnknown]
  end.

(** [increment] and [Increment]. *)
Definition increment (port : string) (delta : InterfaceCounters) : ST Manager unit :=
  current ← Counters port;
  st_for (counter_fields (addCounters current delta)) (λ field,
    st_wrap "l2: counters" (state r now ctx (counterPath port field.1) field.2)).

(** [Transmit]; the result is returned with an error too. *)
Definition transmit_on (device : Device) (iface : Interface) (index : Z) (frame : Frame) (source destination : string)
    (s : Manager) : (FrameResult * res unit) * Manager :=
  let port := fr_Ingress frame in
  let result egress learned dropped := mkFrameResult port egress learned dropped in
  if negb (portAccepts device port (fr_VLAN frame)) then
    let '(x, s) := increment port (in_counters 0 0 0 1) s in (result [] false WrongVLAN, x, s)
  else if (if_MTU iface <? fr_Bytes frame)%Z then
    let '(x, s) := increment port (in_counters 0 0 1 0) s in (result [] false Oversized, x, s)
  else
    match increment port (in_counters (fr_Bytes frame) 1 0 0) s with
    | (Err e, s) => (result [] false NotDropped, Err e, s)
    | (Ok _, s) =>
        let '(x, s) := learn r now ctx source (fr_VLAN frame) port s in
        let learned := is_ok x in
        let forward :=
          let egress := egressPorts device frame destination index in
          let '(y, s) := st_for egress (λ p, increment p (out_counters (fr_Bytes frame) 1)) s in
          (result egress learned NotDropped, y, s) in
        match x with
        | Ok _ => forward
        | Err e => if errors_is e L2ErrTableFull then forward else (result [] false NotDropped, Err e, s)
        end
    end.

Definition no_result : FrameResult := mkFrameResult "" [] false NotDropped.

Definition Transmit (frame : Frame) (s : Manager) : (FrameResult * res unit) * Manager :=
  match (source ← normalizeMAC (fr_Src frame); destination ← normalizeMAC (fr_Dst frame); Ok (source, destination)) with
  | Err e => (no_result, Err e, s)
  | Ok (source, destination) =>
      let frame := mkFrame (fr_Src frame) (fr_Dst frame) (fr_VLAN frame) (fr_Ingress frame)
                     (if (fr_Bytes frame =? 0)%Z then MinFrameBytes else fr_Bytes frame) (fr_Broadcast frame) in
      match st_wrap "l2: transmit" (snapshot r ctx) s with
      | (Err e, s) => (no_result, Err e, s)
      | (Ok device, s) =>
          match findInterface device (fr_Ingress frame), bridgePortOf device (fr_Ingress frame) with
          | Some iface, Ok index => transmit_on device iface index frame source destination s
          | None, _ => (no_result, Err [L2ErrPortUnknown], s)
          | _, Err e => (no_result, Err e, s)
          end
      end
  end.

(** [reportStorm]; the rates of the message are printed. *)
Definition reportStorm (port : string) (rate : Z) (storming : bool) : ST Manager unit :=
  s ← st_get;
  if Bool.eqb (Storming s port) storming then mret tt
  else
    _ ← st_put (with_storm s (mg_stormSamples s) (<[port := storming]> (mg_stormAlarm s)));
    let event := mkEvent (if storming then TypeAlarmRaised else TypeAlarmCleared) ("l2/storm/" +:+ port)
      (if storming then "major" else "cleared")
      (if storming
       then "broadcast storm on " +:+ port +:+ ": " +:+ FormatUint rate +:+ " pps above the "
            +:+ FormatUint (mg_stormThreshold s) +:+ " pps limit"
       else "broadcast storm on " +:+ port +:+ " cleared: " +:+ FormatUint rate +:+ " pps within the "
            +:+ FormatUint (mg_stormThreshold s) +:+ " pps limit")
      DomainL2 AlarmL2Storm "" "" 0 in
    publish now event.

(** [Storm]. *)
Definition Storm (port : string) (packets : Z) : ST Manager unit :=
  if (packets =? 0)%Z then mret tt
  else if (MaxStormPackets <? packets)%Z then st_fail [L2ErrStormTooLarge]
  else
    device ← st_wrap "l2: storm" (snapshot r ctx);
    match findInterface device port with
    | None => st_fail [L2ErrPortUnknown]
    | Some _ =>
        s ← st_get;
        let '(rate, s) := recordStorm s port now packets in
        _ ← st_put s;
        let storming := (mg_stormThreshold s <? rate)%Z in
        let '(accepted, discarded) := storm_split (mg_stormThreshold s) rate packets in
        _ ← increment port (in_counters (u64 (accepted * MinFrameBytes)) accepted 0 discarded);
        _ ← match stormVLAN device port with
            | None => mret tt
            | Some vlan =>
                st_for (vl_Ports vlan) (λ member,
                  if String.eqb (vp_Port member) port then mret tt
                  else increment (vp_Port member) (out_counters (u64 (accepted * MinFrameBytes)) accepted))
            end;
        reportStorm port rate storming
    end.
End ops.
