(* ===== verification/Bridge.v ===== *)
(** * Properties of the bridge's traffic handling

    Storm control keeps what a port accepts within the threshold, whatever the sequence
    of injections; frames leave by member ports only and never by the port they came in. *)

From S2P Require Import Prelude GoStrings GoFloat GoValue GoNet Persist Store Event Path Model Reflect Reflected Hydrate Schema Oid Router L2 Traffic.

(** ** Storm control *)

(** What one injection admits: nothing when [Storm] refuses it before it is measured. *)
Definition admits (r : Router) (s : Manager) (now : time) (ctx : context) (port : string) (packets : Z) : option Z :=
  if (packets =? 0)%Z || (MaxStormPackets <? packets)%Z then None
  else match (snapshot r ctx s).1 with
       | Err _ => None
       | Ok device =>
           match findInterface device port with
           | None => None
           | Some _ => Some (storm_split (mg_stormThreshold s) (recordStorm s port now packets).1 packets).1
           end
       end.

(** A history of [Storm] calls, on any ports, with any results. *)
Record storm_call : Set := mkStorm { sc_port : string; sc_now : time; sc_ctx : context; sc_packets : Z }.
Record admission : Set := mkAdmission { ad_port : string; ad_at : time; ad_packets : Z; ad_accepted : Z }.

Fixpoint storm_run (r : Router) (s : Manager) (calls : list storm_call) : Manager * list admission :=
  match calls with
  | [] => (s, [])
  | c :: calls =>
      let s' := (Storm r (sc_now c) (sc_ctx c) (sc_port c) (sc_packets c) s).2 in
      let '(s'', log) := storm_run r s' calls in
      (s'', match admits r s (sc_now c) (sc_ctx c) (sc_port c) (sc_packets c) with
            | Some a => mkAdmission (sc_port c) (sc_now c) (sc_packets c) a :: log
            | None => log
            end)
  end.

Definition accepted_between (log : list admission) (port : string) (u v : time) : Z :=
  foldr Z.add 0%Z (ad_accepted <$> filter (λ a, ad_port a = port ∧ (u ≤ ad_at a ≤ v)%Z) log).
Definition offered (log : list admission) (port : string) : Z :=
  foldr Z.add 0%Z (ad_packets <$> filter (λ a, ad_port a = port) log).

(** *** What the operations leave alone *)

(** The storm tables and settings. *)
Definition storm_view (s : Manager) := (mg_stormSamples s, mg_stormThreshold s, mg_stormWindow s).

Lemma st_for_keeps {A B} (V : Manager → B) (l : list A) (body : A → ST Manager unit) s :
  (∀ a s, V (body a s).2 = V s) → V (st_for l body s).2 = V s.
Proof.
  intros H. revert s. induction l as [|a l IH]; intros s; [done|]. cbn [st_for]. unfold mbind, st_bind.
  specialize (H a s). destruct (body a s) as [[x|e] s']; simpl in *; [|done]. by rewrite IH.
Qed.

Lemma increment_keeps r now ctx port delta s : storm_view (increment r now ctx port delta s).2 = storm_view s.
Proof.
  unfold increment, Counters, mbind, st_bind, st_wrap, snapshot.
  destruct (Router_Snapshot r (mg_mem s) ctx Running) as [d|e]; [|done].
  destruct (findInterface d port); [|done]. cbn [mret st_ret]. apply st_for_keeps. intros f s'. unfold state.
  destruct (SetState r (mg_mem s') now ctx _ _) as [[x|e] m]; done.
Qed.

Lemma reportStorm_keeps now port rate b s : storm_view (reportStorm now port rate b s).2 = storm_view s.
Proof.
  unfold reportStorm, mbind, st_bind, st_get. destruct (Bool.eqb _ _); [done|].
  unfold st_put, publish. cbn [mg_bus with_storm]. by destruct (mg_bus s).
Qed.

Lemma Storm_view r now ctx port packets s :
  storm_view (Storm r now ctx port packets s).2 =
  match admits r s now ctx port packets with
  | Some _ => storm_view (recordStorm s port now packets).2
  | None => storm_view s
  end.
Proof.
  unfold Storm, admits. destruct (packets =? 0)%Z; [done|]. cbn [orb].
  destruct (MaxStormPackets <? packets)%Z; [done|].
  unfold mbind at 1, st_bind at 1. unfold st_wrap, snapshot.
  destruct (Router_Snapshot r (mg_mem s) ctx Running) as [d|e]; [|done]. cbn [fst].
  destruct (findInterface d port); [|done].
  unfold mbind at 1, st_bind at 1. unfold st_get.
  destruct (recordStorm s port now packets) as [rate s1] eqn:E. cbn [fst snd].
  unfold mbind at 1, st_bind at 1. unfold st_put.
  destruct (storm_split _ rate packets) as [acc disc].
  pose proof (increment_keeps r now ctx port (in_counters (u64 (acc * MinFrameBytes)) acc 0 disc) s1) as H1.
  unfold mbind at 1, st_bind at 1. destruct (increment _ _ _ port _ s1) as [[x|e] s2]; cbn [snd] in *; [|done].
  rewrite <- H1. clear H1. unfold mbind, st_bind.
  assert (∀ m : ST Manager unit, storm_view (m s2).2 = storm_view s2 →
    storm_view (let (x, s') := m s2 in match x with Ok _ => reportStorm now port rate (mg_stormThreshold s1 <? rate)%Z s' | Err e => (Err e, s') end).2
    = storm_view s2) as Hm.
  { intros m Hm. destruct (m s2) as [[y|e] s3]; simpl in *; [|done]. by rewrite reportStorm_keeps. }
  apply (Hm (match stormVLAN d port with None => mret tt | Some vlan => _ end)).
  destruct (stormVLAN d port) as [vlan|]; [|done]. apply st_for_keeps. intros member s'.
  destruct (String.eqb _ port); [done|]. apply increment_keeps.
Qed.

(** *** Sums *)

Definition zsum (l : list Z) : Z := foldr Z.add 0%Z l.

Lemma zsum_app l l' : zsum (l ++ l') = (zsum l + zsum l')%Z.
Proof. unfold zsum. induction l as [|x l IH]; simpl; [done|]. rewrite IH. lia. Qed.

Lemma zsum_filter_le {A} (f g : A → Z) (P Q : A → Prop) `{∀ x, Decision (P x)} `{∀ x, Decision (Q x)} (l : list A) :
  (∀ x, x ∈ l → P x → Q x) → (∀ x, x ∈ l → 0 ≤ f x ≤ g x)%Z →
  (zsum (f <$> filter P l) ≤ zsum (g <$> filter Q l))%Z.
Proof.
  intros HPQ Hfg. induction l as [|x l IH]; [done|].
  assert (zsum (f <$> filter P l) ≤ zsum (g <$> filter Q l))%Z as IH'.
  { apply IH; intros y Hy; [apply HPQ|apply Hfg]; by right. }
  pose proof (Hfg x ltac:(by left)). rewrite !filter_cons.
  destruct (decide (P x)) as [HP|]; [rewrite decide_True by (apply HPQ; [by left|done])|destruct (decide (Q x))];
    rewrite ?fmap_cons; unfold zsum in *; cbn [foldr]; lia.
Qed.

Lemma storm_sum_exact l : ∀ acc, (0 ≤ acc)%Z → Forall (λ x, 0 ≤ sm_packets x)%Z l →
  (acc + zsum (sm_packets <$> l) < 2 ^ 32)%Z →
  foldl (λ rate x, u32 (rate + sm_packets x)) acc l = (acc + zsum (sm_packets <$> l))%Z.
Proof.
  induction l as [|x l IH]; intros acc Ha Hf Hlt; [unfold zsum; simpl; lia|].
  apply Forall_cons in Hf as [Hx Hf]. rewrite fmap_cons in *. unfold zsum in *. cbn [foldr foldl] in *.
  assert (0 ≤ foldr Z.add 0 (sm_packets <$> l))%Z as Hnn.
  { clear -Hf. induction Hf; rewrite ?fmap_cons; cbn [foldr]; [done|lia]. }
  unfold u32. rewrite Z.mod_small by lia. rewrite IH; [lia|lia|done|lia].
Qed.

(** *** The invariant *)

Definition sample_of (a : admission) : stormSample := mkSample (ad_at a) (ad_packets a).

Record storm_inv (s : Manager) (past : list admission) (t0 : time) (thr : Z) (w : duration) : Prop := {
  si_thr : mg_stormThreshold s = thr;
  si_window : mg_stormWindow s = w;
  si_samples : ∀ port c, (t0 - w ≤ c)%Z →
    storm_window (default [] (mg_stormSamples s !! port)) c
    = sample_of <$> filter (λ a, ad_port a = port ∧ (c ≤ ad_at a)%Z) past;
  si_past : ∀ a, a ∈ past → (ad_at a ≤ t0 ∧ 0 ≤ ad_accepted a ≤ ad_packets a)%Z;
  si_bound : ∀ port u, (accepted_between past port u (u + w) ≤ thr)%Z;
}.

Lemma storm_inv_view s s' past t0 t1 thr w : storm_inv s past t0 thr w → storm_view s' = storm_view s →
  (t0 ≤ t1)%Z → storm_inv s' past t1 thr w.
Proof.
  intros [H1 H2 H3 H4 H5] [= E1 E2 E3] Ht. split; [by rewrite E2|by rewrite E3| | |done].
  - intros port c Hc. rewrite E1. apply H3. lia.
  - intros a Ha. specialize (H4 a Ha). lia.
Qed.

Lemma storm_window_twice l c c' : (c ≤ c')%Z → storm_window (storm_window l c) c' = storm_window l c'.
Proof.
  intros Hc. unfold storm_window. induction l as [|x l IH]; [done|]. rewrite !filter_cons.
  destruct (decide ((sm_at x <? c)%Z = false)) as [Hx|Hx].
  - rewrite filter_cons, IH. done.
  - rewrite IH, (decide_False (P := (sm_at x <? c')%Z = false)); [done|].
    rewrite Z.ltb_ge in *. lia.
Qed.

Lemma storm_window_app l l' c : storm_window (l ++ l') c = storm_window l c ++ storm_window l' c.
Proof. apply filter_app. Qed.

Lemma storm_split_bound thr rate packets before : (0 ≤ packets)%Z → (0 ≤ before)%Z → (0 ≤ thr)%Z →
  rate = (before + packets)%Z → (rate < 2 ^ 32)%Z →
  (0 ≤ (storm_split thr rate packets).1 ≤ packets ∧
   (storm_split thr rate packets).1 ≤ Z.max 0 (thr - before))%Z.
Proof.
  intros Hp Hb Ht -> Hr. unfold storm_split. replace (before + packets - packets)%Z with before by lia.
  assert (u32 before = before) as -> by (unfold u32; apply Z.mod_small; lia).
  destruct (Z.ltb_spec thr (before + packets)); [|simpl; lia].
  destruct (Z.ltb_spec before thr); [|simpl; lia]. 
  assert (u32 (thr - before) = thr - before)%Z as -> by (unfold u32; apply Z.mod_small; lia). simpl. lia.
Qed.

Lemma accepted_snoc past a port u v :
  accepted_between (past ++ [a]) port u v =
  (accepted_between past port u v + if decide (ad_port a = port ∧ u ≤ ad_at a ≤ v)%Z then ad_accepted a else 0)%Z.
Proof.
  unfold accepted_between. fold (zsum (ad_accepted <$> filter (λ x, ad_port x = port ∧ (u ≤ ad_at x ≤ v)%Z) (past ++ [a]))).
  fold (zsum (ad_accepted <$> filter (λ x, ad_port x = port ∧ (u ≤ ad_at x ≤ v)%Z) past)).
  rewrite filter_app, fmap_app, zsum_app. f_equal. rewrite filter_cons, filter_nil.
  destruct (decide _); simpl; lia.
Qed.

(** The rate [recordStorm] measures is the sum of the window. *)
Lemma recordStorm_rate s past t0 thr w now port packets :
  storm_inv s past t0 thr w → (t0 ≤ now)%Z → (0 ≤ packets)%Z →
  (zsum (ad_packets <$> filter (λ a, ad_port a = port ∧ (now - w ≤ ad_at a)%Z) past) + packets < 2 ^ 32)%Z →
  (recordStorm s port now packets).1 =
  (zsum (ad_packets <$> filter (λ a, ad_port a = port ∧ (now - w ≤ ad_at a)%Z) past) + packets)%Z.
Proof.
  intros [H1 H2 H3 H4 H5] Ht Hp Hlt. unfold recordStorm. simpl. rewrite H2, H3 by lia. unfold storm_sum.
  set (l := filter _ past) in *.
  assert (sm_packets <$> (sample_of <$> l) = ad_packets <$> l) as E by (by rewrite <- list_fmap_compose).
  assert (∀ x, x ∈ l → 0 ≤ ad_packets x)%Z as Hpos.
  { intros x [_ Hx]%list_elem_of_filter. specialize (H4 x Hx). lia. }
  assert (0 ≤ zsum (ad_packets <$> l))%Z.
  { clear -Hpos. unfold zsum. induction l as [|x l IH]; [done|]. rewrite fmap_cons. cbn [foldr].
    pose proof (Hpos x ltac:(by left)). specialize (IH ltac:(intros y Hy; apply Hpos; by right)). lia. }
  rewrite storm_sum_exact; rewrite ?E; [|lia| |lia].
  - unfold u32. rewrite Z.mod_small; lia.
  - apply Forall_fmap, Forall_forall. intros x Hx. simpl. by apply Hpos.
Qed.

Lemma storm_inv_record s past t0 thr w now port packets :
  storm_inv s past t0 thr w → (t0 ≤ now)%Z → (0 ≤ packets)%Z → (0 ≤ thr)%Z → (0 ≤ w)%Z →
  (zsum (ad_packets <$> filter (λ a, ad_port a = port) past) + packets < 2 ^ 32)%Z →
  let '(rate, s') := recordStorm s port now packets in
  storm_inv s' (past ++ [mkAdmission port now packets (storm_split thr rate packets).1]) now thr w.
Proof.
  intros Hinv Ht Hp Hthr Hw Hlt.
  set (before := zsum (ad_packets <$> filter (λ a, ad_port a = port ∧ (now - w ≤ ad_at a)%Z) past)).
  assert (0 ≤ before ≤ zsum (ad_packets <$> filter (λ a, ad_port a = port) past))%Z as Hb.
  { split.
    - unfold before. etrans; [|apply (zsum_filter_le (λ _, 0%Z) ad_packets (λ a, ad_port a = port ∧ (now - w ≤ ad_at a)%Z))].
      + clear. induction (filter _ past); [done|]. rewrite fmap_cons. unfold zsum in *. cbn [foldr]. lia.
      + done.
      + intros a Ha. pose proof (si_past _ _ _ _ _ Hinv a Ha). lia.
    - apply zsum_filter_le; [by intros a _ []|]. intros a Ha. pose proof (si_past _ _ _ _ _ Hinv a Ha). lia. }
  pose proof (recordStorm_rate _ _ _ _ _ _ port packets Hinv Ht Hp ltac:(lia)) as Hrate. fold before in Hrate.
  destruct (recordStorm s port now packets) as [rate s'] eqn:E. simpl in Hrate.
  destruct (storm_split_bound thr rate packets before) as [Hacc Hmax]; [lia..|].
  set (acc := (storm_split thr rate packets).1) in *. clearbody acc.
  destruct Hinv as [H1 H2 H3 H4 H5]. unfold recordStorm in E. injection E as _ <-.
  split; cbn [mg_stormThreshold mg_stormWindow mg_stormSamples with_storm]; [done|done|..].
  - intros port' c Hc. destruct (decide (port' = port)) as [->|Hne].
    + rewrite lookup_insert_eq. cbn [default id].
      rewrite storm_window_app, H2, storm_window_twice, H3 by lia. rewrite filter_app, fmap_app. f_equal.
      unfold storm_window. rewrite !filter_cons, !filter_nil. cbn [sm_at ad_port ad_at].
      destruct (Z.ltb_spec now c); [rewrite decide_False by done; rewrite decide_False by (intros [_ ?]; lia); done|].
      rewrite decide_True by done. by rewrite decide_True by (split; [done|lia]).
    + rewrite lookup_insert_ne by done. rewrite H3 by lia. f_equal. rewrite filter_app, filter_cons, filter_nil.
      cbn [ad_port]. rewrite decide_False by naive_solver. by rewrite app_nil_r.
  - intros a [Ha|Ha%list_elem_of_singleton]%elem_of_app; [specialize (H4 a Ha); lia|subst; simpl; lia].
  - intros port' u. rewrite accepted_snoc. cbn [ad_port ad_at ad_accepted].
    destruct (decide _) as [[<- Hu]|]; [|specialize (H5 port' u); lia].
    destruct (Z.le_gt_cases before thr).
    + assert (accepted_between past port u (u + w) ≤ before)%Z; [|lia]. unfold before.
      apply zsum_filter_le; [intros a _ [-> ?]; split; [done|lia]|].
      intros a Ha. specialize (H4 a Ha). lia.
    + specialize (H5 port u). lia.
Qed.

Lemma storm_run_packets r calls : ∀ s, Forall (λ c, 0 ≤ sc_packets c)%Z calls →
  Forall (λ a, 0 ≤ ad_packets a)%Z (storm_run r s calls).2.
Proof.
  induction calls as [|c calls IH]; intros s Hc; [constructor|]. apply Forall_cons in Hc as [Hc Hcs].
  cbn [storm_run]. specialize (IH (Storm r (sc_now c) (sc_ctx c) (sc_port c) (sc_packets c) s).2 Hcs).
  destruct (storm_run _ _ _) as [s'' log]. cbn [snd] in *. destruct (admits _ _ _ _ _ _); [by constructor|done].
Qed.

Lemma storm_run_inv r calls : ∀ s past t0 thr w,
  storm_inv s past t0 thr w → (0 ≤ thr)%Z → (0 ≤ w)%Z →
  StronglySorted Z.le (t0 :: (sc_now <$> calls)) → Forall (λ c, 0 ≤ sc_packets c)%Z calls →
  (∀ port, offered (past ++ (storm_run r s calls).2) port < 2 ^ 32)%Z →
  ∃ t1, storm_inv (storm_run r s calls).1 (past ++ (storm_run r s calls).2) t1 thr w.
Proof.
  induction calls as [|c calls IH]; intros s past t0 thr w Hinv Hthr Hw Hs Hp Hoff.
  { exists t0. simpl. by rewrite app_nil_r. }
  cbn [storm_run] in *. set (s' := (Storm r (sc_now c) (sc_ctx c) (sc_port c) (sc_packets c) s).2) in *.
  rewrite fmap_cons in Hs. apply StronglySorted_inv in Hs as [Hs Ht0]. apply Forall_cons in Ht0 as [Ht _].
  apply Forall_cons in Hp as [Hc Hp]. pose proof (Storm_view r (sc_now c) (sc_ctx c) (sc_port c) (sc_packets c) s) as Hv.
  fold s' in Hv. destruct (storm_run r s' calls) as [s'' log] eqn:Hrun. cbn [fst snd] in *.
  specialize (IH s'). rewrite Hrun in IH. cbn [fst snd] in IH.
  destruct (admits r s (sc_now c) (sc_ctx c) (sc_port c) (sc_packets c)) as [a|] eqn:Ha.
  - assert (a = (storm_split thr (recordStorm s (sc_port c) (sc_now c) (sc_packets c)).1 (sc_packets c)).1) as ->.
    { revert Ha. unfold admits. rewrite (si_thr _ _ _ _ _ Hinv). repeat case_match; congruence. }
    pose proof (storm_inv_record _ _ _ _ _ (sc_now c) (sc_port c) (sc_packets c) Hinv Ht Hc Hthr Hw) as Hrec.
    destruct (recordStorm s (sc_port c) (sc_now c) (sc_packets c)) as [rate s1]. cbn [fst snd] in *.
    set (a := mkAdmission _ _ _ _) in *.
    replace (past ++ a :: log) with ((past ++ [a]) ++ log) in * by (by rewrite <- app_assoc).
    eapply IH; [|done|done|exact Hs|done|done].
    eapply storm_inv_view; [apply Hrec|done|done].
    specialize (Hoff (sc_port c)). unfold offered in Hoff.
    match type of Hoff with (?x < _)%Z => fold (zsum (ad_packets <$> filter (λ a, ad_port a = sc_port c) ((past ++ [a]) ++ log))) in Hoff end.
    rewrite !filter_app, !fmap_app, !zsum_app in Hoff.
    rewrite filter_cons, filter_nil, decide_True in Hoff by done. unfold zsum in Hoff at 2. simpl in Hoff.
    enough (0 ≤ zsum (ad_packets <$> filter (λ a, ad_port a = sc_port c) log))%Z by lia.
    pose proof (storm_run_packets r calls s' Hp) as Hlog. rewrite Hrun in Hlog. cbn [snd] in Hlog.
    clear -Hlog. induction Hlog as [|x log Hx _ IHl]; [done|]. rewrite filter_cons.
    destruct (decide _); [rewrite fmap_cons|]; unfold zsum in *; cbn [foldr]; lia.
  - eapply IH; [|done|done|exact Hs|done|done]. by eapply storm_inv_view.
Qed.


Abbreviation demo_manager := (New (NewMemory "" None None) true 0 0 0 0).
Abbreviation demo_storm :=
  [mkStorm "eth0" 10000000000 true 800; mkStorm "eth1" 10100000000 true 900; mkStorm "eth0" 10500000000 true 800].


(** ** Forwarding *)

Lemma list_find_index {A} (P : A → Prop) `{∀ x, Decision (P x)} l i x :
  list_find P l = Some (i, x) → l !! i = Some x ∧ P x.
Proof. intros (? & ? & _)%list_find_Some. done. Qed.

(** The names and numbers of bridge ports, of a device with distinct interface names. *)
Lemma portNameOf_other d name number index :
  NoDup (if_Name <$> dev_Interfaces d) → (Z.of_nat (length (dev_Interfaces d)) < 2 ^ 32)%Z → (0 ≤ number)%Z →
  bridgePortOf d name = Ok index → number ≠ index → portNameOf d number ≠ Ok name.
Proof.
  intros Hnd Hlen H0. unfold bridgePortOf, portNameOf.
  destruct (list_find _ (dev_Interfaces d)) as [[i x]|] eqn:Hf; [|done]. intros [= <-] Hne.
  apply list_find_index in Hf as [Hi <-].
  assert (u32 (Z.of_nat (length (dev_Interfaces d))) = Z.of_nat (length (dev_Interfaces d))) as -> by (apply Z.mod_small; lia).
  destruct (_ || _) eqn:Hb; [done|]. apply orb_false_iff in Hb as [Hz%Z.eqb_neq Hn%Z.ltb_ge].
  destruct (dev_Interfaces d !! Z.to_nat (number - 1)) as [y|] eqn:Hy; [|done]. intros [= Heq].
  apply Hne. pose proof (lookup_lt_Some _ _ _ Hi).
  assert (i = Z.to_nat (number - 1)) as ->.
  { eapply NoDup_lookup; [exact Hnd|by rewrite list_lookup_fmap, Hi|by rewrite list_lookup_fmap, Hy; simpl; rewrite Heq]. }
  unfold u32. rewrite Z.mod_small; lia.
Qed.

Lemma portNameOf_known d number name : portNameOf d number = Ok name → name ∈ (if_Name <$> dev_Interfaces d).
Proof.
  unfold portNameOf. destruct (_ || _); [done|].
  destruct (dev_Interfaces d !! _) as [y|] eqn:Hy; [|done]. intros [= <-].
  apply list_elem_of_fmap. exists y. split; [done|]. by eapply list_elem_of_lookup_2.
Qed.

(** The other members of a VLAN. *)
Definition other_members (d : Device) (vlanID : Z) (ingress port : string) : Prop :=
  port ≠ ingress ∧ ∃ vlan member, findVLAN (dev_VLANs d) vlanID = Some vlan ∧
    member ∈ vl_Ports vlan ∧ vp_Port member = port.

Lemma elem_of_flood d vlanID ingress port :
  port ∈ flood_ports d vlanID ingress ↔ other_members d vlanID ingress port.
Proof.
  unfold flood_ports, other_members. destruct (findVLAN _ _) as [vlan|].
  - rewrite elem_of_sort_strings, list_elem_of_filter, list_elem_of_fmap. naive_solver.
  - split; [by intros ?%not_elem_of_nil|]. by intros (_ & ? & ? & ? & _).
Qed.

Lemma egress_spec d frame dst index :
  NoDup (if_Name <$> dev_Interfaces d) → (Z.of_nat (length (dev_Interfaces d)) < 2 ^ 32)%Z →
  Forall (λ e, 0 ≤ me_Port e)%Z (mt_Entries (dev_MACTable d)) →
  bridgePortOf d (fr_Ingress frame) = Ok index →
  ∀ port, port ∈ egressPorts d frame dst index ↔
    port ≠ fr_Ingress frame ∧
    match (if fr_Broadcast frame then None else findMAC (mt_Entries (dev_MACTable d)) dst) with
    | Some e => match portNameOf d (me_Port e) with
                | Ok name => port = name
                | Err _ => me_Port e ≠ index ∧ other_members d (fr_VLAN frame) (fr_Ingress frame) port
                end
    | None => other_members d (fr_VLAN frame) (fr_Ingress frame) port
    end.
Proof.
  intros Hnd Hlen Hports Hidx port. unfold egressPorts.
  assert (other_members d (fr_VLAN frame) (fr_Ingress frame) port → port ≠ fr_Ingress frame) as Hne by by intros [].
  destruct (fr_Broadcast frame); [rewrite elem_of_flood; tauto|].
  destruct (findMAC _ dst) as [e|] eqn:He; [|rewrite elem_of_flood; tauto].
  assert (0 ≤ me_Port e)%Z as H0.
  { unfold findMAC in He. apply fmap_Some in He as ([i x] & (Hi & _)%list_find_index & ->).
    by eapply Forall_lookup_1 in Hports. }
  destruct (Z.eqb_spec (me_Port e) index) as [Heq|Hneq].
  - assert (portNameOf d (me_Port e) = Ok (fr_Ingress frame)) as ->.
    { rewrite Heq. revert Hidx. unfold bridgePortOf, portNameOf.
      destruct (list_find _ (dev_Interfaces d)) as [[i x]|] eqn:Hf; [|done]. intros [= <-].
      apply list_find_index in Hf as [Hi <-]. pose proof (lookup_lt_Some _ _ _ Hi).
      unfold u32. rewrite !Z.mod_small by lia.
      destruct (_ || _) eqn:Hb.
      { apply orb_true_iff in Hb as [Hb%Z.eqb_eq|Hb%Z.ltb_lt]; lia. }
      replace (Z.to_nat (Z.of_nat i + 1 - 1)) with i by lia. by rewrite Hi. }
    split; [by intros ?%not_elem_of_nil|]. by intros [? ->].
  - pose proof (portNameOf_other d (fr_Ingress frame) (me_Port e) index Hnd Hlen H0 Hidx Hneq) as Hother.
    destruct (portNameOf d (me_Port e)) as [name|]; [|rewrite elem_of_flood; tauto].
    rewrite list_elem_of_singleton. split; [intros ->; split; [by intros ->|done]|by intros []].
Qed.

(** The ports a frame may leave by: the port its destination is known on, or every other
    member of its VLAN; never the port it came in by. *)
Definition leaves_by (d : Device) (frame : Frame) (dst port : string) : Prop :=
  port ≠ fr_Ingress frame ∧
  match (if fr_Broadcast frame then None else findMAC (mt_Entries (dev_MACTable d)) dst) with
  | Some e => match portNameOf d (me_Port e) with
              | Ok name => port = name
              | Err _ => bridgePortOf d (fr_Ingress frame) ≠ Ok (me_Port e) ∧
                         other_members d (fr_VLAN frame) (fr_Ingress frame) port
              end
  | None => other_members d (fr_VLAN frame) (fr_Ingress frame) port
  end.

Lemma transmit_on_egress r now ctx d iface index frame src dst s result s' :
  transmit_on r now ctx d iface index frame src dst s = (result, Ok tt, s') →
  fx_Ingress result = fr_Ingress frame ∧
  match fx_Dropped result with
  | WrongVLAN => portAccepts d (fr_Ingress frame) (fr_VLAN frame) = false ∧ fx_Egress result = []
  | Oversized => portAccepts d (fr_Ingress frame) (fr_VLAN frame) = true ∧
                 (if_MTU iface < fr_Bytes frame)%Z ∧ fx_Egress result = []
  | NotDropped => portAccepts d (fr_Ingress frame) (fr_VLAN frame) = true ∧
                  (fr_Bytes frame ≤ if_MTU iface)%Z ∧ fx_Egress result = egressPorts d frame dst index
  end.
Proof.
  unfold transmit_on. destruct (portAccepts d _ _); cbn [negb].
  2: { destruct (increment _ _ _ _ _ s) as [x s1]. intros [= <- _ _]. done. }
  destruct (Z.ltb_spec (if_MTU iface) (fr_Bytes frame)).
  { destruct (increment _ _ _ _ _ s) as [x s1]. intros [= <- _ _]. done. }
  destruct (increment _ _ _ _ _ s) as [[x|e] s1]; [|done].
  destruct (learn _ _ _ _ _ _ s1) as [y s2].
  destruct (st_for _ _ s2) as [z s3]. destruct y as [y|e]; [by intros [= <- _ _]|].
  destruct (errors_is e L2ErrTableFull); [by intros [= <- _ _]|done].
Qed.

(** C28: what the bridge does with a frame. On a valid device a Transmit that succeeds
    drops the frame exactly when its port does not carry its VLAN or the frame exceeds the
    port's MTU, and then forwards it nowhere; otherwise it forwards the frame by exactly the
    port its destination is known on, or by every other member of the VLAN when the frame
    is a broadcast or the destination unknown, and never by the port it came in by. *)
Theorem transmit_forwards r now ctx frame s result s' d :
  Transmit r now ctx frame s = (result, Ok tt, s') →
  Router_Snapshot r (mg_mem s) ctx Running = Ok d → Device_ok d →
  (Z.of_nat (length (dev_Interfaces d)) < 2 ^ 32)%Z → Forall (λ e, 0 ≤ me_Port e)%Z (mt_Entries (dev_MACTable d)) →
  ∃ iface dst, findInterface d (fr_Ingress frame) = Some iface ∧ normalizeMAC (fr_Dst frame) = Ok dst ∧
  let size := if (fr_Bytes frame =? 0)%Z then MinFrameBytes else fr_Bytes frame in
  let carried := portAccepts d (fr_Ingress frame) (fr_VLAN frame) in
  fx_Ingress result = fr_Ingress frame ∧
  match fx_Dropped result with
  | WrongVLAN => carried = false ∧ fx_Egress result = []
  | Oversized => carried = true ∧ (if_MTU iface < size)%Z ∧ fx_Egress result = []
  | NotDropped => carried = true ∧ (size ≤ if_MTU iface)%Z ∧
                  ∀ port, port ∈ fx_Egress result ↔ leaves_by d frame dst port
  end.
Proof.
  intros HT Hd (_ & _ & Hnd & _) Hlen Hports. revert HT. unfold Transmit.
  destruct (normalizeMAC (fr_Src frame)) as [src|]; [|done]. cbn [mbind res_bind].
  destruct (normalizeMAC (fr_Dst frame)) as [dst|]; [|done]. cbn [mbind res_bind].
  unfold st_wrap, snapshot. rewrite Hd. cbn [fr_Ingress].
  destruct (findInterface d (fr_Ingress frame)) as [iface|]; [|done].
  destruct (bridgePortOf d (fr_Ingress frame)) as [index|] eqn:Hidx; [|done].
  intros H%transmit_on_egress. cbn [fr_Ingress fr_VLAN fr_Bytes] in H. destruct H as [H1 H2].
  exists iface, dst. split_and!; [done|done|done|]. destruct (fx_Dropped result); [|done|done].
  destruct H2 as (Hacc & Hmtu & Heg). split_and!; [done|done|]. intros port. rewrite Heg.
  rewrite (egress_spec d _ dst index Hnd Hlen Hports Hidx port). unfold leaves_by.
  cbn [fr_Ingress fr_VLAN fr_Broadcast].
  destruct (fr_Broadcast frame); [done|]. destruct (findMAC _ dst) as [e|]; [|done].
  destruct (portNameOf d (me_Port e)); [done|]. rewrite Hidx.
  assert (Ok index ≠ Ok (me_Port e) ↔ me_Port e ≠ index) as -> by (split; congruence). done.
Qed.

(** Two ports of VLAN 100 in a running datastore. *)
Abbreviation demo_running := (mkManager
  (foldl (λ m x, (Set_ m 1 true Running x.1 x.2).2) (NewMemory "" None None)
    [("interfaces/interface[name=eth0]/mtu", VUint32 1500); ("interfaces/interface[name=eth1]/mtu", VUint32 1500);
     ("vlans/vlan[id=100]/name", VString "management");
     ("vlans/vlan[id=100]/ports/port[port=eth0]/mode", VString "access");
     ("vlans/vlan[id=100]/ports/port[port=eth0]/pvid", VUint16 100);
     ("vlans/vlan[id=100]/ports/port[port=eth1]/mode", VString "access");
     ("vlans/vlan[id=100]/ports/port[port=eth1]/pvid", VUint16 100);
     ("synce/selected-source", VString "")])
  [] true 0 DefaultForwardDelay 1000 second 0 ∅ ∅ ∅).
Abbreviation demo_frame := (mkFrame "02:00:00:00:00:0a" "02:00:00:00:00:0b" 100 "eth0" 0 false).
Abbreviation demo_transmit := (Transmit default_router 5 true demo_frame demo_running).

Lemma transmit_forwards_witness :
  demo_transmit.1 = (mkFrameResult "eth0" ["eth1"] true NotDropped, Ok tt) ∧
  ∃ d, Router_Snapshot default_router (mg_mem demo_running) true Running = Ok d ∧
       leaves_by d demo_frame "02:00:00:00:00:0b" "eth1".
Proof.
  assert (H : demo_transmit.1 = (mkFrameResult "eth0" ["eth1"] true NotDropped, Ok tt)) by (vm_compute; reflexivity).
  split; [exact H|].
  assert (Hv : (d ← Router_Snapshot default_router (mg_mem demo_running) true Running;
    _ ← Device_Validate d;
    check (forallb (λ e, 0 <=? me_Port e)%Z (mt_Entries (dev_MACTable d)) && Nat.ltb (length (dev_Interfaces d)) 5) []) = Ok tt)
    by (vm_compute; reflexivity).
  destruct (Router_Snapshot default_router (mg_mem demo_running) true Running) as [d|e] eqn:Hd; [|discriminate Hv].
  cbn [mbind res_bind] in Hv. destruct (Device_Validate d) as [[]|e] eqn:Hok; [|discriminate Hv].
  cbn [mbind res_bind] in Hv. apply check_ok, andb_true_iff in Hv as [Hp Hl%Nat.ltb_lt].
  exists d. split; [reflexivity|].
  destruct (transmit_forwards default_router 5 true demo_frame demo_running
    (mkFrameResult "eth0" ["eth1"] true NotDropped) demo_transmit.2 d (pair_eq _ _ H) Hd) as (iface & dst & _ & Hdst & _ & Hs).
  - by apply Device_Validate_ok.
  - lia.
  - apply Forall_forall. intros x Hx. rewrite forallb_forall in Hp.
    apply Z.leb_le, Hp. by apply list_elem_of_In.
  - assert (dst = "02:00:00:00:00:0b") as -> by (vm_compute in Hdst; congruence).
    destruct Hs as (_ & _ & Hs). apply (Hs "eth1"). by left.
Defined.
