(* ===== verification/Sync.v ===== *)
(** * The synchronisation domain ([internal/sync])

    [ptp.go] (the clock state machine), [synce.go] (source selection), [esmc.go] (quality
    levels) and the operations of [manager.go].  The holdover timer only puts a token into
    a channel of capacity one; [Run] drains it and applies the expiry.  Timer callbacks,
    the token and the calls of the management planes interleave: the timers that are
    scheduled and the callbacks that have fired without reaching the channel are part of
    the state.  The pseudo-random draw of a [Tick] is an argument. *)

From S2P Require Import Prelude GoStrings GoFloat GoValue GoNet Persist Store Event Path Model Reflect Reflected Hydrate Schema Oid Router.

(** ** Quality levels *)

Definition SSMCode (ql : string) : option Z :=
  (if String.eqb ql QLPRC then Some 2 else if String.eqb ql QLSSUA then Some 4
  else if String.eqb ql QLSSUB then Some 8 else if String.eqb ql QLSEC then Some 11
  else if String.eqb ql QLDNU then Some 15 else None)%Z.

Definition QLFromSSM (code : Z) : option string :=
  if (code =? 2)%Z then Some QLPRC else if (code =? 4)%Z then Some QLSSUA
  else if (code =? 8)%Z then Some QLSSUB else if (code =? 11)%Z then Some QLSEC
  else if (code =? 15)%Z then Some QLDNU else None.

Definition ExtendedSSMCode (ql : string) : option Z :=
  (if String.eqb ql "" then Some 0 else if String.eqb ql ExtendedQLPRTC then Some 32
  else if String.eqb ql ExtendedQLPRTCEnhanced then Some 33
  else if String.eqb ql ExtendedQLEECEnhanced then Some 34 else None)%Z.

(** [Rank]: lower is better. *)
Definition Rank (ql : string) : option Z :=
  (if String.eqb ql QLPRC then Some 0 else if String.eqb ql QLSSUA then Some 1
  else if String.eqb ql QLSSUB then Some 2 else if String.eqb ql QLSEC then Some 3 else None)%Z.

(** [Message.Validate]. *)
Record Message : Set := mkMessage { msg_QL : string; msg_ExtendedQL : string }.
Definition Message_Validate (m : Message) : res unit :=
  _ ← wrapf "ql" (QL_Validate (msg_QL m));
  match ExtendedSSMCode (msg_ExtendedQL m) with
  | Some _ => Ok tt
  | None => Err [Anon "unknown extended quality level"]
  end.

(** ** Source selection *)

Record syncESource : Set := mkSource {
  so_name : string;
  so_ql : string;
  so_extended : string;
  so_rank : Z;
  so_priority : Z;
  so_prefers : bool;
}.

(** [betterSource]. *)
Definition betterSource (a b : syncESource) : bool :=
  if negb (so_rank a =? so_rank b)%Z then (so_rank a <? so_rank b)%Z
  else if negb (so_priority a =? so_priority b)%Z then (so_priority a <? so_priority b)%Z
  else if negb (Bool.eqb (so_prefers a) (so_prefers b)) then so_prefers a
  else String.ltb (so_name a) (so_name b).

(** The candidate an interface makes, if it makes one. *)
Definition source_of (i : SyncEInterface) : option syncESource :=
  if sy_SSMEnabled i
  then rank ← Rank (sy_QL i);
       Some (mkSource (sy_Name i) (sy_QL i) (sy_ExtendedQL i) rank (sy_Priority i) (sy_PTPPreference i))
  else None.

(** The loop of [selectSyncESource]. *)
Definition pick_source (best : option syncESource) (i : SyncEInterface) : option syncESource :=
  match source_of i, best with
  | None, _ => best
  | Some c, None => Some c
  | Some c, Some b => if betterSource c b then Some c else Some b
  end.
Definition best_source (l : list SyncEInterface) : option syncESource := foldl pick_source None l.

(** [selectSyncESource]. *)
Definition selectSyncESource (device : Device) : string * string * string :=
  if negb (se_Enabled (dev_SyncE device)) then ("", "", "")
  else match best_source (se_Interfaces (dev_SyncE device)) with
       | None => ("", "", "")
       | Some b => (so_name b, so_ql b, so_extended b)
       end.

(** ** The clock state machine *)

Definition validState (s : string) : bool :=
  one_of s [PTPStateFreerun; PTPStateAcquiring; PTPStateLocked; PTPStateHoldoverInSpec; PTPStateHoldoverOutOfSpec].

Inductive EventType : Set :=
  | EventSourceDetected | EventCalibrationComplete | EventSourceLost | EventSourceRestored
  | EventHoldoverExpired | EventReset | EventUnknown.
Global Instance EventType_eq_dec : EqDecision EventType.
Proof. solve_decision. Defined.

Definition event_valid (e : EventType) : bool := negb (bool_decide (e = EventUnknown)).

(** [nextState]; [None] is the undefined pair. *)
Definition nextState (from : string) (typ : EventType) : option string :=
  match typ with
  | EventSourceDetected => if String.eqb from PTPStateFreerun then Some PTPStateAcquiring else None
  | EventCalibrationComplete => if String.eqb from PTPStateAcquiring then Some PTPStateLocked else None
  | EventSourceLost =>
      if String.eqb from PTPStateLocked then Some PTPStateHoldoverInSpec
      else if String.eqb from PTPStateAcquiring then Some PTPStateFreerun else None
  | EventHoldoverExpired =>
      if String.eqb from PTPStateHoldoverInSpec then Some PTPStateHoldoverOutOfSpec else None
  | EventSourceRestored =>
      if String.eqb from PTPStateHoldoverInSpec || String.eqb from PTPStateHoldoverOutOfSpec
      then Some PTPStateLocked else None
  | EventReset => if String.eqb from PTPStateFreerun then None else Some PTPStateFreerun
  | EventUnknown => None
  end.

(** [Manager]; [sm_scheduled] are the timers on the clock with their deadlines,
    [sm_inflight] the callbacks that fired and have not sent yet, [sm_expired] whether the
    channel holds a token. *)
Record Manager : Type := mkManager {
  sm_mem : Memory;
  sm_published : list Event;
  sm_bus : bool;
  sm_state : string;
  sm_known : bool;
  sm_offset : float64;
  sm_holdoverOffset : float64;
  sm_holdoverStart : time;
  sm_timer : option nat;
  sm_scheduled : gmap nat time;
  sm_inflight : nat;
  sm_expired : bool;
}.

Definition New (mem : Memory) (bus : bool) : Manager :=
  mkManager mem [] bus "" false F64.zero F64.zero 0 None ∅ 0 false.

Definition with_mem (s : Manager) (m : Memory) : Manager :=
  mkManager m (sm_published s) (sm_bus s) (sm_state s) (sm_known s) (sm_offset s) (sm_holdoverOffset s)
    (sm_holdoverStart s) (sm_timer s) (sm_scheduled s) (sm_inflight s) (sm_expired s).
Definition with_published (s : Manager) (l : list Event) : Manager :=
  mkManager (sm_mem s) l (sm_bus s) (sm_state s) (sm_known s) (sm_offset s) (sm_holdoverOffset s)
    (sm_holdoverStart s) (sm_timer s) (sm_scheduled s) (sm_inflight s) (sm_expired s).
Definition with_state (s : Manager) (st : string) : Manager :=
  mkManager (sm_mem s) (sm_published s) (sm_bus s) st true (sm_offset s) (sm_holdoverOffset s)
    (sm_holdoverStart s) (sm_timer s) (sm_scheduled s) (sm_inflight s) (sm_expired s).
Definition with_offset (s : Manager) (o : float64) : Manager :=
  mkManager (sm_mem s) (sm_published s) (sm_bus s) (sm_state s) (sm_known s) o (sm_holdoverOffset s)
    (sm_holdoverStart s) (sm_timer s) (sm_scheduled s) (sm_inflight s) (sm_expired s).
Definition with_holdover (s : Manager) (o : float64) (start : time) (t : option nat) (sched : gmap nat time) : Manager :=
  mkManager (sm_mem s) (sm_published s) (sm_bus s) (sm_state s) (sm_known s) (sm_offset s) o
    start t sched (sm_inflight s) (sm_expired s).
Definition with_channel (s : Manager) (sched : gmap nat time) (inflight : nat) (token : bool) : Manager :=
  mkManager (sm_mem s) (sm_published s) (sm_bus s) (sm_state s) (sm_known s) (sm_offset s) (sm_holdoverOffset s)
    (sm_holdoverStart s) (sm_timer s) sched inflight token.

(** [stopHoldover]: stopping a timer that has already fired does nothing. *)
Definition stopHoldover (s : Manager) : Manager :=
  with_holdover s F64.zero 0 None
    (match sm_timer s with Some id => delete id (sm_scheduled s) | None => sm_scheduled s end).

(** [startHoldover]; the fresh timer is scheduled on the clock. *)
Definition startHoldover (now : time) (device : Device) (s : Manager) : Manager :=
  let s := stopHoldover s in
  let id := fresh (dom (sm_scheduled s)) in
  with_holdover s (sm_offset s) now (Some id)
    (<[id := (now + pc_HoldoverTimeout (dev_PTP device) * second)%Z]> (sm_scheduled s)).

(** [adopt]. *)
Definition adopt (now : time) (device : Device) (s : Manager) : Manager :=
  if sm_known s then s
  else
    let st := if validState (pc_State (dev_PTP device)) then pc_State (dev_PTP device) else PTPStateFreerun in
    let s := with_state s st in
    if String.eqb st PTPStateHoldoverInSpec then startHoldover now device s else s.

Definition hasSyncInterface (device : Device) (name : string) : bool :=
  existsb (λ i, String.eqb (sy_Name i) name) (se_Interfaces (dev_SyncE device)).

(** [Duration.Seconds]. *)
Definition Seconds (d : duration) : float64 :=
  F64.add (F64.of_Z (Z.quot d second)) (F64.div (F64.of_Z (Z.rem d second)) (F64.of_Z 1000000000)).

Definition DefaultDriftPPB : float64 := F64.of_Z 100.
Definition DefaultJitterNS : float64 := F64.of_Z 25.
Definition DefaultFreerunOffsetNS : float64 := F64.of_Z 1000.

(** [noise] of a draw in [0, 1). *)
Definition noise (draw scale : float64) : float64 :=
  F64.mul (F64.sub (F64.mul draw (F64.of_Z 2)) (F64.of_Z 1)) scale.

Section ops.
Context (r : Router) (now : time) (ctx : context).

Definition snapshot : ST Manager Device := λ s, (Router_Snapshot r (sm_mem s) ctx Running, s).
Definition stateWrite (path : string) (v : value) : ST Manager unit := λ s,
  let '(x, m) := SetState r (sm_mem s) now ctx path v in (wrapf "sync: write" (_ ← x; Ok tt), with_mem s m).
Definition publish (e : Event) : ST Manager unit := λ s,
  if sm_bus s then (Ok tt, with_published s (sm_published s ++ [stamp now e])) else (Ok tt, s).

(** [ensureState]. *)
Definition ensureState : ST Manager unit :=
  s ← st_get;
  if sm_known s then mret tt
  else
    device ← st_wrap "sync" snapshot;
    st_modify (adopt now device).

(** [transition]: the snapshot a holdover needs is read first; [enter_state] is the rest. *)
Definition enter_state (from next reason : string) (holdoverDevice : option Device) : ST Manager string :=
  _ ← stateWrite "ptp/clock/state" (VString next);
  _ ← st_modify (λ s,
        let s := with_state s next in
        match holdoverDevice with
        | Some device => startHoldover now device s
        | None =>
            if String.eqb next PTPStateHoldoverOutOfSpec
            then with_holdover s (sm_holdoverOffset s) (sm_holdoverStart s) None (sm_scheduled s)
            else stopHoldover s
        end);
  let why := if String.eqb reason "" then next else reason in
  _ ← publish (mkEvent TypeStateTransition "ptp/clock" ""
        ("ptp clock: " +:+ from +:+ " -> " +:+ next +:+ " (" +:+ why +:+ ")") DomainSync "" from next 0);
  _ ← (if String.eqb next PTPStateHoldoverOutOfSpec then
         publish (mkEvent TypeAlarmRaised "ptp/clock" "major"
           ("ptp clock holdover expired in " +:+ from +:+ ": source not restored") DomainSync AlarmSyncHoldover "" "" 0)
       else if String.eqb from PTPStateHoldoverOutOfSpec then
         publish (mkEvent TypeAlarmCleared "ptp/clock" "cleared"
           ("ptp clock recovered from holdover: " +:+ from +:+ " -> " +:+ next) DomainSync AlarmSyncHoldover "" "" 0)
       else mret tt);
  mret next.

Definition transition (next reason : string) : ST Manager string :=
  s ← st_get;
  if String.eqb next PTPStateHoldoverInSpec
  then device ← st_wrap "sync" snapshot; enter_state (sm_state s) next reason (Some device)
  else enter_state (sm_state s) next reason None.

(** [handleLocked]; it returns the state with an error too, which the callers that only
    want the error drop. *)
Definition handleLocked (typ : EventType) (reason : string) : ST Manager string :=
  if negb (event_valid typ) then st_fail [SyncErrUnknownEvent]
  else
    _ ← ensureState;
    s ← st_get;
    match nextState (sm_state s) typ with
    | None => mret (sm_state s)
    | Some next => if String.eqb next (sm_state s) then mret (sm_state s) else transition next reason
    end.

(** [Handle]. *)
Definition Handle (typ : EventType) (reason : string) : ST Manager string := handleLocked typ reason.

(** [SyncLoss]. *)
Definition SyncLoss (source : string) : ST Manager string :=
  if String.eqb source "" then handleLocked EventSourceLost "synchronization source lost"
  else
    device ← st_wrap "sync" snapshot;
    if negb (hasSyncInterface device source) then st_fail [SyncErrUnknownSource]
    else
      _ ← st_modify (adopt now device);
      handleLocked EventSourceLost ("synchronization source " +:+ source +:+ " lost").

(** [handleDomainEvent]. *)
Definition handleDomainEvent (e : Event) : ST Manager unit :=
  if negb (String.eqb (ev_Alarm e) AlarmRadioLinkDown) then mret tt
  else if String.eqb (ev_Type e) TypeAlarmRaised then
    _ ← handleLocked EventSourceLost ("radio link " +:+ ev_Resource e +:+ " down"); mret tt
  else if String.eqb (ev_Type e) TypeAlarmCleared then
    _ ← handleLocked EventSourceRestored ("radio link " +:+ ev_Resource e +:+ " restored"); mret tt
  else mret tt.

(** [expireHoldover]. *)
Definition expireHoldover : ST Manager unit :=
  s ← st_get;
  if negb (String.eqb (sm_state s) PTPStateHoldoverInSpec) then mret tt
  else _ ← handleLocked EventHoldoverExpired "holdover timer expired"; mret tt.

(** [reconcilePTP]. *)
Definition reconcilePTP (device : Device) : ST Manager unit :=
  _ ← st_modify (adopt now device);
  s ← st_get;
  if negb (String.eqb (pc_Mode (dev_PTP device)) PTPModeMaster) || negb (String.eqb (sm_state s) PTPStateFreerun)
  then mret tt
  else
    _ ← handleLocked EventSourceDetected "master clock reference present";
    _ ← handleLocked EventCalibrationComplete "master clock calibrated";
    mret tt.

(** [refreshSyncE]. *)
Definition write_if (changed : bool) (path : string) (v : value) : ST Manager (res unit) :=
  if changed then st_try (stateWrite path v) else mret (Ok tt).

Definition refreshSyncE (device : Device) : ST Manager unit :=
  let '(name, ql, extended) := selectSyncESource device in
  let synce := dev_SyncE device in
  a ← write_if (negb (String.eqb (se_SelectedSource synce) name)) "synce/selected-source" (VString name);
  b ← write_if (negb (String.eqb (se_SelectedQL synce) ql)) "synce/selected-ql" (VString ql);
  c ← write_if (negb (String.eqb (se_SelectedExtendedQL synce) extended)) "synce/selected-extended-ql" (VString extended);
  st_lift (errors_join [a; b; c]).

(** [refreshQuality]. *)
Definition holdover (st : string) : bool :=
  String.eqb st PTPStateHoldoverInSpec || String.eqb st PTPStateHoldoverOutOfSpec.

Definition simulated_offset (s : Manager) (draw : float64) : float64 :=
  if String.eqb (sm_state s) PTPStateLocked then noise draw DefaultJitterNS
  else if holdover (sm_state s) then
    let elapsed := Seconds (time_sub now (sm_holdoverStart s)) in
    let elapsed := if F64.ltb elapsed F64.zero then F64.zero else elapsed in
    F64.add (sm_holdoverOffset s) (F64.mul DefaultDriftPPB elapsed)
  else noise draw DefaultFreerunOffsetNS.

Definition simulated_jitter (s : Manager) (offset : float64) : float64 :=
  let jitter := if holdover (sm_state s) then F64.sub offset (sm_holdoverOffset s) else offset in
  if F64.ltb jitter F64.zero then F64.opp jitter else jitter.

Definition refreshQuality (draw : float64) (device : Device) : ST Manager unit :=
  _ ← st_modify (λ s, with_offset s (simulated_offset s draw));
  s ← st_get;
  let jitter := simulated_jitter s (sm_offset s) in
  a ← write_if (negb (F64.eqb (pc_Offset (dev_PTP device)) (sm_offset s))) "ptp/clock/offset" (VFloat64 (sm_offset s));
  b ← write_if (negb (F64.eqb (pc_Jitter (dev_PTP device)) jitter)) "ptp/clock/jitter" (VFloat64 jitter);
  st_lift (errors_join [a; b]).

(** [Tick]. *)
Definition Tick (draw : float64) : ST Manager unit :=
  device ← st_wrap "sync" snapshot;
  _ ← reconcilePTP device;
  _ ← refreshSyncE device;
  refreshQuality draw device.
End ops.
