(* ===== verification/Holdover.v ===== *)
(** * Properties of the synchronisation domain

    Source selection is optimal and does not depend on the order of the interfaces; the
    clock's events tell its state and its alarm; a holdover is never forgotten. *)

From S2P Require Import Prelude GoStrings GoFloat GoValue GoNet Persist Store Event Path Model Reflect Reflected Hydrate Schema Oid Router Sync.

(** ** Source selection *)

Lemma ltb_le a b : String.ltb a b = true ↔ String.le a b ∧ a ≠ b.
Proof.
  assert (∀ s, String.compare s s = Eq) as Hrefl.
  { induction s as [|c s IH]; [done|]. cbn [String.compare]. unfold Ascii.compare. by rewrite N.compare_refl. }
  unfold String.ltb, String.le, String.leb. pose proof (String.compare_eq_iff a b) as H.
  destruct (String.compare a b) eqn:E; simpl.
  - rewrite (H eq_refl). naive_solver.
  - split; [|done]. intros _. split; [done|]. intros ->. by rewrite Hrefl in E.
  - naive_solver.
Qed.
Lemma ltb_trans a b c : String.ltb a b = true → String.ltb b c = true → String.ltb a c = true.
Proof.
  rewrite !ltb_le. intros [H1 N1] [H2 N2]. split; [by trans b|]. intros ->. apply N1. by apply (anti_symm String.le).
Qed.
Lemma ltb_total a b : a ≠ b → String.ltb a b = true ∨ String.ltb b a = true.
Proof. rewrite !ltb_le. intros Hne. destruct (total String.le a b); [left|right]; done. Qed.
Lemma ltb_asym a b : String.ltb a b = true → String.ltb b a = false.
Proof.
  intros H. destruct (String.ltb b a) eqn:E; [|done]. rewrite ltb_le in H, E.
  destruct H as [H1 N], E as [H2 _]. destruct N. by apply (anti_symm String.le).
Qed.

(** The selection order is a strict total order of sources with different names. *)
Lemma betterSource_trans a b c : betterSource a b = true → betterSource b c = true → betterSource a c = true.
Proof.
  unfold betterSource. intros H1 H2.
  destruct (Z.eqb_spec (so_rank a) (so_rank b)), (Z.eqb_spec (so_rank b) (so_rank c)), (Z.eqb_spec (so_rank a) (so_rank c));
    simpl in *; rewrite ?Z.ltb_lt in *; try lia.
  destruct (Z.eqb_spec (so_priority a) (so_priority b)), (Z.eqb_spec (so_priority b) (so_priority c)),
    (Z.eqb_spec (so_priority a) (so_priority c)); simpl in *; rewrite ?Z.ltb_lt in *; try lia.
  destruct (so_prefers a), (so_prefers b), (so_prefers c); simpl in *; try done; by eapply ltb_trans.
Qed.

Lemma betterSource_total a b : so_name a ≠ so_name b → betterSource a b = true ∨ betterSource b a = true.
Proof.
  unfold betterSource. intros Hne. rewrite (Z.eqb_sym (so_rank b)), (Z.eqb_sym (so_priority b)).
  destruct (Z.eqb_spec (so_rank a) (so_rank b)); simpl; [|rewrite !Z.ltb_lt; lia].
  destruct (Z.eqb_spec (so_priority a) (so_priority b)); simpl; [|rewrite !Z.ltb_lt; lia].
  destruct (so_prefers a), (so_prefers b); simpl; try by auto; by apply ltb_total.
Qed.

Lemma betterSource_asym a b : betterSource a b = true → betterSource b a = false.
Proof.
  unfold betterSource. rewrite (Z.eqb_sym (so_rank b)), (Z.eqb_sym (so_priority b)).
  destruct (Z.eqb_spec (so_rank a) (so_rank b)); simpl; [|rewrite Z.ltb_lt, Z.ltb_ge; lia].
  destruct (Z.eqb_spec (so_priority a) (so_priority b)); simpl; [|rewrite Z.ltb_lt, Z.ltb_ge; lia].
  destruct (so_prefers a), (so_prefers b); simpl; try done; apply ltb_asym.
Qed.

(** The best candidate: one that no other candidate beats. *)
Definition is_best (l : list syncESource) (b : syncESource) : Prop :=
  b ∈ l ∧ ∀ c, c ∈ l → betterSource c b = false.

Lemma better_false_trans a b c : betterSource b a = false → betterSource c b = false → so_name a ≠ so_name b →
  so_name b ≠ so_name c → betterSource c a = false.
Proof.
  intros H1 H2 N1 N2. destruct (betterSource c a) eqn:E; [|done].
  destruct (betterSource_total b c N2) as [H|H]; [|congruence].
  by rewrite (betterSource_trans b c a H E) in H1.
Qed.

Lemma pick_source_best l : ∀ seen best, NoDup (so_name <$> (seen ++ omap source_of l)) →
  (match best with Some b => is_best seen b | None => seen = [] end) →
  match foldl pick_source best l with
  | Some b => is_best (seen ++ omap source_of l) b
  | None => seen ++ omap source_of l = []
  end.
Proof.
  induction l as [|i l IH]; intros seen best Hnd Hb; cbn [foldl omap list_omap]; [by rewrite app_nil_r; destruct best|].
  change (omap source_of (i :: l)) with (match source_of i with Some c => c :: omap source_of l | None => omap source_of l end) in *.
  unfold pick_source at 2. destruct (source_of i) as [c|]; [|by apply IH].
  replace (seen ++ c :: omap source_of l) with ((seen ++ [c]) ++ omap source_of l) in * by (by rewrite <- app_assoc).
  apply IH; [done|]. rewrite fmap_app in Hnd. apply NoDup_app in Hnd as (Hnd & _ & _).
  rewrite fmap_app in Hnd. apply NoDup_app in Hnd as (_ & Hdis & _).
  assert (∀ b, b ∈ seen → so_name b ≠ so_name c) as Hne.
  { intros b Hin Heq. apply (Hdis (so_name b)); [by apply list_elem_of_fmap_2|]. rewrite Heq. by left. }
  assert (betterSource c c = false) as Hirr.
  { destruct (betterSource c c) eqn:E; [|done]. by rewrite (betterSource_asym c c E) in E. }
  destruct best as [b|].
  - destruct Hb as [Hin Hmin]. destruct (betterSource c b) eqn:E.
    + split; [apply elem_of_app; right; by left|]. intros x [Hx| ->%list_elem_of_singleton]%elem_of_app; [|done].
      destruct (betterSource x c) eqn:Ex; [|done]. pose proof (Hmin x Hx) as Hx'. by rewrite (betterSource_trans x c b Ex E) in Hx'.
    + split; [apply elem_of_app; by left|]. intros x [Hx| ->%list_elem_of_singleton]%elem_of_app; [by apply Hmin|done].
  - rewrite Hb. split; [by left|]. by intros x ->%list_elem_of_singleton.
Qed.

(** SyncE selects the best source. With SyncE enabled and distinct interface names the
    selection is empty exactly when no interface with SSM has a usable quality level;
    otherwise it is the one candidate that beats every other, by quality level, then
    priority, then PTP preference, then name, whatever the order of the interfaces. *)
Theorem synce_selects_best device : NoDup (sy_Name <$> se_Interfaces (dev_SyncE device)) →
  se_Enabled (dev_SyncE device) = true →
  match selectSyncESource device with
  | (name, ql, extended) =>
      (name = "" ∧ ql = "" ∧ extended = "" ∧ omap source_of (se_Interfaces (dev_SyncE device)) = []) ∨
      ∃ b, b ∈ omap source_of (se_Interfaces (dev_SyncE device)) ∧ name = so_name b ∧ ql = so_ql b ∧
        extended = so_extended b ∧
        ∀ c, c ∈ omap source_of (se_Interfaces (dev_SyncE device)) → c ≠ b → betterSource b c = true
  end.
Proof.
  intros Hnd Hen. unfold selectSyncESource. rewrite Hen. cbn [negb].
  set (l := se_Interfaces (dev_SyncE device)) in *.
  assert (NoDup (so_name <$> omap source_of l)) as Hnd'.
  { clear Hen. induction l as [|i l IH]; [constructor|]. rewrite fmap_cons in Hnd. apply NoDup_cons in Hnd as [Hi Hnd].
    change (omap source_of (i :: l)) with (match source_of i with Some c => c :: omap source_of l | None => omap source_of l end).
    destruct (source_of i) as [c|] eqn:Hc; [|by apply IH]. rewrite fmap_cons. apply NoDup_cons. split; [|by apply IH].
    assert (∀ j x, source_of j = Some x → so_name x = sy_Name j) as Hname.
    { intros j x. unfold source_of. destruct (sy_SSMEnabled j); [|done].
      destruct (Rank (sy_QL j)); [|done]. by intros [= <-]. }
    intros (x & Hx & Hin)%list_elem_of_fmap. apply list_elem_of_omap in Hin as (j & Hj & Hjx).
    apply Hi. rewrite <- (Hname i c Hc), Hx, (Hname j x Hjx). by apply list_elem_of_fmap_2. }
  pose proof (pick_source_best l [] None Hnd' eq_refl) as H. cbn [app] in H. unfold best_source.
  destruct (foldl pick_source None l) as [b|]; [right|left; done].
  destruct H as [Hb Hmin]. exists b. split_and!; [done..|]. intros c Hc Hne.
  assert (so_name b ≠ so_name c) as Hn.
  { intros Heq. apply Hne. apply list_elem_of_lookup in Hb as [i Hi], Hc as [j Hj].
    assert (i = j) as ->; [|congruence].
    eapply NoDup_lookup; [exact Hnd'|by rewrite list_lookup_fmap, Hi|by rewrite list_lookup_fmap, Hj, Heq]. }
  destruct (betterSource_total b c Hn) as [|Hx]; [done|]. by rewrite (Hmin c Hc) in Hx.
Qed.

Lemma synce_selects_best_witness :
  selectSyncESource DefaultDevice = ("eth0", QLPRC, "") ∧
  ∃ b, so_name b = "eth0" ∧ ∀ c, c ∈ omap source_of (se_Interfaces (dev_SyncE DefaultDevice)) → c ≠ b → betterSource b c = true.
Proof.
  split; [vm_compute; reflexivity|].
  destruct (synce_selects_best DefaultDevice) as [(H & _)|(b & _ & Hn & _ & _ & Hb)].
  - by_decide.
  - reflexivity.
  - exfalso. vm_compute in H. discriminate H.
  - exists b. split; [symmetry; exact Hn|exact Hb].
Defined.

(** The SSM code of a quality level reads back, and only codes of quality levels are
    accepted. *)
Theorem ssm_roundtrip ql code : SSMCode ql = Some code ↔ QLFromSSM code = Some ql.
Proof.
  unfold SSMCode, QLFromSSM. split.
  - repeat match goal with
    | |- (if String.eqb ?a ?b then _ else _) = _ → _ => destruct (String.eqb_spec a b) as [->|_]; [by intros [= <-]|]
    end. done.
  - repeat match goal with
    | |- (if (?a =? ?b)%Z then _ else _) = _ → _ => destruct (Z.eqb_spec a b) as [->|_]; [by intros [= <-]|]
    end. done.
Qed.

(** ** The clock *)

Definition clock_events (now : time) (from next reason : string) : list Event :=
  let why := if String.eqb reason "" then next else reason in
  [stamp now (mkEvent TypeStateTransition "ptp/clock" ""
     ("ptp clock: " +:+ from +:+ " -> " +:+ next +:+ " (" +:+ why +:+ ")") DomainSync "" from next 0)] ++
  (if String.eqb next PTPStateHoldoverOutOfSpec then
     [stamp now (mkEvent TypeAlarmRaised "ptp/clock" "major"
        ("ptp clock holdover expired in " +:+ from +:+ ": source not restored") DomainSync AlarmSyncHoldover "" "" 0)]
   else if String.eqb from PTPStateHoldoverOutOfSpec then
     [stamp now (mkEvent TypeAlarmCleared "ptp/clock" "cleared"
        ("ptp clock recovered from holdover: " +:+ from +:+ " -> " +:+ next) DomainSync AlarmSyncHoldover "" "" 0)]
   else []).

(** The state after a transition that succeeds. *)
Definition moved (now : time) (next reason : string) (device : option Device) (s : Manager) : Manager :=
  let s1 := with_state s next in
  let s2 := match device with
            | Some d => startHoldover now d s1
            | None => if String.eqb next PTPStateHoldoverOutOfSpec
                      then with_holdover s1 (sm_holdoverOffset s1) (sm_holdoverStart s1) None (sm_scheduled s1)
                      else stopHoldover s1
            end in
  if sm_bus s then with_published s2 (sm_published s ++ clock_events now (sm_state s) next reason) else s2.

Lemma enter_state_cases r now ctx next reason device s :
  (∃ e m, enter_state r now ctx (sm_state s) next reason device s = (Err e, with_mem s m)) ∨
  (∃ m, enter_state r now ctx (sm_state s) next reason device s = (Ok next, moved now next reason device (with_mem s m))).
Proof.
  unfold enter_state, mbind, st_bind, stateWrite, st_modify.
  destruct (SetState r (sm_mem s) now ctx _ _) as [[x|e] m]; cbn [wrapf mbind res_bind]; [right|left; eauto].
  exists m. unfold publish, moved, clock_events. destruct s as [mem pub bus st known off hoff hst tm sch infl exp].
  cbn [with_mem with_state with_published sm_bus sm_published sm_state].
  destruct bus, device as [d|]; cbn -[String.eqb];
    destruct (String.eqb next PTPStateHoldoverOutOfSpec), (String.eqb st PTPStateHoldoverOutOfSpec); cbn -[String.eqb];
    rewrite <- ?app_assoc; done.
Qed.

Lemma transition_cases r now ctx next reason s :
  (∃ e m, transition r now ctx next reason s = (Err e, with_mem s m)) ∨
  (∃ m device, (is_Some device ↔ next = PTPStateHoldoverInSpec) ∧
     transition r now ctx next reason s = (Ok next, moved now next reason device (with_mem s m))).
Proof.
  assert (∀ s', with_mem s' (sm_mem s') = s') as Hid by (by intros []).
  unfold transition, mbind, st_bind, st_get, st_wrap, snapshot.
  destruct (String.eqb_spec next PTPStateHoldoverInSpec) as [Heq|Hne].
  - destruct (Router_Snapshot r (sm_mem s) ctx Running) as [d|e].
    + destruct (enter_state_cases r now ctx next reason (Some d) s) as [H|[m H]]; [by left|].
      right. exists m, (Some d). split; [|done]. split; [done|by eexists].
    + left. exists (Anon "sync" :: e), (sm_mem s). by rewrite Hid.
  - destruct (enter_state_cases r now ctx next reason None s) as [H|[m H]]; [by left|].
    right. exists m, None. split; [|done]. split; [by intros [? ?]|done].
Qed.

(** *** What the operations do to the clock *)

Definition clock_view (s : Manager) :=
  (sm_published s, sm_bus s, sm_state s, sm_known s, sm_timer s, sm_scheduled s, sm_inflight s, sm_expired s).

Inductive core_step : Manager → Manager → Prop :=
  | core_quiet s s' : clock_view s' = clock_view s → core_step s s'
  | core_adopt now d s : sm_known s = false → core_step s (adopt now d s)
  | core_move now typ next reason device m s :
      sm_known s = true → nextState (sm_state s) typ = Some next → next ≠ sm_state s →
      (is_Some device ↔ next = PTPStateHoldoverInSpec) →
      core_step s (moved now next reason device (with_mem s m)).

Lemma adopt_steps now d s : rtc core_step s (adopt now d s).
Proof.
  destruct (sm_known s) eqn:E; [|by apply rtc_once, core_adopt].
  unfold adopt. rewrite E. apply rtc_refl.
Qed.

Lemma adopt_known now d s : sm_known (adopt now d s) = true.
Proof. unfold adopt. destruct (sm_known s) eqn:E; [done|]. by destruct (String.eqb _ PTPStateHoldoverInSpec). Qed.

(** Composition in the monad. *)
Lemma bind_steps {A B} (m : ST Manager A) (k : A → ST Manager B) s :
  rtc core_step s (m s).2 → (∀ a s', m s = (Ok a, s') → rtc core_step s' (k a s').2) →
  rtc core_step s ((m ≫= k) s).2.
Proof.
  intros Hm Hk. unfold mbind, st_bind. destruct (m s) as [[a|e] s'] eqn:E; simpl in *; [|done].
  etrans; [exact Hm|]. by apply Hk.
Qed.

Lemma ensureState_steps r now ctx s :
  rtc core_step s (ensureState r now ctx s).2 ∧
  ((ensureState r now ctx s).1 = Ok tt → sm_known (ensureState r now ctx s).2 = true).
Proof.
  unfold ensureState, mbind, st_bind, st_get. destruct (sm_known s) eqn:E; [split; [apply rtc_refl|done]|].
  unfold st_wrap, snapshot, st_modify. destruct (Router_Snapshot r (sm_mem s) ctx Running) as [d|e]; simpl.
  - split; [apply adopt_steps|]. intros _. apply adopt_known.
  - split; [apply rtc_refl|done].
Qed.

Lemma handleLocked_steps r now ctx typ reason s : rtc core_step s (handleLocked r now ctx typ reason s).2.
Proof.
  unfold handleLocked. destruct (negb _); [apply rtc_refl|].
  destruct (ensureState_steps r now ctx s) as [H1 H2].
  apply bind_steps; [done|]. intros [] s' E. rewrite E in H2. specialize (H2 eq_refl). simpl in H2.
  unfold mbind, st_bind, st_get. destruct (nextState (sm_state s') typ) as [next|] eqn:Hn; [|apply rtc_refl].
  destruct (String.eqb_spec next (sm_state s')) as [|Hne]; [apply rtc_refl|].
  destruct (transition_cases r now ctx next reason s') as [(e & m & ->)|(m & device & Hd & ->)]; simpl; apply rtc_once.
  - by apply core_quiet.
  - by eapply core_move.
Qed.

Lemma quiet_step s s' : clock_view s' = clock_view s → rtc core_step s s'.
Proof. intros H. by apply rtc_once, core_quiet. Qed.

Lemma write_if_steps r now ctx b path v s : rtc core_step s (write_if r now ctx b path v s).2.
Proof.
  unfold write_if. destruct b; [|apply rtc_refl]. unfold st_try, stateWrite.
  destruct (SetState r (sm_mem s) now ctx path v). by apply quiet_step.
Qed.

Lemma Tick_steps r now ctx draw s : rtc core_step s (Tick r now ctx draw s).2.
Proof.
  unfold Tick. apply bind_steps.
  { unfold st_wrap, snapshot. destruct (Router_Snapshot r (sm_mem s) ctx Running); apply rtc_refl. }
  intros d s1 _. apply bind_steps.
  { unfold reconcilePTP. apply bind_steps; [apply adopt_steps|]. intros _ s2 _.
    apply bind_steps; [apply rtc_refl|]. intros s3 s4 _. destruct (_ || _); [apply rtc_refl|].
    apply bind_steps; [apply handleLocked_steps|]. intros _ s5 _.
    apply bind_steps; [apply handleLocked_steps|]. intros _ s6 _. apply rtc_refl. }
  intros _ s2 _. apply bind_steps.
  { unfold refreshSyncE. destruct (selectSyncESource d) as [[name ql] extended].
    do 3 (apply bind_steps; [apply write_if_steps|intros ? ? _]). apply rtc_refl. }
  intros _ s3 _. unfold refreshQuality. apply bind_steps; [by apply quiet_step|]. intros _ s4 _.
  apply bind_steps; [apply rtc_refl|]. intros s5 s6 _.
  do 2 (apply bind_steps; [apply write_if_steps|intros ? ? _]). apply rtc_refl.
Qed.

Lemma SyncLoss_steps r now ctx source s : rtc core_step s (SyncLoss r now ctx source s).2.
Proof.
  unfold SyncLoss. destruct (String.eqb source ""); [apply handleLocked_steps|].
  apply bind_steps.
  { unfold st_wrap, snapshot. destruct (Router_Snapshot r (sm_mem s) ctx Running); apply rtc_refl. }
  intros d s1 _. destruct (negb _); [apply rtc_refl|].
  apply bind_steps; [apply adopt_steps|]. intros _ s2 _. apply handleLocked_steps.
Qed.

Lemma handleDomainEvent_steps r now ctx e s : rtc core_step s (handleDomainEvent r now ctx e s).2.
Proof.
  unfold handleDomainEvent. destruct (negb _); [apply rtc_refl|].
  destruct (String.eqb _ TypeAlarmRaised);
    [apply bind_steps; [apply handleLocked_steps|intros _ ? _; apply rtc_refl]|].
  destruct (String.eqb _ TypeAlarmCleared);
    [apply bind_steps; [apply handleLocked_steps|intros _ ? _; apply rtc_refl]|]. apply rtc_refl.
Qed.

Lemma expireHoldover_steps r now ctx s : rtc core_step s (expireHoldover r now ctx s).2.
Proof.
  unfold expireHoldover. apply bind_steps; [apply rtc_refl|]. intros s1 s2 _. destruct (negb _); [apply rtc_refl|].
  apply bind_steps; [apply handleLocked_steps|]. intros _ s3 _. apply rtc_refl.
Qed.

(** *** The machine: calls, timer callbacks and the channel *)

(** [faults]: whether the write of an expiry can fail; the token is consumed all the same. *)
Inductive sync_step (r : Router) (faults : bool) : Manager → Manager → Prop :=
  | step_handle now ctx typ reason s : sync_step r faults s (Handle r now ctx typ reason s).2
  | step_loss now ctx source s : sync_step r faults s (SyncLoss r now ctx source s).2
  | step_event now ctx e s : sync_step r faults s (handleDomainEvent r now ctx e s).2
  | step_tick now ctx draw s : sync_step r faults s (Tick r now ctx draw s).2
  | step_fire id s : is_Some (sm_scheduled s !! id) →
      sync_step r faults s (with_channel s (delete id (sm_scheduled s)) (S (sm_inflight s)) (sm_expired s))
  | step_send n s : sm_inflight s = S n → sync_step r faults s (with_channel s (sm_scheduled s) n true)
  | step_drain now ctx s s1 : sm_expired s = true →
      expireHoldover r now ctx (with_channel s (sm_scheduled s) (sm_inflight s) false) = (Ok tt, s1) →
      sync_step r faults s s1
  | step_drain_failed now ctx s s1 e : faults = true → sm_expired s = true →
      expireHoldover r now ctx (with_channel s (sm_scheduled s) (sm_inflight s) false) = (Err e, s1) →
      sync_step r faults s s1
  | step_other mem s : sync_step r faults s (with_mem s mem).

(** What the events say: the state and whether the holdover alarm is active. *)
Definition legal (from to : string) : bool :=
  existsb (λ typ, bool_decide (nextState from typ = Some to))
    [EventSourceDetected; EventCalibrationComplete; EventSourceLost; EventSourceRestored; EventHoldoverExpired; EventReset].

Fixpoint replay (st : string) (alarm : bool) (l : list Event) : option (string * bool) :=
  match l with
  | [] => Some (st, alarm)
  | e :: l =>
      if String.eqb (ev_Type e) TypeStateTransition then
        if String.eqb (ev_Domain e) DomainSync && String.eqb (ev_From e) st && legal st (ev_To e) then replay (ev_To e) alarm l else None
      else if String.eqb (ev_Type e) TypeAlarmRaised then
        if String.eqb st PTPStateHoldoverOutOfSpec && negb alarm then replay st true l else None
      else if String.eqb (ev_Type e) TypeAlarmCleared then
        if negb (String.eqb st PTPStateHoldoverOutOfSpec) && alarm then replay st false l else None
      else None
  end.

Definition expiring (s : Manager) : Prop :=
  (∃ id, sm_timer s = Some id ∧ is_Some (sm_scheduled s !! id)) ∨ 0 < sm_inflight s ∨ sm_expired s = true.

Record clock_inv (s : Manager) : Prop := {
  ci_bus : sm_bus s = true;
  ci_unknown : sm_known s = false → sm_state s = "" ∧ sm_published s = [];
  ci_events : sm_known s = true → validState (sm_state s) = true ∧ ∃ st0, validState st0 = true ∧
    replay st0 (String.eqb st0 PTPStateHoldoverOutOfSpec) (sm_published s)
    = Some (sm_state s, String.eqb (sm_state s) PTPStateHoldoverOutOfSpec);
}.

Lemma replay_app l l' : ∀ st a, replay st a (l ++ l') =
  match replay st a l with Some (st, a) => replay st a l' | None => None end.
Proof.
  induction l as [|e l IH]; intros st a; [done|]. cbn [app replay].
  destruct (String.eqb _ TypeStateTransition); [destruct (_ && _); [apply IH|done]|].
  destruct (String.eqb _ TypeAlarmRaised); [destruct (_ && _); [apply IH|done]|].
  destruct (String.eqb _ TypeAlarmCleared); [destruct (_ && _); [apply IH|done]|done].
Qed.

(** One event of a replay: a synchronisation transition, or an alarm that keeps the state. *)
Lemma replay_one st a e st' a' : replay st a [e] = Some (st', a') →
  (ev_Type e = TypeStateTransition ∧ ev_Domain e = DomainSync ∧ ev_From e = st ∧ ev_To e = st' ∧ legal st st' = true) ∨
  ((ev_Type e = TypeAlarmRaised ∨ ev_Type e = TypeAlarmCleared) ∧ st' = st).
Proof.
  cbn [replay]. destruct (String.eqb_spec (ev_Type e) TypeStateTransition).
  - destruct (String.eqb_spec (ev_Domain e) DomainSync), (String.eqb_spec (ev_From e) st); [|done..]. cbn [andb].
    destruct (legal st (ev_To e)) eqn:Hl; [|done]. intros [= <- <-]. left. done.
  - destruct (String.eqb_spec (ev_Type e) TypeAlarmRaised); [destruct (_ && _); [|done]; intros [= <- <-]; auto|].
    destruct (String.eqb_spec (ev_Type e) TypeAlarmCleared); [destruct (_ && _); [|done]; intros [= <- <-]; auto|done].
Qed.

Lemma stamp_fields now e : ev_Type (stamp now e) = ev_Type e ∧ ev_Domain (stamp now e) = ev_Domain e ∧
  ev_From (stamp now e) = ev_From e ∧ ev_To (stamp now e) = ev_To e.
Proof. unfold stamp. by destruct (is_zero_time _). Qed.

Lemma nextState_legal from typ next : nextState from typ = Some next → legal from next = true ∧ validState next = true.
Proof.
  intros H. split.
  - unfold legal. apply existsb_exists. exists typ. split; [|by apply bool_decide_eq_true_2].
    destruct typ; try (simpl; tauto). done.
  - revert H. destruct typ; simpl; repeat case_match; by intros [= <-].
Qed.

Lemma replay_clock_events now from next reason typ : nextState from typ = Some next → next ≠ from →
  replay from (String.eqb from PTPStateHoldoverOutOfSpec) (clock_events now from next reason)
  = Some (next, String.eqb next PTPStateHoldoverOutOfSpec).
Proof.
  intros Hn Hne. destruct (nextState_legal _ _ _ Hn) as [Hl _]. unfold clock_events. cbn [app].
  set (e0 := mkEvent TypeStateTransition _ _ _ _ _ _ _ _).
  cbn [replay]. destruct (stamp_fields now e0) as (-> & -> & -> & ->). cbn [e0 ev_Type ev_Domain ev_From ev_To].
  rewrite (String.eqb_refl TypeStateTransition), (String.eqb_refl DomainSync), String.eqb_refl, Hl. cbn [andb].
  destruct (String.eqb_spec next PTPStateHoldoverOutOfSpec) as [->|Hn1].
  - set (e1 := mkEvent TypeAlarmRaised _ _ _ _ _ _ _ _). cbn [replay]. destruct (stamp_fields now e1) as (-> & _ & _).
    destruct (String.eqb_spec from PTPStateHoldoverOutOfSpec) as [->|]; [done|]. reflexivity.
  - destruct (String.eqb_spec from PTPStateHoldoverOutOfSpec) as [->|]; [|done].
    set (e1 := mkEvent TypeAlarmCleared _ _ _ _ _ _ _ _). cbn [replay]. destruct (stamp_fields now e1) as (-> & _ & _).
    cbn [e1 ev_Type]. rewrite (proj2 (String.eqb_neq next PTPStateHoldoverOutOfSpec) Hn1). reflexivity.
Qed.

Lemma moved_view now next reason device s : sm_bus s = true →
  sm_bus (moved now next reason device s) = true ∧ sm_known (moved now next reason device s) = true ∧
  sm_state (moved now next reason device s) = next ∧
  sm_published (moved now next reason device s) = sm_published s ++ clock_events now (sm_state s) next reason.
Proof. intros H. unfold moved. rewrite H. by destruct device, (String.eqb next PTPStateHoldoverOutOfSpec). Qed.

Lemma core_step_inv s s' : core_step s s' → clock_inv s → clock_inv s'.
Proof.
  intros Hs [H1 H2 H3]. destruct Hs as [s s' [= E1 E2 E3 E4 E5 E6 E7 E8]|now d s Hk|now typ next reason device m s Hk Hn Hne Hd].
  - split; rewrite ?E1, ?E2, ?E3, ?E4; done.
  - destruct (H2 Hk) as [Hst Hpub]. unfold adopt. rewrite Hk.
    set (st := if validState _ then _ else _).
    assert (validState st = true) as Hv by (unfold st; by destruct (validState (pc_State _)) eqn:E).
    destruct (String.eqb st PTPStateHoldoverInSpec); split; simpl; try done;
      intros _; (split; [done|]); exists st; rewrite Hpub; done.
  - destruct (H3 Hk) as [Hv (st0 & Hv0 & Hr)]. destruct (nextState_legal _ _ _ Hn) as [_ Hvn].
    destruct (moved_view now next reason device (with_mem s m)) as (E1 & E2 & E3 & E4); [done|].
    split; rewrite ?E1, ?E2, ?E3, ?E4; [done|done|]. intros _. split; [done|].
    exists st0. split; [done|]. rewrite replay_app. cbn [with_mem sm_published sm_state]. rewrite Hr.
    by eapply replay_clock_events.
Qed.


(** A step of the machine is a run of core steps, up to the channel. *)
Lemma sync_step_inv r faults s s' : sync_step r faults s s' → clock_inv s → clock_inv s'.
Proof.
  assert (∀ s s', rtc core_step s s' → clock_inv s → clock_inv s') as Hrtc.
  { intros x y Hxy. induction Hxy; [done|]. intros Hx. by apply IHHxy, (core_step_inv x). }
  assert (∀ s a b c, clock_inv s → clock_inv (with_channel s a b c)) as Hch.
  { intros x a b c [H1 H2 H3]. by split. }
  intros Hs Hi. destruct Hs as [now ctx typ reason s|now ctx source s|now ctx e s|now ctx draw s|id s _|n s _|now ctx s s1 _ He|now ctx s s1 e _ _ He|mem s].
  - eapply Hrtc; [apply handleLocked_steps|done].
  - eapply Hrtc; [apply SyncLoss_steps|done].
  - eapply Hrtc; [apply handleDomainEvent_steps|done].
  - eapply Hrtc; [apply Tick_steps|done].
  - by apply Hch.
  - by apply Hch.
  - pose proof (expireHoldover_steps r now ctx (with_channel s (sm_scheduled s) (sm_inflight s) false)) as Hx.
    rewrite He in Hx. eapply Hrtc; [exact Hx|by apply Hch].
  - pose proof (expireHoldover_steps r now ctx (with_channel s (sm_scheduled s) (sm_inflight s) false)) as Hx.
    rewrite He in Hx. eapply Hrtc; [exact Hx|by apply Hch].
  - destruct Hi as [H1 H2 H3]. by split.
Qed.

Lemma clock_inv_reachable r faults mem s : rtc (sync_step r faults) (New mem true) s → clock_inv s.
Proof.
  assert (clock_inv (New mem true)) as H0 by (by split).
  intros H. revert H0. induction H as [|x y z Hxy _ IH]; [done|]. intros Hx. by apply IH, (sync_step_inv r faults x).
Qed.


Abbreviation demo_clock := (New (NewMemory "" None None) true).
Abbreviation demo_freerun := (Handle default_router 1 true EventReset "" demo_clock).2.
Abbreviation demo_locked :=
  (Handle default_router 3 true EventCalibrationComplete "" (Handle default_router 2 true EventSourceDetected "" demo_freerun).2).2.



(** *** Holdover *)

Definition holding (s : Manager) : Prop :=
  (sm_known s = false → sm_state s = "") ∧ (sm_state s = PTPStateHoldoverInSpec → expiring s).

Lemma startHoldover_expiring now d s : expiring (startHoldover now d s).
Proof. left. eexists. split; [reflexivity|]. cbn. rewrite lookup_insert_eq. eauto. Qed.

Lemma core_step_holding s s' : core_step s s' → holding s → holding s'.
Proof.
  intros Hs [H1 H2]. destruct Hs as [s s' [= E1 E2 E3 E4 E5 E6 E7 E8]|now d s Hk|now typ next reason device m s Hk Hn Hne Hd].
  - unfold holding, expiring. rewrite E3, E4, E5, E6, E7, E8. done.
  - split; [by rewrite adopt_known|]. unfold adopt. rewrite Hk. set (st := if validState _ then _ else _).
    destruct (String.eqb_spec st PTPStateHoldoverInSpec); [intros _; apply startHoldover_expiring|by intros ?].
  - assert (∀ s l, expiring s → expiring (with_published s l)) as Hp by done.
    unfold moved. destruct device as [d|].
    + split; [by destruct (sm_bus _)|]. intros _.
      destruct (sm_bus _); [apply Hp|]; apply startHoldover_expiring.
    + assert (next ≠ PTPStateHoldoverInSpec) as Hx by (intros Hx; by apply Hd in Hx as [? ?]).
      destruct (String.eqb next PTPStateHoldoverOutOfSpec), (sm_bus (with_mem s m)); by split.
Qed.

Lemma rtc_core_holding s s' : rtc core_step s s' → holding s → holding s'.
Proof. intros H. induction H as [|x y z Hxy _ IH]; [done|]. intros Hx. by apply IH, (core_step_holding x). Qed.

(** An expiry that is applied ends the in-spec holdover. *)
Lemma expire_leaves r now ctx s s' : sm_known s = true →
  expireHoldover r now ctx s = (Ok tt, s') → sm_state s = PTPStateHoldoverInSpec →
  sm_known s' = true ∧ sm_state s' = PTPStateHoldoverOutOfSpec.
Proof.
  intros Hk. unfold expireHoldover, mbind, st_bind, st_get. intros H Hst. rewrite Hst in H. cbn [String.eqb negb] in H.
  rewrite String.eqb_refl in H. cbn [negb] in H.
  unfold handleLocked, ensureState, mbind, st_bind, st_get in H. cbn [event_valid] in H.
  change (negb (event_valid EventHoldoverExpired)) with false in H. cbn beta iota in H.
  rewrite Hk in H. cbn [mret st_ret] in H. rewrite ?Hst in H.
  change (nextState PTPStateHoldoverInSpec EventHoldoverExpired) with (Some PTPStateHoldoverOutOfSpec) in H. cbn beta iota in H.
  change (String.eqb PTPStateHoldoverOutOfSpec PTPStateHoldoverInSpec) with false in H. cbn beta iota in H.
  destruct (transition_cases r now ctx PTPStateHoldoverOutOfSpec "holdover timer expired" s) as [(e & m & E)|(m & device & Hd & E)];
    rewrite E in H; [done|]. injection H as <-.
  unfold moved. by destruct device, (sm_bus (with_mem s m)).
Qed.

Lemma sync_step_holding r s s' : sync_step r false s s' → holding s → holding s'.
Proof.
  intros Hs Hi. destruct Hs as [now ctx typ reason s|now ctx source s|now ctx e s|now ctx draw s|id s Hid|n s Hn|now ctx s s1 He Hx|now ctx s s1 e [=]|mem s].
  - eapply rtc_core_holding; [apply handleLocked_steps|done].
  - eapply rtc_core_holding; [apply SyncLoss_steps|done].
  - eapply rtc_core_holding; [apply handleDomainEvent_steps|done].
  - eapply rtc_core_holding; [apply Tick_steps|done].
  - destruct Hi as [H1 H2]. split; [done|]. intros _. right. left. simpl. lia.
  - destruct Hi as [H1 H2]. split; [done|]. intros _. by right; right.
  - destruct Hi as [H1 H2]. set (s0 := with_channel s (sm_scheduled s) (sm_inflight s) false) in *.
    destruct (decide (sm_state s = PTPStateHoldoverInSpec)) as [Hst|Hst].
    + assert (sm_known s = true) as Hk.
      { destruct (sm_known s); [done|]. by rewrite (H1 eq_refl) in Hst. }
      destruct (expire_leaves r now ctx s0 s1 Hk Hx Hst) as [Hk1 Hs1]. split; [by rewrite Hk1|by rewrite Hs1].
    + pose proof (expireHoldover_steps r now ctx s0) as Hr. rewrite Hx in Hr.
      eapply rtc_core_holding; [exact Hr|]. split; [exact H1|]. intros Hst'. done.
  - destruct Hi as [H1 H2]. by split.
Qed.

(** C30: a holdover is never forgotten. In every state the machine can reach, as long as no
    write of an expiry fails, a clock in holdover within specification has its timer
    running, or a callback of it on its way, or the token of its expiry waiting; and
    applying that token takes the clock out of specification. *)
Theorem holdover_expires r mem bus s : rtc (sync_step r false) (New mem bus) s →
  sm_state s = PTPStateHoldoverInSpec →
  expiring s ∧ ∀ now ctx s1,
    expireHoldover r now ctx (with_channel s (sm_scheduled s) (sm_inflight s) false) = (Ok tt, s1) →
    sm_state s1 = PTPStateHoldoverOutOfSpec.
Proof.
  intros Hr Hst. assert (holding s) as [H1 H2].
  { assert (holding (New mem bus)) as H0 by (by split). revert H0.
    clear Hst. induction Hr as [|x y z Hxy _ IH]; [done|]. intros Hx. by apply IH, (sync_step_holding r x). }
  split; [by apply H2|]. intros now ctx s1 Hx.
  assert (sm_known s = true) as Hk.
  { destruct (sm_known s); [done|]. by rewrite (H1 eq_refl) in Hst. }
  by destruct (expire_leaves r now ctx (with_channel s (sm_scheduled s) (sm_inflight s) false) s1 Hk Hx Hst).
Qed.

Abbreviation demo_holdover := (SyncLoss default_router 4 true "" demo_locked).2.

Lemma holdover_expires_witness : sm_state demo_holdover = PTPStateHoldoverInSpec ∧ expiring demo_holdover.
Proof.
  assert (H : sm_state demo_holdover = PTPStateHoldoverInSpec) by (vm_compute; reflexivity).
  split; [exact H|].
  refine (proj1 (holdover_expires default_router (NewMemory "" None None) true demo_holdover _ H)).
  eapply rtc_l; [apply (step_handle default_router _ 1 true EventReset "")|].
  eapply rtc_l; [apply (step_handle default_router _ 2 true EventSourceDetected "")|].
  eapply rtc_l; [apply (step_handle default_router _ 3 true EventCalibrationComplete "")|].
  eapply rtc_l; [apply (step_loss default_router _ 4 true "")|]. apply rtc_refl.
Defined.

(** A token left by a holdover that ended expires the next holdover at once: the restore
    stops the timer but does not drain the channel. *)
Example stale_token_expires :
  let fired := with_channel demo_holdover ∅ 0 true in
  let again := (Handle default_router 7 true EventSourceLost "" (Handle default_router 6 true EventSourceRestored "" fired).2).2 in
  let expired := (expireHoldover default_router 7 true (with_channel again (sm_scheduled again) 0 false)).2 in
  sm_state again = PTPStateHoldoverInSpec ∧ sm_holdoverStart again = 7%Z ∧ sm_expired again = true ∧
  sm_state expired = PTPStateHoldoverOutOfSpec.
Proof. vm_compute. done. Qed.
