(* ===== verification/Radio.v ===== *)
(** * The radio domain ([internal/radio]: [linkbudget.go], [acm.go], [atpc.go], [alarms.go], [manager.go])

    The manager reads a snapshot of the running datastore, computes the received level of
    every radio link, selects the modulation profile, walks the transmit power one step and
    writes what it measured with SetState; the link state follows with hysteresis and each
    change of it publishes alarms.  Levels are IEEE doubles.  The manager's lock makes every
    operation here atomic; Run is the loop that calls [Tick]. *)

From S2P Require Import Prelude GoStrings GoFloat GoMath GoValue GoNet Persist Store Event Path Model Reflect Reflected Hydrate Schema Oid Router.

(** ** The link budget *)

Definition atmLossDB : float64 := half.
Definition miscLossDB : float64 := half.

Definition freeSpaceLossDB (frequencyGHz lengthKm : float64) : float64 :=
  F64.add (F64.add (F64.ratio 9245 100) (F64.mul (F64.of_Z 20) (Log10 frequencyGHz)))
          (F64.mul (F64.of_Z 20) (Log10 lengthKm)).

Definition effectiveTxPower (link : RadioLink) : float64 :=
  if at_Enabled (rl_ATPC link) then at_CurrentPower (rl_ATPC link) else rl_TxPower link.

Definition receivedLevel (link : RadioLink) (txPower : float64) : float64 :=
  let budget := rl_LinkBudget link in
  let gain := F64.add (F64.add txPower (lb_TxAntennaGain budget)) (lb_RxAntennaGain budget) in
  let level := F64.sub gain (freeSpaceLossDB (lb_Frequency budget) (lb_LinkLength budget)) in
  F64.sub (F64.sub (F64.sub level (lb_FeedLoss budget)) atmLossDB) miscLossDB.

Definition clamp (value min max : float64) : float64 := F64.min (F64.max value min) max.

Definition applyFade (level fadeDB : float64) : float64 := clamp (F64.sub level fadeDB) RSSIMinDBM RSSIMaxDBM.

(** ** ATPC *)

Definition atpcStep (atpc : ATPC) (measuredRSL stepDB : float64) : float64 :=
  let delta := clamp (F64.sub (at_TargetRSL atpc) measuredRSL) (F64.opp stepDB) stepDB in
  clamp (F64.add (at_CurrentPower atpc) delta) (at_MinPower atpc) (at_MaxPower atpc).

(** ** ACM *)

Definition profileByID (profiles : list ModProfile) (id : Z) : option ModProfile :=
  snd <$> list_find (λ p, mp_ID p = id) profiles.

(** One iteration of the adaptive search. *)
Definition pick_profile (acm : ACM) (rssi : float64) (best : option ModProfile) (p : ModProfile) : option ModProfile :=
  if (mp_ID p <? ac_MinProfile acm)%Z || (ac_MaxProfile acm <? mp_ID p)%Z then best
  else if F64.gtb (mp_RSLThreshold p) rssi then best
  else match best with
       | Some b => if (mp_ID b <? mp_ID p)%Z then Some p else best
       | None => Some p
       end.

Definition selectProfile (acm : ACM) (profiles : list ModProfile) (rssi : float64) : option ModProfile :=
  match profiles with
  | [] => None
  | _ =>
      if negb (ac_Enabled acm) || String.eqb (ac_Mode acm) ACMModeFixed then
        match profileByID profiles (ac_CurrentProfile acm) with
        | Some p => Some p
        | None => profileByID profiles (ac_MinProfile acm)
        end
      else
        match foldl (pick_profile acm rssi) None profiles with
        | Some best => Some best
        | None => profileByID profiles (ac_MinProfile acm)
        end
  end.

(** ** The link-state machine *)

Record thresholds : Set := mkThresholds {
  th_rssiAlarm : float64; th_rssiClear : float64; th_fadeMin : float64; th_fadeClear : float64;
}.

Definition linkDown (current : string) (rssi : float64) (t : thresholds) : bool :=
  if String.eqb current RadioLinkStateDown then F64.ltb rssi (th_rssiClear t) else F64.ltb rssi (th_rssiAlarm t).

Definition linkDegraded (current : string) (fadeMargin : float64) (t : thresholds) : bool :=
  if String.eqb current RadioLinkStateDegraded then F64.ltb fadeMargin (th_fadeClear t)
  else F64.ltb fadeMargin (th_fadeMin t).

Definition nextLinkState (current : string) (rssi fadeMargin : float64) (t : thresholds) : string :=
  if linkDown current rssi t then RadioLinkStateDown
  else if linkDegraded current fadeMargin t then RadioLinkStateDegraded
  else RadioLinkStateUp.

Definition validLinkState (state : string) : bool :=
  one_of state [RadioLinkStateUp; RadioLinkStateDegraded; RadioLinkStateDown].

(** ** The manager *)

Definition DefaultTickInterval : duration := (5 * second)%Z.
Definition DefaultRSSIAlarmThreshold : float64 := F64.of_Z (-85).
Definition DefaultRSSIClearThreshold : float64 := F64.of_Z (-82).
Definition DefaultFadeMarginMinDB : float64 := F64.of_Z 6.
Definition DefaultFadeMarginClearDB : float64 := F64.of_Z 8.
Definition DefaultATPCStepDB : float64 := F64.of_Z 1.
Definition DefaultFailureFadeDB : float64 := F64.of_Z 60.
Definition DefaultDegradeFadeDB : float64 := F64.of_Z 32.
Definition MaxInjectedFadeDB : float64 := F64.of_Z 200.

Record Manager : Type := mkManager {
  rm_mem : Memory;
  rm_published : list Event;
  rm_bus : bool;
  rm_tickInterval : duration;
  rm_thresholds : thresholds;
  rm_atpcStepDB : float64;
  rm_failureFadeDB : float64;
  rm_fade : gmap string float64;
  rm_states : gmap string string;
  rm_known : gset string;
}.

(** [New]: a zero level selects its default. *)
Definition or_default (x d : float64) : float64 := if F64.eqb x F64.zero then d else x.
Definition New (mem : Memory) (bus : bool) (tick : duration) (t : thresholds) (step failure : float64) : Manager :=
  mkManager mem [] bus (if (tick <=? 0)%Z then DefaultTickInterval else tick)
    (mkThresholds (or_default (th_rssiAlarm t) DefaultRSSIAlarmThreshold)
                  (or_default (th_rssiClear t) DefaultRSSIClearThreshold)
                  (or_default (th_fadeMin t) DefaultFadeMarginMinDB)
                  (or_default (th_fadeClear t) DefaultFadeMarginClearDB))
    (or_default step DefaultATPCStepDB) (or_default failure DefaultFailureFadeDB) ∅ ∅ ∅.

Definition with_mem (s : Manager) (m : Memory) : Manager :=
  mkManager m (rm_published s) (rm_bus s) (rm_tickInterval s) (rm_thresholds s) (rm_atpcStepDB s)
    (rm_failureFadeDB s) (rm_fade s) (rm_states s) (rm_known s).
Definition with_published (s : Manager) (l : list Event) : Manager :=
  mkManager (rm_mem s) l (rm_bus s) (rm_tickInterval s) (rm_thresholds s) (rm_atpcStepDB s)
    (rm_failureFadeDB s) (rm_fade s) (rm_states s) (rm_known s).
Definition with_fade (s : Manager) (f : gmap string float64) : Manager :=
  mkManager (rm_mem s) (rm_published s) (rm_bus s) (rm_tickInterval s) (rm_thresholds s) (rm_atpcStepDB s)
    (rm_failureFadeDB s) f (rm_states s) (rm_known s).
Definition with_states (s : Manager) (st : gmap string string) (k : gset string) : Manager :=
  mkManager (rm_mem s) (rm_published s) (rm_bus s) (rm_tickInterval s) (rm_thresholds s) (rm_atpcStepDB s)
    (rm_failureFadeDB s) (rm_fade s) st k.

(** [findRadioInterface]: the interface and its link. *)
Fixpoint find_radio (l : list Interface) (link : string) : option (Interface * RadioLink) :=
  match l with
  | [] => None
  | i :: l =>
      match if_RadioLink i with
      | Some rl => if String.eqb link "" || String.eqb (if_Name i) link then Some (i, rl) else find_radio l link
      | None => find_radio l link
      end
  end.
Definition findRadioInterface (device : Device) (link : string) : option (Interface * RadioLink) :=
  find_radio (dev_Interfaces device) link.

Definition linkPath (ifaceName suffix : string) : string :=
  "interfaces/interface[name=" +:+ ifaceName +:+ "]/radio-link/" +:+ suffix.

(** What [evaluateLink] measures, and the leaves it writes. *)
Definition measured_rssi (s : Manager) (name : string) (link : RadioLink) : float64 :=
  applyFade (receivedLevel link (effectiveTxPower link)) (default F64.zero (rm_fade s !! name)).
Definition measured_margin (rssi : float64) (profile : option ModProfile) : float64 :=
  match profile with Some p => F64.sub rssi (mp_RSLThreshold p) | None => F64.inf end.

Definition link_writes (s : Manager) (name : string) (link : RadioLink) : list (string * value) :=
  let clearSky := receivedLevel link (effectiveTxPower link) in
  let rssi := measured_rssi s name link in
  let profile := selectProfile (rl_ACM link) (rl_Profiles link) rssi in
  [(linkPath name "rssi", VFloat64 rssi);
   (linkPath name "link-budget/calculated-rsl", VFloat64 (applyFade clearSky F64.zero))]
  ++ match profile with
     | Some p =>
         [(linkPath name "fade-margin", VFloat64 (measured_margin rssi profile));
          (linkPath name "capacity", VUint32 (mp_Capacity p));
          (linkPath name "acm/current-profile", VUint8 (mp_ID p));
          (linkPath name "acm/current-capacity", VUint32 (mp_Capacity p))]
     | None => []
     end
  ++ (if at_Enabled (rl_ATPC link)
      then [(linkPath name "atpc/current-power", VFloat64 (atpcStep (rl_ATPC link) rssi (rm_atpcStepDB s)))]
      else []).

(** [current] of [evaluateLink]: the last reported state, or the adopted one. *)
Definition current_state (s : Manager) (name : string) (link : RadioLink) : string :=
  if bool_decide (name ∈ rm_known s) then default "" (rm_states s !! name)
  else if validLinkState (rl_LinkState link) then rl_LinkState link else RadioLinkStateUp.

Section ops.
Context (r : Router) (now : time) (ctx : context).

Definition snapshot : ST Manager Device := λ s, (Router_Snapshot r (rm_mem s) ctx Running, s).
Definition state_write (path : string) (v : value) : ST Manager unit := λ s,
  let '(x, m) := SetState r (rm_mem s) now ctx path v in (wrapf "radio: write" (_ ← x; Ok tt), with_mem s m).
Definition publish (e : Event) : ST Manager unit := λ s,
  if rm_bus s then (Ok tt, with_published s (rm_published s ++ [stamp now e])) else (Ok tt, s).

(** [report]. *)
Definition alarm (raise : bool) (name severity alarm message : string) : Event :=
  mkEvent (if raise then TypeAlarmRaised else TypeAlarmCleared) name severity message DomainRadio alarm "" "" 0.
Definition report (name current next : string) (rssi fadeMargin : float64) : ST Manager unit :=
  _ ← (if String.eqb current RadioLinkStateDown then
         publish (alarm false name "cleared" AlarmRadioLinkDown
           ("radio link " +:+ name +:+ " up: rssi " +:+ format_f1 rssi +:+ " dBm"))
       else if String.eqb current RadioLinkStateDegraded then
         publish (alarm false name "cleared" AlarmRadioLinkDegraded
           ("radio link " +:+ name +:+ " recovered: fade margin " +:+ format_f1 fadeMargin +:+ " dB"))
       else mret tt);
  if String.eqb next RadioLinkStateDown then
    publish (alarm true name "critical" AlarmRadioLinkDown
      ("radio link " +:+ name +:+ " down: rssi " +:+ format_f1 rssi +:+ " dBm"))
  else if String.eqb next RadioLinkStateDegraded then
    publish (alarm true name "major" AlarmRadioLinkDegraded
      ("radio link " +:+ name +:+ " degraded: fade margin " +:+ format_f1 fadeMargin +:+ " dB"))
  else mret tt.

(** [evaluateLink]: every measured leaf is written, and only when all writes succeed does
    the state machine move. *)
Fixpoint write_all (writes : list (string * value)) : ST Manager (list (res unit)) :=
  match writes with
  | [] => mret []
  | (path, v) :: writes => x ← st_try (state_write path v); l ← write_all writes; mret (x :: l)
  end.

Definition evaluateLink (name : string) (link : RadioLink) : ST Manager unit :=
  s ← st_get;
  let rssi := measured_rssi s name link in
  let fadeMargin := measured_margin rssi (selectProfile (rl_ACM link) (rl_Profiles link) rssi) in
  results ← write_all (link_writes s name link);
  _ ← st_lift (errors_join results);
  let current := current_state s name link in
  _ ← st_modify (λ s, with_states s (rm_states s) ({[name]} ∪ rm_known s));
  let next := nextLinkState current rssi fadeMargin (rm_thresholds s) in
  _ ← (if String.eqb next current then mret tt
       else
         _ ← state_write (linkPath name "link-state") (VString next);
         report name current next rssi fadeMargin);
  st_modify (λ s, with_states s (<[name := next]> (rm_states s)) (rm_known s)).

(** [Tick]: one pass over the radio interfaces of the snapshot, joining the errors. *)
Fixpoint evaluate_all (l : list Interface) : ST Manager (list (res unit)) :=
  match l with
  | [] => mret []
  | i :: l =>
      match if_RadioLink i with
      | None => evaluate_all l
      | Some link => x ← st_try (evaluateLink (if_Name i) link); rest ← evaluate_all l; mret (x :: rest)
      end
  end.

Definition Tick : ST Manager unit :=
  device ← st_wrap "radio" snapshot;
  results ← evaluate_all (dev_Interfaces device);
  st_lift (errors_join results).

(** [inject] with its two results: the state of the link and the error. *)
Definition inject (link : string) (fadeDB : float64) (restore : bool) (s : Manager) : (string * res unit) * Manager :=
  match st_wrap "radio" snapshot s with
  | (Err e, s) => ("", Err e, s)
  | (Ok device, s) =>
      match findRadioInterface device link with
      | None => ("", Err [RadioErrUnknownLink], s)
      | Some (iface, rl) =>
          let fadeDB := if F64.leb fadeDB F64.zero then rm_failureFadeDB s else fadeDB in
          let s := with_fade s (if restore then delete (if_Name iface) (rm_fade s)
                                else <[if_Name iface := F64.min fadeDB MaxInjectedFadeDB]> (rm_fade s)) in
          let '(x, s) := evaluateLink (if_Name iface) rl s in
          (default "" (rm_states s !! if_Name iface), x, s)
      end
  end.

Definition RadioFailure (link : string) (fadeDB : float64) := inject link fadeDB false.
Definition RadioRestore (link : string) := inject link F64.zero true.
End ops.
