(* ===== verification/Links.v ===== *)
(** * What the radio domain promises

    The leaves a recalculation writes keep a valid link valid; the adaptive modulation picks
    the best profile of its window; the link state has hysteresis, and the alarms published
    for a link are raised and cleared alternately, in step with its state. *)

From S2P Require Import Prelude GoStrings GoFloat Rounding GoMath GoValue GoNet Persist Store Event Path Model Reflect Reflected Hydrate Schema Oid Router Radio.

(** ** Clamping *)

Lemma clamp_spec v lo hi : F64.is_nan v = false → F64.leb lo hi = true →
  let x := clamp v lo hi in
  F64.is_nan x = false ∧ F64.leb lo x = true ∧ F64.leb x hi = true ∧ (x = v ∨ x = lo ∨ x = hi).
Proof.
  intros Hv Hlh. pose proof (F64.leb_nan_l _ _ Hlh) as Hl. pose proof (F64.leb_nan_r _ _ Hlh) as Hh. cbv zeta.
  destruct (F64.max_spec v lo Hv Hl) as (Hm & Hm1 & Hm2). pose proof (F64.leb_nan_r _ _ Hm1) as Hmn.
  destruct (F64.min_spec (F64.max v lo) hi Hmn Hh) as (Hn & Hn1 & Hn2). unfold clamp.
  split_and!; [by eapply F64.leb_nan_l| |done|].
  - destruct Hn as [->| ->]; done.
  - destruct Hn as [->| ->]; [destruct Hm as [->| ->]; auto|auto].
Qed.

(** A number between finite bounds is finite. *)
Lemma between_finite lo hi x : F64.leb lo x = true → F64.leb x hi = true →
  F64.is_finite lo = true → F64.is_finite hi = true → F64.is_finite x = true.
Proof. destruct x as [|[]| |], lo as [|[]| |[]], hi as [|[]| |[]]; done. Qed.

Definition level_ok (x : float64) : Prop := between RSSIMinDBM RSSIMaxDBM x ∧ valid x = true.

Lemma level_small x : level_ok x → small 8 x.
Proof.
  intros [(_ & Hl & Hh) Hv]. apply (between_small 8 RSSIMinDBM RSSIMaxDBM x Hv Hl Hh); done || (vm_compute; done).
Qed.

(** A float as the hardware has it, and not a NaN or an infinity. *)
Definition real (x : float64) : Prop := F64.is_finite x = true ∧ valid x = true.

Lemma applyFade_ok level fade : F64.is_nan level = false → valid level = true → real fade →
  level_ok (applyFade level fade).
Proof.
  intros Hn Hv [Hf Hvf]. unfold applyFade.
  destruct (clamp_spec (F64.sub level fade) RSSIMinDBM RSSIMaxDBM) as (Hc & Hl & Hh & Hcases);
    [by apply sub_number|done|].
  split; [split_and!; [|done|done]|].
  - by apply (between_finite RSSIMinDBM RSSIMaxDBM).
  - destruct Hcases as [->|[->| ->]]; [by apply sub_valid|done|done].
Qed.

(** ** The measured link *)

(** The floats a recalculation starts from. *)
Definition budget_floats (link : RadioLink) : list float64 :=
  let b := rl_LinkBudget link in
  [effectiveTxPower link; lb_TxAntennaGain b; lb_RxAntennaGain b; lb_FeedLoss b;
   freeSpaceLossDB (lb_Frequency b) (lb_LinkLength b)].

Lemma receivedLevel_number link : Forall real (budget_floats link) →
  F64.is_nan (receivedLevel link (effectiveTxPower link)) = false ∧
  valid (receivedLevel link (effectiveTxPower link)) = true.
Proof.
  unfold budget_floats. intros H. repeat setoid_rewrite Forall_cons in H.
  destruct H as ([Ht Vt] & [Hg Vg] & [Hr Vr] & [Hf Vf] & [Hl Vl] & _). unfold receivedLevel. cbv zeta.
  set (fsl := freeSpaceLossDB _ _) in *. clearbody fsl.
  split; repeat first [done|apply sub_number|apply add_number|apply sub_valid|apply add_valid].
  by destruct (effectiveTxPower link).
Qed.

(** The link after the writes of [evaluateLink]. *)
Definition measure_with (rssi rsl step : float64) (link : RadioLink) : RadioLink :=
  let profile := selectProfile (rl_ACM link) (rl_Profiles link) rssi in
  let b := rl_LinkBudget link in let a := rl_ATPC link in let c := rl_ACM link in
  mkRadioLink (rl_Name link) (rl_TxPower link) rssi
    (match profile with Some _ => measured_margin rssi profile | None => rl_FadeMargin link end)
    (match profile with Some p => mp_Capacity p | None => rl_Capacity link end) (rl_LinkState link)
    (mkLinkBudget (lb_LinkLength b) (lb_Frequency b) (lb_TxAntennaGain b) (lb_RxAntennaGain b) (lb_FeedLoss b) rsl)
    (mkATPC (at_Enabled a) (at_TargetRSL a) (at_MinPower a) (at_MaxPower a) (at_Range a)
       (if at_Enabled a then atpcStep a rssi step else at_CurrentPower a))
    (mkACM (ac_Enabled c) (ac_Mode c) (ac_MinProfile c) (ac_MaxProfile c)
       (match profile with Some p => mp_ID p | None => ac_CurrentProfile c end)
       (match profile with Some p => mp_Capacity p | None => ac_CurrentCapacity c end))
    (rl_Profiles link).

Definition measured_link (s : Manager) (name : string) (link : RadioLink) : RadioLink :=
  measure_with (measured_rssi s name link) (applyFade (receivedLevel link (effectiveTxPower link)) F64.zero)
    (rm_atpcStepDB s) link.

(** The leaf of the link a suffix of [linkPath] leads to. *)
Definition leaf_of (link : RadioLink) (suffix : string) : res value :=
  segs ← Parse suffix;
  n ← resolve (ct c_RadioLink) (enc c_RadioLink link) segs;
  match n_value n with GLeaf v => Ok v | _ => Err [] end.

Lemma link_writes_leaves s name link path v : (path, v) ∈ link_writes s name link →
  ∃ suffix, path = linkPath name suffix ∧ leaf_of (measured_link s name link) suffix = Ok v.
Proof.
  unfold link_writes. set (rssi := measured_rssi s name link). intros H.
  assert (∀ sfx x, (path, v) = (linkPath name sfx, x) → leaf_of (measured_link s name link) sfx = Ok x →
    ∃ suffix, path = linkPath name suffix ∧ leaf_of (measured_link s name link) suffix = Ok v) as Hone.
  { intros sfx x [= -> ->] Hx. eauto. }
  rewrite !elem_of_app, !elem_of_cons in H.
  destruct H as [[H|[H|[]%not_elem_of_nil]]|[H|H]]; try (apply (Hone _ _ H); reflexivity).
  - destruct (selectProfile _ _ rssi) as [p|] eqn:E; [|by apply not_elem_of_nil in H].
    rewrite !elem_of_cons in H.
    destruct H as [H|[H|[H|[H|[]%not_elem_of_nil]]]]; apply (Hone _ _ H);
      unfold leaf_of, measured_link, measure_with; fold rssi; rewrite E; reflexivity.
  - destruct (at_Enabled (rl_ATPC link)) eqn:E; [|by apply not_elem_of_nil in H].
    apply list_elem_of_singleton in H. apply (Hone _ _ H).
    unfold leaf_of, measured_link, measure_with; fold rssi. rewrite E. reflexivity.
Qed.

(** ** Adaptive modulation *)

Lemma profileByID_spec ps id p : profileByID ps id = Some p → p ∈ ps ∧ mp_ID p = id.
Proof.
  unfold profileByID. destruct (list_find _ ps) as [[i q]|] eqn:E; [|done]. intros [= ->].
  apply list_find_Some in E as (Hi & Hid & _). split; [by eapply list_elem_of_lookup_2|done].
Qed.

Lemma profileByID_None ps id : profileByID ps id = None ↔ Forall (λ p, mp_ID p ≠ id) ps.
Proof. unfold profileByID. by rewrite fmap_None, list_find_None. Qed.

(** The profiles a level can carry within the configured window. *)
Definition usable (acm : ACM) (rssi : float64) (p : ModProfile) : Prop :=
  (ac_MinProfile acm ≤ mp_ID p ≤ ac_MaxProfile acm)%Z ∧ F64.gtb (mp_RSLThreshold p) rssi = false.

Definition best_of (acm : ACM) (rssi : float64) (seen : list ModProfile) (best : option ModProfile) : Prop :=
  match best with
  | Some b => b ∈ seen ∧ usable acm rssi b ∧ ∀ q, q ∈ seen → usable acm rssi q → (mp_ID q ≤ mp_ID b)%Z
  | None => ∀ q, q ∈ seen → ¬ usable acm rssi q
  end.

Lemma pick_profile_best acm rssi seen best p : best_of acm rssi seen best →
  best_of acm rssi (seen ++ [p]) (pick_profile acm rssi best p).
Proof.
  intros Hb. unfold pick_profile.
  assert (∀ q, q ∈ seen ++ [p] → q ∈ seen ∨ q = p) as Hin by (intros q; set_solver).
  assert (¬ usable acm rssi p → best_of acm rssi (seen ++ [p]) best) as Hskip.
  { intros Hp. destruct best as [b|]; simpl in *.
    - destruct Hb as (Hs & Hu & Hmax). split_and!; [set_solver|done|]. intros q [Hq| ->]%Hin Hq'; [by apply Hmax|done].
    - intros q [Hq| ->]%Hin; [by apply Hb|done]. }
  destruct (_ || _) eqn:E.
  { apply Hskip. intros [Hw _]. apply orb_true_iff in E as [?%Z.ltb_lt|?%Z.ltb_lt]; lia. }
  apply orb_false_iff in E as [E1%Z.ltb_ge E2%Z.ltb_ge].
  destruct (F64.gtb _ rssi) eqn:Eg; [apply Hskip; by intros [_ ?]; congruence|].
  destruct best as [b|]; simpl in *.
  - destruct Hb as (Hs & Hu & Hmax). destruct (mp_ID b <? mp_ID p)%Z eqn:El.
    + apply Z.ltb_lt in El. split_and!; [set_solver|done|]. intros q [Hq| ->]%Hin Hq'; [|lia].
      pose proof (Hmax q Hq Hq'). lia.
    + apply Z.ltb_ge in El. split_and!; [set_solver|done|]. intros q [Hq| ->]%Hin Hq'; [by apply Hmax|done].
  - split_and!; [set_solver|done|]. intros q [Hq| ->]%Hin Hq'; [by destruct (Hb q)|lia].
Qed.

Lemma foldl_best acm rssi ps : ∀ seen best, best_of acm rssi seen best →
  best_of acm rssi (seen ++ ps) (foldl (pick_profile acm rssi) best ps).
Proof.
  induction ps as [|p ps IH]; intros seen best Hb; [by rewrite app_nil_r|].
  replace (seen ++ p :: ps) with ((seen ++ [p]) ++ ps) by (by rewrite <- app_assoc).
  simpl. apply IH. by apply pick_profile_best.
Qed.

Lemma selectProfile_in acm ps rssi p : selectProfile acm ps rssi = Some p → p ∈ ps.
Proof.
  unfold selectProfile. intros H. destruct ps as [|p0 ps0] eqn:Eps; [done|]. rewrite <- Eps in *.
  destruct (_ || _).
  - destruct (profileByID ps (ac_CurrentProfile acm)) eqn:E; [injection H as ->; by apply profileByID_spec in E as []|].
    by apply profileByID_spec in H as [].
  - pose proof (foldl_best acm rssi ps [] None) as Hb. destruct (foldl _ None ps) as [b|].
    + injection H as ->. simpl in Hb. apply Hb. intros q ?%not_elem_of_nil. done.
    + by apply profileByID_spec in H as [].
Qed.

(** Adaptive modulation. An enabled, adaptive ACM selects the highest profile of the
    configured window whose threshold the received level meets; when there is none it
    falls back to the most robust profile of the window, and it selects nothing only when
    the table does not have that one either. *)
Theorem acm_selects_best acm ps rssi :
  ac_Enabled acm = true → ac_Mode acm = ACMModeAdaptive →
  match selectProfile acm ps rssi with
  | Some p => p ∈ ps ∧
      (usable acm rssi p ∧ (∀ q, q ∈ ps → usable acm rssi q → (mp_ID q ≤ mp_ID p)%Z) ∨
       (∀ q, q ∈ ps → ¬ usable acm rssi q) ∧ mp_ID p = ac_MinProfile acm)
  | None => ∀ q, q ∈ ps → ¬ usable acm rssi q ∧ mp_ID q ≠ ac_MinProfile acm
  end.
Proof.
  intros He Hm. destruct (selectProfile acm ps rssi) as [p|] eqn:E; [split; [by eapply selectProfile_in|]|];
    unfold selectProfile in E; rewrite He, Hm in E.
  - destruct ps as [|p0 ps0] eqn:Eps; [done|]. rewrite <- Eps in *. simpl in E.
    pose proof (foldl_best acm rssi ps [] None) as Hb. destruct (foldl _ None ps) as [b|].
    + injection E as ->. left. destruct Hb as (_ & ? & ?); [by intros q ?%not_elem_of_nil|done].
    + right. apply profileByID_spec in E as [_ ?]. split; [|done].
      apply Hb. by intros q ?%not_elem_of_nil.
  - destruct ps as [|p0 ps0] eqn:Eps; [by intros q ?%not_elem_of_nil|]. rewrite <- Eps in *. simpl in E.
    pose proof (foldl_best acm rssi ps [] None) as Hb. destruct (foldl _ None ps) as [b|]; [done|].
    apply profileByID_None in E. rewrite Forall_forall in E. intros q Hq. split; [|by apply E].
    apply Hb; [|done]. by intros ? ?%not_elem_of_nil.
Qed.

Abbreviation demo_acm := (mkACM true ACMModeAdaptive 1 12 4 112).
Lemma acm_selects_best_witness :
  mp_ID <$> selectProfile demo_acm (rl_Profiles default_link) (F64.of_Z (-75)) = Some 5%Z ∧
  match selectProfile demo_acm (rl_Profiles default_link) (F64.of_Z (-75)) with
  | Some p => p ∈ rl_Profiles default_link ∧
      (usable demo_acm (F64.of_Z (-75)) p ∧
       (∀ q, q ∈ rl_Profiles default_link → usable demo_acm (F64.of_Z (-75)) q → (mp_ID q ≤ mp_ID p)%Z) ∨
       (∀ q, q ∈ rl_Profiles default_link → ¬ usable demo_acm (F64.of_Z (-75)) q) ∧ mp_ID p = 1%Z)
  | None => ∀ q, q ∈ rl_Profiles default_link → ¬ usable demo_acm (F64.of_Z (-75)) q ∧ mp_ID q ≠ 1%Z
  end.
Proof.
  split; [vm_compute; reflexivity|].
  exact (acm_selects_best demo_acm (rl_Profiles default_link) (F64.of_Z (-75)) eq_refl eq_refl).
Defined.

(** ** Transmit power *)

Lemma atpcStep_range a rssi step : ATPC_ok a → at_Enabled a = true → F64.is_nan (at_CurrentPower a) = false →
  F64.is_finite rssi = true → F64.is_finite step = true → F64.leb (F64.opp step) step = true →
  F64.leb (at_MinPower a) (atpcStep a rssi step) = true ∧ F64.leb (atpcStep a rssi step) (at_MaxPower a) = true.
Proof.
  intros (Ht & Hmin & Hmax & _ & Hen) He Hc Hr Hs Hss. destruct (Hen He) as (Hlt & _ & _). unfold atpcStep.
  destruct (clamp_spec (F64.sub (at_TargetRSL a) rssi) (F64.opp step) step) as (Hn & Hl & Hh & _);
    [apply sub_number; [|done]; destruct Ht as (Ht & _); by destruct (at_TargetRSL a)|done|].
  set (delta := clamp _ _ _) in *.
  assert (F64.is_finite delta = true) as Hd.
  { by apply (between_finite (F64.opp step) step); [..|rewrite finite_opp|]. }
  destruct (clamp_spec (F64.add (at_CurrentPower a) delta) (at_MinPower a) (at_MaxPower a)) as (_ & ? & ? & _);
    [by apply add_number|by apply F64.ltb_leb|done].
Qed.

Lemma leb_ltb_false x y : F64.leb x y = true → F64.ltb y x = false.
Proof.
  intros H. apply F64.ltb_false; [by eapply F64.leb_nan_r|by eapply F64.leb_nan_l|done].
Qed.

Lemma measure_with_ok rssi rsl step link :
  RadioLink_ok link → level_ok rssi → level_ok rsl →
  Forall (λ p, valid (mp_RSLThreshold p) = true) (rl_Profiles link) →
  F64.is_nan (at_CurrentPower (rl_ATPC link)) = false →
  F64.is_finite step = true → F64.leb F64.zero step = true → RadioLink_ok (measure_with rssi rsl step link).
Proof.
  intros Hok Hrssi Hrsl Hv Hc Hst Hst0. unfold measure_with. cbv zeta.
  pose proof (selectProfile_in (rl_ACM link) (rl_Profiles link) rssi) as Hin.
  destruct Hok as (H1 & H2 & _ & H4 & H5 & H6 & (B1 & B2 & B3 & B4 & B5 & _) & Ha & Hacm & Hps & Hnd).
  rewrite Forall_forall in Hv, Hps.
  split_and!; cbn; [done|done|apply Hrssi| | |done| | |exact Hacm|by apply Forall_forall|done].
  - destruct (selectProfile _ _ rssi) as [p|]; [|done]. specialize (Hin p eq_refl).
    apply (small_finite (8 + 2)), (sub_small 8); [by apply level_small| |lia].
    apply level_small. split; [apply (Hps p Hin)|by apply Hv].
  - destruct (selectProfile _ _ rssi) as [p|]; [|done]. by apply Hps, Hin.
  - split_and!; cbn; [done..|apply Hrsl].
  - pose proof Ha as (A1 & A2 & A3 & A4 & A5). split_and!; cbn; [done..|]. intros He. rewrite He. destruct (A5 He) as (Hlt & _ & _).
    assert (F64.leb (F64.opp step) step = true) as Hopp.
    { revert Hst Hst0. by destruct step as [[]|[]| |[]]. }
    assert (F64.is_finite rssi = true) as Hfr by apply Hrssi.
    destruct (atpcStep_range (rl_ATPC link) rssi step) as [Hlo Hhi]; try done.
    split_and!; [done|by apply leb_ltb_false..].
Qed.

(** C33: a recalculation never makes a later commit fail. On a valid link whose floats are
    numbers, every leaf evaluateLink writes is the leaf of a link that satisfies every rule
    of the model again: received levels stay in range, the fade margin is finite, the
    transmit power stays between its bounds, and profile and capacity are those of a
    profile of the table. *)
Theorem radio_measurements_valid s name link :
  RadioLink_ok link → Forall real (budget_floats link) → real (default F64.zero (rm_fade s !! name)) →
  Forall (λ p, valid (mp_RSLThreshold p) = true) (rl_Profiles link) →
  F64.is_nan (at_CurrentPower (rl_ATPC link)) = false →
  F64.is_finite (rm_atpcStepDB s) = true → F64.leb F64.zero (rm_atpcStepDB s) = true →
  RadioLink_ok (measured_link s name link) ∧
  ∀ path v, (path, v) ∈ link_writes s name link →
    ∃ suffix, path = linkPath name suffix ∧ leaf_of (measured_link s name link) suffix = Ok v.
Proof.
  intros Hok Hb Hf Hv Hc Hst Hst0. split; [|intros path v; apply link_writes_leaves].
  destruct (receivedLevel_number link Hb) as [Hn Hvl].
  unfold measured_link, measured_rssi. apply measure_with_ok; try done; by apply applyFade_ok.
Qed.

Abbreviation demo_radio :=
  (New (NewMemory "" None None) true 0 (mkThresholds F64.zero F64.zero F64.zero F64.zero) F64.zero F64.zero).
Lemma radio_measurements_valid_witness :
  F64.is_finite (freeSpaceLossDB (lb_Frequency (rl_LinkBudget default_link)) (lb_LinkLength (rl_LinkBudget default_link))) = true ∧
  RadioLink_ok (measured_link demo_radio "radio0" default_link).
Proof.
  split; [vm_compute; reflexivity|].
  assert (H1 : RadioLink_ok default_link) by (apply RadioLink_Validate_ok; vm_compute; reflexivity).
  assert (H2 : Forall real (budget_floats default_link)) by (repeat constructor; vm_compute; reflexivity).
  assert (H3 : Forall (λ p, valid (mp_RSLThreshold p) = true) (rl_Profiles default_link))
    by (repeat constructor; vm_compute; reflexivity).
  assert (H4 : real F64.zero) by (split; reflexivity).
  apply (radio_measurements_valid demo_radio "radio0" default_link H1 H2 H4 H3); vm_compute; reflexivity.
Defined.

(** ** The link state *)

(** A measurement repeated leaves the link state where it put it. *)
Lemma link_state_settles current rssi margin t :
  F64.leb (th_rssiAlarm t) (th_rssiClear t) = true → F64.leb (th_fadeMin t) (th_fadeClear t) = true →
  nextLinkState (nextLinkState current rssi margin t) rssi margin t = nextLinkState current rssi margin t.
Proof.
  intros Hr Hf. unfold nextLinkState, linkDown, linkDegraded.
  pose proof (λ H, F64.ltb_leb_trans rssi _ _ H Hr) as Hdown.
  pose proof (λ H, F64.ltb_leb_trans margin _ _ H Hf) as Hdeg.
  destruct (String.eqb current RadioLinkStateDown), (String.eqb current RadioLinkStateDegraded);
    destruct (F64.ltb rssi (th_rssiAlarm t)) eqn:E1, (F64.ltb rssi (th_rssiClear t)) eqn:E2,
      (F64.ltb margin (th_fadeMin t)) eqn:E3, (F64.ltb margin (th_fadeClear t)) eqn:E4;
    try specialize (Hdown eq_refl); try specialize (Hdeg eq_refl); try congruence; cbn; rewrite ?E1, ?E2, ?E3, ?E4; done.
Qed.

Lemma nextLinkState_valid current rssi margin t : validLinkState (nextLinkState current rssi margin t) = true.
Proof. unfold nextLinkState. destruct (linkDown _ _ _); [done|]. by destruct (linkDegraded _ _ _). Qed.

(** The alarm that is active in a link state. *)
Definition alarm_of (st : string) : option string :=
  if String.eqb st RadioLinkStateDown then Some AlarmRadioLinkDown
  else if String.eqb st RadioLinkStateDegraded then Some AlarmRadioLinkDegraded else None.

(** A legal history of the alarms of one link: an alarm is raised only when none is active
    and cleared only when it is the active one. *)
Definition alarm_step (active : option string) (e : Event) : option (option string) :=
  if String.eqb (ev_Type e) TypeAlarmRaised then
    match active with None => Some (Some (ev_Alarm e)) | Some _ => None end
  else if String.eqb (ev_Type e) TypeAlarmCleared then
    if bool_decide (active = Some (ev_Alarm e)) then Some None else None
  else None.
Fixpoint alarm_replay (active : option string) (l : list Event) : option (option string) :=
  match l with
  | [] => Some active
  | e :: l => a ← alarm_step active e; alarm_replay a l
  end.

Lemma alarm_replay_app a l1 l2 : alarm_replay a (l1 ++ l2) = b ← alarm_replay a l1; alarm_replay b l2.
Proof. revert a. induction l1 as [|e l1 IH]; intros a; simpl; [done|]. destruct (alarm_step a e); simpl; [apply IH|done]. Qed.

Definition events_of (name : string) (l : list Event) : list Event := filter (λ e, ev_Resource e = name) l.
Arguments events_of : simpl never.

(** What the manager remembers of its links; the store behind it is no part of it. *)
Definition view (s : Manager) : list Event * bool * gmap string string * gset string :=
  (rm_published s, rm_bus s, rm_states s, rm_known s).

Record alarms_inv (s : Manager) : Prop := {
  ai_bus : rm_bus s = true;
  ai_known : ∀ name, name ∉ rm_known s → rm_states s !! name = None;
  ai_valid : ∀ name st, rm_states s !! name = Some st → validLinkState st = true;
  ai_fresh : ∀ name, rm_states s !! name = None → events_of name (rm_published s) = [];
  ai_replay : ∀ name st, rm_states s !! name = Some st →
    ∃ a, alarm_replay a (events_of name (rm_published s)) = Some (alarm_of st);
}.

Lemma alarms_inv_view s s' : view s = view s' → alarms_inv s → alarms_inv s'.
Proof. intros [= H1 H2 H3 H4] [? ? ? ? ?]. split; rewrite <- ?H1, <- ?H2, <- ?H3, <- ?H4; done. Qed.

Lemma state_write_view r now ctx path v s : view (state_write r now ctx path v s).2 = view s.
Proof. unfold state_write. by destruct (SetState _ _ _ _ _ _). Qed.

Lemma write_all_view r now ctx writes : ∀ s, ∃ l s', write_all r now ctx writes s = (Ok l, s') ∧ view s' = view s.
Proof.
  induction writes as [|[path v] writes IH]; intros s; [by exists [], s|].
  cbn [write_all]. unfold mbind, st_bind, st_try. pose proof (state_write_view r now ctx path v s) as Hv.
  destruct (state_write r now ctx path v s) as [x s1]. destruct (IH s1) as (l & s2 & -> & H2).
  exists (x :: l), s2. split; [done|]. simpl in Hv. by rewrite H2, Hv.
Qed.

(** The events of [report]. *)
Lemma report_spec now name current next rssi margin s : rm_bus s = true →
  ∃ l, report now name current next rssi margin s = (Ok tt, with_published s (rm_published s ++ l)) ∧
    Forall (λ e, ev_Resource e = name) l ∧ alarm_replay (alarm_of current) l = Some (alarm_of next).
Proof.
  intros Hb. unfold report, publish, mbind, st_bind, alarm_of.
  destruct (String.eqb current RadioLinkStateDown), (String.eqb current RadioLinkStateDegraded),
    (String.eqb next RadioLinkStateDown), (String.eqb next RadioLinkStateDegraded);
    rewrite ?Hb; cbn -[stamp alarm_replay]; rewrite ?Hb; try (rewrite <- app_assoc);
    eexists; (split; [first [reflexivity|by rewrite (app_nil_r (rm_published s)); destruct s]|]);
    (split; [repeat constructor|reflexivity]).
Qed.

Lemma events_of_app name l1 l2 : events_of name (l1 ++ l2) = events_of name l1 ++ events_of name l2.
Proof. apply filter_app. Qed.

Lemma events_of_same name l : Forall (λ e, ev_Resource e = name) l → events_of name l = l.
Proof. apply list_filter_all || (unfold events_of; induction 1; [done|]; rewrite filter_cons, decide_True by done; congruence). Qed.

Lemma events_of_other name other l : Forall (λ e, ev_Resource e = name) l → name ≠ other → events_of other l = [].
Proof.
  intros Hl Hne. unfold events_of. induction Hl as [|e l He _ IH]; [done|].
  rewrite filter_cons, decide_False by congruence. done.
Qed.

(** Recording the state a link has moved to, with the events of the move. *)
Lemma alarms_inv_move s name link next l mem : alarms_inv s → validLinkState next = true →
  Forall (λ e, ev_Resource e = name) l →
  alarm_replay (alarm_of (current_state s name link)) l = Some (alarm_of next) →
  alarms_inv (with_states (with_published (with_mem s mem) (rm_published s ++ l))
                (<[name := next]> (rm_states s)) ({[name]} ∪ rm_known s)).
Proof.
  intros [Hb Hk Hv Hf Hr] Hn Hl Hrep. split; cbn; [done|..].
  - intros other Ho. rewrite lookup_insert_ne by set_solver. apply Hk. set_solver.
  - intros other st. destruct (decide (name = other)) as [->|Hne].
    + rewrite lookup_insert_eq. by intros [= <-].
    + rewrite lookup_insert_ne by done. apply Hv.
  - intros other. destruct (decide (name = other)) as [->|Hne]; [by rewrite lookup_insert_eq|].
    rewrite lookup_insert_ne, events_of_app, (events_of_other name other l) by done. intros. by rewrite app_nil_r, Hf.
  - intros other st. destruct (decide (name = other)) as [<-|Hne].
    + rewrite lookup_insert_eq. intros [= <-]. rewrite events_of_app, (events_of_same name l Hl).
      destruct (rm_states s !! name) as [st|] eqn:Est.
      * destruct (Hr name st Est) as [a Ha]. exists a. rewrite alarm_replay_app, Ha. cbn [mbind option_bind].
        rewrite <- Hrep. unfold current_state. rewrite bool_decide_true, Est; [done|].
        destruct (decide (name ∈ rm_known s)) as [|Hno]; [done|]. by rewrite (Hk _ Hno) in Est.
      * rewrite (Hf name Est). by exists (alarm_of (current_state s name link)).
    + rewrite lookup_insert_ne, events_of_app, (events_of_other name other l), app_nil_r by done. apply Hr.
Qed.

Lemma alarms_inv_known s name : alarms_inv s → alarms_inv (with_states s (rm_states s) ({[name]} ∪ rm_known s)).
Proof. intros [Hb Hk Hv Hf Hr]. split; cbn; try done. intros other Ho. apply Hk. set_solver. Qed.

Lemma view_mem s s' : view s' = view s → rm_bus s' = rm_bus s ∧ rm_published s' = rm_published s ∧
  rm_states s' = rm_states s ∧ rm_known s' = rm_known s.
Proof. by intros [= -> -> -> ->]. Qed.

Lemma evaluateLink_inv r now ctx name link s : alarms_inv s → alarms_inv (evaluateLink r now ctx name link s).2.
Proof.
  intros Hinv. unfold evaluateLink, mbind, st_bind, st_get, st_lift, st_modify.
  generalize (measured_margin (measured_rssi s name link)
    (selectProfile (rl_ACM link) (rl_Profiles link) (measured_rssi s name link))) as margin.
  generalize (measured_rssi s name link) as rssi. intros rssi margin.
  destruct (write_all_view r now ctx (link_writes s name link) s) as (l & s1 & -> & H1).
  destruct (errors_join l); [|by apply (alarms_inv_view s)].
  set (s2 := with_states s1 (rm_states s1) ({[name]} ∪ rm_known s1)).
  set (next := nextLinkState _ rssi margin _).
  assert (validLinkState next = true) as Hnext by apply nextLinkState_valid.
  destruct (view_mem s s1 H1) as (Hb & Hp & Hs & Hk).
  assert (alarms_inv s2) as H2 by (apply alarms_inv_known; by apply (alarms_inv_view s)).
  destruct (String.eqb_spec next (current_state s name link)) as [Heq|Hne].
  - cbn. apply (alarms_inv_view (with_states (with_published (with_mem s (rm_mem s)) (rm_published s ++ []))
                (<[name := next]> (rm_states s)) ({[name]} ∪ rm_known s))).
    + unfold view. cbn. by rewrite app_nil_r, Hb, Hp, Hs, Hk.
    + apply (alarms_inv_move s name link next [] (rm_mem s) Hinv Hnext); [constructor|]. cbn. by rewrite Heq.
  - pose proof (state_write_view r now ctx (linkPath name "link-state") (VString next) s2) as H3.
    destruct (state_write r now ctx _ _ s2) as [[[]|e] s3]; [|by apply (alarms_inv_view s2)]. simpl in H3.
    destruct (view_mem s2 s3 H3) as (Hb3 & Hp3 & Hs3 & Hk3).
    destruct (report_spec now name (current_state s name link) next rssi margin s3) as (evs & -> & Hre & Hrep).
    { rewrite Hb3. apply H2. }
    cbn. apply (alarms_inv_view (with_states (with_published (with_mem s (rm_mem s)) (rm_published s ++ evs))
                (<[name := next]> (rm_states s)) ({[name]} ∪ rm_known s))).
    + unfold view. cbn. by rewrite Hb3, Hp3, Hs3, Hk3; cbn; rewrite Hb, Hp, Hs, Hk.
    + by apply alarms_inv_move with link.
Qed.

Lemma evaluate_all_inv r now ctx l : ∀ s, alarms_inv s → alarms_inv (evaluate_all r now ctx l s).2.
Proof.
  induction l as [|i l IH]; intros s Hs; [done|]. cbn [evaluate_all]. destruct (if_RadioLink i) as [link|]; [|by apply IH].
  unfold mbind, st_bind, st_try. pose proof (evaluateLink_inv r now ctx (if_Name i) link s Hs) as H1.
  destruct (evaluateLink r now ctx _ link s) as [x s1]. specialize (IH s1 H1).
  by destruct (evaluate_all r now ctx l s1) as [[]].
Qed.

(** The operations of the domain, in any order, beside any other writer of the store. *)
Inductive radio_step (r : Router) (s : Manager) : Manager → Prop :=
  | radio_tick now ctx : radio_step r s (Tick r now ctx s).2
  | radio_inject now ctx link fade restore : radio_step r s (inject r now ctx link fade restore s).2
  | radio_other mem : radio_step r s (with_mem s mem).

Lemma radio_step_inv r s s' : radio_step r s s' → alarms_inv s → alarms_inv s'.
Proof.
  intros Hst Hs. destruct Hst as [now ctx|now ctx link fade restore|mem].
  - unfold Tick, mbind, st_bind, st_wrap, snapshot, st_lift. destruct (Router_Snapshot _ _ _ _) as [d|e]; [|done].
    pose proof (evaluate_all_inv r now ctx (dev_Interfaces d) s Hs) as H.
    by destruct (evaluate_all r now ctx _ s) as [[]].
  - unfold inject, st_wrap, snapshot. destruct (Router_Snapshot _ _ _ _) as [d|e]; [|done].
    destruct (findRadioInterface d link) as [[i rl]|]; [|done]. set (s1 := with_fade s _).
    pose proof (evaluateLink_inv r now ctx (if_Name i) rl s1) as H.
    destruct (evaluateLink r now ctx _ rl s1) as [x s2]. apply H. by apply (alarms_inv_view s).
  - by apply (alarms_inv_view s).
Qed.

Lemma alarms_inv_reachable r mem tick t step failure s :
  rtc (radio_step r) (New mem true tick t step failure) s → alarms_inv s.
Proof.
  intros Hr. assert (alarms_inv (New mem true tick t step failure)) as H0 by by split; cbn.
  induction Hr as [|x y z Hxy _ IH]; [done|]. by apply IH, (radio_step_inv r x).
Qed.


Abbreviation demo_failed := (inject default_router 1 true "" F64.zero false demo_radio).2.
Abbreviation demo_restored := (inject default_router 2 true "radio0" F64.zero true demo_failed).2.
