(* ===== verification/Loops.v ===== *)
(** * The loops of the domains ([Run] of [internal/radio], [internal/l2], [internal/sync])

    Each domain manager has a goroutine that arms a one-shot timer, waits, and ticks when
    the timer's callback has put a token into a channel of capacity one; the synchronisation
    manager waits for bus events and holdover expiries in the same select.  The timer is
    armed at the top of every turn.  A step is a callback, a turn of the loop or the passing
    of time. *)

From S2P Require Import Prelude GoStrings GoFloat GoValue Persist Store Clock Event Path Model Reflect Reflected Hydrate Schema Oid Router Confirmed L2 Stp Sync Holdover Radio.

Section loop.
(** The state of the manager, its [Tick] at a time, and the interval. *)
Context {A : Type} (tick : time → A → A) (interval : duration).

(** [lp_timers] are the deadlines of the armed timers, newest last; the last three fields
    are histories: the times of the ticks, how many other messages the loop has taken and
    how many tokens found the channel full. *)
Record Loop : Type := mkLoop {
  lp_state : A;
  lp_now : time;
  lp_timers : list time;
  lp_token : bool;
  lp_done : bool;
  lp_ticks : list time;
  lp_others : nat;
  lp_dropped : nat;
}.

(** The top of a turn: a new timer. *)
Definition arm (l : Loop) : Loop :=
  mkLoop (lp_state l) (lp_now l) (lp_timers l ++ [(lp_now l + interval)%Z]) (lp_token l) (lp_done l) (lp_ticks l)
    (lp_others l) (lp_dropped l).

(** The call of [Tick]. *)
Definition ticked (l : Loop) : Loop :=
  mkLoop (tick (lp_now l) (lp_state l)) (lp_now l) (lp_timers l) (lp_token l) (lp_done l) (lp_ticks l ++ [lp_now l])
    (lp_others l) (lp_dropped l).

(** The start of [Run]: with an initial tick, or without. *)
Definition start (initial : bool) (now : time) (a : A) : Loop :=
  let l := mkLoop a now [] false false [] 0 0 in
  arm (if initial then ticked l else l).

Inductive loop_act : Type :=
  | LAdvance (t : time)                 (* time passes *)
  | LFire (i : nat)                     (* a callback sends its token *)
  | LTick                               (* case <-ticks *)
  | LOther (f : A → A)                  (* another case of the select *)
  | LCancel.                            (* case <-ctx.Done(): the newest timer is stopped *)

(** [None]: the step is not enabled. *)
Definition loop_step (l : Loop) (a : loop_act) : option Loop :=
  match a with
  | LAdvance t =>
      if (lp_now l <=? t)%Z
      then Some (mkLoop (lp_state l) t (lp_timers l) (lp_token l) (lp_done l) (lp_ticks l) (lp_others l) (lp_dropped l))
      else None
  | LFire i =>
      deadline ← lp_timers l !! i;
      if (deadline <=? lp_now l)%Z
      then Some (mkLoop (lp_state l) (lp_now l) (remove_at i (lp_timers l)) true (lp_done l) (lp_ticks l) (lp_others l)
                   (if lp_token l then S (lp_dropped l) else lp_dropped l))
      else None
  | LTick =>
      if lp_token l && negb (lp_done l)
      then Some (arm (ticked (mkLoop (lp_state l) (lp_now l) (lp_timers l) false false (lp_ticks l) (lp_others l) (lp_dropped l))))
      else None
  | LOther f =>
      if lp_done l then None
      else Some (arm (mkLoop (f (lp_state l)) (lp_now l) (lp_timers l) (lp_token l) false (lp_ticks l) (S (lp_others l)) (lp_dropped l)))
  | LCancel =>
      if lp_done l then None
      else Some (mkLoop (lp_state l) (lp_now l) (take (length (lp_timers l) - 1) (lp_timers l)) (lp_token l) true (lp_ticks l)
                   (lp_others l) (lp_dropped l))
  end.

Fixpoint loop_steps (l : Loop) (acts : list loop_act) : option Loop :=
  match acts with
  | [] => Some l
  | a :: acts => l ← loop_step l a; loop_steps l acts
  end.

Definition outstanding (l : Loop) : nat := length (lp_timers l) + if lp_token l then 1 else 0.

Lemma length_remove_at {B} (l : list B) i : i < length l → length (remove_at i l) = length l - 1.
Proof. intros Hi. unfold remove_at. rewrite length_app, length_take, length_drop. lia. Qed.

(** ** The timers of a loop *)

(** Every turn arms a timer and only a tick uses one up. *)
Lemma outstanding_step l a l' : (lp_done l = false → outstanding l + lp_dropped l = 1 + lp_others l) → loop_step l a = Some l' →
  lp_done l' = false → outstanding l' + lp_dropped l' = 1 + lp_others l'.
Proof.
  unfold outstanding. intros H. destruct a as [t|i| |f|]; cbn [loop_step].
  - destruct (_ <=? _)%Z; [|done]. by intros [= <-].
  - destruct (lp_timers l !! i) as [d|] eqn:Hi; [|done]. cbn [mbind option_bind]. destruct (_ <=? _)%Z; [|done].
    intros [= <-]. cbn. intros Hd. specialize (H Hd). apply lookup_lt_Some in Hi.
    rewrite length_remove_at by done. destruct (lp_token l); lia.
  - destruct (lp_token l) eqn:Ht; [|done]. destruct (lp_done l) eqn:Hd; [done|]. intros [= <-]. cbn. intros _.
    rewrite length_app. cbn. specialize (H eq_refl). lia.
  - destruct (lp_done l) eqn:Hd; [done|]. intros [= <-]. cbn. intros _. rewrite length_app. cbn. specialize (H eq_refl).
    destruct (lp_token l); lia.
  - destruct (lp_done l); [done|]. by intros [= <-].
Qed.

(** The timers add up. As long as the loop runs, the timers armed, the token waiting and the
    tokens lost are one more than the messages the loop has taken besides ticks: no turn
    leaves it without a timer, and every message that is not a tick leaves one more. *)
Theorem timers_add_up initial now a acts l : loop_steps (start initial now a) acts = Some l → lp_done l = false →
  outstanding l + lp_dropped l = 1 + lp_others l.
Proof.
  assert (∀ l0, (lp_done l0 = false → outstanding l0 + lp_dropped l0 = 1 + lp_others l0) →
    loop_steps l0 acts = Some l → lp_done l = false → outstanding l + lp_dropped l = 1 + lp_others l) as Hgen.
  { induction acts as [|x acts IH]; intros l0 H0; cbn [loop_steps]; [by intros [= <-]|].
    destruct (loop_step l0 x) as [l1|] eqn:E; [|done]. cbn. apply IH. by eapply outstanding_step. }
  apply Hgen. by destruct initial.
Qed.

(** ** Pace *)

(** Two consecutive ticks are at least the interval apart. *)
Definition paced (ticks : list time) : Prop := ∀ i t u, ticks !! i = Some t → ticks !! S i = Some u → (t + interval ≤ u)%Z.

(** The one timer or token of a loop without other messages is due after the last tick. *)
Record paced_inv (l : Loop) : Prop := {
  pi_paced : paced (lp_ticks l);
  pi_past : ∀ t, last (lp_ticks l) = Some t → (t ≤ lp_now l)%Z;
  pi_one : lp_done l = false → outstanding l = 1;
  pi_timers : ∀ d t, d ∈ lp_timers l → last (lp_ticks l) = Some t → (t + interval ≤ d)%Z;
  pi_token : ∀ t, lp_token l = true → last (lp_ticks l) = Some t → (t + interval ≤ lp_now l)%Z;
}.

Lemma paced_snoc l u : paced l → (∀ t, last l = Some t → (t + interval ≤ u)%Z) → paced (l ++ [u]).
Proof.
  intros Hp Hl i t v Ht Hv. destruct (decide (S i < length l)) as [Hlt|Hge].
  - rewrite lookup_app_l in Ht, Hv by lia. by eapply Hp.
  - assert (S i = length l) as Hi by (apply lookup_lt_Some in Hv; rewrite length_app in Hv; cbn in Hv; lia).
    rewrite lookup_app_l in Ht by lia. rewrite lookup_app_r, Hi, Nat.sub_diag in Hv by lia. injection Hv as <-.
    apply Hl. by rewrite last_lookup, <- Hi.
Qed.

Definition no_other (a : loop_act) : bool := match a with LOther _ => false | _ => true end.

Lemma paced_step l a l' : (0 ≤ interval)%Z → paced_inv l → no_other a = true → loop_step l a = Some l' → paced_inv l'.
Proof.
  intros Hpos [H1 H2 H3 H4 H5] Ha. destruct a as [t|i| |f|]; cbn [loop_step]; try done.
  - destruct (Z.leb_spec (lp_now l) t); [|done]. intros [= <-]. split; cbn; try done.
    + intros u Hu%H2. lia.
    + intros u Ht Hu. specialize (H5 u Ht Hu). lia.
  - destruct (lp_timers l !! i) as [d|] eqn:Hi; [|done]. cbn [mbind option_bind]. destruct (Z.leb_spec d (lp_now l)); [|done].
    intros [= <-]. split; cbn; try done.
    + intros Hd. specialize (H3 Hd). revert H3. unfold outstanding. cbn. apply lookup_lt_Some in Hi.
      rewrite length_remove_at by done. destruct (lp_token l); lia.
    + intros e u He%remove_at_elem Hu. by apply H4.
    + intros u _ Hu. specialize (H4 d u (list_elem_of_lookup_2 _ _ _ Hi) Hu). lia.
  - destruct (lp_token l) eqn:Ht; [|done]. destruct (lp_done l) eqn:Hd; [done|]. intros [= <-]. specialize (H3 eq_refl).
    unfold outstanding in H3. rewrite Ht in H3. assert (lp_timers l = []) as Hn by (apply nil_length_inv; lia).
    split; cbn; rewrite ?last_snoc.
    + apply paced_snoc; [done|]. intros u Hu. by apply H5.
    + intros u [= <-]. lia.
    + unfold outstanding. cbn. by rewrite Hn.
    + intros e u. rewrite Hn. intros ->%list_elem_of_singleton [= <-]. lia.
    + done.
  - destruct (lp_done l); [done|]. intros [= <-]. split; cbn; try done.
    intros e u He Hu. apply H4; [|done]. by apply (subseteq_take (length (lp_timers l) - 1)).
Qed.

(** The state is what the ticks made of it. *)
Lemma state_step l a l' a0 : no_other a = true → lp_state l = foldl (λ s t, tick t s) a0 (lp_ticks l) → loop_step l a = Some l' →
  lp_state l' = foldl (λ s t, tick t s) a0 (lp_ticks l').
Proof.
  intros Ha Hs. destruct a; cbn [loop_step]; try done.
  - destruct (_ <=? _)%Z; [|done]. by intros [= <-].
  - destruct (lp_timers l !! i); [|done]. cbn. destruct (_ <=? _)%Z; [|done]. by intros [= <-].
  - destruct (_ && _); [|done]. intros [= <-]. cbn. by rewrite foldl_app, <- Hs.
  - destruct (lp_done l); [done|]. by intros [= <-].
Qed.

(** A loop without other messages keeps its pace. Whatever delays the callbacks and the
    turns have: the ticks are at least the interval apart, there is always exactly one timer
    or token until the loop is cancelled, so that it neither stalls nor runs double, and the
    state is the initial one after exactly those ticks. *)
Theorem ticks_paced initial now a acts l : (0 ≤ interval)%Z → Forall (λ x, no_other x = true) acts →
  loop_steps (start initial now a) acts = Some l →
  paced (lp_ticks l) ∧ (lp_done l = false → outstanding l = 1) ∧ lp_state l = foldl (λ s t, tick t s) a (lp_ticks l).
Proof.
  intros Hpos Ho. assert (∀ l0, paced_inv l0 → lp_state l0 = foldl (λ s t, tick t s) a (lp_ticks l0) → loop_steps l0 acts = Some l →
    paced_inv l ∧ lp_state l = foldl (λ s t, tick t s) a (lp_ticks l)) as Hgen.
  { induction Ho as [|x acts Hx _ IH]; intros l0 H0 Hs; cbn [loop_steps]; [by intros [= <-]|].
    destruct (loop_step l0 x) as [l1|] eqn:E; [|done]. cbn. apply IH; [by eapply paced_step|by eapply state_step]. }
  intros Hl. destruct (Hgen (start initial now a)) as [[H1 _ H3 _ _] Hs]; [|by destruct initial|done|by split_and!].
  destruct initial; split; cbn; try done; try (intros i t u H H'; destruct i; done).
  - intros t [= <-]. lia.
  - intros d t ->%list_elem_of_singleton [= <-]. lia.
Qed.
End loop.

(** ** The three loops *)

Definition radio_tick (r : Router) (ctx : context) (now : time) (s : Radio.Manager) : Radio.Manager := (Radio.Tick r now ctx s).2.
Definition l2_tick (r : Router) (ctx : context) (now : time) (s : L2.Manager) : L2.Manager := (Stp.Tick r now ctx s).2.
Definition sync_tick (r : Router) (ctx : context) (draw : time → float64) (now : time) (s : Sync.Manager) : Sync.Manager :=
  (Sync.Tick r now ctx (draw now) s).2.

(** The other cases of the synchronisation loop. *)
Definition sync_received (r : Router) (ctx : context) (now : time) (e : Event) (s : Sync.Manager) : Sync.Manager :=
  (handleDomainEvent r now ctx e s).2.
Definition sync_expired (r : Router) (ctx : context) (now : time) (s : Sync.Manager) : Sync.Manager :=
  (expireHoldover r now ctx (with_channel s (sm_scheduled s) (sm_inflight s) false)).2.

Abbreviation demo_link := (Radio.New (NewMemory "" None None) true 0 (mkThresholds F64.zero F64.zero F64.zero F64.zero) F64.zero F64.zero).

Lemma ticks_paced_witness :
  let l := loop_steps (radio_tick default_router true) (rm_tickInterval demo_link) (start (radio_tick default_router true)
    (rm_tickInterval demo_link) true 0 demo_link) [LAdvance (5 * second); LFire 0; LTick] in
  (lp_ticks <$> l) = Some [0; 5 * second]%Z ∧ ∀ l0, l = Some l0 → paced (rm_tickInterval demo_link) (lp_ticks l0).
Proof.
  cbv zeta. split; [vm_compute; reflexivity|]. intros l0 Hl.
  apply (ticks_paced (radio_tick default_router true) (rm_tickInterval demo_link) true 0 demo_link
    [LAdvance (5 * second); LFire 0; LTick] l0); [vm_compute; discriminate|repeat constructor|exact Hl].
Defined.

(** The synchronisation loop arms a timer per turn and stops none: after one event the
    process ticks twice per interval, here of ten nanoseconds, and keeps doing so. *)
Example event_adds_ticks :
  let acts := [LAdvance 5; LOther (λ s, s); LAdvance 10; LFire 0; LTick; LAdvance 15; LFire 0; LTick; LAdvance 20; LFire 0; LTick;
               LAdvance 25; LFire 0; LTick; LAdvance 30; LFire 0; LTick] in
  (lp_ticks <$> loop_steps (λ _ n, S n) 10 (start (λ _ n, S n) 10 true 0 0) acts) = Some [0; 10; 15; 20; 25; 30]%Z.
Proof. reflexivity. Qed.
