(* ===== verification/Trap.v ===== *)
(** * SNMP traps ([internal/snmp/trap.go])

    The trap sender turns the events of the bus into SNMPv2 trap packets.  The packet codec
    and the socket are outside: a packet either reaches the wire or the send fails. *)

From S2P Require Import Prelude GoStrings GoFloat GoParse GoFormat GoValue GoNet Persist Store Clock Event Path Model Reflect Reflected Hydrate Schema Oid Router Rebuild Snmp Agent Sync Holdover Radio Links.

(** ** Trap types *)

Definition TrapRadioLinkDown : string := EnterpriseOID +:+ ".0.1".
Definition TrapRadioLinkUp : string := EnterpriseOID +:+ ".0.2".
Definition TrapSyncHoldover : string := EnterpriseOID +:+ ".0.3".
Definition TrapSyncRestored : string := EnterpriseOID +:+ ".0.4".
Definition TrapL2Storm : string := EnterpriseOID +:+ ".0.5".
Definition TrapConfigChanged : string := EnterpriseOID +:+ ".0.6".

Definition sysUpTimeOID : string := "1.3.6.1.2.1.1.3.0".
Definition snmpTrapOIDOID : string := "1.3.6.1.6.3.1.1.4.1.0".
Definition trapIfDescrBase : string := "1.3.6.1.2.1.2.2.1.2".

(** [trapFor]; the empty text is no trap. *)
Definition trapFor (e : Event) : string :=
  if String.eqb (ev_Type e) TypeAlarmRaised then
    if String.eqb (ev_Alarm e) AlarmRadioLinkDown then TrapRadioLinkDown
    else if String.eqb (ev_Alarm e) AlarmL2Storm then TrapL2Storm
    else ""
  else if String.eqb (ev_Type e) TypeAlarmCleared then
    if String.eqb (ev_Alarm e) AlarmRadioLinkDown then TrapRadioLinkUp else ""
  else if String.eqb (ev_Type e) TypeStateTransition then
    if negb (String.eqb (ev_Domain e) DomainSync) then ""
    else if HasPrefix (ev_To e) "holdover" then TrapSyncHoldover
    else if HasPrefix (ev_From e) "holdover" && String.eqb (ev_To e) "locked" then TrapSyncRestored
    else ""
  else if String.eqb (ev_Type e) TypeConfigChanged then TrapConfigChanged
  else "".

(** ** The sender *)

Record TrapOptions : Type := mkTrapOptions {
  to_Addr : string; to_Host : string; to_Port : Z; to_Community : string; to_Router : option Router;
}.

Record TrapSender : Type := mkSender {
  ts_router : option Router;
  ts_start : time;
  ts_community : string;
  ts_dest : string;
  ts_conn : bool;          (* whether Listen has opened the socket *)
  ts_requests : Z;         (* 32 bits *)
}.

(** [net.JoinHostPort]. *)
Definition JoinHostPort (host port : string) : string :=
  if has_byte host ":" || has_byte host "%" then "[" +:+ host +:+ "]:" +:+ port else host +:+ ":" +:+ port.

(** [NewTrapSender] at the time [now]; its bus subscription is the event list of [Run]. *)
Definition NewTrapSender (o : TrapOptions) (now : time) : TrapSender :=
  let community := if String.eqb (to_Community o) "" then DefaultCommunity else to_Community o in
  let host := if String.eqb (to_Host o) "" then "127.0.0.1" else to_Host o in
  let dest := if String.eqb (to_Addr o) "" then JoinHostPort host (Itoa (to_Port o)) else to_Addr o in
  mkSender (to_Router o) now community dest false 0.

Definition with_conn (s : TrapSender) (conn : bool) : TrapSender :=
  mkSender (ts_router s) (ts_start s) (ts_community s) (ts_dest s) conn (ts_requests s).

Definition Destination (s : TrapSender) : string := ts_dest s.

(** The integer part of a double, for the conversion to an integer type. *)
Definition trunc (x : float64) : Z :=
  match x with
  | S754_finite s m e =>
      let z := if (e <? 0)%Z then Z.pos m / 2 ^ (- e) else Z.pos m * 2 ^ e in
      if s then - z else z
  | _ => 0
  end%Z.

Section sender.
(** What a conversion of a double above the range of uint32 gives is left to the
    implementation. *)
Context (overflow : float64 → Z).

Definition uint32_of (x : float64) : Z :=
  if (trunc x <? 2 ^ 32)%Z && (0 <=? trunc x)%Z && F64.is_finite x then trunc x else overflow x.

(** [uptimeTicks]. *)
Definition uptimeTicks (s : TrapSender) (now : time) : Z :=
  let elapsed := Seconds (time_sub now (ts_start s)) in
  let elapsed := if F64.ltb elapsed F64.zero then F64.zero else elapsed in
  uint32_of (F64.mul elapsed (F64.of_Z 100)).

(** [binding]: the value is the stored leaf. *)
Definition trap_binding (s : TrapSender) (m : Memory) (ctx : context) (path : string) : option Binding :=
  r ← ts_router s;
  match Router_Get r m ctx Running path with
  | Err _ => None
  | Ok x =>
      if String.eqb (res_OID x) "" then None
      else typ ← res_Type x; Some (mkBinding (res_OID x) (res_Path x) (SVal (res_Value x)) typ (res_Writable x))
  end.

(** [interfaceIndex]. *)
Fixpoint index_of (link : string) (l : list Interface) (i : Z) : Z :=
  match l with
  | [] => 0
  | x :: l => if String.eqb (if_Name x) link then (i + 1)%Z else index_of link l (i + 1)%Z
  end.
Definition interfaceIndex (s : TrapSender) (m : Memory) (ctx : context) (link : string) : Z :=
  match ts_router s with
  | None => 0
  | Some r =>
      match Router_Snapshot r m ctx Running with
      | Err _ => 0
      | Ok device => index_of link (dev_Interfaces device) 0
      end
  end.

(** [radioVarbinds] and [pathVarbinds]. *)
Definition pathVarbinds (s : TrapSender) (m : Memory) (ctx : context) (path : string) : list pdu :=
  match trap_binding s m ctx path with Some b => [toPDU b] | None => [] end.
Definition radioVarbinds (s : TrapSender) (m : Memory) (ctx : context) (link : string) : list pdu :=
  match ts_router s with
  | None => []
  | Some _ =>
      if String.eqb link "" then []
      else
        let leaf suffix := pathVarbinds s m ctx ("interfaces/interface[name=" +:+ link +:+ "]/radio-link/" +:+ suffix) in
        let index := interfaceIndex s m ctx link in
        leaf "rssi" ++ leaf "fade-margin" ++
        (if (0 <? index)%Z then [mkPDU (trapIfDescrBase +:+ "." +:+ Itoa index) (AOctetString (SVal (VString link)))] else [])
  end.

(** [varbinds]. *)
Definition varbinds (s : TrapSender) (m : Memory) (now : time) (ctx : context) (oid : string) (e : Event) : list pdu :=
  [mkPDU sysUpTimeOID (ATimeTicks (uptimeTicks s now)); mkPDU snmpTrapOIDOID (AObjectIdentifier oid)] ++
  (if String.eqb oid TrapRadioLinkDown || String.eqb oid TrapRadioLinkUp then radioVarbinds s m ctx (ev_Resource e)
   else if String.eqb oid TrapSyncHoldover || String.eqb oid TrapSyncRestored then pathVarbinds s m ctx "ptp/clock/state"
   else []).

Record trapPacket : Set := mkTrap { tp_Community : string; tp_RequestID : Z; tp_Variables : list pdu }.

(** [Send]: [None] is an event that is no trap; [io] is the error of encoding or writing the
    packet, if there is one. *)
Definition Send (io : trapPacket → option error) (s : TrapSender) (m : Memory) (now : time) (ctx : context) (e : Event)
    : res (option trapPacket) * TrapSender :=
  let oid := trapFor e in
  if String.eqb oid "" then (Ok None, s)
  else if negb (ts_conn s) then (Err [Anon "snmp: trap sender is not listening"], s)
  else
    let id := u32 (ts_requests s + 1) in
    let packet := mkTrap (ts_community s) id (varbinds s m now ctx oid e) in
    let s := mkSender (ts_router s) (ts_start s) (ts_community s) (ts_dest s) (ts_conn s) id in
    match io packet with Some err => (Err err, s) | None => (Ok (Some packet), s) end.

(** [Run] over the events it receives, each with the store and the time of its handling: the
    packets that reached the wire.  A failed send is logged and dropped. *)
Fixpoint Run (io : trapPacket → option error) (s : TrapSender) (ctx : context) (received : list (Memory * time * Event))
    : list trapPacket * TrapSender :=
  match received with
  | [] => ([], s)
  | (m, now, e) :: received =>
      let '(x, s) := Send io s m now ctx e in
      let '(sent, s) := Run io s ctx received in
      (match x with Ok (Some p) => p :: sent | _ => sent end, s)
  end.
End sender.

(** ** What the traps tell a receiver *)

Definition holdover (st : string) : Prop := HasPrefix st "holdover" = true.

(** The synchronisation traps of a run of events, oldest first. *)
Definition sync_traps (l : list Event) : list string :=
  filter (λ t, t = TrapSyncHoldover ∨ t = TrapSyncRestored) (trapFor <$> l).

Lemma sync_traps_snoc l e : sync_traps (l ++ [e]) =
  sync_traps l ++ (if decide (trapFor e = TrapSyncHoldover ∨ trapFor e = TrapSyncRestored) then [trapFor e] else []).
Proof. unfold sync_traps. rewrite fmap_app, filter_app. cbn [fmap list_fmap]. rewrite filter_cons, filter_nil. done. Qed.

(** A legal transition out of holdover goes to locked, on in holdover, or is a reset. *)
Lemma leaves_holdover st to : legal st to = true → holdover st → ¬ holdover to → to = PTPStateLocked ∨ to = PTPStateFreerun.
Proof.
  unfold legal, holdover. intros (typ & Htyp & Hn%bool_decide_eq_true)%existsb_exists Hs Ht. revert Hn.
  destruct typ; cbn [nextState];
    repeat match goal with |- context [String.eqb st ?x] => destruct (String.eqb_spec st x) as [-> |]; cbn [orb] end;
    intros Hn; first [discriminate Hn|injection Hn as <-]; first [by left|by right|done].
Qed.

Lemma transition_trap e : ev_Type e = TypeStateTransition → ev_Domain e = DomainSync →
  trapFor e = if HasPrefix (ev_To e) "holdover" then TrapSyncHoldover
              else if HasPrefix (ev_From e) "holdover" && String.eqb (ev_To e) "locked" then TrapSyncRestored else "".
Proof. intros Ht Hd. unfold trapFor. by rewrite Ht, Hd. Qed.

Lemma alarm_trap e : ev_Type e = TypeAlarmRaised ∨ ev_Type e = TypeAlarmCleared →
  ¬ (trapFor e = TrapSyncHoldover ∨ trapFor e = TrapSyncRestored).
Proof. unfold trapFor. by intros [-> | ->]; cbn; repeat case_match; intros [|]. Qed.

Lemma traps_of_replay l : ∀ st a st' a', replay st a l = Some (st', a') →
  (holdover st' → last (sync_traps l) = Some TrapSyncHoldover ∨ (sync_traps l = [] ∧ holdover st)) ∧
  (last (sync_traps l) = Some TrapSyncRestored → ¬ holdover st') ∧
  (last (sync_traps l) = Some TrapSyncHoldover → ¬ holdover st' →
     ∃ e, e ∈ l ∧ ev_Type e = TypeStateTransition ∧ holdover (ev_From e) ∧ ev_To e = PTPStateFreerun).
Proof.
  induction l as [|e l IH] using rev_ind; intros st a st' a'.
  { intros [= <- <-]. split; [intros; by right|]. by split. }
  rewrite replay_app. destruct (replay st a l) as [[st1 a1]|] eqn:E; [|done]. intros Hone.
  destruct (IH _ _ _ _ E) as (I1 & I2 & I3). clear IH E. rewrite sync_traps_snoc.
  assert (∀ P : Event → Prop, (∃ x, x ∈ l ∧ P x) → ∃ x, x ∈ l ++ [e] ∧ P x) as Hex
    by (intros P (x & Hx & HP); exists x; split; [by apply elem_of_app; left|done]).
  apply replay_one in Hone as [(Ht & Hd & <- & <- & Hl)|[Ht ->]].
  - rewrite (transition_trap e Ht Hd). destruct (HasPrefix (ev_To e) "holdover") eqn:Hto.
    { rewrite decide_True by auto. rewrite last_snoc. split; [auto|]. split; [done|]. by intros _ []. }
    destruct (HasPrefix (ev_From e) "holdover") eqn:Hfrom; cbn [andb].
    + destruct (leaves_holdover _ _ Hl Hfrom) as [Hlk|Hlk]; [unfold holdover; by rewrite Hto| |].
      * rewrite Hlk. cbn [String.eqb]. rewrite decide_True by auto. rewrite last_snoc. split; [done|]. by split.
      * rewrite Hlk. rewrite decide_False by (by intros [|]). rewrite app_nil_r. split; [done|]. split; [done|].
        intros _ _. exists e. split; [apply elem_of_app; right; by left|done].
    + rewrite decide_False by (by intros [|]). rewrite app_nil_r. unfold holdover in *. rewrite Hto. split; [done|].
      split; [done|]. intros H _. apply (Hex (λ x, ev_Type x = TypeStateTransition ∧ HasPrefix (ev_From x) "holdover" = true ∧ ev_To x = PTPStateFreerun)).
      apply I3; [done|]. by rewrite Hfrom.
  - rewrite decide_False by (by apply alarm_trap). rewrite app_nil_r. split; [done|]. split; [done|].
    intros H Hh. apply (Hex (λ x, ev_Type x = TypeStateTransition ∧ holdover (ev_From x) ∧ ev_To x = PTPStateFreerun)). auto.
Qed.

(** The traps tell a receiver whether the clock holds over. For every reachable state of
    the clock: while it is in holdover, the last synchronisation trap of its events is
    simSyncHoldover (or there was none, when it was in holdover at the start); after
    simSyncRestored it is not in holdover; and if it has left holdover although the last
    trap is simSyncHoldover, the clock was reset to free-run, which no trap announces. *)
Theorem sync_traps_track r mem s : rtc (sync_step r true) (Sync.New mem true) s → sm_known s = true →
  let traps := sync_traps (sm_published s) in
  (holdover (sm_state s) → last traps = Some TrapSyncHoldover ∨ traps = []) ∧
  (last traps = Some TrapSyncRestored → ¬ holdover (sm_state s)) ∧
  (last traps = Some TrapSyncHoldover → ¬ holdover (sm_state s) →
     ∃ e, e ∈ sm_published s ∧ ev_Type e = TypeStateTransition ∧ holdover (ev_From e) ∧ ev_To e = PTPStateFreerun).
Proof.
  intros H%clock_inv_reachable Hk. destruct (ci_events s H Hk) as (_ & st0 & _ & Hr). cbv zeta.
  destruct (traps_of_replay _ _ _ _ _ Hr) as (H1 & H2 & H3). split; [|done]. intros [|[? _]]%H1; auto.
Qed.

(** A lost source and its return. *)
Definition lost_source : Sync.Manager := (Handle default_router 4 true EventSourceLost "" demo_locked).2.
Definition restored_source : Sync.Manager := (Handle default_router 5 true EventSourceRestored "" lost_source).2.

Lemma sync_traps_track_witness :
  sync_traps (sm_published lost_source) = [TrapSyncHoldover] ∧
  sync_traps (sm_published restored_source) = [TrapSyncHoldover; TrapSyncRestored] ∧ ¬ holdover (sm_state restored_source).
Proof.
  assert (H : sync_traps (sm_published restored_source) = [TrapSyncHoldover; TrapSyncRestored]) by (vm_compute; reflexivity).
  split; [vm_compute; reflexivity|]. split; [exact H|].
  apply (proj1 (proj2 (sync_traps_track default_router (NewMemory "" None None) restored_source
    ltac:(eapply rtc_l; [apply (step_handle default_router _ 1 true EventReset "")|];
          eapply rtc_l; [apply (step_handle default_router _ 2 true EventSourceDetected "")|];
          eapply rtc_l; [apply (step_handle default_router _ 3 true EventCalibrationComplete "")|];
          eapply rtc_l; [apply (step_handle default_router _ 4 true EventSourceLost "")|];
          eapply rtc_l; [apply (step_handle default_router _ 5 true EventSourceRestored "")|]; apply rtc_refl)
    ltac:(vm_compute; reflexivity)))).
  rewrite H. reflexivity.
Defined.

(** The link traps of the events of one link. *)
Definition link_traps (l : list Event) : list string :=
  filter (λ t, t = TrapRadioLinkDown ∨ t = TrapRadioLinkUp) (trapFor <$> l).

Lemma raised_trap e : ev_Type e = TypeAlarmRaised →
  trapFor e = if String.eqb (ev_Alarm e) AlarmRadioLinkDown then TrapRadioLinkDown
              else if String.eqb (ev_Alarm e) AlarmL2Storm then TrapL2Storm else "".
Proof. intros H. unfold trapFor. by rewrite H. Qed.

Lemma cleared_trap e : ev_Type e = TypeAlarmCleared →
  trapFor e = if String.eqb (ev_Alarm e) AlarmRadioLinkDown then TrapRadioLinkUp else "".
Proof. intros H. unfold trapFor. by rewrite H. Qed.

Lemma alarm_traps l : ∀ a b, alarm_replay a l = Some b →
  last (link_traps l) =
    if bool_decide (link_traps l = []) then None
    else Some (if bool_decide (b = Some AlarmRadioLinkDown) then TrapRadioLinkDown else TrapRadioLinkUp).
Proof.
  induction l as [|e l IH] using rev_ind; intros a b; [done|]. rewrite alarm_replay_app.
  destruct (alarm_replay a l) as [a1|] eqn:E; [|done]. specialize (IH _ _ E). clear E. cbn [mbind option_bind alarm_replay].
  unfold link_traps in *. rewrite fmap_app, filter_app. cbn [fmap list_fmap]. rewrite filter_cons, filter_nil.
  unfold alarm_step. destruct (String.eqb_spec (ev_Type e) TypeAlarmRaised) as [Ht|Ht].
  - destruct a1; [done|]. intros [= <-]. rewrite (raised_trap e Ht).
    destruct (String.eqb_spec (ev_Alarm e) AlarmRadioLinkDown) as [Ha|Ha].
    + rewrite decide_True by auto. rewrite last_snoc. rewrite bool_decide_eq_false_2 by (by intros [_ ?]%app_eq_nil).
      by rewrite Ha.
    + rewrite decide_False by (destruct (String.eqb _ _); by intros [|]). rewrite app_nil_r, IH.
      rewrite (bool_decide_eq_false_2 (Some _ = _)) by congruence. done.
  - destruct (String.eqb_spec (ev_Type e) TypeAlarmCleared) as [Ht'|]; [|done]. destruct (bool_decide_reflect (a1 = Some (ev_Alarm e))) as [-> |]; [|done].
    intros [= <-]. rewrite (cleared_trap e Ht').
    destruct (String.eqb_spec (ev_Alarm e) AlarmRadioLinkDown) as [Ha|Ha].
    + rewrite decide_True by auto. rewrite last_snoc. by rewrite bool_decide_eq_false_2 by (by intros [_ ?]%app_eq_nil).
    + rewrite decide_False by (by intros [|]). rewrite app_nil_r, IH.
      rewrite (bool_decide_eq_false_2 (Some _ = _)) by congruence. done.
Qed.

Lemma down_state st : validLinkState st = true → alarm_of st = Some AlarmRadioLinkDown ↔ st = RadioLinkStateDown.
Proof.
  intros _. unfold alarm_of. destruct (String.eqb_spec st RadioLinkStateDown) as [-> |]; [done|].
  destruct (String.eqb st RadioLinkStateDegraded); done.
Qed.

(** The last link trap of a link, from the invariant of the alarms. *)
Lemma link_traps_last s name st : alarms_inv s → rm_states s !! name = Some st →
  let traps := link_traps (events_of name (rm_published s)) in
  traps ≠ [] →
  (last traps = Some TrapRadioLinkDown ↔ st = RadioLinkStateDown) ∧
  (last traps = Some TrapRadioLinkUp ↔ st ≠ RadioLinkStateDown).
Proof.
  intros Hr Hst. cbv zeta. intros Hne. destruct (ai_replay s Hr name st Hst) as [a Ha].
  rewrite (alarm_traps _ _ _ Ha), bool_decide_eq_false_2 by done.
  rewrite <- (down_state st) by (by eapply ai_valid). by case_bool_decide.
Qed.

(** The traps tell a receiver which links are down. For every link the radio manager has
    evaluated, whatever ticks, failures, restores and write errors happened: once a link
    trap has been sent for it, the last one is simRadioLinkDown exactly when the link is
    down, and simRadioLinkUp otherwise. *)
Theorem link_traps_track r mem tick t step failure s name st :
  rtc (radio_step r) (Radio.New mem true tick t step failure) s → rm_states s !! name = Some st →
  let traps := link_traps (events_of name (rm_published s)) in
  traps ≠ [] →
  (last traps = Some TrapRadioLinkDown ↔ st = RadioLinkStateDown) ∧
  (last traps = Some TrapRadioLinkUp ↔ st ≠ RadioLinkStateDown).
Proof. intros Hr%alarms_inv_reachable Hst. by apply link_traps_last. Qed.

Lemma link_traps_track_witness :
  link_traps (events_of "radio0" (rm_published demo_restored)) = [TrapRadioLinkDown; TrapRadioLinkUp] ∧
  (last (link_traps (events_of "radio0" (rm_published demo_restored))) = Some TrapRadioLinkUp ↔
   RadioLinkStateUp ≠ RadioLinkStateDown).
Proof.
  assert (H : link_traps (events_of "radio0" (rm_published demo_restored)) = [TrapRadioLinkDown; TrapRadioLinkUp])
    by (vm_compute; reflexivity).
  split; [exact H|].
  apply (link_traps_track default_router (NewMemory "" None None) 0
    (mkThresholds F64.zero F64.zero F64.zero F64.zero) F64.zero F64.zero demo_restored "radio0" RadioLinkStateUp).
  - eapply rtc_l; [apply radio_inject|]. eapply rtc_l; [apply radio_inject|]. apply rtc_refl.
  - vm_compute. reflexivity.
  - rewrite H. discriminate.
Defined.

(** ** The packets *)

(** The events that are traps. *)
Definition is_trap (x : Memory * time * Event) : bool := negb (String.eqb (trapFor x.2) "").

(** A packet of an event: its number, the two mandatory bindings and the payload. *)
Definition announces (overflow : float64 → Z) (s : TrapSender) (p : trapPacket) (x : Memory * time * Event) : Prop :=
  tp_Community p = ts_community s ∧
  ∃ payload, tp_Variables p = mkPDU sysUpTimeOID (ATimeTicks (uptimeTicks overflow s x.1.2)) ::
                              mkPDU snmpTrapOIDOID (AObjectIdentifier (trapFor x.2)) :: payload ∧
             length payload ≤ 3.

Lemma pathVarbinds_length s m ctx path : length (pathVarbinds s m ctx path) ≤ 1.
Proof. unfold pathVarbinds. destruct (trap_binding _ _ _ _); simpl; lia. Qed.

Lemma payload_length overflow s m now ctx oid e : ∃ payload, varbinds overflow s m now ctx oid e =
  mkPDU sysUpTimeOID (ATimeTicks (uptimeTicks overflow s now)) :: mkPDU snmpTrapOIDOID (AObjectIdentifier oid) :: payload ∧
  length payload ≤ 3.
Proof.
  eexists. split; [reflexivity|]. destruct (_ || _).
  - unfold radioVarbinds. destruct (ts_router s); [|simpl; lia]. destruct (String.eqb _ _); [simpl; lia|].
    rewrite !length_app. pose proof (pathVarbinds_length s m ctx). destruct (_ <? _)%Z; simpl;
      repeat match goal with |- context [length (pathVarbinds s m ctx ?p)] => pose proof (pathVarbinds_length s m ctx p); generalize dependent (length (pathVarbinds s m ctx p)); intros end; lia.
  - destruct (_ || _); [|simpl; lia]. pose proof (pathVarbinds_length s m ctx "ptp/clock/state"). lia.
Qed.

(** Every trap event is sent once and numbered. When the socket is open and sending
    succeeds, the packets of a run are, in the order of the events, one for each event that
    is a trap and none for the others; they carry the community, the uptime and the trap
    OID of their event as the first two bindings, at most three more, and consecutive
    request numbers modulo 2^32 after the one the sender had reached. *)
Theorem traps_numbered overflow io s ctx received :
  ts_conn s = true → (∀ p, io p = None) →
  let sent := (Run overflow io s ctx received).1 in
  Forall2 (announces overflow s) sent (filter (λ x, is_trap x = true) received) ∧
  tp_RequestID <$> sent = (λ i, u32 (ts_requests s + 1 + Z.of_nat i)) <$> seq 0 (length sent).
Proof.
  destruct s as [r start community dest conn n]. cbn [ts_conn ts_requests]. intros -> Hio. cbv zeta. revert n.
  induction received as [|[[m now] e] received IH]; intros n; [by split|]. cbn [Run]. unfold Send. rewrite filter_cons.
  change (is_trap (m, now, e)) with (negb (String.eqb (trapFor e) "")). destruct (String.eqb_spec (trapFor e) "") as [He|He]; cbn [negb ts_conn].
  - rewrite decide_False by done. specialize (IH n). destruct (Run _ _ _ _ received) as [sent s']. exact IH.
  - rewrite Hio, decide_True by done. cbn [ts_router ts_start ts_community ts_dest ts_requests].
    specialize (IH (u32 (n + 1))). destruct (Run _ _ _ _ received) as [sent s']. cbn [fst] in *. destruct IH as [IH1 IH2]. split.
    + constructor; [|exact IH1]. split; [done|]. apply (payload_length overflow (mkSender r start community dest true n)).
    + rewrite fmap_cons, IH2. cbn [length seq]. rewrite fmap_cons, <- fmap_S_seq, <- list_fmap_compose. f_equal.
      * cbn [tp_RequestID]. f_equal. lia.
      * apply list_fmap_ext. intros i x _. cbn [compose]. unfold u32. rewrite Zplus_assoc_reverse, Zplus_mod_idemp_l. f_equal. lia.
Qed.

Definition demo_sender : TrapSender :=
  with_conn (NewTrapSender (mkTrapOptions "" "" 1162 "" (Some default_router)) 0) true.
Definition demo_received : list (Memory * time * Event) :=
  (λ e, (NewMemory "" None None, (5 * second)%Z, e)) <$> rm_published demo_restored.
Definition no_fault (p : trapPacket) : option error := None.

Lemma traps_numbered_witness :
  (λ p, (tp_RequestID p, pd_Value <$> take 2 (tp_Variables p))) <$> (Run (λ _, 0%Z) no_fault demo_sender true demo_received).1 =
    [(1%Z, [ATimeTicks 500; AObjectIdentifier TrapRadioLinkDown]); (2%Z, [ATimeTicks 500; AObjectIdentifier TrapRadioLinkUp])] ∧
  Forall2 (announces (λ _, 0%Z) demo_sender) (Run (λ _, 0%Z) no_fault demo_sender true demo_received).1
    (filter (λ x, is_trap x = true) demo_received).
Proof.
  split; [vm_compute; reflexivity|].
  exact (proj1 (traps_numbered (λ _, 0%Z) no_fault demo_sender true demo_received eq_refl (λ p, eq_refl))).
Defined.

(** The clock state of a synchronisation trap is taken from the store without the conversion
    of its object, so the binding of an integer object holds a text and is sent as null,
    where the agent answers the state number. *)
Example sync_trap_state_is_null :
  (λ b, (pd_Name (toPDU b), pd_Value (toPDU b))) <$> trap_binding demo_sender (sm_mem lost_source) true "ptp/clock/state"
    = Some (EnterpriseOID +:+ ".2.1.1.0", ANull) ∧
  Get (sm_mem lost_source) true Running "ptp/clock/state" = Ok (VString PTPStateHoldoverInSpec) ∧
  ptpStateValue (VString PTPStateHoldoverInSpec) = SVal (VInt 4).
Proof. split_and!; vm_compute; reflexivity. Qed.
