(* ===== verification/Simulator.v ===== *)
(** * The simulator process ([internal/config], [internal/cli/start.go], [internal/metrics], [internal/log])

    The configuration and its rules, the boot sequence that joins store, router and startup
    file, the uptime leaf, and what the metrics count. *)

From S2P Require Import Prelude GoStrings GoFloat GoParse GoFormat GoValue GoNet Persist Store Clock Event Path Model Reflect Reflected Hydrate Schema Oid Router Rebuild Snmp Edits GetConfig Agent Sync Holdover.

(** ** Configuration *)

Definition LevelDebug : string := "debug".
Definition LevelInfo : string := "info".
Definition LevelWarn : string := "warn".
Definition LevelError : string := "error".

Definition DefaultSNMPPort : Z := 1161.
Definition DefaultSNMPTrapPort : Z := 1162.
Definition DefaultNETCONFPort : Z := 1830.
Definition DefaultRESTCONFPort : Z := 8080.
Definition DefaultMetricsPort : Z := 9090.
Definition DefaultGNMIPort : Z := 9339.
Definition DefaultSNMPTrapHost : string := "127.0.0.1".

Record SNMP : Set := mkSNMP { sn_Port : Z; sn_TrapHost : string; sn_TrapPort : Z }.
Record GNMI : Set := mkGNMI { gn_Enabled : bool; gn_Port : Z }.
Record Config : Set := mkConfig {
  cf_SNMP : SNMP;
  cf_NETCONF : Z;
  cf_RESTCONF : Z;
  cf_Metrics : Z;
  cf_GNMI : GNMI;
  cf_LogLevel : string;
  cf_StartupFile : string;
}.

(** [Default]. *)
Definition Default : Config :=
  mkConfig (mkSNMP DefaultSNMPPort DefaultSNMPTrapHost DefaultSNMPTrapPort) DefaultNETCONFPort DefaultRESTCONFPort
    DefaultMetricsPort (mkGNMI false DefaultGNMIPort) LevelInfo "startup.json".

(** [strings.ToLower] as a comparison with an ASCII text sees it: the ASCII letters, and the
    dotted capital I, the one other letter whose lower case is one of them in a level. *)
Fixpoint ToLower (s : string) : string :=
  match s with
  | "" => ""
  | String "196" (String "176" s) => String "i" (ToLower s)
  | String c s =>
      let n := N_of_ascii c in
      String (if (65 <=? n)%N && (n <=? 90)%N then ascii_of_N (n + 32) else c) (ToLower s)
  end.

Definition levels : list string := [LevelDebug; LevelInfo; LevelWarn; LevelError].
Definition known_level (text : string) : bool := existsb (String.eqb text) levels.

(** The ports of the enabled planes. *)
Definition ports (c : Config) : list Z :=
  [sn_Port (cf_SNMP c); sn_TrapPort (cf_SNMP c); cf_NETCONF c; cf_RESTCONF c; cf_Metrics c] ++
  (if gn_Enabled (cf_GNMI c) then [gn_Port (cf_GNMI c)] else []).

(** The port loop of [Validate]; [seen] are the ports before. *)
Fixpoint check_ports (seen : gset Z) (l : list Z) : res unit :=
  match l with
  | [] => Ok tt
  | p :: l =>
      if (p <? 1)%Z || (65535 <? p)%Z then Err [Anon "port out of range 1-65535"]
      else if bool_decide (p ∈ seen) then Err [Anon "port is already used"]
      else check_ports ({[p]} ∪ seen) l
  end.

(** [Config.Validate]. *)
Definition Config_Validate (c : Config) : res unit :=
  _ ← check_ports ∅ (ports c);
  _ ← check (known_level (ToLower (cf_LogLevel c))) [Anon "log.level: unknown level"];
  _ ← check (negb (String.eqb (TrimSpace (sn_TrapHost (cf_SNMP c))) "")) [Anon "snmp.trap-host: must not be empty"];
  check (negb (String.eqb (TrimSpace (cf_StartupFile c)) "")) [Anon "startup.file: must not be empty"].

(** [Load], with [read] the content of the file and [decode] what the YAML decoder makes of
    it on top of a configuration; an empty document keeps the configuration. *)
Definition Load_config (read : string → res string) (decode : string → Config → res (option Config)) (path : string) : res Config :=
  if String.eqb (TrimSpace path) "" then Err [Anon "config: path is empty"]
  else
    data ← read path;
    decoded ← decode data Default;
    let cfg := default Default decoded in
    _ ← Config_Validate cfg;
    Ok cfg.

(** [log.ParseLevel]. *)
Inductive slogLevel : Set := SlogDebug | SlogInfo | SlogWarn | SlogError.
Definition ParseLevel (level : string) : res slogLevel :=
  let text := ToLower (TrimSpace level) in
  if String.eqb text LevelDebug then Ok SlogDebug
  else if String.eqb text LevelInfo then Ok SlogInfo
  else if String.eqb text LevelWarn then Ok SlogWarn
  else if String.eqb text LevelError then Ok SlogError
  else Err [Anon "log: unknown level"].

(** ** Boot *)

Section boot.
Context (r : Router) (now : time) (ctx : context).

(** The store with the hooks of the router. *)
Definition hooked_store (file : string) : Memory :=
  SetStateFilter (SetValidator (NewMemory file None None) (Some (Router_Validate (r_root r)))) (Some (IsState r)).

(** [seedIfEmpty]. *)
Definition seedIfEmpty (m : Memory) (fs : FS) (fault : option io_fault) : res unit * Memory * FS :=
  match List_ m ctx Running "" with
  | Err e => (Err e, m, fs)
  | Ok (_ :: _) => (Ok tt, m, fs)
  | Ok [] =>
      match Seed r m now ctx Candidate with
      | (Err e, m) => (Err e, m, fs)
      | (Ok _, m) => Commit m now ctx fs fault
      end
  end.

(** The part of [run] that prepares the store, from the state of the disk; [loading] and
    [saving] are the faults of the two file operations. *)
Definition boot (file : string) (fs : FS) (loading saving : option io_fault) : res unit * Memory * FS :=
  match LoadStartup (hooked_store file) now ctx fs loading with
  | (Err e, m) => (Err e, m, fs)
  | (Ok _, m) => seedIfEmpty m fs saving
  end.

(** One turn of [runUptime], [seconds] after the start. *)
Definition uptime_tick (seconds : Z) (m : Memory) : Memory :=
  (SetState r m now ctx "system-info/uptime" (VUint32 seconds)).2.
End boot.

(** ** Metrics *)

(** The counter a call increments. *)
Inductive increment : Set :=
  | IncRequests (op : string) | IncAlarms (domain severity : string) | IncTransitions (from to : string) | IncConfigChanges.
Global Instance increment_eq_dec : EqDecision increment.
Proof. solve_decision. Defined.

(** [ObserveSNMPRequest] and [ObserveEvent]. *)
Definition ObserveSNMPRequest (op : string) : list increment := [IncRequests op].
Definition ObserveEvent (e : Event) : list increment :=
  if String.eqb (ev_Type e) TypeAlarmRaised || String.eqb (ev_Type e) TypeAlarmCleared then
    if String.eqb (ev_Domain e) "" then [] else [IncAlarms (ev_Domain e) (ev_Severity e)]
  else if String.eqb (ev_Type e) TypeStateTransition then
    if negb (String.eqb (ev_Domain e) DomainSync) || String.eqb (ev_From e) "" || String.eqb (ev_To e) "" then []
    else [IncTransitions (ev_From e) (ev_To e)]
  else if String.eqb (ev_Type e) TypeConfigChanged then [IncConfigChanges]
  else [].

(** [opName]. *)
Definition opName (t : PDUType) : string :=
  match t with
  | GetRequest => "get" | GetNextRequest => "getnext" | GetBulkRequest => "getbulk" | SetRequest => "set" | OtherPDU => "other"
  end.

(** The callback of [handle]: the packets it lets through are counted. *)
Definition authorised (community : string) (req : packet) : bool := pk_v2c req && String.eqb (pk_Community req) community.
Definition observed_request (community : string) (req : packet) : list increment :=
  if authorised community req then ObserveSNMPRequest (opName (pk_PDUType req)) else [].

(** What a turn of the agent's loop finds: a cancelled context, a timeout, a closed or failing
    socket, or a datagram, with the packet it decodes to and what writing a response gives. *)
Inductive written : Set := WriteDone | WriteFailed | WriteClosed.
Inductive datagram : Set :=
  | DCancelled | DTimeout | DReadClosed | DReadFailed | DPacket (p : option packet) (w : written).

(** [Agent.Serve]: its result, the responses sent and the counters incremented. *)
Fixpoint Agent_Serve (r : Router) (now : time) (ctx : context) (community : string) (cache : bindingCache) (m : Memory) (l : list datagram)
    : res unit * list (Z * (list pdu * SNMPError * Z)) * list increment * Memory :=
  match l with
  | [] => (Ok tt, [], [], m)
  | DCancelled :: _ | DReadClosed :: _ => (Ok tt, [], [], m)
  | DReadFailed :: _ => (Err [Anon "snmp: read"], [], [], m)
  | DTimeout :: l | DPacket None _ :: l => Agent_Serve r now ctx community cache m l
  | DPacket (Some req) w :: l =>
      let counted := observed_request community req in
      let '(response, cache, m) := handle r now ctx community cache m req in
      match response, w with
      | Some _, WriteClosed => (Ok tt, [], counted, m)
      | _, _ =>
          let '(x, responses, increments, m) := Agent_Serve r now ctx community cache m l in
          (x, match response, w with Some a, WriteDone => a :: responses | _, _ => responses end, counted ++ increments, m)
      end
  end.

(** The transition counters that exist before the first transition. *)
Definition ptpTransitions : list (string * string) :=
  [("freerun", "acquiring"); ("acquiring", "locked"); ("locked", "holdover-in-spec");
   ("holdover-in-spec", "holdover-out-of-spec"); ("holdover-in-spec", "locked"); ("holdover-out-of-spec", "locked")].

(** ** The schema command *)

Inductive schemaNodeJSON : Set :=
  SchemaJSON (name path module : string) (kind : Kind) (key : string) (leaf : option LeafKind) (children : list schemaNodeJSON).

(** [schemaChildren]. *)
Fixpoint schema_entry (prefix : string) (s : schemaNode) : schemaNodeJSON :=
  let 'SNode node children := s in
  let path := if String.eqb prefix "" then nd_Name node else prefix +:+ "/" +:+ nd_Name node in
  SchemaJSON (nd_Name node) path (mod_Name (ModuleFor path)) (nd_Kind node) (nd_Key node)
    (if bool_decide (nd_Kind node = KindLeaf) then nd_Leaf node else None)
    (map (schema_entry path) children).
Definition schemaChildren (nodes : list schemaNode) (prefix : string) : list schemaNodeJSON := map (schema_entry prefix) nodes.

(** [runSchemaTree]: the tree that is encoded. *)
Definition schemaTree (r : Router) : schemaNodeJSON :=
  SchemaJSON "" "" (mod_Name ModuleDevice) KindContainer "" None (schemaChildren (sn_children (r_schema r)) "").

(** ** Properties *)

(** The rules of a configuration. *)
Record config_ok (c : Config) : Prop := {
  co_range : Forall (λ p, 1 ≤ p ≤ 65535)%Z (ports c);
  co_distinct : NoDup (ports c);
  co_level : ToLower (cf_LogLevel c) ∈ levels;
  co_host : TrimSpace (sn_TrapHost (cf_SNMP c)) ≠ "";
  co_file : TrimSpace (cf_StartupFile c) ≠ "";
}.

Lemma check_ports_iff l : ∀ seen, check_ports seen l = Ok tt ↔
  Forall (λ p, 1 ≤ p ≤ 65535)%Z l ∧ NoDup l ∧ Forall (λ p, p ∉ seen) l.
Proof.
  induction l as [|p l IH]; intros seen; cbn [check_ports]; [split; [intros _; repeat constructor|done]|].
  destruct (Z.ltb_spec p 1), (Z.ltb_spec 65535 p); cbn [orb];
    try (split; [done|]; intros [[? _]%Forall_cons _]; lia).
  case_bool_decide as Hin.
  - split; [done|]. intros (_ & _ & [? _]%Forall_cons). done.
  - rewrite IH, !Forall_cons, NoDup_cons. split.
    + intros (Hr & Hn & Hs). split_and!; try done; try lia.
      * intros Hp. rewrite Forall_forall in Hs. specialize (Hs p Hp). set_solver.
      * eapply Forall_impl; [exact Hs|]. set_solver.
    + intros ([_ Hr] & [Hp Hn] & [_ Hs]). split_and!; try done. apply Forall_forall. intros q Hq.
      rewrite Forall_forall in Hs. specialize (Hs q Hq). set_solver.
Qed.

Lemma known_level_iff text : known_level text = true ↔ text ∈ levels.
Proof.
  unfold known_level. rewrite existsb_exists. split.
  - intros (x & Hx & ->%String.eqb_eq). by apply list_elem_of_In.
  - intros H. exists text. split; [by apply list_elem_of_In|apply String.eqb_refl].
Qed.

(** The configuration check is exact. Validate accepts a configuration exactly when the
    ports of the enabled planes are in range and pairwise distinct, the log level is known
    and a trap destination and a startup file are named; and the built-in configuration is
    accepted. *)
Theorem config_validate_iff : Config_Validate Default = Ok tt ∧ ∀ c, Config_Validate c = Ok tt ↔ config_ok c.
Proof.
  split; [reflexivity|]. intros c. unfold Config_Validate.
  destruct (check_ports ∅ (ports c)) as [[]|e] eqn:E.
  - apply check_ports_iff in E as (H1 & H2 & _). cbn [mbind res_bind].
    destruct (known_level (ToLower (cf_LogLevel c))) eqn:Hl; cbn [check mbind res_bind].
    2:{ split; [done|]. intros [_ _ H3 _ _]. apply known_level_iff in H3. congruence. }
    apply known_level_iff in Hl. destruct (String.eqb_spec (TrimSpace (sn_TrapHost (cf_SNMP c))) "") as [Hh|Hh]; cbn [negb check mbind res_bind].
    { split; [done|]. by intros [_ _ _ H4 _]. }
    rewrite check_ok, negb_true_iff, String.eqb_neq. split; [by split|by intros []].
  - split; [done|]. intros [H1 H2 _ _ _]. exfalso.
    assert (check_ports ∅ (ports c) = Ok tt) as Hok; [|congruence].
    apply check_ports_iff. split_and!; [done|done|]. apply Forall_forall. set_solver.
Qed.

(** What validates rebuilds into a valid device. *)
Lemma validated_device r m : Router_Validate (r_root r) true (running m) = Ok tt →
  ∃ d, Router_Snapshot r m true Running = Ok d ∧ Device_ok d.
Proof.
  unfold Router_Validate, Router_Snapshot, flatValues, Values. cbn [ctx_err check mbind res_bind].
  change (datastore m Running) with (@Ok values (running m)). cbn [mbind res_bind]. rewrite copyValues_id.
  destruct (deviceFromValues (r_root r) (running m)) as [d|]; cbn [mbind res_bind]; [|done].
  intros H. exists d. split; [done|]. by apply Device_Validate_ok.
Qed.

Lemma seed_leaves_validator now ctx ds l : ∀ m m', seed_leaves m now ctx ds l = (Ok tt, m') → validator m' = validator m.
Proof.
  induction l as [|[[segs v] ro] l IH]; intros m m'; cbn [seed_leaves]; [by intros [= <-]|].
  destruct (_ ≫= _) as [leaf|]; [|done]. destruct (Set_ m now ctx ds (Path_String segs) leaf) as [[[]|e] m1] eqn:E; [|done].
  intros H. apply IH in H. rewrite H. apply Set_effect in E as [E _]. by apply (eff_validator _ _ _ _ E).
Qed.

Lemma load_validated r now file fs fault m : LoadStartup (hooked_store r file) now true fs fault = (Ok tt, m) →
  validator m = Some (Router_Validate (r_root r)) ∧ (running m = ∅ ∨ Router_Validate (r_root r) true (running m) = Ok tt).
Proof.
  intros [[-> _]|(_ & _ & _ & loaded & vs & _ & _ & Hv & [Hr _ _ _ Hva _])]%LoadStartup_cases; [by split; [|left]|].
  rewrite Hva, Hr. split; [done|]. right. exact Hv.
Qed.

(** C15: whatever the disk holds, a simulator that boots serves a valid device. For every
    startup file, missing, empty or written by anyone, and whatever file operation fails: if
    the boot sequence succeeds, the running datastore rebuilds into a device that satisfies
    every rule of the model. *)
Theorem boot_valid r now file fs loading saving m fs' :
  boot r now true file fs loading saving = (Ok tt, m, fs') →
  ∃ d, Router_Snapshot r m true Running = Ok d ∧ Device_ok d.
Proof.
  unfold boot. destruct (LoadStartup _ _ _ _ _) as [[[]|e] m0] eqn:El; [|done].
  apply load_validated in El as [Hv Hrun]. unfold seedIfEmpty, List_. cbn [ctx_err check mbind res_bind].
  change (datastore m0 Running) with (@Ok values (running m0)). cbn [mbind res_bind].
  destruct (sort_strings _) as [|p l] eqn:Es.
  - unfold Seed. cbn [ctx_err check]. destruct (seed_leaves _ _ _ _ _) as [[[]|e] m1] eqn:E; [|done].
    apply seed_leaves_validator in E. intros Hc.
    apply Commit_cases in Hc as [(e & ? & _)|(_ & _ & HV & _ & _ & [Hr _ _ _ _ _])]; [done|].
    apply validated_device. rewrite Hr. unfold validates in HV. by rewrite E, Hv in HV.
  - intros [= <- <-]. apply validated_device. destruct Hrun as [He|]; [|done]. rewrite He in Es. by vm_compute in Es.
Qed.

Definition booted : res unit * Memory * FS := boot default_router 1 true "startup.json" (mkFS ∅ ∅) None None.

Lemma boot_valid_witness : booted.1.1 = Ok tt ∧ ∃ d, Router_Snapshot default_router booted.1.2 true Running = Ok d ∧ Device_ok d.
Proof.
  assert (H : booted.1.1 = Ok tt) by (vm_compute; reflexivity). split; [exact H|].
  exact (boot_valid default_router 1 "startup.json" (mkFS ∅ ∅) None None booted.1.2 booted.2 (triple_eq booted (Ok tt) H)).
Defined.

(** A first boot serves the template, and the next boot the configuration it saved. *)
Example first_boots :
  running booted.1.2 = template_values DefaultDevice ∧
  (boot default_router 2 true "startup.json" booted.2 None None).1.1 = Ok tt ∧
  running (boot default_router 2 true "startup.json" booted.2 None None).1.2
    = filter (λ kv, IsState default_router kv.1 = false) (template_values DefaultDevice).
Proof. split_and!; [by_decide|vm_compute; reflexivity|by_decide]. Qed.

(** *** Requests *)

Lemma handle_answers r now ctx community cache m req response cache' m' :
  handle r now ctx community cache m req = (response, cache', m') →
  fst <$> response = (if authorised community req && negb (String.eqb (opName (pk_PDUType req)) "other") then Some (pk_RequestID req) else None).
Proof.
  unfold handle, authorised. destruct (pk_v2c req); [|by intros [= <- _ _]].
  destruct (String.eqb (pk_Community req) community); cbn [negb orb andb]; [|by intros [= <- _ _]].
  destruct (pk_PDUType req); [destruct (index r ctx cache m) as [[]]..|destruct (set r now ctx cache m req) as [[]]|]; by intros [= <- _ _].
Qed.

(** The packets a loop has taken. *)
Definition packets (l : list datagram) : list packet := l ≫= λ d, match d with DPacket (Some req) _ => [req] | _ => [] end.

(** The agent accounts for its requests. Whatever arrives, as long as the loop is not ended
    and no write fails: the counters are exactly the operations of the authorised requests,
    in order, and the responses answer exactly those of them that are no unknown operation,
    each with its request id, in order; everything else is dropped in silence. *)
Theorem agent_accounts r now ctx community cache m l :
  Forall (λ d, match d with DTimeout | DPacket _ WriteDone => True | _ => False end) l →
  let '(x, responses, increments, _) := Agent_Serve r now ctx community cache m l in
  let accepted := filter (λ req, authorised community req = true) (packets l) in
  x = Ok tt ∧ increments = (λ req, IncRequests (opName (pk_PDUType req))) <$> accepted ∧
  responses.*1 = pk_RequestID <$> filter (λ req, opName (pk_PDUType req) ≠ "other") accepted.
Proof.
  intros Hl. revert cache m. induction Hl as [|d l Hd _ IH]; intros cache m; [done|].
  destruct d as [| | | |[req|] w]; try done; cbn [Agent_Serve]; [exact (IH cache m)| |exact (IH cache m)].
  destruct w; try done. destruct (handle r now ctx community cache m req) as [[response cache1] m1] eqn:E.
  apply handle_answers in E. specialize (IH cache1 m1). destruct (Agent_Serve r now ctx community cache1 m1 l) as [[[x responses] increments] m2].
  destruct IH as (-> & -> & IH). change (packets (DPacket (Some req) WriteDone :: l)) with (req :: packets l).
  rewrite filter_cons. unfold observed_request. destruct (authorised community req); cbn [andb] in E.
  - rewrite decide_True by done. rewrite fmap_cons, filter_cons.
    destruct (String.eqb_spec (opName (pk_PDUType req)) "other") as [Ho|Ho]; cbn [negb] in E; destruct response as [[id a]|]; try done.
    + rewrite decide_False by (intros H; exact (H Ho)). done.
    + injection E as ->. rewrite decide_True by done. cbn. by rewrite IH.
  - rewrite decide_False by done. by destruct response.
Qed.

Lemma agent_accounts_witness :
  let req t := mkPacket true "public" t 7 0 0 [] in
  let l := [DPacket (Some (req GetRequest)) WriteDone; DTimeout; DPacket (Some (mkPacket true "private" SetRequest 8 0 0 [])) WriteDone;
            DPacket (Some (req OtherPDU)) WriteDone] in
  let '(x, responses, increments, _) := Agent_Serve default_router 2 true "public" empty_cache booted.1.2 l in
  let accepted := filter (λ req, authorised "public" req = true) (packets l) in
  x = Ok tt ∧ increments = (λ req, IncRequests (opName (pk_PDUType req))) <$> accepted ∧
  responses.*1 = pk_RequestID <$> filter (λ req, opName (pk_PDUType req) ≠ "other") accepted.
Proof. apply agent_accounts. repeat constructor. Defined.

(** *** Counters *)

Definition observed (l : list Event) : list increment := l ≫= ObserveEvent.

(** How often the clock was counted to enter and to leave a state. *)
Definition entered (x : string) (l : list increment) : nat :=
  length (filter (λ i, match i with IncTransitions _ to => String.eqb to x | _ => false end = true) l).
Definition left_ (x : string) (l : list increment) : nat :=
  length (filter (λ i, match i with IncTransitions from _ => String.eqb from x | _ => false end = true) l).
Definition at_ (st x : string) : nat := if bool_decide (st = x) then 1 else 0.

Lemma transition_observed e : ev_Type e = TypeStateTransition → ev_Domain e = DomainSync → ev_From e ≠ "" → ev_To e ≠ "" →
  ObserveEvent e = [IncTransitions (ev_From e) (ev_To e)].
Proof.
  intros Ht Hd Hf%String.eqb_neq Hto%String.eqb_neq. unfold ObserveEvent. rewrite Ht, Hd, Hf, Hto. done.
Qed.

Lemma alarm_observed e x : ev_Type e = TypeAlarmRaised ∨ ev_Type e = TypeAlarmCleared →
  entered x (ObserveEvent e) = 0 ∧ left_ x (ObserveEvent e) = 0.
Proof. unfold ObserveEvent. intros [-> | ->]; cbn; by destruct (String.eqb _ _). Qed.

Lemma valid_not_empty st : validState st = true → st ≠ "".
Proof. by intros H ->. Qed.

Lemma legal_valid st to : legal st to = true → validState to = true.
Proof. unfold legal. intros (typ & _ & [_ H]%bool_decide_eq_true%nextState_legal)%existsb_exists. done. Qed.

Lemma replay_balanced l x : ∀ st a st' a', validState st = true → replay st a l = Some (st', a') →
  entered x (observed l) + at_ st x = left_ x (observed l) + at_ st' x.
Proof.
  induction l as [|e l IH]; intros st a st' a' Hv; [intros [= <- <-]; done|].
  change (e :: l) with ([e] ++ l). rewrite replay_app. destruct (replay st a [e]) as [[st1 a1]|] eqn:E; [|done]. intros Hr.
  assert (entered x (ObserveEvent e) + at_ st x = left_ x (ObserveEvent e) + at_ st1 x ∧ validState st1 = true) as [He Hv1].
  { apply replay_one in E as [(Ht & Hd & <- & <- & Hl)|[Ht ->]].
    - pose proof (legal_valid _ _ Hl) as Hv1. split; [|done].
      rewrite transition_observed by (done || by apply valid_not_empty). unfold entered, left_, at_.
      rewrite !filter_cons, !filter_nil.
      destruct (String.eqb_spec (ev_From e) x), (String.eqb_spec (ev_To e) x); repeat case_decide; repeat case_bool_decide; done.
    - destruct (alarm_observed e x Ht) as [-> ->]. done. }
  specialize (IH _ _ _ _ Hv1 Hr). unfold observed in *. cbn [app]. rewrite bind_cons.
  unfold entered, left_ in *. rewrite !filter_app, !length_app. lia.
Qed.

(** The transition counters account for the state of the clock. For every reachable state
    of the clock and every state x: among the transitions counted from its events, the ones
    into x exceed the ones out of x by one exactly when the clock is in x now and was not
    when it was adopted, and correspondingly; so the counters and the adopted state
    determine the present state. *)
Theorem transitions_account r mem s : rtc (sync_step r true) (New mem true) s → sm_known s = true →
  ∃ st0, validState st0 = true ∧ ∀ x,
    entered x (observed (sm_published s)) + at_ st0 x = left_ x (observed (sm_published s)) + at_ (sm_state s) x.
Proof.
  intros H%clock_inv_reachable Hk. destruct (ci_events s H Hk) as (_ & st0 & Hv & Hr).
  exists st0. split; [done|]. intros x. by eapply replay_balanced.
Qed.

Lemma transitions_account_witness :
  observed (sm_published demo_locked) =
    [IncTransitions "locked" "freerun"; IncTransitions "freerun" "acquiring"; IncTransitions "acquiring" "locked"] ∧
  ∃ st0, validState st0 = true ∧ ∀ x,
    entered x (observed (sm_published demo_locked)) + at_ st0 x = left_ x (observed (sm_published demo_locked)) + at_ (sm_state demo_locked) x.
Proof.
  split; [vm_compute; reflexivity|].
  apply (transitions_account default_router (NewMemory "" None None) demo_locked); [|vm_compute; reflexivity].
  eapply rtc_l; [apply (step_handle default_router _ 1 true EventReset "")|].
  eapply rtc_l; [apply (step_handle default_router _ 2 true EventSourceDetected "")|].
  eapply rtc_l; [apply (step_handle default_router _ 3 true EventCalibrationComplete "")|]. apply rtc_refl.
Defined.

(** The pre-created counters are not all the pairs the clock goes through: a reset and a
    source lost while acquiring lead to free-run. *)
Example unlisted_transition : legal "acquiring" "freerun" = true ∧ ("acquiring", "freerun") ∉ ptpTransitions.
Proof. split; [reflexivity|]. by_decide. Qed.
