(* ===== verification/Commands.v ===== *)
(** * The commands and the embedded modules ([internal/cli], [yang/embed.go])

    What the commands make of their flags: the request [dump] sends and prints, the result of
    [config validate], and the modules [schema --yang] prints.  The flags are parsed by the
    cobra package, the process is reached through net/http: it is a function from requests
    to responses. *)

From S2P Require Import Prelude GoStrings GoFloat GoParse GoFormat GoValue Persist Store Clock Event Path Model Reflect Reflected Hydrate Schema Oid Router Ops Datatree Edits Read Trees Codec Resource Http Simulator.

(** ** The client *)

Definition DefaultSimulatorAddr : string := "http://127.0.0.1:8080".

Definition newline : string := String "010" "".

(** [strings.TrimRight] of one byte. *)
Fixpoint trim_right (b : ascii) (s : string) : string :=
  match s with
  | "" => ""
  | String c s' =>
      match trim_right b s' with
      | "" => if Ascii.eqb c b then "" else String c ""
      | t => String c t
      end
  end.

(** [endpoint]: the address without its trailing slashes, and the path. *)
Definition endpoint (addr path : string) : string := trim_right "/" addr +:+ path.

(** [do]: a status that is no success is an error. *)
Definition do_ (serve : httpRequest → response) (q : httpRequest) : res responseBody :=
  let resp := serve q in
  if (rs_status resp <? 200)%Z || (299 <? rs_status resp)%Z then Err [Anon "response status"] else Ok (rs_body resp).

(** ** dump *)

Definition dumpContents : list string := ["config"; "nonconfig"; "all"].

Definition dumpMediaType (format : string) : option string :=
  if String.eqb format "json" then Some MediaTypeJSON
  else if String.eqb format "xml" then Some MediaTypeXML
  else None.

(** The request of [get], as the server sees it. *)
Definition dump_request (accept content : string) : httpRequest :=
  mkRequest "GET" "/restconf/data" [("content", content)] [("Accept", accept)] NoDate NoDate BodyFailed.

(** [runDump]; the output is the body, indented when it is JSON. *)
Definition runDump (serve : httpRequest → response) (format content : string) : res responseBody :=
  match dumpMediaType format with
  | None => Err [Anon "unknown format"]
  | Some accept =>
      if negb (bool_decide (content ∈ dumpContents)) then Err [Anon "unknown content"]
      else do_ serve (dump_request accept content)
  end.

(** ** config validate *)

Definition config_validate (read : string → res string) (decode : string → Config → res (option Config)) (file : string)
    : res string :=
  _ ← Load_config read decode file;
  Ok (file +:+ ": OK" +:+ newline).

(** ** The embedded modules *)

Section yang.
(** The embedded file system: a directory has no content. *)
Context (files : gmap string (option string)).

Definition extension : string := ".yang".

(** [Modules]. *)
Definition Modules : list string :=
  sort_strings (filter (λ name, HasSuffix name extension = true)
    ((λ kv, kv.1) <$> filter (λ kv, is_Some kv.2) (map_to_list files))).

(** [Read]. *)
Definition Read_module (name : string) : res string :=
  let trimmed := TrimSpace name in
  if String.eqb trimmed "" then Err [Anon "yang: module name is empty"]
  else
    let file := if HasSuffix trimmed extension then trimmed else trimmed +:+ extension in
    match files !! file with
    | Some (Some source) => Ok source
    | _ => Err [Anon "yang: unknown module"]
    end.

(** [withTrailingNewline]. *)
Definition withTrailingNewline (source : string) : string := trim_right "010" source +:+ newline.

(** [runSchemaYang]: what it writes. *)
Fixpoint print_modules (first : bool) (names : list string) : res string :=
  match names with
  | [] => Ok ""
  | name :: names =>
      source ← Read_module name;
      rest ← print_modules false names;
      Ok ((if first then "" else newline) +:+ "// --- yang/" +:+ name +:+ " ---" +:+ newline +:+ withTrailingNewline source +:+ rest)
  end.
Definition runSchemaYang (module : string) : res string :=
  if negb (String.eqb module "") then source ← Read_module module; Ok (withTrailingNewline source)
  else print_modules true Modules.

(** ** Properties *)

(** The names are as [go:embed] takes them. *)
Context (names_trimmed : ∀ name, is_Some (files !! name) → TrimSpace name = name).

Lemma Modules_spec name : name ∈ Modules ↔ HasSuffix name extension = true ∧ ∃ source, files !! name = Some (Some source).
Proof.
  unfold Modules. rewrite elem_of_sort_strings, list_elem_of_filter. f_equiv. rewrite list_elem_of_fmap. split.
  - intros ([k v] & -> & [Hv Hin]%list_elem_of_filter). apply elem_of_map_to_list in Hin. cbn in Hv. destruct Hv as [source ->]. by exists source.
  - intros [source Hs]. exists (name, Some source). split; [done|]. apply list_elem_of_filter.
    split; [by eexists|]. by apply elem_of_map_to_list.
Qed.

Lemma extension_not_empty name : HasSuffix name extension = true → name ≠ "".
Proof. by intros H ->. Qed.

Lemma Read_module_file name source : HasSuffix name extension = true → files !! name = Some (Some source) → Read_module name = Ok source.
Proof.
  intros Hx Hf. unfold Read_module. rewrite names_trimmed by (by eexists).
  destruct (String.eqb_spec name ""); [by apply extension_not_empty in Hx|]. by rewrite Hx, Hf.
Qed.

Lemma print_modules_ok first names : (∀ name, name ∈ names → name ∈ Modules) → ∃ text, print_modules first names = Ok text.
Proof.
  revert first. induction names as [|name names IH]; intros first Hin; cbn [print_modules]; [by eexists|].
  destruct (proj1 (Modules_spec name) (Hin name ltac:(by left))) as [Hx [source Hs]]. rewrite (Read_module_file _ _ Hx Hs).
  destruct (IH false) as [rest ->]; [intros n Hn; apply Hin; by right|]. by eexists.
Qed.

(** Every embedded module can be printed. A listed file is read by its name and, when the
    name without the extension is itself a trimmed name without it, by that module name with
    the same source; nothing else can be read; and printing all of them succeeds. *)
Theorem modules_readable :
  (∀ name, name ∈ Modules → ∃ source, Read_module name = Ok source ∧ files !! name = Some (Some source) ∧
     ∀ stem, name = stem +:+ extension → stem ≠ "" → TrimSpace stem = stem → HasSuffix stem extension = false →
       Read_module stem = Ok source) ∧
  (∀ name source, Read_module name = Ok source → ∃ file, file ∈ Modules ∧ files !! file = Some (Some source)) ∧
  ∃ text, runSchemaYang "" = Ok text.
Proof.
  split_and!.
  - intros name [Hx [source Hs]]%Modules_spec. exists source. split; [by apply Read_module_file|]. split; [done|].
    intros stem -> Hne%String.eqb_neq Ht Hn. unfold Read_module. by rewrite Ht, Hne, Hn, Hs.
  - intros name source. unfold Read_module. destruct (String.eqb _ _); [done|].
    destruct (HasSuffix (TrimSpace name) extension) eqn:Hx; (destruct (files !! _) as [[src|]|] eqn:Hf; [|done..]); intros [= ->];
      eexists; (split; [apply Modules_spec; split; [|by eexists]|exact Hf]); [done|apply HasSuffix_app].
  - unfold runSchemaYang. cbn [String.eqb negb]. by apply print_modules_ok.
Qed.
End yang.

(** The modules of the repository, by their first lines. *)
Definition embedded : gmap string (option string) :=
  list_to_map [("sim-device.yang", Some "module sim-device {"); ("sim-sync.yang", Some "module sim-sync {"); ("docs", None)].

Lemma modules_readable_witness :
  Modules embedded = ["sim-device.yang"; "sim-sync.yang"] ∧ ∃ text, runSchemaYang embedded "" = Ok text.
Proof.
  split; [vm_compute; reflexivity|]. apply (modules_readable embedded).
  intros name [x Hx]. apply elem_of_list_to_map_2 in Hx.
  repeat (apply elem_of_cons in Hx as [[= -> ->]|Hx]; [reflexivity|]). by apply elem_of_nil in Hx.
Defined.

(** The dump command prints the datastore. For every format and content the command accepts,
    against a process that serves the store [m]: the request reaches the root of the running
    datastore, and what is printed is the tree that reading it with that content gives, in
    that format. *)
Theorem dump_prints_store r now m format content accept c node : dumpMediaType format = Some accept → content ∈ dumpContents →
  parseContent content = inr c → ops_Get r m true Running "" c = Ok node →
  runDump (λ q, (handleData r now true m q).1.1) format content
  = Ok (Content_ (Encode (if String.eqb format "xml" then FormatXML else FormatJSON) node)).
Proof.
  intros Hf Hc Hp Hg. unfold runDump, do_. rewrite Hf, bool_decide_true by done. cbn [negb].
  assert (handleData r now true m (dump_request accept content) =
    (handleGet r true m (dump_request accept content) (root_target "/restconf/data" Running c), m, [])) as ->.
  { unfold handleData, parseTarget.
    change (resolveAddressing (dump_request accept content)) with (@inr httpError _ ("/restconf/data", "", Running)). cbn iota.
    change (get_first (hr_Query (dump_request accept content)) "content") with content. rewrite Hp. reflexivity. }
  cbn [fst]. unfold handleGet. change (get_first (hr_Header (dump_request accept content)) "Accept") with accept.
  assert (responseFormat accept = inr (if String.eqb format "xml" then FormatXML else FormatJSON)) as ->.
  { unfold dumpMediaType in Hf. destruct (String.eqb_spec format "json") as [->|]; [by injection Hf as <-|].
    destruct (String.eqb_spec format "xml"); [by injection Hf as <-|done]. }
  cbn [ht_Datastore ht_Path ht_Content root_target]. rewrite Hg. reflexivity.
Qed.

Lemma dump_prints_store_witness : ∃ body, runDump (λ q, (handleData default_router 2 true booted.1.2 q).1.1) "xml" "config" = Ok body.
Proof.
  assert (H : match ops_Get default_router booted.1.2 true Running "" ContentConfig with Ok _ => true | Err _ => false end = true)
    by (vm_compute; reflexivity).
  destruct (ops_Get default_router booted.1.2 true Running "" ContentConfig) as [node|e] eqn:E; [|discriminate H].
  eexists. apply (dump_prints_store default_router 2 booted.1.2 "xml" "config" MediaTypeXML ContentConfig node).
  - reflexivity.
  - by left.
  - reflexivity.
  - exact E.
Defined.

Example endpoints : endpoint "http://localhost:8080//" "/restconf/data" = "http://localhost:8080/restconf/data" ∧
  withTrailingNewline ("a" +:+ newline +:+ newline) = "a" +:+ newline.
Proof. done. Qed.
