(* ===== verification/Domains.v ===== *)
(** * The assembled domains ([internal/cli/start.go], [internal/restconf/server.go])

    One process runs the three domains over one store and one bus: the simulation endpoints
    of RESTCONF call the managers, and the synchronisation manager takes the alarms of the
    radio manager from its bus subscription.  A step of the world is one call, one tick, one
    event received, one step of the holdover timer or one write of a management plane; a
    history is any interleaving of them.  Nothing else in the process drives the clock. *)

From S2P Require Import Prelude GoStrings GoFloat GoValue Persist Store Clock Event Path Model Reflect Reflected Hydrate Schema Oid Router Http L2 Stp Traffic Sync Holdover Radio Links Trap Simulator.

(** ** The world *)

(** The store, the managers and the subscription of the synchronisation manager; the last
    field is a history, the events it has taken. *)
Record World : Type := mkWorld {
  wo_mem : Memory;
  wo_l2 : L2.Manager;
  wo_sync : Sync.Manager;
  wo_radio : Radio.Manager;
  wo_events : chan;
  wo_consumed : list Event;
}.

(** What a manager has published since, offered to the subscription. *)
Definition offer (old new : list Event) (c : chan) : chan :=
  foldl (λ c e, send_to e c) c (drop (length old) new).

(** A call of a manager, on the store the managers share. *)
Definition call_l2 {A} (f : L2.Manager → A * L2.Manager) (w : World) : A * World :=
  let '(a, s) := f (L2.with_mem (wo_l2 w) (wo_mem w)) in
  (a, mkWorld (mg_mem s) s (wo_sync w) (wo_radio w)
        (offer (mg_published (wo_l2 w)) (mg_published s) (wo_events w)) (wo_consumed w)).
Definition call_sync {A} (f : Sync.Manager → A * Sync.Manager) (w : World) : A * World :=
  let '(a, s) := f (Sync.with_mem (wo_sync w) (wo_mem w)) in
  (a, mkWorld (sm_mem s) (wo_l2 w) s (wo_radio w)
        (offer (sm_published (wo_sync w)) (sm_published s) (wo_events w)) (wo_consumed w)).
Definition call_radio {A} (f : Radio.Manager → A * Radio.Manager) (w : World) : A * World :=
  let '(a, s) := f (Radio.with_mem (wo_radio w) (wo_mem w)) in
  (a, mkWorld (rm_mem s) (wo_l2 w) (wo_sync w) s
        (offer (rm_published (wo_radio w)) (rm_published s) (wo_events w)) (wo_consumed w)).

(** The state and the error of [inject] as one result. *)
Definition injected (x : (string * res unit) * Radio.Manager) : res string * Radio.Manager :=
  let '(st, e, s) := x in (_ ← e; Ok st, s).

(** The simulators that [run] hands to the RESTCONF server. *)
Definition domain_simulators (r : Router) (now : time) : simulators World :=
  mkSimulators World
    (Some (λ w ctx port packets, call_l2 (Storm r now ctx port packets) w))
    (Some (λ w ctx source, call_sync (SyncLoss r now ctx source) w))
    (Some (λ w ctx link fadeDB, call_radio (λ s, injected (RadioFailure r now ctx link fadeDB s)) w))
    (Some (λ w ctx link, call_radio (λ s, injected (RadioRestore r now ctx link s)) w)).

(** The turn of [Run] of the synchronisation manager that takes an event. *)
Definition consume (r : Router) (now : time) (ctx : context) (w : World) : option (res unit * World) :=
  match ch_buf (wo_events w) with
  | [] => None
  | e :: rest =>
      Some (call_sync (handleDomainEvent r now ctx e)
        (mkWorld (wo_mem w) (wo_l2 w) (wo_sync w) (wo_radio w)
           (mkChan (ch_cap (wo_events w)) rest (ch_closed (wo_events w))) (wo_consumed w ++ [e])))
  end.

(** The turn that takes the token of an expired holdover. *)
Definition expire (r : Router) (now : time) (ctx : context) : World → res unit * World :=
  call_sync (λ s, expireHoldover r now ctx (with_channel s (sm_scheduled s) (sm_inflight s) false)).

(** What [run] assembles on the booted store; the managers with their default options. *)
Definition assemble (m : Memory) : World :=
  mkWorld m (L2.New m true 0 0 0 0) (Sync.New m true)
    (Radio.New m true 0 (mkThresholds F64.zero F64.zero F64.zero F64.zero) F64.zero F64.zero)
    (mkChan (Z.to_nat DefaultBuffer) [] false) [].

Inductive world_step (r : Router) : World → World → Prop :=
  | world_storm now ctx method body w : world_step r w (handleStorm (domain_simulators r now) ctx w method body).2
  | world_sync_loss now ctx method body w : world_step r w (handleSyncLoss (domain_simulators r now) ctx w method body).2
  | world_failure now ctx method body w : world_step r w (handleRadioFailure (domain_simulators r now) ctx w method body).2
  | world_restore now ctx method body w : world_step r w (handleRadioRestore (domain_simulators r now) ctx w method body).2
  | world_l2_tick now ctx w : world_step r w (call_l2 (Stp.Tick r now ctx) w).2
  | world_sync_tick now ctx draw w : world_step r w (call_sync (Sync.Tick r now ctx draw) w).2
  | world_radio_tick now ctx w : world_step r w (call_radio (Radio.Tick r now ctx) w).2
  | world_event now ctx x w w' : consume r now ctx w = Some (x, w') → world_step r w w'
  | world_fire id w : is_Some (sm_scheduled (wo_sync w) !! id) →
      world_step r w (call_sync (λ s, (tt, with_channel s (delete id (sm_scheduled s)) (S (sm_inflight s)) (sm_expired s))) w).2
  | world_send n w : sm_inflight (wo_sync w) = S n →
      world_step r w (call_sync (λ s, (tt, with_channel s (sm_scheduled s) n true)) w).2
  | world_expire now ctx w : sm_expired (wo_sync w) = true → world_step r w (expire r now ctx w).2
  | world_write mem e w : ev_Type e = TypeConfigChanged →
      world_step r w (mkWorld mem (wo_l2 w) (wo_sync w) (wo_radio w) (send_to e (wo_events w)) (wo_consumed w))
  | world_silent_write mem w :
      world_step r w (mkWorld mem (wo_l2 w) (wo_sync w) (wo_radio w) (wo_events w) (wo_consumed w)).

(** ** The domains in the world *)

Lemma call_l2_others {A} (f : L2.Manager → A * L2.Manager) w :
  wo_sync (call_l2 f w).2 = wo_sync w ∧ wo_radio (call_l2 f w).2 = wo_radio w ∧ wo_consumed (call_l2 f w).2 = wo_consumed w.
Proof. unfold call_l2. by destruct (f _). Qed.
Lemma call_sync_result {A} (f : Sync.Manager → A * Sync.Manager) w :
  (call_sync f w).1 = (f (Sync.with_mem (wo_sync w) (wo_mem w))).1 ∧
  wo_sync (call_sync f w).2 = (f (Sync.with_mem (wo_sync w) (wo_mem w))).2 ∧
  wo_radio (call_sync f w).2 = wo_radio w ∧ wo_consumed (call_sync f w).2 = wo_consumed w.
Proof. unfold call_sync. by destruct (f _). Qed.
Lemma call_radio_result {A} (f : Radio.Manager → A * Radio.Manager) w :
  (call_radio f w).1 = (f (Radio.with_mem (wo_radio w) (wo_mem w))).1 ∧
  wo_radio (call_radio f w).2 = (f (Radio.with_mem (wo_radio w) (wo_mem w))).2 ∧
  wo_sync (call_radio f w).2 = wo_sync w ∧ wo_consumed (call_radio f w).2 = wo_consumed w.
Proof. unfold call_radio. by destruct (f _). Qed.
Lemma injected_snd x : (injected x).2 = x.2.
Proof. by destruct x as [[] ]. Qed.

(** A request leaves the world alone or runs its simulator. *)
Lemma handleStorm_world r now ctx w method body :
  let w' := (handleStorm (domain_simulators r now) ctx w method body).2 in
  w' = w ∨ ∃ port packets, w' = (call_l2 (Storm r now ctx port packets) w).2.
Proof.
  unfold handleStorm, simulate. destruct (negb _); [by left|]. cbn [domain_simulators sim_Storm].
  destruct body as [| |[port packets]]; cbn [decodeSim]; [by left|by left|]. destruct (String.eqb port ""); [by left|].
  right. exists port, packets. by destruct (call_l2 _ w) as [[]].
Qed.
Lemma handleSyncLoss_world r now ctx w method body :
  let w' := (handleSyncLoss (domain_simulators r now) ctx w method body).2 in
  w' = w ∨ ∃ source, w' = (call_sync (SyncLoss r now ctx source) w).2.
Proof.
  unfold handleSyncLoss, simulate. destruct (negb _); [by left|]. cbn [domain_simulators sim_SyncLoss].
  destruct body as [| |source]; cbn [decodeSim]; [by left|by left|].
  right. exists source. by destruct (call_sync _ w) as [[]].
Qed.
Lemma handleRadioFailure_world r now ctx w method body :
  let w' := (handleRadioFailure (domain_simulators r now) ctx w method body).2 in
  w' = w ∨ ∃ link fade, w' = (call_radio (λ s, injected (RadioFailure r now ctx link fade s)) w).2.
Proof.
  unfold handleRadioFailure, simulate. destruct (negb _); [by left|]. cbn [domain_simulators sim_RadioFailure].
  destruct body as [| |[link fade]]; cbn [decodeSim]; [by left|by left|]. destruct (F64.ltb _ _); [by left|].
  right. exists link, fade. by destruct (call_radio _ w) as [[]].
Qed.
Lemma handleRadioRestore_world r now ctx w method body :
  let w' := (handleRadioRestore (domain_simulators r now) ctx w method body).2 in
  w' = w ∨ ∃ link, w' = (call_radio (λ s, injected (RadioRestore r now ctx link s)) w).2.
Proof.
  unfold handleRadioRestore, simulate. destruct (negb _); [by left|]. cbn [domain_simulators sim_RadioRestore].
  destruct body as [| |link]; cbn [decodeSim]; [by left|by left|].
  right. exists link. by destruct (call_radio _ w) as [[]].
Qed.

(** What a step of the world is for the clock. *)
Inductive clock_input (r : Router) (s : Sync.Manager) : option Event → Sync.Manager → Prop :=
  | input_none : clock_input r s None s
  | input_loss now ctx mem source : clock_input r s None (SyncLoss r now ctx source (Sync.with_mem s mem)).2
  | input_tick now ctx mem draw : clock_input r s None (Sync.Tick r now ctx draw (Sync.with_mem s mem)).2
  | input_event now ctx mem e : clock_input r s (Some e) (handleDomainEvent r now ctx e (Sync.with_mem s mem)).2
  | input_fire id mem : is_Some (sm_scheduled s !! id) →
      clock_input r s None (with_channel (Sync.with_mem s mem) (delete id (sm_scheduled s)) (S (sm_inflight s)) (sm_expired s))
  | input_send n mem : sm_inflight s = S n → clock_input r s None (with_channel (Sync.with_mem s mem) (sm_scheduled s) n true)
  | input_expire now ctx mem : sm_expired s = true →
      clock_input r s None (expireHoldover r now ctx (with_channel (Sync.with_mem s mem) (sm_scheduled s) (sm_inflight s) false)).2.

Lemma world_clock r w w' : world_step r w w' →
  ∃ input, clock_input r (wo_sync w) input (wo_sync w') ∧ wo_consumed w' = wo_consumed w ++ option_list input.
Proof.
  assert (∀ w w', wo_sync w' = wo_sync w → wo_consumed w' = wo_consumed w →
    ∃ input, clock_input r (wo_sync w) input (wo_sync w') ∧ wo_consumed w' = wo_consumed w ++ option_list input) as Hquiet.
  { intros x y -> ->. exists None. split; [constructor|by rewrite app_nil_r]. }
  assert (∀ A (f : Sync.Manager → A * Sync.Manager) w, clock_input r (wo_sync w) None (f (Sync.with_mem (wo_sync w) (wo_mem w))).2 →
    ∃ input, clock_input r (wo_sync w) input (wo_sync (call_sync f w).2) ∧ wo_consumed (call_sync f w).2 = wo_consumed w ++ option_list input) as Hcall.
  { intros A f x H. destruct (call_sync_result f x) as (_ & -> & _ & ->). exists None. split; [done|by rewrite app_nil_r]. }
  intros H. destruct H as [now ctx method body w|now ctx method body w|now ctx method body w|now ctx method body w
    |now ctx w|now ctx draw w|now ctx w|now ctx x w w' Hc|id w Hid|n w Hn|now ctx w He|mem e w _|mem w].
  - destruct (handleStorm_world r now ctx w method body) as [->|(port & packets & ->)]; apply Hquiet; try done; apply call_l2_others.
  - destruct (handleSyncLoss_world r now ctx w method body) as [->|(source & ->)]; [by apply Hquiet|]. apply Hcall. constructor.
  - destruct (handleRadioFailure_world r now ctx w method body) as [->|(link & fade & ->)]; apply Hquiet; try done; apply call_radio_result.
  - destruct (handleRadioRestore_world r now ctx w method body) as [->|(link & ->)]; apply Hquiet; try done; apply call_radio_result.
  - apply Hquiet; apply call_l2_others.
  - apply Hcall. constructor.
  - apply Hquiet; apply call_radio_result.
  - revert Hc. unfold consume. destruct (ch_buf (wo_events w)) as [|e rest]; [done|]. intros [= Hc].
    exists (Some e). apply (f_equal snd) in Hc. cbn [snd] in Hc. rewrite <- Hc.
    match goal with |- context [call_sync ?f ?x] => destruct (call_sync_result f x) as (_ & -> & _ & ->) end.
    split; [apply input_event|done].
  - apply Hcall. exact (input_fire r (wo_sync w) id (wo_mem w) Hid).
  - apply Hcall. exact (input_send r (wo_sync w) n (wo_mem w) Hn).
  - apply Hcall. exact (input_expire r (wo_sync w) now ctx (wo_mem w) He).
  - by apply Hquiet.
  - by apply Hquiet.
Qed.

Lemma world_radio r w w' : world_step r w w' → rtc (radio_step r) (wo_radio w) (wo_radio w').
Proof.
  assert (∀ w w', wo_radio w' = wo_radio w → rtc (radio_step r) (wo_radio w) (wo_radio w')) as Hquiet by (by intros x y ->).
  assert (∀ A (f : Radio.Manager → A * Radio.Manager) w, (∀ s, radio_step r s (f s).2) →
    rtc (radio_step r) (wo_radio w) (wo_radio (call_radio f w).2)) as Hcall.
  { intros A f x H. destruct (call_radio_result f x) as (_ & -> & _). eapply rtc_l; [apply radio_other|]. apply rtc_once, H. }
  intros H. destruct H as [now ctx method body w|now ctx method body w|now ctx method body w|now ctx method body w
    |now ctx w|now ctx draw w|now ctx w|now ctx x w w' Hc|id w Hid|n w Hn|now ctx w He|mem e w _|mem w].
  - destruct (handleStorm_world r now ctx w method body) as [->|(port & packets & ->)]; apply Hquiet; try done; apply call_l2_others.
  - destruct (handleSyncLoss_world r now ctx w method body) as [->|(source & ->)]; apply Hquiet; try done; apply call_sync_result.
  - destruct (handleRadioFailure_world r now ctx w method body) as [->|(link & fade & ->)]; [done|].
    apply Hcall. intros s. rewrite injected_snd. apply radio_inject.
  - destruct (handleRadioRestore_world r now ctx w method body) as [->|(link & ->)]; [done|].
    apply Hcall. intros s. rewrite injected_snd. apply radio_inject.
  - apply Hquiet, call_l2_others.
  - apply Hquiet, call_sync_result.
  - apply Hcall. intros s. apply radio_tick.
  - revert Hc. unfold consume. destruct (ch_buf (wo_events w)) as [|e rest]; [done|]. intros [= Hc].
    apply (f_equal snd) in Hc. cbn [snd] in Hc. rewrite <- Hc. apply Hquiet.
    match goal with |- context [call_sync ?f ?x] => destruct (call_sync_result f x) as (_ & _ & -> & _) end. done.
  - apply Hquiet, call_sync_result.
  - apply Hquiet, call_sync_result.
  - apply Hquiet, call_sync_result.
  - done.
  - done.
Qed.

Lemma input_steps r s input s' : clock_input r s input s' → rtc (sync_step r true) s s'.
Proof.
  intros H. destruct H as [|now ctx mem source|now ctx mem draw|now ctx mem e|id mem Hid|n mem Hn|now ctx mem He]; [done|..];
    (eapply rtc_l; [apply (step_other r true mem)|]); apply rtc_once; try by constructor.
  - by apply (step_fire r true id (Sync.with_mem s mem)).
  - by apply (step_send r true n (Sync.with_mem s mem)).
  - destruct (expireHoldover r now ctx _) as [[[]|e] s1] eqn:E.
    + by apply (step_drain r true now ctx (Sync.with_mem s mem) s1).
    + by apply (step_drain_failed r true now ctx (Sync.with_mem s mem) s1 e).
Qed.

(** A history of the world is a history of each domain, beside other writers. *)
Lemma world_sync_reachable r m w : rtc (world_step r) (assemble m) w → rtc (sync_step r true) (Sync.New m true) (wo_sync w).
Proof.
  intros H. change (Sync.New m true) with (wo_sync (assemble m)). induction H as [|x y z Hxy _ IH]; [done|].
  apply world_clock in Hxy as (input & Hi & _). etrans; [by eapply input_steps|exact IH].
Qed.
Lemma world_radio_reachable r m w : rtc (world_step r) (assemble m) w → alarms_inv (wo_radio w).
Proof.
  intros H. eapply (alarms_inv_reachable r m 0 (mkThresholds F64.zero F64.zero F64.zero F64.zero) F64.zero F64.zero).
  change (rtc (radio_step r) (wo_radio (assemble m)) (wo_radio w)).
  induction H as [|x y z Hxy _ IH]; [done|]. etrans; [by eapply world_radio|exact IH].
Qed.

(** ** What the inputs of the process can do to the clock *)

(** The alarms of the radio domain that the clock reacts to. *)
Definition link_failed (e : Event) : Prop := ev_Type e = TypeAlarmRaised ∧ ev_Alarm e = AlarmRadioLinkDown.
Definition link_restored (e : Event) : Prop := ev_Type e = TypeAlarmCleared ∧ ev_Alarm e = AlarmRadioLinkDown.

Definition keeps {A} (P : Sync.Manager → Prop) (m : ST Sync.Manager A) : Prop := ∀ s, P s → P (m s).2.

(** A property of the clock that quiet steps, the adoption and the events of some types keep
    is kept by every operation that uses only those types. *)
Class Kept (allowed : EventType → Prop) (P : Sync.Manager → Prop) : Prop := {
  kept_quiet s s' : clock_view s' = clock_view s → P s → P s';
  kept_channel s sched inflight token : P s → P (with_channel s sched inflight token);
  kept_adopt now d : keeps P (st_modify (adopt now d));
  kept_event r now ctx typ reason : allowed typ → keeps P (handleLocked r now ctx typ reason);
}.

Create HintDb keeps.

Section kept.
Context (allowed : EventType → Prop) (P : Sync.Manager → Prop) `{!Kept allowed P}.

Lemma keeps_bind {A B} (m : ST Sync.Manager A) (k : A → ST Sync.Manager B) :
  keeps P m → (∀ a, keeps P (k a)) → keeps P (m ≫= k).
Proof.
  intros Hm Hk s Hs. specialize (Hm s Hs). unfold mbind, st_bind. destruct (m s) as [[a|e] s1]; [by apply Hk|done].
Qed.
Lemma keeps_ret {A} (a : A) : keeps P (mret a).
Proof. by intros s. Qed.
Lemma keeps_get : keeps P st_get.
Proof. by intros s. Qed.
Lemma keeps_lift {A} (x : res A) : keeps P (st_lift x).
Proof. by intros s. Qed.
Lemma keeps_fail {A} e : keeps P (@st_fail Sync.Manager A e).
Proof. by intros s. Qed.
Lemma keeps_offset f : keeps P (st_modify (λ s, with_offset s (f s))).
Proof. intros s. by apply kept_quiet. Qed.
Lemma keeps_write r now ctx b path v : keeps P (write_if r now ctx b path v).
Proof.
  intros s Hs. unfold write_if. destruct b; [|done]. unfold st_try, stateWrite.
  destruct (SetState r (sm_mem s) now ctx path v). by apply (kept_quiet s).
Qed.
Lemma keeps_snapshot r ctx : keeps P (st_wrap "sync" (Sync.snapshot r ctx)).
Proof. intros s Hs. unfold st_wrap, Sync.snapshot. by destruct (Router_Snapshot r (sm_mem s) ctx Running). Qed.

Hint Resolve keeps_ret keeps_get keeps_lift keeps_fail keeps_offset keeps_write keeps_snapshot kept_adopt kept_event : keeps.
Ltac keep := repeat first [progress eauto with keeps|apply keeps_bind; [by eauto with keeps|intros ?]].

Lemma SyncLoss_keeps r now ctx source : allowed EventSourceLost → keeps P (SyncLoss r now ctx source).
Proof. intros H. unfold SyncLoss. destruct (String.eqb source ""); keep. destruct (negb _); keep. Qed.

Lemma Tick_keeps r now ctx draw : allowed EventSourceDetected → allowed EventCalibrationComplete →
  keeps P (Sync.Tick r now ctx draw).
Proof.
  intros H1 H2. unfold Sync.Tick. keep. apply keeps_bind; [|intros _; apply keeps_bind; [|intros _]].
  - unfold reconcilePTP. keep. destruct (_ || _); keep.
  - unfold refreshSyncE. destruct (selectSyncESource _) as [[name ql] extended]. keep.
  - unfold refreshQuality. keep.
Qed.

Lemma expireHoldover_keeps r now ctx : allowed EventHoldoverExpired → keeps P (expireHoldover r now ctx).
Proof. intros H. unfold expireHoldover. keep. destruct (negb _); keep. Qed.

Lemma handleDomainEvent_keeps r now ctx e : allowed EventSourceLost → (link_restored e → allowed EventSourceRestored) →
  keeps P (handleDomainEvent r now ctx e).
Proof.
  intros H1 H2. unfold handleDomainEvent.
  destruct (String.eqb_spec (ev_Alarm e) AlarmRadioLinkDown) as [Ha|Ha]; cbn [negb]; [|keep].
  destruct (String.eqb_spec (ev_Type e) TypeAlarmRaised) as [Ht|Ht]; [keep|].
  destruct (String.eqb_spec (ev_Type e) TypeAlarmCleared) as [Hc|Hc]; [|keep].
  apply keeps_bind; [|intros _; keep]. apply kept_event. by apply H2.
Qed.

(** An input of the process keeps it. *)
Lemma input_keeps r s input s' : clock_input r s input s' →
  Forall allowed [EventSourceLost; EventSourceDetected; EventCalibrationComplete; EventHoldoverExpired] →
  (∀ e, input = Some e → link_restored e → allowed EventSourceRestored) → P s → P s'.
Proof.
  intros H (H1 & (H2 & (H3 & (H4 & _)%Forall_cons)%Forall_cons)%Forall_cons)%Forall_cons He Hs.
  assert (∀ mem, P (Sync.with_mem s mem)) as Hm by (intros mem; by apply (kept_quiet s)).
  destruct H as [|now ctx mem source|now ctx mem draw|now ctx mem e|id mem Hid|n mem Hn|now ctx mem Hx]; [done|..].
  - by apply SyncLoss_keeps.
  - by apply Tick_keeps.
  - apply handleDomainEvent_keeps; [done|by apply He|done].
  - by apply kept_channel.
  - by apply kept_channel.
  - apply expireHoldover_keeps; [done|]. by apply kept_channel.
Qed.
End kept.

(** *** Holdover *)

Definition held (s : Sync.Manager) : Prop := sm_known s = true ∧ holdover (sm_state s).

Lemma moved_state now next reason device s : sm_state (moved now next reason device s) = next.
Proof. unfold moved. by destruct device, (sm_bus s), (String.eqb next PTPStateHoldoverOutOfSpec). Qed.
Lemma moved_known now next reason device s : sm_known (moved now next reason device s) = true.
Proof. unfold moved. by destruct device, (sm_bus s), (String.eqb next PTPStateHoldoverOutOfSpec). Qed.

Lemma moved_published now next reason device s : sm_published (moved now next reason device s) =
  sm_published s ++ (if sm_bus s then clock_events now (sm_state s) next reason else []).
Proof. unfold moved. destruct device, (sm_bus s), (String.eqb next PTPStateHoldoverOutOfSpec); cbn; by rewrite ?app_nil_r. Qed.

(** Only a restored source and a reset end a holdover. *)
Lemma nextState_held st typ next : holdover st → typ ≠ EventSourceRestored → typ ≠ EventReset →
  nextState st typ = Some next → holdover next.
Proof.
  intros Hst H1 H2. destruct typ; cbn [nextState]; try done;
    repeat match goal with |- context [String.eqb st ?x] => destruct (String.eqb_spec st x) as [-> |] end; by intros [= <-].
Qed.

(** An event leaves a known clock as it is or moves it. *)
Lemma handleLocked_cases r now ctx typ reason s : sm_known s = true →
  (∃ x m, handleLocked r now ctx typ reason s = (x, Sync.with_mem s m)) ∨
  ∃ m device next, nextState (sm_state s) typ = Some next ∧ next ≠ sm_state s ∧
    (is_Some device ↔ next = PTPStateHoldoverInSpec) ∧
    handleLocked r now ctx typ reason s = (Ok next, moved now next reason device (Sync.with_mem s m)).
Proof.
  intros Hk. assert (Sync.with_mem s (sm_mem s) = s) as Hid by by destruct s.
  unfold handleLocked, ensureState, mbind, st_bind, st_get. destruct (negb _); [left; eexists _, _; by rewrite Hid|].
  rewrite Hk. cbn [mret st_ret]. destruct (nextState (sm_state s) typ) as [next|]; [|left; eexists _, _; by rewrite Hid].
  destruct (String.eqb_spec next (sm_state s)) as [|Hne]; [left; eexists _, _; by rewrite Hid|].
  destruct (transition_cases r now ctx next reason s) as [(e & m & ->)|(m & device & Hd & ->)]; [by left; eexists _, _|].
  right. by exists m, device, next.
Qed.

Global Instance held_kept : Kept (λ typ, typ ≠ EventSourceRestored ∧ typ ≠ EventReset) held.
Proof.
  split.
  - intros s s' [= _ _ Hs Hk _ _ _ _]. unfold held. by rewrite Hs, Hk.
  - done.
  - intros now d s [Hk Hh]. unfold st_modify, adopt. simpl. by rewrite Hk.
  - intros r now ctx typ reason [H1 H2] s [Hk Hh].
    destruct (handleLocked_cases r now ctx typ reason s Hk) as [(x & m & ->)|(m & device & next & Hn & _ & _ & ->)]; [done|].
    pose proof (nextState_held _ _ _ Hh H1 H2 Hn) as Hnext.
    unfold held. cbn [snd]. by rewrite moved_state, moved_known.
Qed.

Lemma input_held r s input s' : clock_input r s input s' → Forall (λ e, ¬ link_restored e) (option_list input) → held s → held s'.
Proof.
  intros H He. eapply input_keeps; [apply held_kept|exact H|by repeat constructor|]. intros e -> Hre. by inversion He.
Qed.

Lemma world_held r w w' later : rtc (world_step r) w w' → wo_consumed w' = wo_consumed w ++ later →
  Forall (λ e, ¬ link_restored e) later → held (wo_sync w) → held (wo_sync w').
Proof.
  intros H. revert later. induction H as [w|w w1 w' Hstep Hrest IH]; intros later Hl Hno Hw; [done|].
  destruct (world_clock r w w1 Hstep) as (input & Hi & Hc).
  assert (∃ rest, wo_consumed w' = wo_consumed w1 ++ rest) as [rest Hr].
  { clear -Hrest. induction Hrest as [|x y z Hxy _ [rest IH]]; [exists []; by rewrite app_nil_r|].
    destruct (world_clock r x y Hxy) as (input & _ & Hc). exists (option_list input ++ rest). by rewrite IH, Hc, <- app_assoc. }
  rewrite Hr, Hc, <- app_assoc in Hl. apply app_inv_head in Hl as <-. apply Forall_app in Hno as [H1 H2].
  eapply IH; [exact Hr|exact H2|]. by eapply input_held.
Qed.

(** A known clock that takes an event does what the state machine says. *)
Lemma handleLocked_next r now ctx typ reason next s s' x : sm_known s = true → event_valid typ = true →
  nextState (sm_state s) typ = Some next → next ≠ sm_state s →
  handleLocked r now ctx typ reason s = (Ok x, s') → sm_state s' = next.
Proof.
  intros Hk Hv Hn Hne%String.eqb_neq. unfold handleLocked, ensureState, mbind, st_bind, st_get.
  rewrite Hv. cbn [negb]. rewrite Hk. cbn [mret st_ret]. rewrite Hn, Hne.
  destruct (transition_cases r now ctx next reason s) as [(e & m & ->)|(m & device & _ & ->)]; [done|].
  intros [= _ <-]. apply moved_state.
Qed.

Lemma known_state r m w : rtc (world_step r) (assemble m) w → sm_state (wo_sync w) ≠ "" →
  sm_known (wo_sync w) = true ∧ validState (sm_state (wo_sync w)) = true.
Proof.
  intros [_ Hu Hk]%world_sync_reachable%clock_inv_reachable Hst.
  destruct (sm_known (wo_sync w)); [split; [done|by apply Hk]|]. by destruct (Hu eq_refl).
Qed.

Lemma consume_clock r now ctx w e rest x w1 : ch_buf (wo_events w) = e :: rest → consume r now ctx w = Some (x, w1) →
  handleDomainEvent r now ctx e (Sync.with_mem (wo_sync w) (wo_mem w)) = (x, wo_sync w1).
Proof.
  unfold consume. intros ->. intros [= H]. unfold call_sync in H. simpl in H.
  destruct (handleDomainEvent _ _ _ _ _) as [y s]. by injection H as <- <-.
Qed.

Lemma holdover_valid st : holdover st → validState st = true → st = PTPStateHoldoverInSpec ∨ st = PTPStateHoldoverOutOfSpec.
Proof.
  intros Hh Hv%one_of_ok. repeat apply elem_of_cons in Hv as [->|Hv]; try by vm_compute in Hh.
  - by left.
  - by right.
  - by apply elem_of_nil in Hv.
Qed.


(** ** The answers of the radio endpoints *)

Lemma evaluateLink_state r now ctx name link s s' : evaluateLink r now ctx name link s = (Ok tt, s') →
  ∃ st, rm_states s' !! name = Some st.
Proof.
  unfold evaluateLink, mbind, st_bind, st_get, st_lift, st_modify.
  destruct (write_all _ _ _ _ _) as [[l|] s1]; [|done]. destruct (errors_join l); [|done].
  match goal with |- context [String.eqb ?n ?c] => destruct (String.eqb n c) end.
  - intros [= <-]. simpl. rewrite lookup_insert_eq. by eexists.
  - destruct (state_write _ _ _ _ _ _) as [[[]|] s2]; [|done]. destruct (report _ _ _ _ _ _ _) as [[[]|] s3]; [|done].
    intros [= <-]. simpl. rewrite lookup_insert_eq. by eexists.
Qed.

Lemma find_radio_name l link i rl : find_radio l link = Some (i, rl) → link = "" ∨ if_Name i = link.
Proof.
  induction l as [|x l IH]; cbn [find_radio]; [done|]. destruct (if_RadioLink x); [|done].
  destruct (String.eqb_spec link "") as [|]; [by left|]. destruct (String.eqb_spec (if_Name x) link) as [Hn|]; [|done].
  intros [= <- _]. by right.
Qed.

Lemma inject_answers r now ctx link fade restore s st s' : inject r now ctx link fade restore s = ((st, Ok tt), s') →
  ∃ name, (link = "" ∨ name = link) ∧ rm_states s' !! name = Some st.
Proof.
  unfold inject, st_wrap, snapshot. destruct (Router_Snapshot _ _ _ _) as [d|]; [|done].
  destruct (findRadioInterface d link) as [[i rl]|] eqn:Hf; [|done]. apply find_radio_name in Hf.
  destruct (evaluateLink _ _ _ _ _ _) as [x s1] eqn:E. intros [= <- -> <-].
  destruct (evaluateLink_state _ _ _ _ _ _ _ E) as [st Hst]. exists (if_Name i). by rewrite Hst.
Qed.

(** The two radio requests. *)
Definition radio_request (r : Router) (now : time) (ctx : context) (link : string) (fade : option float64) (w : World) : response * World :=
  match fade with
  | Some fade => handleRadioFailure (domain_simulators r now) ctx w "POST" (SimDecoded (link, fade))
  | None => handleRadioRestore (domain_simulators r now) ctx w "POST" (SimDecoded link)
  end.

(** An accepted request ran [inject] and answers its state. *)
Lemma request_injects r now ctx link fade w : rs_status (radio_request r now ctx link fade w).1 = 202%Z →
  ∃ st depth restore, radio_request r now ctx link fade w =
      (accepted [("status", "ok"); ("link", link); ("state", st)], (radio_request r now ctx link fade w).2) ∧
    inject r now ctx link depth restore (Radio.with_mem (wo_radio w) (wo_mem w)) =
      ((st, Ok tt), wo_radio (radio_request r now ctx link fade w).2).
Proof.
  unfold radio_request, handleRadioFailure, handleRadioRestore, simulate.
  change (negb (String.eqb "POST" "POST")) with false. cbn iota.
  destruct fade as [fade|]; cbn [domain_simulators sim_RadioFailure sim_RadioRestore decodeSim].
  - destruct (F64.ltb fade (F64.of_Z 0)); [done|]. unfold call_radio, injected, RadioFailure.
    destruct (inject _ _ _ _ _ _ _) as [[st [[]|e]] s] eqn:E; [|done]. intros _. exists st, fade, false. by rewrite E.
  - unfold call_radio, injected, RadioRestore.
    destruct (inject _ _ _ _ _ _ _) as [[st [[]|e]] s] eqn:E; [|done]. intros _. exists st, F64.zero, true. by rewrite E.
Qed.

(** An accepted radio simulation tells the truth. In the assembled process, after any
    history: when POST radio-failure or radio-restore answers 202, the state in the answer
    is the state the radio domain now has for the link (the named one, or the first one when
    none is named), the alarm left active by the events published for that link is the alarm
    of that state, and the last link trap of those events, if there is one, says whether it
    is down. *)
Theorem radio_answer_truthful r m w now ctx link fade :
  rtc (world_step r) (assemble m) w → rs_status (radio_request r now ctx link fade w).1 = 202%Z →
  let w' := (radio_request r now ctx link fade w).2 in
  ∃ st name, (link = "" ∨ name = link) ∧
    (radio_request r now ctx link fade w).1 = accepted [("status", "ok"); ("link", link); ("state", st)] ∧
    rm_states (wo_radio w') !! name = Some st ∧ validLinkState st = true ∧
    let events := events_of name (rm_published (wo_radio w')) in
    (∃ initial, alarm_replay initial events = Some (alarm_of st)) ∧
    (link_traps events ≠ [] → last (link_traps events) =
       Some (if String.eqb st RadioLinkStateDown then TrapRadioLinkDown else TrapRadioLinkUp)).
Proof.
  intros Hr H202. destruct (request_injects _ _ _ _ _ _ H202) as (st & depth & restore & Hresp & Hinj). cbv zeta.
  assert (alarms_inv (wo_radio (radio_request r now ctx link fade w).2)) as Hinv.
  { apply (world_radio_reachable r m). eapply rtc_r; [exact Hr|]. unfold radio_request. destruct fade; constructor. }
  destruct (inject_answers _ _ _ _ _ _ _ _ _ Hinj) as (name & Hname & Hst). exists st, name.
  split; [done|]. split; [by rewrite Hresp|]. split; [done|]. split; [by eapply ai_valid|].
  split; [by apply (ai_replay _ Hinv)|]. intros Hne. destruct (link_traps_last _ _ _ Hinv Hst Hne) as [H1 H2].
  destruct (String.eqb_spec st RadioLinkStateDown); [by apply H1|by apply H2].
Qed.

(** A failed and restored link on the booted device, to the clock. *)
Definition started : World := (call_sync (Sync.Tick default_router 2 true F64.zero) (assemble booted.1.2)).2.
Definition failed : response * World := radio_request default_router 3 true "radio0" (Some F64.zero) started.
Definition lost_reference : res unit * World := default (Err [], failed.2) (consume default_router 4 true failed.2).
Definition mended : response * World := radio_request default_router 5 true "radio0" None lost_reference.2.

Lemma failed_reachable : rtc (world_step default_router) (assemble booted.1.2) failed.2.
Proof.
  eapply rtc_l; [apply (world_sync_tick default_router 2 true F64.zero)|]. apply rtc_once.
  apply (world_failure default_router 3 true "POST" (SimDecoded ("radio0", F64.zero))).
Qed.

Lemma some_fst {A B} (o : option (A * B)) a d : fst <$> o = Some a → o = Some (a, (default d o).2).
Proof. destruct o as [[x y]|]; simpl; [by intros [= ->]|done]. Qed.

Lemma lost_step : consume default_router 4 true failed.2 = Some (Ok tt, lost_reference.2).
Proof. apply some_fst. vm_compute. reflexivity. Qed.

Lemma radio_answer_truthful_witness :
  rs_status failed.1 = 202%Z ∧
  ∃ st name, ("radio0" = "" ∨ name = "radio0") ∧
    failed.1 = accepted [("status", "ok"); ("link", "radio0"); ("state", st)] ∧
    rm_states (wo_radio failed.2) !! name = Some st ∧ validLinkState st = true ∧
    let events := events_of name (rm_published (wo_radio failed.2)) in
    (∃ initial, alarm_replay initial events = Some (alarm_of st)) ∧
    (link_traps events ≠ [] → last (link_traps events) =
       Some (if String.eqb st RadioLinkStateDown then TrapRadioLinkDown else TrapRadioLinkUp)).
Proof.
  assert (H : rs_status failed.1 = 202%Z) by (vm_compute; reflexivity). split; [exact H|].
  apply (radio_answer_truthful default_router booted.1.2 started 3 true "radio0" (Some F64.zero)); [|exact H].
  apply rtc_once, (world_sync_tick default_router 2 true F64.zero).
Defined.


(** The whole way: the request answers down, the clock holds over, the restore answers up and
    the clock locks after its own transition and the clear have been taken. *)
Example failure_and_restore :
  failed.1 = accepted [("status", "ok"); ("link", "radio0"); ("state", "down")] ∧
  mended.1 = accepted [("status", "ok"); ("link", "radio0"); ("state", "up")] ∧
  ((λ x, sm_state (wo_sync x.2)) <$> (x ← consume default_router 6 true mended.2; consume default_router 7 true x.2)) = Some "locked".
Proof. vm_compute. done. Qed.

(** A loss injected by the endpoint has no counterpart: after it the clock stays in holdover
    through a tick and a radio restore that changes nothing. *)
Example injected_loss_stays :
  let lost := handleSyncLoss (domain_simulators default_router 3) true started "POST" (SimDecoded "") in
  let after := (call_sync (Sync.Tick default_router 5 true F64.zero) (radio_request default_router 4 true "radio0" None lost.2).2).2 in
  lost.1 = accepted [("status", "ok"); ("port", ""); ("state", "holdover-in-spec")] ∧
  sm_state (wo_sync after) = "holdover-in-spec" ∧ filter link_restored (ch_buf (wo_events after)) = [].
Proof. vm_compute. done. Qed.

(** ** The traps of the process *)

(** No transition from holdover to free-run has been published. *)
Definition never_reset (s : Sync.Manager) : Prop :=
  Forall (λ e, ev_Type e = TypeStateTransition → holdover (ev_From e) → ev_To e ≠ PTPStateFreerun) (sm_published s).

Lemma handleLocked_adopts r now ctx typ reason s : sm_known s = false →
  (∃ e, handleLocked r now ctx typ reason s = (Err e, s)) ∨
  ∃ d, handleLocked r now ctx typ reason s = handleLocked r now ctx typ reason (adopt now d s).
Proof.
  intros Hk. unfold handleLocked. destruct (negb _); [left; by eexists|].
  unfold ensureState, mbind, st_bind, st_get, st_wrap, Sync.snapshot, st_modify. rewrite Hk.
  destruct (Router_Snapshot r (sm_mem s) ctx Running) as [d|e]; [|left; by eexists].
  right. exists d. by rewrite adopt_known.
Qed.

Lemma adopt_published now d s : sm_published (adopt now d s) = sm_published s.
Proof. unfold adopt. destruct (sm_known s); [done|]. by destruct (String.eqb _ PTPStateHoldoverInSpec). Qed.

Lemma clock_events_transition now from next reason e : e ∈ clock_events now from next reason →
  ev_Type e = TypeStateTransition → ev_From e = from ∧ ev_To e = next.
Proof.
  assert (∀ e, ev_Type (stamp now e) ≠ TypeStateTransition ∨ (ev_From (stamp now e) = from ∧ ev_To (stamp now e) = next) →
    ev_Type (stamp now e) = TypeStateTransition → ev_From (stamp now e) = from ∧ ev_To (stamp now e) = next) as Hx by (by intros x []).
  unfold clock_events. rewrite elem_of_app, list_elem_of_singleton. intros [->|He].
  - apply Hx. right. destruct (stamp_fields now (mkEvent TypeStateTransition "ptp/clock" ""
      ("ptp clock: " +:+ from +:+ " -> " +:+ next +:+ " (" +:+ (if String.eqb reason "" then next else reason) +:+ ")")
      DomainSync "" from next 0)) as (_ & _ & -> & ->). done.
  - destruct (String.eqb next PTPStateHoldoverOutOfSpec); [|destruct (String.eqb from PTPStateHoldoverOutOfSpec)];
      [apply list_elem_of_singleton in He as ->..|by apply elem_of_nil in He]; apply Hx; left;
      match goal with |- ev_Type (stamp _ ?x) ≠ _ => destruct (stamp_fields now x) as (-> & _) end; done.
Qed.

Global Instance never_reset_kept : Kept (λ typ, typ ≠ EventReset) never_reset.
Proof.
  assert (∀ r now ctx typ reason s, typ ≠ EventReset → sm_known s = true → never_reset s →
    never_reset (handleLocked r now ctx typ reason s).2) as Hknown.
  { intros r now ctx typ reason s Ht Hk Hs.
    destruct (handleLocked_cases r now ctx typ reason s Hk) as [(x & m & ->)|(m & device & next & Hn & _ & _ & ->)]; [done|].
    unfold never_reset in *. cbn [snd]. rewrite moved_published. apply Forall_app. split; [done|].
    destruct (sm_bus _); [|constructor]. apply Forall_forall. intros e He Htr Hh Hf.
    destruct (clock_events_transition _ _ _ _ _ He Htr) as [E1 E2]. rewrite E1 in Hh. cbn in Hh. rewrite Hf in E2. subst next.
    revert Hn. destruct typ; cbn [nextState]; try done;
      repeat match goal with |- context [String.eqb (sm_state s) ?x] => destruct (String.eqb_spec (sm_state s) x) as [Hx|] end; try done.
    by rewrite Hx in Hh. }
  split.
  - intros s s' [= Hp _ _ _ _ _ _ _]. unfold never_reset. by rewrite Hp.
  - done.
  - intros now d s Hs. unfold never_reset. cbn. by rewrite adopt_published.
  - intros r now ctx typ reason Ht s Hs. destruct (sm_known s) eqn:Hk; [by apply Hknown|].
    destruct (handleLocked_adopts r now ctx typ reason s Hk) as [[e ->]|[d ->]]; [done|].
    apply Hknown; [done|apply adopt_known|]. unfold never_reset. by rewrite adopt_published.
Qed.

Lemma world_never_reset r m w : rtc (world_step r) (assemble m) w → never_reset (wo_sync w).
Proof.
  intros H. assert (never_reset (wo_sync (assemble m))) as H0 by constructor. induction H as [|x y z Hxy _ IH]; [done|].
  apply IH. apply world_clock in Hxy as (input & Hi & _).
  eapply input_keeps; [apply never_reset_kept|exact Hi|by repeat constructor|done|done].
Qed.

Lemma last_sync_trap l : sync_traps l ≠ [] → last (sync_traps l) = Some TrapSyncHoldover ∨ last (sync_traps l) = Some TrapSyncRestored.
Proof.
  intros Hne. destruct (last (sync_traps l)) as [t|] eqn:E; [|by apply last_None in E].
  apply last_Some_elem_of in E. apply list_elem_of_filter in E as [[-> | ->] _]; auto.
Qed.



(** ** The alarm command ([internal/cli/alarm.go]) *)

(** [alarmInjections]: the endpoint and the fade a type asks for; zero leaves it to the domain. *)
Definition radioFailureEndpoint : string := "/api/simulate/radio-failure".
Definition alarmInjections (alarmType : string) : option (string * float64) :=
  if String.eqb alarmType "radioLinkDown" then Some (radioFailureEndpoint, F64.zero)
  else if String.eqb alarmType "radioLinkDegraded" then Some (radioFailureEndpoint, DefaultDegradeFadeDB)
  else if String.eqb alarmType "radioLinkUp" then Some ("/api/simulate/radio-restore", F64.zero)
  else None.

(** [runAlarmInject] against a running process: the JSON document carries the link and, for a
    failure, the fade, which must be finite to be encoded; a status that is no success is an
    error. *)
Definition runAlarmInject (r : Router) (now : time) (ctx : context) (alarmType link : string) (fadeDB : option float64)
    (w : World) : res responseBody * World :=
  match alarmInjections alarmType with
  | None => (Err [Anon "unknown alarm type"], w)
  | Some (endpoint, usual) =>
      let fade := if String.eqb endpoint radioFailureEndpoint then Some (default usual fadeDB) else None in
      if negb (match fade with Some f => F64.is_finite f | None => true end) then (Err [Anon "encode request"], w)
      else
        let '(resp, w) := radio_request r now ctx link fade w in
        if (rs_status resp <? 200)%Z || (299 <? rs_status resp)%Z then (Err [Anon "inject"], w)
        else (Ok (rs_body resp), w)
  end.

(** The three types on the booted device: each command leaves the link in the state it names
    and prints it, and an unknown type does nothing. *)
Example injected_alarms :
  let down := runAlarmInject default_router 3 true "radioLinkDown" "" None started in
  let up := runAlarmInject default_router 4 true "radioLinkUp" "" None down.2 in
  let degraded := runAlarmInject default_router 5 true "radioLinkDegraded" "" None up.2 in
  let answer st := Ok (Status [("status", "ok"); ("link", ""); ("state", st)]) in
  down.1 = answer "down" ∧ up.1 = answer "up" ∧ degraded.1 = answer "degraded" ∧
  (runAlarmInject default_router 6 true "radioLinkLost" "" None started).1 = Err [Anon "unknown alarm type"].
Proof. vm_compute. done. Qed.
